(* ===== verification/_CoqProject ===== *)
-Q . S2P
Prelude.v
CInt.v
Format.v
Arith.v
MathHeader.v
Consts.v
Cordic.v
Transc.v
Convert.v
Names.v
Emit.v
Loop.v
Main.v
Units.v
Link.v
