(* ===== verification/Prelude.v ===== *)
(** * openfixedpoint: a verification development for the Qm.n generators

    The repository holds two Python generators.  Each takes a format
    (m integer bits, n fractional bits, one sign bit) and writes C source
    for it:

    - [src/scripts/generate_headers.py] writes the arithmetic header
      ([q<m>_<n>_add], [_sub], [_mul], [_div], [_from_double],
      [_to_double]) after choosing the storage, unsigned and wide C types
      from [m + n + 1];
    - [src/scripts/generate_math_headers.py] writes the math header (the
      constants [PI], [E], [ONE], [HALF], [MAX], [MIN], and [abs], [min],
      [max], [clamp], [floor], [ceil], [round], [trunc]) and the C file with
      the CORDIC tables, [cordic_rotate], [cordic_vector], [sin], [cos],
      [tan], [atan2], [atan], [sqrt], [exp2], [exp], [log2], [log], [pow].

    What the program computes is therefore the meaning of the C text it
    emits, as a function of (m, n).  The development models that meaning:
    the choices the Python code makes (types, table lengths, constants
    evaluated in Python) and, for every emitted C function, its value on
    every input, including the inputs on which ISO C leaves the behaviour
    undefined.  It also models the scripts as programs: the names they
    form, the directories and files their [main] functions create, the
    lines they print, and the generated files as sequences of
    preprocessor lines and declarations.

    ** Files

    - [Prelude] (this file): the outcome type [res] (a value, or the
      [fault] that stops the computation) with its bind notation, the
      outcome [pyres] of a Python expression (a value or an exception),
      the loops [for_loop] and [while_loop] with their proof rules
      ([for_loop_inv], [while_loop_variant], [while_loop_starved],
      [while_loop_fuel_mono]), the two's-complement wrap functions
      [uwrap] and [swrap], the lemmas on powers of two, shifts, masks and
      the integer grid every component uses, the tactics [pow2_facts],
      [res_inv] and [closed_Z], and the hint databases [wrapdb] (Resolve)
      and [wrap_rw] (Rewrite).
    - [CInt]: the fragment of C integer semantics the emitted code needs.
      A C integer type is [ity] (signedness and width); an integer value
      carries its type ([cval]).  [promote] is the integer promotion,
      [uac] the usual arithmetic conversion, [cast] the conversion between
      integer types, and [c_add], [c_sub], [c_mul], [c_div], [c_neg],
      [c_not], [c_and], [c_shl], [c_shr] evaluate one C operator, returning
      [Err] with the kind of undefined behaviour where ISO C has one
      (signed overflow, shift count out of range, left shift of a negative
      or overflowing value, division by zero).  The class [Dialect] is the
      interface between the C fragment and its clients: it says whether
      signed [<<] is strict (ISO C, instance [iso_c]) or wraps (GCC's
      documented extension, instance [gnu_c]); client theorems are stated
      for every dialect unless they name one.  The tactics [c_start],
      [c_eval], [c_case] and [c_done] evaluate an emitted function
      symbolically, discharging the range conditions with [lia].
    - [Format]: [generate_header] is the type choice of
      generate_headers.py (lines 5-53), [base_type] the one of
      generate_math_headers.py (lines 12-24, repeated at 138-150);
      [header] is the record of the values the text is filled with;
      [wf_header] is what the selector promises to the components that
      use a header.
    - [Arith]: the macros and the four inline functions of
      generate_headers.py lines 73-106 ([WRAP], [WRAP_cpp], [FIXP_ONE],
      [FIXP_MAX], [FIXP_MIN], [q_add], [q_sub], [q_mul], [q_div]), with
      their abstract specification in Z: wrap-around of the exact sum,
      difference, rounded product and truncated quotient.  [WRAP] is
      the branch of C (line 78, a cast) and the functions are stated
      with it; [WRAP_cpp] is the branch of C++ (line 76, a list
      initialisation that may not narrow).
    - [MathHeader]: the constants and the inline functions of
      generate_math_headers.py lines 38-94 ([Q_ONE], [Q_HALF], [Q_MAX],
      [Q_MIN], [q_abs], [q_min], [q_max], [q_clamp], [q_floor], [q_ceil],
      [q_round], [q_trunc]).
    - [Consts]: the constants that are computed in floating point.  A
      [double] is a dyadic pair (mantissa, exponent); the products the
      code forms are with powers of two and are exact, so that the
      conversion to an integer is the truncation of an exact value.
      [Q_PI] and [Q_E] are the macros of lines 41-42;
      [generate_cordic_tables] and [generate_cordic_c_file] are the
      Python functions of lines 121-165, with [atan_pow2] the doubles
      [math.atan(2.0 ** -i)] for i < 32.  The class [CordicTable] is the
      contract between the generated table and the CORDIC engine; the
      instances [Q7_8_table] and [Q15_16_table] discharge it for two
      formats of [main].
    - [Cordic]: [cordic_rotate], [cordic_vector], [sin], [cos], [tan],
      [atan2], [atan] of lines 168-282, with an integer specification of
      the iteration ([cordic_run], [rot_step], [vec_step]) and of the
      range reduction ([reduce_mod]).
    - [Transc]: [sqrt], [exp2], [exp], [log2], [log], [pow] of lines
      284-380, with their integer specifications ([sqrt_raw], [exp2_raw],
      [log2_raw]).
    - [Convert]: [from_double] and [to_double] of generate_headers.py
      lines 108-114.  Double arithmetic is exact arithmetic on dyadic
      pairs followed by [round53], the rounding to 53 significant bits,
      to nearest, ties to even; the argument of [from_double] is finite,
      infinite or not a number ([cdouble]).  Pairs with the same
      value are related by [dbl_equiv], an equivalence that
      [dbl_trunc] and [c_of_double] respect ([Proper] instances).
    - [Names]: the strings the scripts form.  [str] is the f-string
      formatting of an [int]; [header_names] is the file name, include
      guard, type name and macro prefix of generate_headers.py lines
      40-50, with and without [filename_override]; [math_guard],
      [math_type_name], [math_header_name], [math_impl_name] and
      [cordic_k_name] are the names of generate_math_headers.py (lines
      26, 13, 402, 408 and 160).  Paths: [path_join] is [os.path.join],
      [Path], [pp_parent], [pp_div] and [pp_str] are the [pathlib]
      operations of line 385, [resolve] gives the components of a
      path from the root.
    - [Emit]: the world the scripts act on ([world]: working directory,
      set of directories, map from paths to file contents, printed
      lines), the monad [io] of an action that returns or raises and
      changes the world, the loop [for_each] over a list of formats
      (line 399), and the library calls: [os_makedirs], [open_write]
      (generate_headers.py lines 128 and 123-124), [Path_mkdir],
      [Path_write_text] and [print] (generate_math_headers.py lines 386,
      403 and 404).  [wf_world] is the invariant of a file system.
    - [Loop]: the class [Emitter], the contract of a generator for one
      format (what it writes and prints where it does not raise, that it
      keeps [wf_world] and creates no directory), and what [for_each]
      over an emitter leaves in the world, proved once for both
      scripts.
    - [Main]: [generate_header_io] (generate_headers.py lines 5-124 with
      their effects), [main] (lines 126-148), [math_emit] (the body of
      the loop, generate_math_headers.py lines 399-410) and [math_main]
      (lines 384-410); the instances [header_emitter] and
      [math_emitter] of the contract.
    - [Units]: the three templates line by line ([arith_header_items],
      generate_headers.py lines 55-121; [math_header_items] and
      [cordic_impl_items], generate_math_headers.py lines 26-118 and
      156-381): each directive, typedef, macro, prototype, function and
      object is one [item] with its name, the replacement text of a
      macro and the names a declaration mentions.  [pp] is the
      preprocessor on items, [compiles] what is checked of a
      translation unit.
    - [Link]: the files the two [main] functions leave in the world as
      translation units.

    ** Modelling conventions

    - A raw value of the type [q<m>_<n>_t] is a [Z] in the range of the
      storage type; the functions take and return raw values.  Inside a
      function every C operator is one call of [CInt], in the order the
      C expression evaluates, so that promotion to [int], conversion on
      assignment and undefined behaviour appear where C has them.
    - [int] is 32 bits, [long long] 64 bits, [__int128_t] 128 bits (the
      LP64 targets the headers are written for, since they use
      [__int128_t]).
    - Implementation-defined behaviour is fixed as GCC and Clang document
      it: conversion to a signed type wraps modulo 2^width, [>>] of a
      negative value is an arithmetic shift.
    - The C++ branch of [WRAP] follows the rule of list initialisation
      (dcl.init.list): the conversion is ill-formed when the type of the
      argument has a value the target type has not, unless the argument
      is a constant expression whose value fits.
    - Undefined behaviour is a value: [Err SignedOverflow],
      [Err ShiftCount], [Err ShiftNegative], [Err ShiftOverflow],
      [Err DivByZero], [Err ConvRange], [Err OutOfBounds].
    - A [for] loop with a constant bound is [for_loop], structural on
      the number of rounds.  A [while] loop is [while_loop] and takes
      fuel; [Err OutOfFuel] is not a C behaviour, it is the answer of a
      loop whose fuel is exhausted.  Every theorem that says a function
      with a loop returns gives the fuel that is enough: more than
      [|a| / (2 PI) + 1] for the range reduction of [sin] and [cos]
      (each round moves the angle by [2 PI]), more than the number of
      bits of [x] for the scans of [sqrt] and [log2] (each round halves
      the value; the width of the type always suffices,
      [bit_length_width]).  [reduce_angle_starves] shows the first bound
      is tight.
    - Python strings are byte strings; formatting an [int] is stdpp's
      [pretty]; [str.upper] and [str.replace] act on ASCII.
    - A path of the world is the list of its components from the root.
      The file system is that of POSIX without symbolic links,
      permissions or [..] components; the library calls are modelled
      from their documented behaviour, with the exceptions they raise
      ([FileNotFoundError], [FileExistsError], [IsADirectoryError],
      [NotADirectoryError]) as values of [pyres].
    - The content of a written file is the template it was produced
      from with the values it was filled with ([content]); [items_of]
      gives its lines.  Of a function an [item] keeps the linkage, the
      name, the number of parameters and the names the text mentions;
      what the body computes is the subject of the numeric files.
    - The preprocessor knows [#ifndef], [#ifdef __cplusplus], [#else],
      [#endif], object-like and function-like [#define] and [#include].
      A macro may be defined again only with the same parameters and
      replacement list (C11 6.10.3); anything else is the error
      [MacroRedefined], although compilers only warn.  [fuel] in [pp]
      bounds the depth of inclusion: 1 for a file without a local
      [#include], 2 for an implementation file and its header.

    ** What the theorems show

    - Format: [generate_header] succeeds exactly when
      [m + n + 1 <= 64], chooses the smallest of 8, 16, 32, 64 bits that
      holds the format, and every header it returns satisfies
      [wf_header]; [base_type] agrees with it.
    - Arithmetic: [q_add] and [q_sub] never fault and return the wrapped
      exact result (a refinement of addition in Z modulo 2^width);
      [q_mul] returns the wrapped product rounded by adding half an ulp
      for 1 <= n <= 31, and faults for n = 0 (shift by -1) and n >= 32;
      [q_div] saturates on a zero divisor, returns the wrapped quotient
      truncated toward zero for a non-negative dividend, and for a
      negative dividend depends on the dialect (undefined in ISO C).
    - Math header: the rounding functions against their specification on
      the integer grid (multiples of 2^n), idempotence, and the inputs
      on which they differ from it: for negative values [floor] is one
      unit low, [ceil] is the floor, [round] floors [x - HALF], [trunc]
      rounds toward minus infinity.
    - Constants: [PI] and [E] are the truncated scaled literals when the
      format has two integer bits and are out of range without; the
      generated table satisfies [CordicTable] (length, bounds and
      monotonicity of the entries, the gain below [ONE]); its entries
      are truncated, not rounded, and for n > 16 it is longer than the
      array.
    - CORDIC: the rotation and vectoring loops refine the integer
      specification and never overflow ([cordic_rotate_safe]); the
      residual angle is bounded; the range reduction terminates with the
      angle in [-PI, PI]; [sin], [cos], [tan], [atan2] and [atan] are
      the specification of the reduced angle.  The concrete formats show
      where that specification is not the function of the name:
      [sin(PI)], [atan2] on the left half plane, the 32-bit shift of
      [tan].
    - Transcendental: [sqrt] is four Newton rounds and never below the
      integer root; [exp2] is a quadratic approximation within the
      binade of the exact result, exact at integers, saturating above
      and undefined for negative integer parts down to [-n]; [log2] is
      the position of the highest bit plus a linear term, exact at
      powers of two and undefined below [ONE] in ISO C; [pow] with base
      two is [exp2]; [exp 0] is [ONE] and [log ONE] is 0.
    - Conversions: [from_double] rounds half away from zero while the
      double arithmetic is exact and is undefined outside the storage
      type; [to_double] is exact up to 32 bits of storage; the round
      trip [from_double (to_double a)] returns every raw value below
      [2^52] in magnitude, and loses larger ones; [to_double
      (from_double d)] has the value of [d] when [d] is a multiple of
      [2^-n]; the sum with one half
      is itself rounded, so that the double just below one half is
      converted to 1 for [n = 0].

    - Names: the names put into C code are identifiers exactly when
      neither [m] nor [n] is negative; the file names determine the
      format and the kind of file; with an override the guard is an
      identifier only for names of letters, digits, underscores and
      dots, and an absolute override leaves the output directory.
    - Emission: one call of [generate_header] writes exactly one file
      and changes nothing when it raises; [main] of either script,
      started where nothing is in the way, returns and leaves every
      file of its list with the values computed for it
      ([main_generates], [math_main_generates]); running [main] again
      changes nothing; both keep [wf_world] in every world.  A format
      with a negative [n] leaves a header without implementation
      ([math_emit_partial]) and stops the loop ([math_loop_stops]).
    - Translation units: a generated header included twice is included
      once ([include_guard]); the prototypes of the math header are the
      external functions of the implementation file
      ([prototypes_exported]); every implementation file [math_main]
      writes compiles with its header as C and as C++
      ([math_units_compile]); every header [main] writes compiles on
      its own, the one of Q16.16 only where [__int128_t] exists
      ([main_units_compile]); the two headers of one format redefine
      [ONE] when included together ([headers_conflict]); [ONE] of a
      format without an integer bit that fills its type is [MIN] in C
      and ill-formed in C++ ([FIXP_ONE_branches]).

    The theorems about functions are proved for every format at once:
    the section hypotheses are [base_type m n = Return bt] (or a
    well-formed header) and the bounds on [m] and [n] that the statement
    needs; the proofs split on the four storage widths and evaluate.
    The lemmas named [<theorem>_witness] instantiate them at Q7.8, and
    those about the world at a repository in [/repo].

    ** Not modelled

    - The exponent range of binary64 (overflow to infinity, subnormal
      results): the two conversions multiply and divide by [2^n] with
      [0 <= n < 64], where it does not change a result.
    - The text of the generated files character by character: a file
      is the list of its lines as [item]s, without comments and blank
      lines, and without the text of the function bodies, which the
      numeric files model as functions.
    - Expansion of macros in the preprocessor, redefinition of a
      typedef, and linking of several translation units.
    - Symbolic links, permissions, relative paths with [..], and
      failures of the operating system other than the four exceptions
      above.
    - The guards [if __name__ == "__main__"] (lines 150-151 and
      412-413), which only call [main].
    - The accuracy of the results against the real functions: the
      theorems relate the code to integer specifications and bound
      them.

    ** Plan

    Next: a tighter bound on the CORDIC coordinates (the gain times the
    magnitude, instead of the linear bound [bound_after_linear]) and the
    convergence domain of the rotation; the error of [sqrt_raw] after
    four rounds as a function of the seed; monotonicity of [round53]
    and of the two conversions. *)

From Stdlib Require Import ZArith Lia Bool List.
Import ListNotations.
#[local] Open Scope Z_scope.

(** * Outcomes of a computation *)

(** The kinds of undefined behaviour the emitted C can reach, and the
    exhaustion of a loop's fuel in the model. *)
Inductive fault : Type :=
| SignedOverflow
| ShiftCount
| ShiftNegative
| ShiftOverflow
| DivByZero
| ConvRange
| OutOfBounds
| OutOfFuel.

Inductive res (A : Type) : Type :=
| Ok (a : A)
| Err (f : fault).

Arguments Ok {A} a.
Arguments Err {A} f.

Definition bind {A B : Type} (c : res A) (k : A -> res B) : res B :=
  match c with
  | Ok a => k a
  | Err f => Err f
  end.

Definition ret {A : Type} (a : A) : res A := Ok a.

Definition res_map {A B : Type} (g : A -> B) (c : res A) : res B :=
  bind c (fun a => ret (g a)).

Definition is_ok {A : Type} (c : res A) : bool :=
  match c with Ok _ => true | Err _ => false end.

(** [ensures P c]: if [c] returns, its value satisfies [P]. *)
Definition ensures {A : Type} (P : A -> Prop) (c : res A) : Prop :=
  match c with Ok a => P a | Err _ => True end.

Declare Scope res_scope.
Delimit Scope res_scope with res.
Notation "x <- c ;; k" := (bind c (fun x => k))
  (at level 100, c at next level, right associativity) : res_scope.

Definition fault_eq_dec (a b : fault) : {a = b} + {a <> b}.
Proof. decide equality. Defined.

(** * Loops *)

(** [for (int i = i0; i < i0 + k; i++) s = body(i, s);] : the body runs
    [k] times, on the successive values of the counter. *)
Fixpoint for_loop {S : Type} (k : nat) (i : Z) (body : Z -> S -> res S) (s : S)
  : res S :=
  match k with
  | O => ret s
  | Datatypes.S k' => (s' <- body i s ;; for_loop k' (i + 1) body s')%res
  end.

(** [while (cond(s)) s = body(s);] : [fuel] bounds the number of tests
    of the condition; a loop that has not left by then is [OutOfFuel]. *)
Fixpoint while_loop {S : Type} (fuel : nat) (cond : S -> res bool)
  (body : S -> res S) (s : S) : res S :=
  match fuel with
  | O => Err OutOfFuel
  | Datatypes.S f =>
      (b <- cond s ;;
       if b : bool then s' <- body s ;; while_loop f cond body s' else ret s)%res
  end.

(** * Outcomes of the Python generators *)

(** A generator function returns a value or raises.  The last four are
    the [OSError]s of [os.makedirs], [Path.mkdir] and [open]. *)
Inductive pyexn : Type :=
| ValueError
| OverflowError
| FileNotFoundError
| FileExistsError
| IsADirectoryError
| NotADirectoryError.

Inductive pyres (A : Type) : Type :=
| Return (a : A)
| Raise (e : pyexn).

Arguments Return {A} a.
Arguments Raise {A} e.

Definition pybind {A B : Type} (c : pyres A) (k : A -> pyres B) : pyres B :=
  match c with
  | Return a => k a
  | Raise e => Raise e
  end.

Declare Scope py_scope.
Delimit Scope py_scope with py.
Notation "x <- c ;; k" := (pybind c (fun x => k))
  (at level 100, c at next level, right associativity) : py_scope.

(** A list comprehension or an appending loop whose body can raise. *)
Fixpoint py_map {A B : Type} (f : A -> pyres B) (l : list A) : pyres (list B) :=
  match l with
  | [] => Return []
  | a :: l' => (b <- f a ;; bs <- py_map f l' ;; Return (b :: bs))%py
  end.

(** Python's [1 << n] on unbounded integers: a negative count raises
    [ValueError]. *)
Definition py_shl (z n : Z) : pyres Z :=
  if n <? 0 then Raise ValueError else Return (Z.shiftl z n).

(** Python's [float(z)] for a power of two [z = 2 ^ n]: exact below
    [2 ^ 1024], [OverflowError] from there on. *)
Definition py_float_pow2 (n : Z) : pyres Z :=
  if 1024 <=? n then Raise OverflowError else Return (2 ^ n).

(** * Two's complement *)

(** [uwrap w z] is the value of [z] converted to an unsigned type of
    [w] bits, [swrap w z] to a signed type of [w] bits. *)
Definition uwrap (w z : Z) : Z := z mod 2 ^ w.

Definition swrap (w z : Z) : Z :=
  (z + 2 ^ (w - 1)) mod 2 ^ w - 2 ^ (w - 1).

Definition smin (w : Z) : Z := - 2 ^ (w - 1).
Definition smax (w : Z) : Z := 2 ^ (w - 1) - 1.
Definition umax (w : Z) : Z := 2 ^ w - 1.

Definition in_srange (w z : Z) : Prop := smin w <= z <= smax w.
Definition in_urange (w z : Z) : Prop := 0 <= z <= umax w.

Definition in_srangeb (w z : Z) : bool := (smin w <=? z) && (z <=? smax w).
Definition in_urangeb (w z : Z) : bool := (0 <=? z) && (z <=? umax w).

(** Truncation toward minus infinity to a multiple of [2 ^ n]: what
    masking with [~(2^n - 1)] computes. *)
Definition grid_floor (n z : Z) : Z := 2 ^ n * (z / 2 ^ n).

(** * Tactics *)

(** Adds [0 < 2 ^ e] for every power of two in the goal or context whose
    exponent [lia] can show non-negative. *)
Ltac pow2_facts :=
  repeat match goal with
  | |- context [2 ^ ?e] =>
      lazymatch goal with
      | _ : 0 < 2 ^ e |- _ => fail
      | _ => assert (0 < 2 ^ e) by (apply Z.pow_pos_nonneg; lia)
      end
  | _ : context [2 ^ ?e] |- _ =>
      lazymatch goal with
      | _ : 0 < 2 ^ e |- _ => fail
      | _ => assert (0 < 2 ^ e) by (apply Z.pow_pos_nonneg; lia)
      end
  end.

(** Evaluates the arithmetic on literals that appears once the widths of a
    header are known ([2 * 8], [Z.max 32 16], [2 ^ 15], ...). *)
Ltac fold_consts_in_goal :=
  repeat match goal with
  | |- context [?op ?a ?b] =>
      lazymatch op with
      | Z.max => idtac | Z.min => idtac | Z.mul => idtac | Z.add => idtac
      | Z.sub => idtac | Z.pow => idtac
      end;
      lazymatch isZcst a with true => idtac end;
      lazymatch isZcst b with true => idtac end;
      let v := eval vm_compute in (op a b) in change (op a b) with v
  | |- context [Z.opp (Zpos ?p)] =>
      lazymatch isZcst (Zpos p) with true => idtac end;
      change (Z.opp (Zpos p)) with (Zneg p)
  end.

Ltac fold_consts_in H :=
  repeat match type of H with
  | context [?op ?a ?b] =>
      lazymatch op with
      | Z.max => idtac | Z.min => idtac | Z.mul => idtac | Z.add => idtac
      | Z.sub => idtac | Z.pow => idtac
      end;
      lazymatch isZcst a with true => idtac end;
      lazymatch isZcst b with true => idtac end;
      let v := eval vm_compute in (op a b) in change (op a b) with v in H
  | context [Z.opp (Zpos ?p)] =>
      lazymatch isZcst (Zpos p) with true => idtac end;
      change (Z.opp (Zpos p)) with (Zneg p) in H
  end.

Ltac fold_consts :=
  fold_consts_in_goal;
  repeat match goal with
  | H : context [?op ?a ?b] |- _ =>
      lazymatch op with
      | Z.max => idtac | Z.min => idtac | Z.mul => idtac | Z.add => idtac
      | Z.sub => idtac | Z.pow => idtac
      end;
      lazymatch isZcst a with true => idtac end;
      lazymatch isZcst b with true => idtac end;
      progress fold_consts_in H
  end.

(** Inverts hypotheses of the form [bind c k = Ok v], [Ok a = Ok b],
    [Ok a = Err f]. *)
Ltac res_inv :=
  repeat match goal with
  | H : Ok _ = Ok _ |- _ => injection H as H; try subst
  | H : Ok _ = Err _ |- _ => discriminate H
  | H : Err _ = Ok _ |- _ => discriminate H
  | H : Err _ = Err _ |- _ => injection H as H; try subst
  | H : ret _ = Ok _ |- _ => unfold ret in H
  | H : bind ?c _ = Ok _ |- _ =>
      let E := fresh "E" in
      destruct c eqn:E; simpl in H; [ | discriminate H ]
  end.

(** Decides a closed statement built from comparisons of integers by
    evaluation. *)
Ltac closed_Z :=
  vm_compute; repeat split;
  first [ reflexivity | discriminate | intros; discriminate ].

Create HintDb wrapdb.
Create Rewrite HintDb wrap_rw.

(** * Lemmas on outcomes *)

Section ResLaws.
Context {A B C : Type}.

Lemma bind_ret_l (a : A) (k : A -> res B) : bind (ret a) k = k a.
  Proof. reflexivity. Qed.

Lemma bind_ret_r (c : res A) : bind c ret = c.
  Proof. destruct c; reflexivity. Qed.

Lemma bind_assoc (c : res A) (k : A -> res B) (h : B -> res C) :
    bind (bind c k) h = bind c (fun a => bind (k a) h).
  Proof. destruct c; reflexivity. Qed.

Lemma bind_Ok_inv (c : res A) (k : A -> res B) (b : B) :
    bind c k = Ok b -> exists a, c = Ok a /\ k a = Ok b.
  Proof. destruct c; simpl; intros H; [ eauto | discriminate ]. Qed.

Lemma bind_Err (f : fault) (k : A -> res B) : bind (Err f) k = Err f.
  Proof. reflexivity. Qed.

Lemma ensures_Ok (P : A -> Prop) (c : res A) (a : A) :
  ensures P c -> c = Ok a -> P a.
Proof. intros H ->. exact H. Qed.

Lemma ensures_bind (P : B -> Prop) (c : res A) (k : A -> res B) :
  (forall a, c = Ok a -> ensures P (k a)) -> ensures P (bind c k).
Proof. destruct c; cbn; intros H; [ apply H; reflexivity | exact I ]. Qed.

Lemma is_ok_true (c : res A) : is_ok c = true <-> exists a, c = Ok a.
  Proof.
    destruct c; simpl; split; intros H; eauto; try discriminate.
    destruct H as [a H]; discriminate.
  Qed.
End ResLaws.

Lemma py_shl_one (n : Z) : 0 <= n -> py_shl 1 n = Return (2 ^ n).
Proof.
  intros Hn. unfold py_shl. destruct (Z.ltb_spec n 0); [ lia | ].
  rewrite Z.shiftl_mul_pow2, Z.mul_1_l by lia. reflexivity.
Qed.

Lemma py_shl_neg (z n : Z) : n < 0 -> py_shl z n = Raise ValueError.
Proof. intros Hn. unfold py_shl. destruct (Z.ltb_spec n 0); [ reflexivity | lia ]. Qed.

Lemma py_float_pow2_ok (n : Z) : n < 1024 -> py_float_pow2 n = Return (2 ^ n).
Proof. intros Hn. unfold py_float_pow2. destruct (Z.leb_spec 1024 n); [ lia | reflexivity ]. Qed.

(** * Checking a property on an interval by evaluation *)

Lemma forall_below (P : Z -> Prop) (Pb : Z -> bool) (N : nat) :
  (forall z, Pb z = true -> P z) ->
  forallb (fun k => Pb (Z.of_nat k)) (seq 0 N) = true ->
  forall z, 0 <= z < Z.of_nat N -> P z.
Proof.
  intros Hb Hall z Hz. apply Hb. rewrite forallb_forall in Hall.
  rewrite <- (Z2Nat.id z) by lia. apply Hall, in_seq. lia.
Qed.

(** * Lemmas on loops *)

Section Loops.
Context {S : Type}.
Variable body : Z -> S -> res S.

Lemma for_loop_app (j k : nat) (i : Z) (s : S) :
  for_loop (j + k) i body s =
  bind (for_loop j i body s) (for_loop k (i + Z.of_nat j) body).
Proof.
  revert i s. induction j as [|j IH]; intros i s.
  - cbn [for_loop Nat.add bind ret]. f_equal. cbn. lia.
  - replace (i + Z.of_nat (Datatypes.S j)) with (i + 1 + Z.of_nat j) by lia.
    cbn [for_loop Nat.add]. destruct (body i s) as [s'|f]; cbn [bind]; [ | reflexivity ].
    apply IH.
Qed.

(** The rule of the [for] loop: an invariant that every run of the body
    re-establishes holds at the end, and the loop returns. *)
Lemma for_loop_inv (I : Z -> S -> Prop) (k : nat) (i : Z) (s : S) :
  I i s ->
  (forall j t, i <= j < i + Z.of_nat k -> I j t ->
     exists t', body j t = Ok t' /\ I (j + 1) t') ->
  exists t, for_loop k i body s = Ok t /\ I (i + Z.of_nat k) t.
Proof.
  revert i s. induction k as [|k IH]; intros i s Hi Hstep.
  - exists s. split; [ reflexivity | ]. replace (i + Z.of_nat 0) with i by lia. exact Hi.
  - destruct (Hstep i s ltac:(lia) Hi) as (t' & E & Hi').
    destruct (IH (i + 1) t' Hi') as (t & Et & Ht).
    { intros j u Hj. apply Hstep. lia. }
    exists t. cbn [for_loop]. rewrite E. cbn [bind]. split; [ exact Et | ].
    replace (i + Z.of_nat (Datatypes.S k)) with (i + 1 + Z.of_nat k) by lia. exact Ht.
Qed.

(** A fault of the body at a step the invariant reaches is the fault of
    the loop. *)
Lemma for_loop_fault (k : nat) (i : Z) (s : S) (f : fault) :
  (0 < k)%nat -> body i s = Err f -> for_loop k i body s = Err f.
Proof. intros Hk E. destruct k; [ lia | ]. cbn [for_loop]. rewrite E. reflexivity. Qed.

End Loops.

Section While.
Context {S : Type}.
Variable cond : S -> res bool.
Variable body : S -> res S.

(** The rule of the [while] loop: with an invariant [I] and a variant
    [v], a natural number that every run of the body decreases, the loop
    returns as soon as the fuel exceeds the variant, in a state where the
    invariant holds and the condition is false. *)
Lemma while_loop_variant (I : S -> Prop) (v : S -> Z) (fuel : nat) (s : S) :
  (forall t, I t -> 0 <= v t /\ exists b, cond t = Ok b /\
     (b = true -> exists t', body t = Ok t' /\ I t' /\ v t' < v t)) ->
  I s -> v s < Z.of_nat fuel ->
  exists t, while_loop fuel cond body s = Ok t /\ I t /\ cond t = Ok false /\
            v t <= v s.
Proof.
  intros Hstep. revert s. induction fuel as [|fuel IH]; intros s Hi Hv;
    destruct (Hstep s Hi) as (H0 & b & E & Hb); [ lia | ].
  cbn [while_loop]. rewrite E. cbn [bind]. destruct b.
  - destruct (Hb eq_refl) as (t' & Et & Hi' & Hd). rewrite Et. cbn [bind].
    destruct (IH t' Hi' ltac:(lia)) as (t & Ew & Ht & Hc & Hle).
    exists t. repeat split; try assumption; lia.
  - exists s. repeat split; try assumption; lia.
Qed.

(** More fuel does not change the result of a loop that returned. *)
Lemma while_loop_fuel_mono (f1 f2 : nat) (s t : S) :
  (f1 <= f2)%nat -> while_loop f1 cond body s = Ok t ->
  while_loop f2 cond body s = Ok t.
Proof.
  revert f2 s. induction f1 as [|f1 IH]; intros f2 s Hle E; [ discriminate E | ].
  destruct f2 as [|f2]; [ lia | ]. cbn [while_loop] in *.
  destruct (cond s) as [[|]|e]; cbn [bind] in *; try assumption.
  destruct (body s) as [s'|e]; cbn [bind] in *; [ | discriminate E ].
  apply IH; [ lia | exact E ].
Qed.

(** A loop whose body must still run at least [fuel] times runs out of
    fuel. *)
Lemma while_loop_starved (I : S -> Prop) (v : S -> Z) (fuel : nat) (s : S) :
  (forall t, I t -> 0 < v t ->
     cond t = Ok true /\ exists t', body t = Ok t' /\ I t' /\ v t - 1 <= v t') ->
  I s -> Z.of_nat fuel <= v s ->
  while_loop fuel cond body s = Err OutOfFuel.
Proof.
  intros Hstep. revert s. induction fuel as [|fuel IH]; intros s Hi Hv; [ reflexivity | ].
  destruct (Hstep s Hi ltac:(lia)) as (Ec & t' & Eb & Hi' & Hv').
  cbn [while_loop]. rewrite Ec. cbn [bind]. rewrite Eb. cbn [bind].
  apply IH; [ exact Hi' | lia ].
Qed.

End While.

(** * Lemmas on powers of two *)

Lemma pow2_pos (e : Z) : 0 <= e -> 0 < 2 ^ e.
Proof. intros. apply Z.pow_pos_nonneg; lia. Qed.

Lemma pow2_double (w : Z) : 0 < w -> 2 ^ w = 2 * 2 ^ (w - 1).
Proof. intros. rewrite <- Z.pow_succ_r by lia. f_equal. lia. Qed.

Lemma pow2_le_mono (a b : Z) : 0 <= a <= b -> 2 ^ a <= 2 ^ b.
Proof. intros. apply Z.pow_le_mono_r; lia. Qed.

Lemma pow2_lt_mono (a b : Z) : 0 <= a < b -> 2 ^ a < 2 ^ b.
Proof. intros. apply Z.pow_lt_mono_r; lia. Qed.

Lemma pow2_add (a b : Z) : 0 <= a -> 0 <= b -> 2 ^ (a + b) = 2 ^ a * 2 ^ b.
Proof. intros. apply Z.pow_add_r; lia. Qed.

#[export] Hint Resolve pow2_pos pow2_le_mono pow2_lt_mono : wrapdb.

(** * Lemmas on wrap-around *)

Section Wrap.
Variable w : Z.
Hypothesis Hw : 0 < w.

Lemma uwrap_range (z : Z) : in_urange w (uwrap w z).
  Proof.
    unfold in_urange, uwrap, umax.
    pose proof (Z.mod_pos_bound z (2 ^ w) (pow2_pos w ltac:(lia))). lia.
  Qed.

Lemma uwrap_small (z : Z) : in_urange w z -> uwrap w z = z.
  Proof. unfold in_urange, uwrap, umax. intros. apply Z.mod_small. lia. Qed.

Lemma swrap_range (z : Z) : in_srange w (swrap w z).
  Proof.
    unfold in_srange, swrap, smin, smax. pose proof (pow2_double w Hw).
    pose proof (Z.mod_pos_bound (z + 2 ^ (w - 1)) (2 ^ w) (pow2_pos w ltac:(lia))).
    lia.
  Qed.

Lemma swrap_small (z : Z) : in_srange w z -> swrap w z = z.
  Proof.
    unfold in_srange, swrap, smin, smax. intros Hz.
    pose proof (pow2_double w Hw). rewrite Z.mod_small by lia. lia.
  Qed.

Lemma swrap_idem (z : Z) : swrap w (swrap w z) = swrap w z.
  Proof. apply swrap_small, swrap_range. Qed.

Lemma swrap_eqm (z : Z) : swrap w z mod 2 ^ w = z mod 2 ^ w.
  Proof.
    unfold swrap. pose proof (pow2_pos w ltac:(lia)).
    rewrite Zminus_mod_idemp_l. f_equal. lia.
  Qed.

Lemma swrap_congr (a b : Z) : a mod 2 ^ w = b mod 2 ^ w -> swrap w a = swrap w b.
  Proof.
    unfold swrap. intros H.
    rewrite <- (Zplus_mod_idemp_l a), H, Zplus_mod_idemp_l. reflexivity.
  Qed.

Lemma swrap_uwrap (z : Z) : swrap w (uwrap w z) = swrap w z.
  Proof. apply swrap_congr. unfold uwrap. apply Z.mod_mod. pose proof (pow2_pos w); lia. Qed.

Lemma uwrap_swrap (z : Z) : uwrap w (swrap w z) = uwrap w z.
  Proof. apply swrap_eqm. Qed.

Lemma swrap_add_period (z k : Z) : swrap w (z + k * 2 ^ w) = swrap w z.
  Proof. apply swrap_congr. apply Z_mod_plus_full. Qed.

Lemma swrap_add_l (a b : Z) : swrap w (swrap w a + b) = swrap w (a + b).
  Proof. apply swrap_congr. rewrite <- Zplus_mod_idemp_l, swrap_eqm, Zplus_mod_idemp_l. reflexivity. Qed.

Lemma swrap_add_r (a b : Z) : swrap w (a + swrap w b) = swrap w (a + b).
  Proof. rewrite Z.add_comm, swrap_add_l. f_equal. lia. Qed.

Lemma swrap_sub_l (a b : Z) : swrap w (swrap w a - b) = swrap w (a - b).
  Proof. unfold Z.sub. apply swrap_add_l. Qed.

Lemma swrap_sub_r (a b : Z) : swrap w (a - swrap w b) = swrap w (a - b).
  Proof. apply swrap_congr. rewrite <- Zminus_mod_idemp_r, swrap_eqm, Zminus_mod_idemp_r. reflexivity. Qed.

Lemma swrap_mul_l (a b : Z) : swrap w (swrap w a * b) = swrap w (a * b).
  Proof. apply swrap_congr. rewrite <- Zmult_mod_idemp_l, swrap_eqm, Zmult_mod_idemp_l. reflexivity. Qed.

Lemma swrap_opp (a : Z) : swrap w (- swrap w a) = swrap w (- a).
  Proof. replace (- swrap w a) with (0 - swrap w a) by lia. rewrite swrap_sub_r. f_equal. Qed.

  (** The successor of the largest value is the smallest one. *)
Lemma swrap_smax_succ : swrap w (smax w + 1) = smin w.
  Proof.
    unfold swrap, smax, smin. pose proof (pow2_double w Hw).
    replace (2 ^ (w - 1) - 1 + 1 + 2 ^ (w - 1)) with (1 * 2 ^ w) by lia.
    rewrite Z_mod_mult. lia.
  Qed.

Lemma swrap_smin_pred : swrap w (smin w - 1) = smax w.
  Proof.
    unfold swrap, smax, smin. pose proof (pow2_double w Hw).
    pose proof (pow2_pos (w - 1) ltac:(lia)).
    replace (- 2 ^ (w - 1) - 1 + 2 ^ (w - 1)) with (2 ^ w - 1 + (-1) * 2 ^ w) by lia.
    rewrite Z_mod_plus_full, Z.mod_small by lia. lia.
  Qed.

Lemma swrap_opp_smin : swrap w (- smin w) = smin w.
  Proof.
    unfold swrap, smin. pose proof (pow2_double w Hw).
    replace (- - 2 ^ (w - 1) + 2 ^ (w - 1)) with (1 * 2 ^ w) by lia.
    rewrite Z_mod_mult. lia.
  Qed.

  (** Wrapping a value moves it by a multiple of [2 ^ w]. *)
Lemma swrap_decomp (z : Z) : exists k, swrap w z = z + k * 2 ^ w.
  Proof.
    exists (- ((z + 2 ^ (w - 1)) / 2 ^ w)). unfold swrap.
    pose proof (pow2_pos w ltac:(lia)).
    pose proof (Z.div_mod (z + 2 ^ (w - 1)) (2 ^ w) ltac:(lia)). lia.
  Qed.

Lemma in_srangeb_spec (z : Z) : in_srangeb w z = true <-> in_srange w z.
  Proof. unfold in_srangeb, in_srange. rewrite andb_true_iff, !Z.leb_le. tauto. Qed.

Lemma in_urangeb_spec (z : Z) : in_urangeb w z = true <-> in_urange w z.
  Proof. unfold in_urangeb, in_urange. rewrite andb_true_iff, !Z.leb_le. tauto. Qed.

Lemma in_srangeb_false (z : Z) : in_srangeb w z = false <-> ~ in_srange w z.
  Proof. rewrite <- in_srangeb_spec. destruct (in_srangeb w z); split; congruence. Qed.
End Wrap.

(** The unsigned detour of the emitted addition and subtraction. *)
Lemma swrap_uwrap_add (w a b : Z) :
  swrap w (uwrap w a + uwrap w b) = swrap w (a + b).
Proof. apply swrap_congr. unfold uwrap. symmetry. apply Zplus_mod. Qed.

Lemma swrap_uwrap_sub (w a b : Z) :
  swrap w (uwrap w a - uwrap w b) = swrap w (a - b).
Proof. apply swrap_congr. unfold uwrap. symmetry. apply Zminus_mod. Qed.

(** The product of two [w]-bit values fits in [2 * w] bits with room to
    spare. *)
Lemma mul_srange (w a b : Z) :
  0 < w -> in_srange w a -> in_srange w b ->
  - 2 ^ (2 * w - 2) < a * b <= 2 ^ (2 * w - 2).
Proof.
  unfold in_srange, smin, smax. intros Hw Ha Hb.
  replace (2 * w - 2) with ((w - 1) + (w - 1)) by lia.
  rewrite pow2_add by lia. pose proof (pow2_pos (w - 1) ltac:(lia)). nia.
Qed.

(** A [w]-bit value shifted left by fewer than [w] places fits in
    [2 * w] bits with room to spare. *)
Lemma shl_srange (w a n : Z) :
  0 < w -> in_srange w a -> 0 <= n < w ->
  - 2 ^ (2 * w - 2) <= a * 2 ^ n <= 2 ^ (2 * w - 2).
Proof.
  unfold in_srange, smin, smax. intros Hw Ha Hn.
  replace (2 * w - 2) with ((w - 1) + (w - 1)) by lia.
  rewrite pow2_add by lia. pose proof (pow2_pos (w - 1) ltac:(lia)).
  pose proof (pow2_pos n ltac:(lia)).
  pose proof (pow2_le_mono n (w - 1) ltac:(lia)). nia.
Qed.

(** Truncating division does not increase the magnitude. *)
Lemma quot_abs_le (x y : Z) : y <> 0 -> Z.abs (x ÷ y) <= Z.abs x.
Proof.
  intros Hy. rewrite <- Z.quot_abs by assumption.
  apply Z.quot_le_upper_bound; [ lia | ].
  assert (1 <= Z.abs y) by lia. nia.
Qed.

Lemma quot_range (x y lo hi : Z) :
  y <> 0 -> hi <= - lo -> lo <= x <= hi -> lo <= x ÷ y <= - lo.
Proof. intros Hy Hlh Hx. pose proof (quot_abs_le x y Hy). lia. Qed.

#[export] Hint Resolve swrap_range uwrap_range : wrapdb.
#[export] Hint Rewrite swrap_idem swrap_uwrap swrap_add_l swrap_add_r
  swrap_sub_l swrap_sub_r swrap_opp using lia : wrap_rw.
#[export] Hint Rewrite swrap_uwrap_add swrap_uwrap_sub : wrap_rw.

(** A value in the range of a narrow signed type is in the range of every
    wider one. *)
Lemma in_srange_weaken (w w' z : Z) :
  0 < w <= w' -> in_srange w z -> in_srange w' z.
Proof.
  unfold in_srange, smin, smax. intros Hw Hz.
  pose proof (pow2_le_mono (w - 1) (w' - 1) ltac:(lia)). lia.
Qed.

Lemma in_urange_srange (w w' z : Z) :
  0 <= w < w' -> in_urange w z -> in_srange w' z.
Proof.
  unfold in_urange, in_srange, umax, smin, smax. intros Hw Hz.
  pose proof (pow2_le_mono w (w' - 1) ltac:(lia)).
  pose proof (pow2_pos (w' - 1) ltac:(lia)). lia.
Qed.

(** * Lemmas on shifts and masks *)

Lemma shiftr_div (z n : Z) : 0 <= n -> Z.shiftr z n = z / 2 ^ n.
Proof. intros. apply Z.shiftr_div_pow2; lia. Qed.

Lemma shiftl_mul (z n : Z) : 0 <= n -> Z.shiftl z n = z * 2 ^ n.
Proof. intros. apply Z.shiftl_mul_pow2; lia. Qed.

(** An arithmetic right shift brings a value toward zero or to -1. *)
Lemma shiftr_range (x k lo hi : Z) :
  0 <= k -> lo <= 0 <= hi -> lo <= x <= hi -> lo <= Z.shiftr x k <= hi.
Proof.
  intros Hk H0 Hx. rewrite Z.shiftr_div_pow2 by lia.
  pose proof (pow2_pos k Hk).
  pose proof (Z.div_mod x (2 ^ k) ltac:(lia)).
  pose proof (Z.mod_pos_bound x (2 ^ k) ltac:(lia)). nia.
Qed.

(** The magnitude of a shifted value: at most the magnitude shifted,
    rounded up. *)
Lemma shiftr_abs_le (x k B : Z) :
  0 <= k -> - B <= x <= B ->
  - ((B + 2 ^ k - 1) / 2 ^ k) <= Z.shiftr x k <= B / 2 ^ k.
Proof.
  intros Hk Hx. rewrite Z.shiftr_div_pow2 by lia.
  pose proof (pow2_pos k Hk). split.
  - assert (- ((B + 2 ^ k - 1) / 2 ^ k) = (- B) / 2 ^ k) as ->.
    { pose proof (Z.div_mod (B + 2 ^ k - 1) (2 ^ k) ltac:(lia)).
      pose proof (Z.mod_pos_bound (B + 2 ^ k - 1) (2 ^ k) ltac:(lia)).
      apply (Z.div_unique_pos _ _ _ (2 ^ k - 1 - (B + 2 ^ k - 1) mod 2 ^ k)); lia. }
    apply Z.div_le_mono; lia.
  - apply Z.div_le_mono; lia.
Qed.

Lemma land_low_mask (z n : Z) : 0 <= n -> Z.land z (2 ^ n - 1) = z mod 2 ^ n.
Proof.
  intros. rewrite Z.sub_1_r, <- Z.ones_equiv. apply Z.land_ones; lia.
Qed.

Lemma lnot_low_mask (n : Z) : Z.lnot (2 ^ n - 1) = - 2 ^ n.
Proof. unfold Z.lnot. lia. Qed.

(** Wrapping to [w] bits keeps the [n] low bits, for [n <= w]. *)
Lemma swrap_mod_low (w n z : Z) :
  0 <= n <= w -> swrap w z mod 2 ^ n = z mod 2 ^ n.
Proof.
  intros Hn. destruct (Z.eq_dec w 0) as [-> | Hw0].
  - assert (n = 0) as -> by lia. rewrite !Z.mod_1_r. reflexivity.
  - destruct (swrap_decomp w ltac:(lia) z) as [k ->].
    replace w with (n + (w - n)) at 1 by lia. rewrite pow2_add by lia.
    replace (z + k * (2 ^ n * 2 ^ (w - n))) with (z + (k * 2 ^ (w - n)) * 2 ^ n) by lia.
    apply Z_mod_plus_full.
Qed.

(** Clearing the [n] low bits rounds down to a multiple of [2 ^ n]. *)
Lemma land_high_mask (z n : Z) :
  0 <= n -> Z.land z (Z.lnot (2 ^ n - 1)) = grid_floor n z.
Proof.
  intros Hn. unfold grid_floor.
  rewrite Z.sub_1_r, <- Z.ones_equiv.
  rewrite <- Z.ldiff_land, Z.ldiff_ones_r by lia.
  rewrite shiftr_div, shiftl_mul by lia. lia.
Qed.

Lemma grid_floor_le (n z : Z) : 0 <= n -> grid_floor n z <= z < grid_floor n z + 2 ^ n.
Proof.
  intros Hn. unfold grid_floor. pose proof (pow2_pos n Hn).
  pose proof (Z.div_mod z (2 ^ n) ltac:(lia)).
  pose proof (Z.mod_pos_bound z (2 ^ n) ltac:(lia)). lia.
Qed.

Lemma grid_floor_mod (n z : Z) : 0 <= n -> grid_floor n z = z - z mod 2 ^ n.
Proof.
  intros Hn. unfold grid_floor. pose proof (pow2_pos n Hn).
  pose proof (Z.div_mod z (2 ^ n) ltac:(lia)). lia.
Qed.

Lemma grid_floor_multiple (n k : Z) : 0 <= n -> grid_floor n (2 ^ n * k) = 2 ^ n * k.
Proof.
  intros Hn. unfold grid_floor. pose proof (pow2_pos n Hn).
  rewrite (Z.mul_comm (2 ^ n) k), Z.div_mul by lia. lia.
Qed.

Lemma grid_floor_idem (n z : Z) : 0 <= n -> grid_floor n (grid_floor n z) = grid_floor n z.
Proof. intros. unfold grid_floor at 2. apply grid_floor_multiple; lia. Qed.

Lemma grid_floor_add (n z k : Z) :
  0 <= n -> grid_floor n (z + 2 ^ n * k) = grid_floor n z + 2 ^ n * k.
Proof.
  intros Hn. unfold grid_floor. pose proof (pow2_pos n Hn).
  rewrite (Z.mul_comm (2 ^ n) k), Z.div_add by lia. lia.
Qed.

Lemma grid_floor_mono (n a b : Z) : 0 <= n -> a <= b -> grid_floor n a <= grid_floor n b.
Proof.
  intros Hn Hab. unfold grid_floor. pose proof (pow2_pos n Hn).
  apply Z.mul_le_mono_nonneg_l; [ lia | apply Z.div_le_mono; lia ].
Qed.

(** Masking with [-2^n], the complement of the low mask. *)
Lemma land_neg_pow2 (z n : Z) : 0 <= n -> Z.land z (- 2 ^ n) = grid_floor n z.
Proof. intros Hn. rewrite <- lnot_low_mask. apply land_high_mask, Hn. Qed.

(** A multiple of [2^n] below [z] is below the grid value under [z]. *)
Lemma grid_floor_lower (n z k : Z) :
  0 <= n -> 2 ^ n * k <= z -> 2 ^ n * k <= grid_floor n z.
Proof.
  intros Hn Hk. rewrite <- (grid_floor_multiple n k Hn).
  apply grid_floor_mono; assumption.
Qed.

Lemma smin_multiple (w n : Z) : 0 <= n < w -> smin w = 2 ^ n * (- 2 ^ (w - 1 - n)).
Proof.
  intros Hn. unfold smin. replace (w - 1) with (n + (w - 1 - n)) at 1 by lia.
  rewrite pow2_add by lia. lia.
Qed.

(** Rounding down to the grid stays in the range of the type. *)
Lemma grid_floor_srange (w n z : Z) :
  0 <= n < w -> in_srange w z -> in_srange w (grid_floor n z).
Proof.
  unfold in_srange. intros Hn [Hlo Hhi]. split.
  - rewrite (smin_multiple w n Hn) in *. apply grid_floor_lower; lia.
  - pose proof (grid_floor_le n z ltac:(lia)). lia.
Qed.

Lemma grid_floor_on_grid (n z : Z) : 0 <= n -> z mod 2 ^ n = 0 -> grid_floor n z = z.
Proof. intros Hn Hz. rewrite grid_floor_mod by assumption. lia. Qed.

Lemma grid_floor_off_grid (n z : Z) :
  0 <= n -> z mod 2 ^ n <> 0 -> grid_floor n z < z.
Proof.
  intros Hn Hz. rewrite grid_floor_mod by assumption.
  pose proof (Z.mod_pos_bound z (2 ^ n) (pow2_pos n Hn)). lia.
Qed.

#[export] Hint Rewrite grid_floor_idem grid_floor_multiple using lia : wrap_rw.
