(* ===== verification/CInt.v ===== *)
(** * CInt: the fragment of C integer semantics the emitted code uses

    Integer types ([ity]) and typed values ([cval]); integer promotion
    ([promote]), the usual arithmetic conversions ([uac]), conversion
    ([cast]); one function per C operator, returning the [fault] where
    ISO C leaves the behaviour undefined.  [Dialect] states how signed
    [<<] treats a negative or overflowing operand; [dialect_le] orders
    dialects by definedness, and every operator is monotone in it.

    Lemmas: the typing invariant [wt] and its preservation by every
    operator; the value of each operator under the side condition that
    makes it defined, and the fault it returns otherwise. *)

From Stdlib Require Import ZArith Lia Bool.
From S2P Require Import Prelude.
#[local] Open Scope Z_scope.
#[local] Open Scope res_scope.

(** * Types and values *)

Inductive ity : Type :=
| Int (w : Z)
| UInt (w : Z).

Definition int8_t : ity := Int 8.
Definition int16_t : ity := Int 16.
Definition int32_t : ity := Int 32.
Definition int64_t : ity := Int 64.
Definition int128_t : ity := Int 128.
Definition uint8_t : ity := UInt 8.
Definition uint16_t : ity := UInt 16.
Definition uint32_t : ity := UInt 32.
Definition uint64_t : ity := UInt 64.

(** [int] and [long long] on the LP64 targets. *)
Definition c_int : ity := Int 32.
Definition c_long_long : ity := Int 64.

Definition width (t : ity) : Z :=
  match t with Int w | UInt w => w end.

Definition is_signed (t : ity) : bool :=
  match t with Int _ => true | UInt _ => false end.

Definition ty_min (t : ity) : Z :=
  match t with Int w => smin w | UInt _ => 0 end.

Definition ty_max (t : ity) : Z :=
  match t with Int w => smax w | UInt w => umax w end.

Definition in_range (t : ity) (z : Z) : Prop := ty_min t <= z <= ty_max t.

Definition in_rangeb (t : ity) (z : Z) : bool :=
  (ty_min t <=? z) && (z <=? ty_max t).

(** Conversion of a mathematical value to an integer type: exact for a
    value in range, modulo [2 ^ width] otherwise. *)
Definition wrap (t : ity) (z : Z) : Z :=
  match t with Int w => swrap w z | UInt w => uwrap w z end.

Record cval : Type := CV { cty : ity; cv : Z }.

Definition wt (v : cval) : Prop := in_range (cty v) (cv v).

Definition ity_eq_dec (a b : ity) : {a = b} + {a <> b}.
Proof. decide equality; apply Z.eq_dec. Defined.

Definition cval_eq_dec (a b : cval) : {a = b} + {a <> b}.
Proof. decide equality; [ apply Z.eq_dec | apply ity_eq_dec ]. Defined.

(** * Conversions *)

(** Integer promotion: a type narrower than [int] becomes [int]. *)
Definition promote (t : ity) : ity :=
  if width t <? 32 then c_int else t.

(** Usual arithmetic conversion of two promoted types. *)
Definition uac (t1 t2 : ity) : ity :=
  match t1, t2 with
  | Int a, Int b => Int (Z.max a b)
  | UInt a, UInt b => UInt (Z.max a b)
  | Int a, UInt b => if a <=? b then UInt b else Int a
  | UInt b, Int a => if a <=? b then UInt b else Int a
  end.

Definition common (a b : cval) : ity :=
  uac (promote (cty a)) (promote (cty b)).

(** The width in which two signed operands of widths [wa] and [wb] are
    combined, and the width of a promoted signed operand. *)
Definition cw (wa wb : Z) : Z := Z.max 32 (Z.max wa wb).
Definition pw (wa : Z) : Z := Z.max 32 wa.

(** A cast, and the conversion of an assignment or a return. *)
Definition cast (t : ity) (v : cval) : cval := CV t (wrap t (cv v)).

(** Integer literals: [lit] has type [int], [litLL] type [long long]. *)
Definition lit (z : Z) : cval := CV c_int z.
Definition litLL (z : Z) : cval := CV c_long_long z.

(** The type of an unsuffixed decimal literal: [int] when the value
    fits, else [long]; a literal beyond [long long] is given the unsigned
    64-bit type, as GCC does. *)
Definition c_literal (z : Z) : cval :=
  if in_rangeb c_int z then CV c_int z
  else if in_rangeb c_long_long z then CV c_long_long z
  else CV uint64_t z.

(** * Operators *)

(** Result of an arithmetic operator in type [t]: undefined when the
    type is signed and the value does not fit, reduced when unsigned. *)
Definition fit (t : ity) (r : Z) : res cval :=
  match t with
  | Int _ => if in_rangeb t r then Ok (CV t r) else Err SignedOverflow
  | UInt _ => Ok (CV t (wrap t r))
  end.

Definition arith (op : Z -> Z -> Z) (a b : cval) : res cval :=
  let t := common a b in
  fit t (op (wrap t (cv a)) (wrap t (cv b))).

Definition c_add : cval -> cval -> res cval := arith Z.add.
Definition c_sub : cval -> cval -> res cval := arith Z.sub.
Definition c_mul : cval -> cval -> res cval := arith Z.mul.

Definition c_div (a b : cval) : res cval :=
  if wrap (common a b) (cv b) =? 0 then Err DivByZero
  else arith Z.quot a b.

Definition c_neg (a : cval) : res cval :=
  fit (promote (cty a)) (- cv a).

Definition c_not (a : cval) : cval :=
  let t := promote (cty a) in CV t (wrap t (Z.lnot (cv a))).

Definition c_and (a b : cval) : cval :=
  let t := common a b in
  CV t (Z.land (wrap t (cv a)) (wrap t (cv b))).

(** How the compiler treats a signed left shift whose operand is
    negative or whose result does not fit. *)
Class Dialect : Type := { signed_shl_wraps : bool }.

Definition iso_c : Dialect := {| signed_shl_wraps := false |}.
Definition gnu_c : Dialect := {| signed_shl_wraps := true |}.

Definition bad_count (t : ity) (c : Z) : bool :=
  (c <? 0) || (width t <=? c).

Definition c_shl {D : Dialect} (a k : cval) : res cval :=
  let t := promote (cty a) in
  let r := Z.shiftl (cv a) (cv k) in
  if bad_count t (cv k) then Err ShiftCount
  else match t with
       | UInt _ => Ok (CV t (wrap t r))
       | Int _ =>
           if signed_shl_wraps then Ok (CV t (wrap t r))
           else if cv a <? 0 then Err ShiftNegative
           else if in_rangeb t r then Ok (CV t r)
           else Err ShiftOverflow
       end.

Definition c_shr (a k : cval) : res cval :=
  let t := promote (cty a) in
  if bad_count t (cv k) then Err ShiftCount
  else Ok (CV t (Z.shiftr (cv a) (cv k))).

Definition compare (op : Z -> Z -> bool) (a b : cval) : bool :=
  let t := common a b in op (wrap t (cv a)) (wrap t (cv b)).

Definition c_lt : cval -> cval -> bool := compare Z.ltb.
Definition c_le : cval -> cval -> bool := compare Z.leb.
Definition c_gt : cval -> cval -> bool := compare Z.gtb.
Definition c_ge : cval -> cval -> bool := compare Z.geb.
Definition c_eq : cval -> cval -> bool := compare Z.eqb.

(** The truth value of a scalar in a condition. *)
Definition c_true (a : cval) : bool := negb (cv a =? 0).

(** [D1] defines at most what [D2] defines. *)
Definition dialect_le (D1 D2 : Dialect) : Prop :=
  @signed_shl_wraps D1 = true -> @signed_shl_wraps D2 = true.

(** [c2] is at least as defined as [c1] and agrees with it. *)
Definition refines {A : Type} (c1 c2 : res A) : Prop :=
  forall a, c1 = Ok a -> c2 = Ok a.

(** * The typing invariant *)

Lemma cv_c_literal (z : Z) : cv (c_literal z) = z.
Proof. unfold c_literal. repeat destruct (in_rangeb _ _); reflexivity. Qed.

Lemma in_rangeb_spec (t : ity) (z : Z) : in_rangeb t z = true <-> in_range t z.
Proof. unfold in_rangeb, in_range. rewrite andb_true_iff, !Z.leb_le. tauto. Qed.

Lemma in_rangeb_true (t : ity) (z : Z) : in_range t z -> in_rangeb t z = true.
Proof. apply in_rangeb_spec. Qed.

Lemma in_rangeb_false (t : ity) (z : Z) : ~ in_range t z -> in_rangeb t z = false.
Proof.
  rewrite <- in_rangeb_spec. destruct (in_rangeb t z); [ tauto | reflexivity ].
Qed.

Lemma in_rangeb_not (t : ity) (z : Z) : in_rangeb t z = false -> ~ in_range t z.
Proof. rewrite <- in_rangeb_spec. intros ->. discriminate. Qed.

Lemma wrap_range (t : ity) (z : Z) : 0 < width t -> in_range t (wrap t z).
Proof.
  destruct t as [w | w]; cbn; intros Hw.
  - apply (swrap_range w Hw).
  - apply (uwrap_range w Hw).
Qed.

Lemma wrap_small (t : ity) (z : Z) : 0 < width t -> in_range t z -> wrap t z = z.
Proof.
  destruct t as [w | w]; cbn; intros Hw Hz.
  - apply (swrap_small w Hw), Hz.
  - apply uwrap_small, Hz.
Qed.

Lemma wrap_idem (t : ity) (z : Z) : 0 < width t -> wrap t (wrap t z) = wrap t z.
Proof. intros. apply wrap_small, wrap_range; assumption. Qed.

Lemma cast_wt (t : ity) (v : cval) : 0 < width t -> wt (cast t v).
Proof. intros. apply wrap_range. assumption. Qed.

Lemma cast_id (t : ity) (v : cval) :
  0 < width t -> cty v = t -> wt v -> cast t v = v.
Proof.
  destruct v as [t' z]; cbn. intros Hw -> Hz. unfold cast; cbn.
  f_equal. apply wrap_small; assumption.
Qed.

(** A signed value keeps its value in every wider signed type. *)
Lemma wrap_widen (w w' z : Z) :
  0 < w <= w' -> in_srange w z -> wrap (Int w') z = z.
Proof.
  intros Hw Hz. cbn. apply swrap_small; [ lia | ].
  apply (in_srange_weaken w w'); assumption.
Qed.

Lemma cast_widen_narrow (w w' : Z) (v : cval) :
  0 < w <= w' -> cty v = Int w -> wt v ->
  cast (Int w) (cast (Int w') v) = v.
Proof.
  destruct v as [t z]; cbn. intros Hw -> Hz. unfold cast; cbn [cv cty].
  f_equal. rewrite (wrap_widen w w') by assumption.
  apply swrap_small; [ lia | exact Hz ].
Qed.

Lemma promote_width (t : ity) : 32 <= width (promote t).
Proof. unfold promote. destruct (Z.ltb_spec (width t) 32); cbn; lia. Qed.

Lemma promote_idem (t : ity) : promote (promote t) = promote t.
Proof.
  unfold promote at 1. pose proof (promote_width t).
  destruct (Z.ltb_spec (width (promote t)) 32); [ lia | reflexivity ].
Qed.

Lemma promote_signed (w : Z) : promote (Int w) = Int (Z.max 32 w) \/ w < 32.
Proof.
  unfold promote; cbn. destruct (Z.ltb_spec w 32); [ right; lia | left ].
  f_equal. lia.
Qed.

Lemma promote_small (t : ity) : width t < 32 -> promote t = c_int.
Proof. unfold promote. intros. destruct (Z.ltb_spec (width t) 32); [ reflexivity | lia ]. Qed.

Lemma promote_large (t : ity) : 32 <= width t -> promote t = t.
Proof. unfold promote. intros. destruct (Z.ltb_spec (width t) 32); [ lia | reflexivity ]. Qed.

Lemma uac_width (t1 t2 : ity) : width (uac t1 t2) = Z.max (width t1) (width t2).
Proof.
  destruct t1 as [a | a], t2 as [b | b]; cbn; try reflexivity;
    destruct (Z.leb_spec a b) + destruct (Z.leb_spec b a); cbn; lia.
Qed.

Lemma common_width (a b : cval) : 32 <= width (common a b).
Proof.
  unfold common. rewrite uac_width.
  pose proof (promote_width (cty a)). lia.
Qed.

Lemma fit_wt (t : ity) (r : Z) (v : cval) :
  0 < width t -> fit t r = Ok v -> wt v /\ cty v = t.
Proof.
  intros Hw. unfold fit. destruct t as [w | w].
  - destruct (in_rangeb (Int w) r) eqn:E; intros H; res_inv.
    split; [ apply in_rangeb_spec, E | reflexivity ].
  - intros H; res_inv. split; [ apply (uwrap_range w Hw) | reflexivity ].
Qed.

Lemma fit_signed_ok (w r : Z) :
  in_srange w r -> fit (Int w) r = Ok (CV (Int w) r).
Proof. intros H. unfold fit. rewrite in_rangeb_true; [ reflexivity | exact H ]. Qed.

Lemma fit_signed_err (w r : Z) :
  ~ in_srange w r -> fit (Int w) r = Err SignedOverflow.
Proof. intros H. unfold fit. rewrite in_rangeb_false; [ reflexivity | exact H ]. Qed.

(** Every operator returns a well-typed value of the converted type. *)
Lemma arith_wt (op : Z -> Z -> Z) (a b v : cval) :
  arith op a b = Ok v -> wt v /\ cty v = common a b.
Proof.
  unfold arith. apply fit_wt. pose proof (common_width a b). lia.
Qed.

Lemma c_div_wt (a b v : cval) : c_div a b = Ok v -> wt v /\ cty v = common a b.
Proof.
  unfold c_div. destruct (_ =? 0); [ discriminate | apply arith_wt ].
Qed.

Lemma c_neg_wt (a v : cval) : c_neg a = Ok v -> wt v /\ cty v = promote (cty a).
Proof. unfold c_neg. apply fit_wt. pose proof (promote_width (cty a)). lia. Qed.

Lemma c_not_wt (a : cval) : wt (c_not a).
Proof. unfold c_not. apply wrap_range. pose proof (promote_width (cty a)). lia. Qed.

Lemma c_shl_wt {D : Dialect} (a k v : cval) :
  c_shl a k = Ok v -> wt v /\ cty v = promote (cty a).
Proof.
  unfold c_shl. pose proof (promote_width (cty a)) as Hw.
  destruct (bad_count _ _); [ discriminate | ].
  destruct (promote (cty a)) as [w | w] eqn:Et; cbn in Hw.
  - destruct signed_shl_wraps.
    + intros H; res_inv. split; [ apply (swrap_range w); lia | reflexivity ].
    + destruct (cv a <? 0); [ discriminate | ].
      destruct (in_rangeb (Int w) _) eqn:E; intros H; res_inv.
      split; [ apply in_rangeb_spec, E | reflexivity ].
  - intros H; res_inv. split; [ apply (uwrap_range w); lia | reflexivity ].
Qed.

(** * Values of the operators on signed operands *)

Section SignedOps.
Variables wa wb : Z.
Hypothesis Hwa : 0 < wa.
Hypothesis Hwb : 0 < wb.
Variables x y : Z.
Hypothesis Hx : in_srange wa x.
Hypothesis Hy : in_srange wb y.

Lemma common_signed : common (CV (Int wa) x) (CV (Int wb) y) = Int (cw wa wb).
Proof.
  unfold common, promote, cw; cbn.
  destruct (Z.ltb_spec wa 32), (Z.ltb_spec wb 32); cbn; f_equal; lia.
Qed.

Lemma wrap_cw_l : wrap (Int (cw wa wb)) x = x.
Proof. apply (wrap_widen wa); [ unfold cw; lia | exact Hx ]. Qed.

Lemma wrap_cw_r : wrap (Int (cw wa wb)) y = y.
Proof. apply (wrap_widen wb); [ unfold cw; lia | exact Hy ]. Qed.

Lemma arith_signed (op : Z -> Z -> Z) :
  arith op (CV (Int wa) x) (CV (Int wb) y) = fit (Int (cw wa wb)) (op x y).
Proof.
  unfold arith. rewrite common_signed. cbn [cv].
  rewrite wrap_cw_l, wrap_cw_r. reflexivity.
Qed.

Lemma arith_signed_ok (op : Z -> Z -> Z) :
  in_srange (cw wa wb) (op x y) ->
  arith op (CV (Int wa) x) (CV (Int wb) y) = Ok (CV (Int (cw wa wb)) (op x y)).
Proof. intros. rewrite arith_signed. apply fit_signed_ok. assumption. Qed.

Lemma arith_signed_err (op : Z -> Z -> Z) :
  ~ in_srange (cw wa wb) (op x y) ->
  arith op (CV (Int wa) x) (CV (Int wb) y) = Err SignedOverflow.
Proof. intros. rewrite arith_signed. apply fit_signed_err. assumption. Qed.

Lemma c_div_signed :
  c_div (CV (Int wa) x) (CV (Int wb) y) =
  if y =? 0 then Err DivByZero else fit (Int (cw wa wb)) (Z.quot x y).
Proof.
  unfold c_div. rewrite common_signed. cbn [cv]. rewrite wrap_cw_r.
  destruct (y =? 0); [ reflexivity | apply arith_signed ].
Qed.

Lemma compare_signed (op : Z -> Z -> bool) :
  compare op (CV (Int wa) x) (CV (Int wb) y) = op x y.
Proof.
  unfold compare. rewrite common_signed. cbn [cv].
  rewrite wrap_cw_l, wrap_cw_r. reflexivity.
Qed.

Lemma c_and_signed :
  c_and (CV (Int wa) x) (CV (Int wb) y) = CV (Int (cw wa wb)) (Z.land x y).
Proof.
  unfold c_and. rewrite common_signed. cbn [cv].
  rewrite wrap_cw_l, wrap_cw_r. reflexivity.
Qed.
End SignedOps.

Section SignedUnary.
Variable wa : Z.
Hypothesis Hwa : 0 < wa.
Variable x : Z.
Hypothesis Hx : in_srange wa x.

Lemma promote_Int : promote (Int wa) = Int (pw wa).
Proof.
  unfold promote, pw, c_int; cbn [width].
  destruct (Z.ltb_spec wa 32); f_equal; lia.
Qed.

Lemma c_neg_signed : c_neg (CV (Int wa) x) = fit (Int (pw wa)) (- x).
Proof. unfold c_neg; cbn [cty cv]. rewrite promote_Int. reflexivity. Qed.

Lemma c_not_signed : c_not (CV (Int wa) x) = CV (Int (pw wa)) (Z.lnot x).
Proof.
  unfold c_not; cbn [cty cv]. rewrite promote_Int. f_equal.
  apply swrap_small; [ unfold pw; lia | ].
  pose proof (in_srange_weaken wa (pw wa) x ltac:(unfold pw; lia) Hx) as H.
  unfold in_srange, smin, smax, Z.lnot in *. lia.
Qed.

Lemma c_shr_signed (k : cval) :
  0 <= cv k < (pw wa) ->
  c_shr (CV (Int wa) x) k = Ok (CV (Int (pw wa)) (Z.shiftr x (cv k))).
Proof.
  intros Hk. unfold c_shr, bad_count; cbn [cty cv]. rewrite promote_Int; cbn [width].
  destruct (Z.ltb_spec (cv k) 0), (Z.leb_spec (pw wa) (cv k)); try lia. reflexivity.
Qed.

Lemma c_shr_count (k : cval) :
  cv k < 0 \/ (pw wa) <= cv k -> c_shr (CV (Int wa) x) k = Err ShiftCount.
Proof.
  intros Hk. unfold c_shr, bad_count; cbn [cty cv]. rewrite promote_Int; cbn [width].
  destruct (Z.ltb_spec (cv k) 0), (Z.leb_spec (pw wa) (cv k)); try lia; reflexivity.
Qed.

Lemma c_shl_count {D : Dialect} (k : cval) :
  cv k < 0 \/ (pw wa) <= cv k -> c_shl (CV (Int wa) x) k = Err ShiftCount.
Proof.
  intros Hk. unfold c_shl, bad_count; cbn [cty cv]. rewrite promote_Int; cbn [width].
  destruct (Z.ltb_spec (cv k) 0), (Z.leb_spec (pw wa) (cv k)); try lia; reflexivity.
Qed.

(** A non-negative operand whose shifted value fits: defined in every
    dialect. *)
Lemma c_shl_nonneg {D : Dialect} (k : cval) :
  0 <= cv k < (pw wa) -> 0 <= x -> in_srange (pw wa) (x * 2 ^ cv k) ->
  c_shl (CV (Int wa) x) k = Ok (CV (Int (pw wa)) (x * 2 ^ cv k)).
Proof.
  intros Hk H0 Hr. unfold c_shl, bad_count; cbn [cty cv].
  rewrite promote_Int; cbn [width].
  destruct (Z.ltb_spec (cv k) 0), (Z.leb_spec (pw wa) (cv k)); try lia. cbn.
  rewrite shiftl_mul by lia.
  destruct signed_shl_wraps.
  - rewrite swrap_small; [ reflexivity | unfold pw; lia | exact Hr ].
  - destruct (Z.ltb_spec x 0); [ lia | ].
    rewrite in_rangeb_true; [ reflexivity | exact Hr ].
Qed.

Lemma c_shl_iso_negative (k : cval) :
  0 <= cv k < (pw wa) -> x < 0 ->
  c_shl (D := iso_c) (CV (Int wa) x) k = Err ShiftNegative.
Proof.
  intros Hk H0. unfold c_shl, bad_count; cbn [cty cv].
  rewrite promote_Int; cbn [width].
  destruct (Z.ltb_spec (cv k) 0), (Z.leb_spec (pw wa) (cv k)); try lia. cbn.
  destruct (Z.ltb_spec x 0); [ reflexivity | lia ].
Qed.

Lemma c_shl_iso_overflow (k : cval) :
  0 <= cv k < (pw wa) -> 0 <= x -> ~ in_srange (pw wa) (x * 2 ^ cv k) ->
  c_shl (D := iso_c) (CV (Int wa) x) k = Err ShiftOverflow.
Proof.
  intros Hk H0 Hr. unfold c_shl, bad_count; cbn [cty cv].
  rewrite promote_Int; cbn [width].
  destruct (Z.ltb_spec (cv k) 0), (Z.leb_spec (pw wa) (cv k)); try lia. cbn.
  destruct (Z.ltb_spec x 0); [ lia | ]. rewrite shiftl_mul by lia.
  rewrite in_rangeb_false; [ reflexivity | exact Hr ].
Qed.

(** The same two faults, for any dialect in which the signed shift does
    not wrap, and the wrapped result for any in which it does. *)
Lemma c_shl_strict_negative {D : Dialect} (k : cval) :
  signed_shl_wraps = false -> 0 <= cv k < (pw wa) -> x < 0 ->
  c_shl (CV (Int wa) x) k = Err ShiftNegative.
Proof.
  intros HD Hk H0. unfold c_shl, bad_count; cbn [cty cv].
  rewrite promote_Int; cbn [width]. rewrite HD.
  destruct (Z.ltb_spec (cv k) 0), (Z.leb_spec (pw wa) (cv k)); try lia. cbn.
  destruct (Z.ltb_spec x 0); [ reflexivity | lia ].
Qed.

Lemma c_shl_strict_overflow {D : Dialect} (k : cval) :
  signed_shl_wraps = false ->
  0 <= cv k < (pw wa) -> 0 <= x -> ~ in_srange (pw wa) (x * 2 ^ cv k) ->
  c_shl (CV (Int wa) x) k = Err ShiftOverflow.
Proof.
  intros HD Hk H0 Hr. unfold c_shl, bad_count; cbn [cty cv].
  rewrite promote_Int; cbn [width]. rewrite HD.
  destruct (Z.ltb_spec (cv k) 0), (Z.leb_spec (pw wa) (cv k)); try lia. cbn.
  destruct (Z.ltb_spec x 0); [ lia | ]. rewrite shiftl_mul by lia.
  rewrite in_rangeb_false; [ reflexivity | exact Hr ].
Qed.

Lemma c_shl_wrapping {D : Dialect} (k : cval) :
  signed_shl_wraps = true -> 0 <= cv k < (pw wa) ->
  c_shl (CV (Int wa) x) k = Ok (CV (Int (pw wa)) (swrap (pw wa) (x * 2 ^ cv k))).
Proof.
  intros HD Hk. unfold c_shl, bad_count; cbn [cty cv].
  rewrite promote_Int; cbn [width]. rewrite HD.
  destruct (Z.ltb_spec (cv k) 0), (Z.leb_spec (pw wa) (cv k)); try lia. cbn.
  rewrite shiftl_mul by lia. reflexivity.
Qed.

Lemma c_shl_gnu (k : cval) :
  0 <= cv k < (pw wa) ->
  c_shl (D := gnu_c) (CV (Int wa) x) k = Ok (CV (Int (pw wa)) (swrap (pw wa) (x * 2 ^ cv k))).
Proof.
  intros Hk. unfold c_shl, bad_count; cbn [cty cv].
  rewrite promote_Int; cbn [width].
  destruct (Z.ltb_spec (cv k) 0), (Z.leb_spec (pw wa) (cv k)); try lia. cbn.
  rewrite shiftl_mul by lia. reflexivity.
Qed.
End SignedUnary.

(** * Unsigned operands *)

(** Two operands of one unsigned type of at least 32 bits are combined
    in that type, modulo [2 ^ w]. *)
Lemma arith_unsigned_wide (op : Z -> Z -> Z) (w x y : Z) :
  32 <= w -> in_urange w x -> in_urange w y ->
  arith op (CV (UInt w) x) (CV (UInt w) y) = Ok (CV (UInt w) (uwrap w (op x y))).
Proof.
  intros Hw Hx Hy. unfold arith, common; cbn [cty cv].
  rewrite (promote_large (UInt w)) by (cbn [width]; lia). cbn [uac].
  rewrite Z.max_id. cbn [fit wrap].
  rewrite (uwrap_small w x), (uwrap_small w y) by assumption. reflexivity.
Qed.

(** Two operands of an unsigned type narrower than [int] are promoted to
    [int], in which their sum, difference and product are exact. *)
Lemma arith_unsigned_narrow (op : Z -> Z -> Z) (w x y : Z) :
  0 < w < 32 -> in_urange w x -> in_urange w y ->
  arith op (CV (UInt w) x) (CV (UInt w) y) = fit c_int (op x y).
Proof.
  intros Hw Hx Hy. unfold arith, common; cbn [cty cv].
  rewrite (promote_small (UInt w)) by (cbn [width]; lia). cbn [uac c_int].
  rewrite Z.max_id. f_equal. fold c_int.
  rewrite !(wrap_small c_int); try (cbn [width c_int]; lia); try reflexivity.
  - apply (in_urange_srange w 32); [ lia | exact Hy ].
  - apply (in_urange_srange w 32); [ lia | exact Hx ].
Qed.

(** * Dialects *)

Lemma dialect_le_refl (D : Dialect) : dialect_le D D.
Proof. unfold dialect_le. tauto. Qed.

Lemma iso_le (D : Dialect) : dialect_le iso_c D.
Proof. unfold dialect_le; cbn. discriminate. Qed.

Lemma le_gnu (D : Dialect) : dialect_le D gnu_c.
Proof. unfold dialect_le; cbn. reflexivity. Qed.

Lemma refines_refl {A : Type} (c : res A) : refines c c.
Proof. unfold refines. tauto. Qed.

Lemma refines_bind {A B : Type} (c1 c2 : res A) (k1 k2 : A -> res B) :
  refines c1 c2 -> (forall a, refines (k1 a) (k2 a)) ->
  refines (bind c1 k1) (bind c2 k2).
Proof.
  unfold refines. intros Hc Hk b H.
  destruct c1 as [a | f]; [ | discriminate ].
  rewrite (Hc a eq_refl). apply Hk, H.
Qed.

(** What ISO C defines for [<<], every dialect computes. *)
Lemma c_shl_mono (D1 D2 : Dialect) (a k : cval) :
  dialect_le D1 D2 -> 0 < width (cty a) ->
  refines (c_shl (D := D1) a k) (c_shl (D := D2) a k).
Proof.
  unfold dialect_le, refines, c_shl. intros Hle Hw v.
  pose proof (promote_width (cty a)) as Hp.
  destruct (bad_count _ _); [ discriminate | ].
  destruct (promote (cty a)) as [w | w]; [ | tauto ]. cbn in Hp.
  destruct (@signed_shl_wraps D1) eqn:E1.
  - rewrite (Hle eq_refl). tauto.
  - destruct (@signed_shl_wraps D2); [ | tauto ].
    destruct (cv a <? 0); [ discriminate | ].
    destruct (in_rangeb (Int w) _) eqn:E; [ | discriminate ].
    intros H; res_inv. do 2 f_equal. cbn [wrap]. apply swrap_small; [ lia | ].
    apply in_rangeb_spec in E. exact E.
Qed.

(** * Evaluation tactics

    A function of the emitted code is a sequence of operator calls.
    [c_eval] runs it symbolically: [c_norm] exposes the operands,
    [c_op] rewrites the next operator with the lemma for its defined or
    its undefined case, and [rng] proves the range side conditions by
    [lia] from the bounds in the context.  [c_start] puts the range
    hypotheses in the form [rng] uses. *)

Ltac unfold_rng_in H :=
  unfold cw, pw, wt, in_range, ty_min, ty_max, in_srange, in_urange,
    smin, smax, umax, c_int, c_long_long in H;
  cbn [cv cty width] in H; fold_consts_in H.

Ltac unfold_rng :=
  unfold cw, pw, wt, in_range, ty_min, ty_max, in_srange, in_urange,
    smin, smax, umax, c_int, c_long_long;
  cbn [cv cty width]; fold_consts_in_goal.

(** The range of every wrapped term of the goal. *)
Ltac wrap_facts :=
  repeat match goal with
  | |- context [uwrap ?w ?z] =>
      lazymatch goal with
      | _ : 0 <= uwrap w z <= _ |- _ => fail
      | _ => let F := fresh "F" in
             pose proof (uwrap_range w ltac:(lia) z) as F; unfold_rng_in F
      end
  | |- context [swrap ?w ?z] =>
      lazymatch goal with
      | _ : _ <= swrap w z <= _ |- _ => fail
      | _ => let F := fresh "F" in
             pose proof (swrap_range w ltac:(lia) z) as F; unfold_rng_in F
      end
  end.

Ltac rng := wrap_facts; unfold_rng; lia.

Ltac c_start :=
  repeat match goal with
  | H : in_srange _ _ |- _ => unfold_rng_in H
  | H : in_urange _ _ |- _ => unfold_rng_in H
  | H : in_range _ _ |- _ => unfold_rng_in H
  | H : wt _ |- _ => unfold_rng_in H
  end; fold_consts; pow2_facts.

Ltac c_norm :=
  unfold c_add, c_sub, c_mul, c_lt, c_le, c_gt, c_ge, c_eq, c_true, lit, litLL,
    c_int, c_long_long, int8_t, int16_t, int32_t, int64_t, int128_t,
    uint8_t, uint16_t, uint32_t, uint64_t, cast, ret;
  cbn [cv cty wrap bind ensures];
  rewrite ?promote_Int, ?common_signed, ?Z.mul_1_l, ?lnot_low_mask;
  rewrite ?land_neg_pow2, ?land_low_mask by lia;
  unfold cw, pw; fold_consts_in_goal.

(** Removes the wraps of the operands of [c] that are the identity. *)
Ltac unwrap_in c :=
  repeat match c with
  | context [swrap ?w ?z] => rewrite (swrap_small w ltac:(lia) z) by rng
  end.

Ltac c_op :=
  lazymatch goal with
  | |- context [arith ?op (CV (Int ?wa) ?x) (CV (Int ?wb) ?y)] =>
      first
        [ rewrite (arith_signed_ok wa wb ltac:(lia) ltac:(lia) x y
                     ltac:(rng) ltac:(rng) op) by rng
        | rewrite (arith_signed_err wa wb ltac:(lia) ltac:(lia) x y
                     ltac:(rng) ltac:(rng) op) by rng
        | rewrite (arith_signed wa wb ltac:(lia) ltac:(lia) x y
                     ltac:(rng) ltac:(rng) op) ]
  | |- context [arith ?op (CV (UInt ?w) ?x) (CV (UInt ?w) ?y)] =>
      first [ rewrite (arith_unsigned_narrow op w x y) by rng
            | rewrite (arith_unsigned_wide op w x y) by rng ]
  | |- context [c_div (CV (Int ?wa) ?x) (CV (Int ?wb) ?y)] =>
      rewrite (c_div_signed wa wb ltac:(lia) ltac:(lia) x y ltac:(rng) ltac:(rng))
  | |- context [compare ?op (CV (Int ?wa) ?x) (CV (Int ?wb) ?y)] =>
      rewrite (compare_signed wa wb ltac:(lia) ltac:(lia) x y
                 ltac:(rng) ltac:(rng) op)
  | |- context [c_and (CV (Int ?wa) ?x) (CV (Int ?wb) ?y)] =>
      rewrite (c_and_signed wa wb ltac:(lia) ltac:(lia) x y ltac:(rng) ltac:(rng))
  | |- context [c_not (CV (Int ?wa) ?x)] =>
      rewrite (c_not_signed wa ltac:(lia) x ltac:(rng))
  | |- context [c_neg (CV (Int ?wa) ?x)] => rewrite (c_neg_signed wa x)
  | |- context [fit (Int ?w) ?r] =>
      first [ rewrite (fit_signed_ok w r) by rng
            | rewrite (fit_signed_err w r) by rng ]
  | |- context [c_shr (CV (Int ?wa) ?x) ?k] =>
      first [ rewrite (c_shr_signed wa x k) by rng
            | rewrite (c_shr_count wa x k) by rng ]
  | |- context [c_shl (D := iso_c) (CV (Int ?wa) ?x) ?k] =>
      first [ rewrite (c_shl_count (D := iso_c) wa x k) by rng
            | rewrite (c_shl_nonneg (D := iso_c) wa x k) by rng
            | rewrite (c_shl_iso_negative wa x k) by rng
            | rewrite (c_shl_iso_overflow wa x k) by rng ]
  | |- context [c_shl (D := gnu_c) (CV (Int ?wa) ?x) ?k] =>
      first [ rewrite (c_shl_count (D := gnu_c) wa x k) by rng
            | rewrite (c_shl_gnu wa x k) by rng ]
  | |- context [c_shl (CV (Int ?wa) ?x) ?k] =>
      first [ rewrite (c_shl_count wa x k) by rng
            | rewrite (c_shl_nonneg wa x k) by rng
            | match goal with
              | HD : signed_shl_wraps = false |- _ =>
                  first [ rewrite (c_shl_strict_negative wa x k HD) by rng
                        | rewrite (c_shl_strict_overflow wa x k HD) by rng ]
              | HD : signed_shl_wraps = true |- _ =>
                  rewrite (c_shl_wrapping wa x k HD) by rng
              end ]
  end.

Ltac c_step :=
  lazymatch goal with
  | |- bind ?c _ = _ => progress (unwrap_in c; try c_op)
  | |- ensures _ (bind ?c _) => progress (unwrap_in c; try c_op)
  | |- ensures _ ?c => progress (unwrap_in c; try c_op)
  | |- ?c = _ => progress (unwrap_in c; try c_op)
  | |- _ => c_op
  end.

Ltac c_eval := c_norm; repeat (c_step; c_norm).

(** Cases on the next comparison of the goal. *)
Ltac c_case :=
  match goal with
  | |- context [Z.geb ?a ?b] => rewrite (Z.geb_leb a b); destruct (Z.leb_spec b a)
  | |- context [Z.gtb ?a ?b] => rewrite (Z.gtb_ltb a b); destruct (Z.ltb_spec b a)
  | |- context [Z.ltb ?a ?b] => destruct (Z.ltb_spec a b)
  | |- context [Z.leb ?a ?b] => destruct (Z.leb_spec a b)
  | |- context [Z.eqb ?a ?b] => destruct (Z.eqb_spec a b)
  | |- context [fit (Int ?w) ?r] =>
      let E := fresh "E" in
      unfold fit; destruct (in_rangeb (Int w) r) eqn:E;
      [ apply in_rangeb_spec in E | apply in_rangeb_not in E ];
      unfold_rng_in E
  end; cbn [negb bind ensures].

(** Closes a goal between two wrapped values after [c_eval]. *)
Ltac c_done :=
  rewrite ?shiftr_div, ?shiftl_mul, ?Z.mul_1_l by lia;
  autorewrite with wrap_rw; try reflexivity.
