(* ===== verification/Format.v ===== *)
(** * Format: the Format Selector

    [generate_header] is the part of [generate_header] in
    generate_headers.py that does not write text: the choice of the
    storage, unsigned and wide types from [m + n + 1], and the constants
    evaluated in Python before the template is filled.  [base_type] is
    the choice generate_math_headers.py makes (twice, in
    [generate_math_header] and in [generate_cordic_c_file]).

    [wf_header] is the contract of the selector towards the components
    that use a header; [header_cases] gives the four headers that exist. *)

From Stdlib Require Import ZArith Lia Bool List.
From S2P Require Import Prelude CInt.
Import ListNotations.
#[local] Open Scope Z_scope.

(** * Data *)

(** The values [generate_header] computes before it writes the file. *)
Record header : Type := Header {
  storage_bits : Z;
  storage_type : ity;
  unsigned_type : ity;
  wide_type : ity;
  storage_max : Z;
  storage_min : Z;
  one_val : Z
}.

Definition INT8_MAX : Z := 127.
Definition INT8_MIN : Z := -128.
Definition INT16_MAX : Z := 32767.
Definition INT16_MIN : Z := -32768.
Definition INT32_MAX : Z := 2147483647.
Definition INT32_MIN : Z := -2147483648.
Definition INT64_MAX : Z := 9223372036854775807.
Definition INT64_MIN : Z := -9223372036854775808.

Definition total_bits (m n : Z) : Z := m + n + 1.

(** * The selectors *)

(** generate_headers.py, [generate_header]: [Return None] is the
    "Skipping" branch, which writes nothing; [Raise] is the exception of
    [1 << n] or [float(1 << n)]. *)
Definition generate_header (m n : Z) : pyres (option header) :=
  let total_bits := total_bits m n in
  let chosen :=
    if total_bits <=? 8 then
      Some (Header 8 int8_t uint8_t int16_t INT8_MAX INT8_MIN)
    else if total_bits <=? 16 then
      Some (Header 16 int16_t uint16_t int32_t INT16_MAX INT16_MIN)
    else if total_bits <=? 32 then
      Some (Header 32 int32_t uint32_t int64_t INT32_MAX INT32_MIN)
    else if total_bits <=? 64 then
      Some (Header 64 int64_t uint64_t int128_t INT64_MAX INT64_MIN)
    else None in
  match chosen with
  | None => Return None
  | Some mk =>
      (one_val <- py_shl 1 n ;;
       _ <- py_float_pow2 n ;;
       Return (Some (mk one_val)))%py
  end.

(** generate_math_headers.py, the chain of [generate_math_header] and of
    [generate_cordic_c_file]. *)
Definition base_type (m_bits n_bits : Z) : pyres ity :=
  let total_bits := total_bits m_bits n_bits in
  if total_bits <=? 8 then Return int8_t
  else if total_bits <=? 16 then Return int16_t
  else if total_bits <=? 32 then Return int32_t
  else if total_bits <=? 64 then Return int64_t
  else Raise ValueError.

(** The formats the two [main] functions generate. *)
Definition main_formats : list (Z * Z) :=
  [(15, 16); (16, 16); (0, 7); (7, 8); (23, 8); (1, 30)].

Definition math_main_formats : list (Z * Z) :=
  [(15, 16); (8, 8); (7, 8); (0, 7); (0, 15); (23, 8); (31, 0)].

(** The headers of Q7.8, Q0.7 and Q31.0, formats of the two [main]
    functions, and of Q16.32, used as concrete inputs. *)
Definition Q7_8 : header :=
  Header 16 int16_t uint16_t int32_t INT16_MAX INT16_MIN 256.

Definition Q0_7 : header :=
  Header 8 int8_t uint8_t int16_t INT8_MAX INT8_MIN 128.

Definition Q31_0 : header :=
  Header 32 int32_t uint32_t int64_t INT32_MAX INT32_MIN 1.

Definition Q16_32 : header :=
  Header 64 int64_t uint64_t int128_t INT64_MAX INT64_MIN (2 ^ 32).

Definition generated (f : Z * Z) : bool :=
  match generate_header (fst f) (snd f) with
  | Return (Some _) => true
  | _ => false
  end.

(** * The contract of a header *)

Definition standard_width (sb : Z) : Prop := In sb [8; 16; 32; 64].

Record wf_header (m n : Z) (H : header) : Prop := {
  wf_width : standard_width (storage_bits H);
  wf_storage : storage_type H = Int (storage_bits H);
  wf_unsigned : unsigned_type H = UInt (storage_bits H);
  wf_wide : wide_type H = Int (2 * storage_bits H);
  wf_max : storage_max H = smax (storage_bits H);
  wf_min : storage_min H = smin (storage_bits H);
  wf_one : one_val H = 2 ^ n;
  wf_frac : 0 <= n;
  wf_fits : total_bits m n <= storage_bits H
}.

(** The narrowest standard width that holds [t] bits. *)
Definition smallest_width (t sb : Z) : Prop :=
  standard_width sb /\ t <= sb /\
  forall sb', standard_width sb' -> t <= sb' -> sb <= sb'.

(** * Theorems *)

Ltac split_chain :=
  repeat match goal with
  | |- context [?a <=? ?b] => destruct (Z.leb_spec a b)
  | H : context [?a <=? ?b] |- _ => destruct (Z.leb_spec a b)
  | |- context [?a <? ?b] => destruct (Z.ltb_spec a b)
  | H : context [?a <? ?b] |- _ => destruct (Z.ltb_spec a b)
  end.

Lemma standard_width_bounds (sb : Z) : standard_width sb -> 8 <= sb <= 64.
Proof. unfold standard_width. cbn. intuition lia. Qed.

Lemma generate_header_inv (m n : Z) (H : header) :
  generate_header m n = Return (Some H) ->
  0 <= n < 1024 /\ total_bits m n <= 64 /\
  exists mk, H = mk (2 ^ n) /\
    ((total_bits m n <= 8 /\ mk = Header 8 int8_t uint8_t int16_t INT8_MAX INT8_MIN) \/
     (8 < total_bits m n <= 16 /\ mk = Header 16 int16_t uint16_t int32_t INT16_MAX INT16_MIN) \/
     (16 < total_bits m n <= 32 /\ mk = Header 32 int32_t uint32_t int64_t INT32_MAX INT32_MIN) \/
     (32 < total_bits m n <= 64 /\ mk = Header 64 int64_t uint64_t int128_t INT64_MAX INT64_MIN)).
Proof.
  unfold generate_header. intros E.
  destruct (Z.ltb_spec n 0) as [Hn | Hn].
  { rewrite (py_shl_neg 1 n Hn) in E. split_chain; discriminate. }
  rewrite (py_shl_one n Hn) in E. cbn [pybind] in E. unfold py_float_pow2 in E.
  split_chain; cbn [pybind] in E; try discriminate; injection E as <-;
    (split; [ lia | split; [ lia | ] ]); eexists;
    (split; [ reflexivity | ]); intuition lia.
Qed.

(** The four headers that exist, for a format with [m >= 0]. *)
Lemma wf_header_cases (m n : Z) (H : header) :
  wf_header m n H -> 0 <= m ->
  exists sb, standard_width sb /\ 0 <= n < sb /\
    H = Header sb (Int sb) (UInt sb) (Int (2 * sb)) (smax sb) (smin sb) (2 ^ n).
Proof.
  destruct H as [sb st ut wt mx mn one]. intros [W S U Wd Mx Mn O F Ft] Hm.
  cbn in *. subst. exists sb. unfold total_bits in Ft.
  repeat split; try assumption; lia.
Qed.

(** The four types the math generator chooses, for [m, n >= 0]. *)
Lemma base_type_cases (m n : Z) (bt : ity) :
  base_type m n = Return bt -> 0 <= m -> 0 <= n ->
  exists sb, standard_width sb /\ 0 <= n < sb /\ total_bits m n <= sb /\
    bt = Int sb.
Proof.
  unfold base_type, total_bits, standard_width. intros E Hm Hn.
  split_chain; try discriminate; injection E as <-;
    [ exists 8 | exists 16 | exists 32 | exists 64 ]; cbn; intuition lia.
Qed.

Lemma wf_header_bounds (m n : Z) (H : header) :
  wf_header m n H -> 0 <= m ->
  8 <= storage_bits H <= 64 /\ 0 <= n < storage_bits H.
Proof.
  intros Hwf Hm. destruct (wf_header_cases m n H Hwf Hm) as (sb & Hsb & Hn & ->).
  cbn. unfold standard_width in Hsb; cbn in Hsb. intuition lia.
Qed.

(** The concrete headers satisfy the contract. *)
Lemma Q7_8_wf : wf_header 7 8 Q7_8.
Proof. constructor; cbn; try reflexivity; try lia; unfold standard_width; cbn; tauto. Defined.

Lemma Q0_7_wf : wf_header 0 7 Q0_7.
Proof. constructor; cbn; try reflexivity; try lia; unfold standard_width; cbn; tauto. Defined.

Lemma Q31_0_wf : wf_header 31 0 Q31_0.
Proof. constructor; cbn; try reflexivity; try lia; unfold standard_width; cbn; tauto. Defined.

Lemma Q16_32_wf : wf_header 16 32 Q16_32.
Proof. constructor; cbn; try reflexivity; try lia; unfold standard_width; cbn; tauto. Defined.

(** C5. Every header the generator returns satisfies the contract the
    arithmetic functions rely on: a standard width that holds the format,
    the signed, unsigned and double-width types of that width, the bounds
    of the storage type, and [one_val = 2 ^ n] with [n >= 0]. *)
Theorem generate_header_wf (m n : Z) (H : header) :
  generate_header m n = Return (Some H) -> wf_header m n H.
Proof.
  intros E. destruct (generate_header_inv m n H E) as (Hn & Ht & mk & -> & Hc).
  destruct Hc as [[Hr ->] | [[Hr ->] | [[Hr ->] | [Hr ->]]]];
    constructor; cbn; try reflexivity; try lia; unfold standard_width; cbn; tauto.
Qed.

Lemma generate_header_wf_witness :
  wf_header 7 8 (Header 16 int16_t uint16_t int32_t INT16_MAX INT16_MIN 256).
Proof. apply generate_header_wf. reflexivity. Defined.

(** C31. The generator writes a header exactly for the formats of at most
    64 bits: for a fractional width the Python expressions accept, a
    header is returned if and only if [m + n + 1 <= 64]; a wider format
    is skipped without an exception. *)
Theorem generate_header_some_iff (m n : Z) :
  0 <= n < 1024 ->
  ((exists H, generate_header m n = Return (Some H)) <-> total_bits m n <= 64) /\
  (64 < total_bits m n -> generate_header m n = Return None).
Proof.
  intros Hn. split; [ split | ].
  - intros [H E]. apply generate_header_inv in E. lia.
  - intros Ht. unfold generate_header.
    rewrite (py_shl_one n) by lia. cbn [pybind].
    rewrite (py_float_pow2_ok n) by lia. cbn [pybind].
    split_chain; try lia; eexists; reflexivity.
  - intros Ht. unfold generate_header. split_chain; try lia. reflexivity.
Qed.

Lemma generate_header_some_iff_witness :
  ((exists H, generate_header 15 16 = Return (Some H)) <-> total_bits 15 16 <= 64) /\
  (64 < total_bits 15 16 -> generate_header 15 16 = Return None).
Proof. apply generate_header_some_iff. lia. Defined.

(** The storage width is the smallest of 8, 16, 32 and 64 bits that
    holds the sign bit, the [m] integer bits and the [n] fractional bits. *)
Theorem generate_header_smallest (m n : Z) (H : header) :
  generate_header m n = Return (Some H) ->
  smallest_width (total_bits m n) (storage_bits H).
Proof.
  intros E. destruct (generate_header_inv m n H E) as (Hn & Ht & mk & -> & Hc).
  unfold smallest_width, standard_width.
  destruct Hc as [[Hr ->] | [[Hr ->] | [[Hr ->] | [Hr ->]]]]; cbn;
    (split; [ tauto | split; [ lia | intros sb' Hs Hle; lia ] ]).
Qed.

Lemma generate_header_smallest_witness :
  smallest_width (total_bits 16 16) 64.
Proof. apply (generate_header_smallest 16 16 (Header 64 int64_t uint64_t int128_t INT64_MAX INT64_MIN 65536)). reflexivity. Defined.

(** C32. The two generators agree on the storage type: whenever
    generate_headers.py writes a header for (m, n), the type
    generate_math_headers.py chooses is the header's storage type, and
    generate_math_headers.py raises [ValueError] exactly on the formats
    of more than 64 bits. *)
Theorem base_type_agrees (m n : Z) :
  (forall H, generate_header m n = Return (Some H) ->
             base_type m n = Return (storage_type H)) /\
  (base_type m n = Raise ValueError <-> 64 < total_bits m n).
Proof.
  split.
  - intros H E. destruct (generate_header_inv m n H E) as (Hn & Ht & mk & -> & Hc).
    unfold base_type.
    destruct Hc as [[Hr ->] | [[Hr ->] | [[Hr ->] | [Hr ->]]]]; cbn;
      split_chain; try lia; reflexivity.
  - unfold base_type. split_chain; split; intros; try discriminate; try lia; reflexivity.
Qed.

(** The spec requires [m >= 0]; the generator does not check it. *)
Example generate_header_negative_m :
  generate_header (-3) 10 =
  Return (Some (Header 8 int8_t uint8_t int16_t INT8_MAX INT8_MIN 1024)).
Proof. reflexivity. Qed.

(** A negative [n] is rejected by the exception of [1 << n], not by a
    check of the format, and only when the format is not skipped first. *)
Example generate_header_negative_n :
  generate_header 3 (-1) = Raise ValueError /\
  generate_header 70 (-1) = Return None.
Proof. split; reflexivity. Qed.

(** Every format of the two [main] functions is generated. *)
Lemma main_formats_generated :
  forallb generated main_formats = true /\
  forallb generated math_main_formats = true.
Proof. split; reflexivity. Qed.
