(* ===== verification/Arith.v ===== *)
(** * Arith: the Arithmetic Core

    The macros and the four inline functions that generate_headers.py
    writes for a format (lines 73-106 of the template): [WRAP] in its
    two branches, [ONE], [MAX], [MIN], [q_add], [q_sub], [q_mul],
    [q_div].  The functions are those of the C branch of [WRAP]; the C++
    branch gives the same values wherever they apply it
    ([WRAP_cpp_agrees]).  The section
    variables are the fractional width [n] and the header [H] the
    selector returned; [tv a] is the raw value [a] at the type
    [q<m>_<n>_t]. *)

From Stdlib Require Import ZArith Lia Bool List.
From S2P Require Import Prelude CInt Format.
Import ListNotations.
#[local] Open Scope Z_scope.
#[local] Open Scope res_scope.

(** * Specification

    What the four functions compute, in Z: the exact sum or difference,
    the product rounded by adding half a unit of the last place and
    taking the floor, the quotient truncated toward zero; each brought
    back to the storage type by [swrap]. *)

Definition mul_exact (n a b : Z) : Z := (a * b + 2 ^ (n - 1)) / 2 ^ n.

Definition div_exact (n a b : Z) : Z := Z.quot (a * 2 ^ n) b.

Definition div_saturated (sb a : Z) : Z := if 0 <=? a then smax sb else smin sb.

(** * The emitted functions *)

Section Ops.
Context {D : Dialect}.
Variable n : Z.
Variable H : header.

(** [typedef storage_type q<m>_<n>_t]. *)
Definition type_name : ity := storage_type H.

Definition tv (a : Z) : cval := CV type_name a.

(** [#define Q_WRAP(raw) ((q_t)(raw))], the branch of C (line 78): a
    cast.  The functions below are those a C compiler sees. *)
Definition WRAP (raw : cval) : cval := cast type_name raw.

(** [#define Q_WRAP(raw) (q_t{(raw)})], the branch of C++ (line 76): a
    list initialisation, which is ill-formed ([None]) when the
    conversion narrows.  It narrows when the type of [raw] has a value
    the type of the format has not, unless [raw] is a constant
    expression whose value fits. *)
Definition narrows (t : ity) (constant : bool) (raw : cval) : bool :=
  negb (in_rangeb t (ty_min (cty raw)) && in_rangeb t (ty_max (cty raw)))
  && negb (constant && in_rangeb t (cv raw)).

Definition WRAP_cpp (constant : bool) (raw : cval) : option cval :=
  if narrows type_name constant raw then None else Some (cast type_name raw).

Definition FIXP_ONE : cval := WRAP (c_literal (one_val H)).
Definition FIXP_MAX : cval := WRAP (c_literal (storage_max H)).
Definition FIXP_MIN : cval := WRAP (c_literal (storage_min H)).

(** [return WRAP((storage_type)((unsigned_type)a + (unsigned_type)b))]. *)
Definition q_add (a b : Z) : res Z :=
  s <- c_add (cast (unsigned_type H) (tv a)) (cast (unsigned_type H) (tv b)) ;;
  ret (cv (WRAP (cast (storage_type H) s))).

Definition q_sub (a b : Z) : res Z :=
  s <- c_sub (cast (unsigned_type H) (tv a)) (cast (unsigned_type H) (tv b)) ;;
  ret (cv (WRAP (cast (storage_type H) s))).

(** [wide prod = (wide)a * (wide)b;
     return WRAP((storage_type)((prod + (1 << (n-1))) >> n))]. *)
Definition q_mul (a b : Z) : res Z :=
  p <- c_mul (cast (wide_type H) (tv a)) (cast (wide_type H) (tv b)) ;;
  let prod := cast (wide_type H) p in
  e <- c_sub (lit n) (lit 1) ;;
  bias <- c_shl (lit 1) e ;;
  s <- c_add prod bias ;;
  r <- c_shr s (lit n) ;;
  ret (cv (WRAP (cast (storage_type H) r))).

(** [if (b == 0) return (a >= 0) ? MAX : MIN;
     wide dividend = (wide)a << n;
     return WRAP((storage_type)(dividend / b))]. *)
Definition q_div (a b : Z) : res Z :=
  if c_eq (tv b) (lit 0) then
    ret (cv (if c_ge (tv a) (lit 0) then FIXP_MAX else FIXP_MIN))
  else
    d <- c_shl (cast (wide_type H) (tv a)) (lit n) ;;
    let dividend := cast (wide_type H) d in
    q <- c_div dividend (tv b) ;;
    ret (cv (WRAP (cast (storage_type H) q))).

End Ops.

Arguments type_name H : assert.
Arguments WRAP_cpp H constant raw : assert.
Arguments tv H a : assert.

(** Splits a goal about a well-formed header into the four headers. *)
Ltac header_split :=
  match goal with
  | Hwf : wf_header ?m ?n ?H, Hm : 0 <= ?m |- _ =>
      let sb := fresh "sb" in
      let Hsb := fresh "Hsb" in
      let Hn := fresh "Hnsb" in
      destruct (wf_header_cases m n H Hwf Hm) as (sb & Hsb & Hn & ->);
      cbn [storage_bits storage_type unsigned_type wide_type
           storage_max storage_min one_val] in *;
      clear Hwf;
      pose proof (pow2_le_mono n (sb - 1) ltac:(lia));
      try pose proof (pow2_le_mono (n - 1) (sb - 2) ltac:(lia));
      destruct Hsb as [<-|[<-|[<-|[<-|[]]]]]
  end.

Ltac unfold_ops :=
  unfold q_add, q_sub, q_mul, q_div, FIXP_ONE, FIXP_MAX, FIXP_MIN, WRAP, tv,
    type_name;
  cbn [storage_bits storage_type unsigned_type wide_type
       storage_max storage_min one_val].

(** Runs [q_mul] on two raw values [a] and [b] of a well-formed header:
    the product fits the wide type, whatever the storage width. *)
Ltac mul_eval a b :=
  let Hab := fresh "Hab" in
  match goal with
  | Hwf : wf_header _ _ ?H |- _ =>
      pose proof (mul_srange (storage_bits H) a b) as Hab;
      header_split;
      specialize (Hab ltac:(lia) ltac:(assumption) ltac:(assumption));
      unfold_ops; c_start; c_eval; c_done
  end.

(** * Theorems *)

Section ArithProps.
Context {D : Dialect}.
Variables m n : Z.
Variable H : header.
Hypothesis Hwf : wf_header m n H.
Hypothesis Hm : 0 <= m.

(** C3. Addition wraps: for raw values of the storage type, [q_add]
    never faults and returns the exact sum reduced to the storage width
    in two's complement. *)
Theorem q_add_wraps (a b : Z) :
  in_srange (storage_bits H) a -> in_srange (storage_bits H) b ->
  q_add H a b = Ok (swrap (storage_bits H) (a + b)).
Proof.
  intros Ha Hb. header_split; unfold_ops; c_start; c_eval; c_done.
Qed.

(** Subtraction wraps in the same way. *)
Theorem q_sub_wraps (a b : Z) :
  in_srange (storage_bits H) a -> in_srange (storage_bits H) b ->
  q_sub H a b = Ok (swrap (storage_bits H) (a - b)).
Proof.
  intros Ha Hb. header_split; unfold_ops; c_start; c_eval; c_done.
Qed.

(** C1. Multiplication rounds half up: for a fractional width
    [1 <= n <= 31], [q_mul] never faults and returns
    [floor ((a * b + 2^(n-1)) / 2^n)] reduced to the storage width; the
    bias is added whatever the sign of the product. *)
Theorem q_mul_spec (a b : Z) :
  1 <= n <= 31 ->
  in_srange (storage_bits H) a -> in_srange (storage_bits H) b ->
  q_mul n H a b = Ok (swrap (storage_bits H) (mul_exact n a b)).
Proof.
  intros Hn Ha Hb. unfold mul_exact.
  pose proof (pow2_le_mono (n - 1) 30 ltac:(lia)). mul_eval a b.
Qed.

(** C40. With no fractional bit the multiplication is undefined: the
    bias [1 << (0 - 1)] shifts by a negative count, on every input. *)
Theorem q_mul_frac0_faults (a b : Z) :
  n = 0 ->
  in_srange (storage_bits H) a -> in_srange (storage_bits H) b ->
  q_mul n H a b = Err ShiftCount.
Proof.
  intros -> Ha Hb.
  pose proof (mul_srange (storage_bits H) a b) as Hab.
  header_split; specialize (Hab ltac:(lia) Ha Hb);
    unfold_ops; c_start; c_eval; reflexivity.
Qed.

(** Division by zero saturates: [q_div a 0] is the largest value of
    the storage type for [a >= 0] and the smallest for [a < 0], in every
    dialect and without a fault. *)
Theorem q_div_by_zero (a : Z) :
  in_srange (storage_bits H) a ->
  q_div n H a 0 = Ok (div_saturated (storage_bits H) a).
Proof.
  intros Ha. unfold div_saturated.
  header_split; unfold_ops; c_start; c_eval; cbn [Z.eqb];
    unfold c_literal; cbn [in_rangeb ty_min ty_max]; unfold smin, smax;
    fold_consts_in_goal; cbn [Z.leb Z.compare Pos.compare Pos.compare_cont andb cv];
    unfold Z.geb; destruct (Z.leb_spec 0 a); destruct (Z.compare_spec a 0);
    try lia; cbn [cv wrap]; reflexivity.
Qed.

(** The bounds a division needs: the shifted dividend and its quotient
    fit in the wide type. *)
Lemma div_bounds (sb a b : Z) :
  0 < sb -> in_srange sb a -> 0 <= n < sb -> b <> 0 ->
  - 2 ^ (2 * sb - 2) <= a * 2 ^ n <= 2 ^ (2 * sb - 2) /\
  - 2 ^ (2 * sb - 2) <= (a * 2 ^ n) ÷ b <= 2 ^ (2 * sb - 2).
Proof.
  intros Hsb Ha Hn Hb. pose proof (shl_srange sb a n Hsb Ha Hn) as Hs.
  split; [ exact Hs | ].
  pose proof (quot_range (a * 2 ^ n) b (- 2 ^ (2 * sb - 2)) (2 ^ (2 * sb - 2)) Hb).
  lia.
Qed.

Ltac div_split :=
  header_split;
  match goal with
  | Hd : forall _ : 0 < ?sb, _ |- _ =>
      specialize (Hd ltac:(lia) ltac:(assumption) ltac:(lia) ltac:(assumption));
      destruct Hd
  end;
  unfold_ops; c_start.

(** C2. Division of a non-negative dividend truncates toward zero: for
    [a >= 0] and [b <> 0], [q_div] never faults, in any dialect, and
    returns [(a * 2^n) quot b] reduced to the storage width. *)
Theorem q_div_nonneg (a b : Z) :
  in_srange (storage_bits H) a -> in_srange (storage_bits H) b ->
  0 <= a -> b <> 0 ->
  q_div n H a b = Ok (swrap (storage_bits H) (div_exact n a b)).
Proof.
  intros Ha Hb Ha0 Hb0. unfold div_exact.
  pose proof (div_bounds (storage_bits H) a b) as Hd.
  div_split; c_eval; destruct (Z.eqb_spec b 0); try lia; c_eval; c_done.
Qed.

(** C39. In ISO C the division of a negative dividend is undefined: the
    dividend is shifted left before it is divided, and the left shift of
    a negative value has no defined result. *)
Theorem q_div_negative_iso (a b : Z) :
  in_srange (storage_bits H) a -> in_srange (storage_bits H) b ->
  a < 0 -> b <> 0 ->
  q_div (D := iso_c) n H a b = Err ShiftNegative.
Proof.
  intros Ha Hb Ha0 Hb0.
  pose proof (div_bounds (storage_bits H) a b) as Hd.
  div_split; c_eval; destruct (Z.eqb_spec b 0); try lia; c_eval; reflexivity.
Qed.

(** With GCC's shift, division truncates toward zero on every
    dividend: for [b <> 0] the result is [(a * 2^n) quot b] reduced to
    the storage width, without saturation when it does not fit. *)
Theorem q_div_gnu (a b : Z) :
  in_srange (storage_bits H) a -> in_srange (storage_bits H) b ->
  b <> 0 ->
  q_div (D := gnu_c) n H a b = Ok (swrap (storage_bits H) (div_exact n a b)).
Proof.
  intros Ha Hb Hb0. unfold div_exact.
  pose proof (div_bounds (storage_bits H) a b) as Hd.
  div_split; c_eval; destruct (Z.eqb_spec b 0); try lia; c_eval; c_done.
Qed.

(** For the fractional widths of 32 bits and more (64-bit storage)
    the multiplication is undefined in ISO C on every input: the bias
    [1 << (n-1)] is computed in [int], where [1 << 31] overflows and a
    larger count is out of range. *)
Theorem q_mul_wide_frac_iso (a b : Z) :
  32 <= n ->
  in_srange (storage_bits H) a -> in_srange (storage_bits H) b ->
  q_mul (D := iso_c) n H a b =
  Err (if n =? 32 then ShiftOverflow else ShiftCount).
Proof.
  intros Hn Ha Hb.
  pose proof (mul_srange (storage_bits H) a b) as Hab.
  header_split; try lia; specialize (Hab ltac:(lia) Ha Hb).
  destruct (Z.eqb_spec n 32) as [-> | Hne];
    unfold_ops; c_start; c_eval; reflexivity.
Qed.

(** With GCC's shift and n = 32 the multiplication returns, but
    with the bias [-2^31] in place of [+2^31]: [1 << 31] wraps to
    [INT_MIN] before it is widened, so products are rounded half down
    and are one unit low on half of the inputs. *)
Theorem q_mul_frac32_gnu (a b : Z) :
  n = 32 ->
  in_srange (storage_bits H) a -> in_srange (storage_bits H) b ->
  q_mul (D := gnu_c) n H a b =
  Ok (swrap (storage_bits H) ((a * b - 2 ^ 31) / 2 ^ 32)).
Proof.
  intros -> Ha Hb.
  pose proof (mul_srange (storage_bits H) a b) as Hab.
  header_split; try lia; specialize (Hab ltac:(lia) Ha Hb).
  unfold_ops; c_start; c_eval.
  change (swrap 32 (1 * 2147483648)) with (-2147483648).
  c_eval; c_done.
Qed.

(** The value the rounding produces is within half a unit of the last
    place of the exact product, the tie going up. *)
Lemma mul_exact_bound (a b : Z) :
  1 <= n ->
  - 2 ^ (n - 1) <= a * b - mul_exact n a b * 2 ^ n < 2 ^ (n - 1).
Proof.
  intros Hn. unfold mul_exact. pose proof (pow2_double n ltac:(lia)) as Hd.
  pose proof (pow2_pos (n - 1) ltac:(lia)).
  pose proof (Z.div_mod (a * b + 2 ^ (n - 1)) (2 ^ n) ltac:(lia)).
  pose proof (Z.mod_pos_bound (a * b + 2 ^ (n - 1)) (2 ^ n) ltac:(lia)). lia.
Qed.

Lemma mul_exact_tie (k : Z) (a b : Z) :
  1 <= n -> a * b = k * 2 ^ n - 2 ^ (n - 1) -> mul_exact n a b = k.
Proof.
  intros Hn Hp. unfold mul_exact. rewrite Hp.
  replace (k * 2 ^ n - 2 ^ (n - 1) + 2 ^ (n - 1)) with (k * 2 ^ n) by lia.
  apply Z.div_mul. pose proof (pow2_pos n ltac:(lia)). lia.
Qed.

Lemma mul_exact_one (x : Z) : 1 <= n -> mul_exact n x (2 ^ n) = x.
Proof.
  intros Hn. unfold mul_exact. pose proof (pow2_pos n ltac:(lia)).
  pose proof (pow2_double n ltac:(lia)). pose proof (pow2_pos (n - 1) ltac:(lia)).
  rewrite Z.div_add_l, Z.div_small by lia. lia.
Qed.

(** With an integer bit, [2^n] is a raw value and the macro [ONE] is it. *)
Lemma FIXP_ONE_value :
  1 <= m -> cv (FIXP_ONE H) = 2 ^ n /\ in_srange (storage_bits H) (2 ^ n).
Proof.
  intros Hm1. pose proof (wf_header_bounds m n H Hwf Hm).
  pose proof (wf_fits m n H Hwf) as Ft. unfold total_bits in Ft.
  assert (Hr : in_srange (storage_bits H) (2 ^ n)).
  { unfold in_srange, smin, smax.
    pose proof (pow2_lt_mono n (storage_bits H - 1) ltac:(lia)).
    pose proof (pow2_pos n ltac:(lia)). lia. }
  split; [ | exact Hr ].
  unfold FIXP_ONE, WRAP, cast, type_name. cbn [cv].
  rewrite (wf_storage m n H Hwf), (wf_one m n H Hwf), cv_c_literal.
  cbn [wrap]. apply swrap_small; [ lia | exact Hr ].
Qed.

(** Accuracy of the multiplication: when the rounded product fits
    the storage type, [q_mul] returns a value [r] with
    [-2^(n-1) <= a*b - r*2^n < 2^(n-1)], that is within half a unit of
    the last place, and a product exactly between two values goes to the
    upper one whatever its sign. *)
Theorem q_mul_half_up (a b : Z) :
  1 <= n <= 31 ->
  in_srange (storage_bits H) a -> in_srange (storage_bits H) b ->
  in_srange (storage_bits H) (mul_exact n a b) ->
  exists r, q_mul n H a b = Ok r /\
    - 2 ^ (n - 1) <= a * b - r * 2 ^ n < 2 ^ (n - 1) /\
    (forall k, a * b = k * 2 ^ n - 2 ^ (n - 1) -> r = k).
Proof.
  intros Hn Ha Hb Hr. exists (mul_exact n a b).
  split; [ | split; [ apply mul_exact_bound; lia | ] ].
  - unfold mul_exact in *. pose proof (pow2_le_mono (n - 1) 30 ltac:(lia)).
    mul_eval a b; apply f_equal, swrap_small; rng.
  - intros k Hk. apply (mul_exact_tie k); [ lia | exact Hk ].
Qed.

(** One is the identity of the multiplication: when the format has
    an integer bit ([m >= 1]), so that [2^n] is a raw value,
    [q_mul x ONE = x] exactly, for every raw [x]. *)
Theorem q_mul_one_exact (x : Z) :
  1 <= m -> 1 <= n <= 31 ->
  in_srange (storage_bits H) x ->
  q_mul n H x (cv (FIXP_ONE H)) = Ok x.
Proof.
  intros Hm1 Hn Hx. destruct (FIXP_ONE_value Hm1) as [-> Hone].
  pose proof (mul_exact_one x ltac:(lia)) as Hx1. unfold mul_exact in Hx1.
  pose proof (pow2_le_mono (n - 1) 30 ltac:(lia)).
  mul_eval x (2 ^ n); rewrite Hx1; apply f_equal, swrap_small; rng.
Qed.

(** Subtraction undoes addition: [q_sub (q_add a b) b = a] for all
    raw values, overflow included. *)
Theorem q_add_sub_inverse (a b : Z) :
  in_srange (storage_bits H) a -> in_srange (storage_bits H) b ->
  bind (q_add H a b) (fun s => q_sub H s b) = Ok a.
Proof.
  intros Ha Hb. header_split; unfold_ops; c_start; c_eval; c_done;
    replace (a + b - b) with a by lia; apply f_equal, swrap_small; rng.
Qed.

(** The largest value plus one unit of the last place is the
    smallest value: addition wraps and does not saturate. *)
Theorem q_add_max_wraps :
  q_add H (storage_max H) 1 = Ok (storage_min H).
Proof.
  header_split; unfold_ops; unfold smax, smin; fold_consts_in_goal;
    c_start; c_eval; c_done.
Qed.

(** The two branches of [WRAP] agree wherever a function applies the
    macro: the argument has been cast to the storage type, which the
    braces of C++ never narrow, so both give the argument. *)
Theorem WRAP_cpp_agrees (constant : bool) (x : cval) :
  WRAP_cpp H constant (cast (storage_type H) x) = Some (WRAP H (cast (storage_type H) x)).
Proof. header_split; reflexivity. Qed.

(** C25. [ONE] in the two languages.  With room above [2^n] in the storage
    type both branches of [WRAP] give [2^n].  A format that fills its
    type with fractional bits (Q0.7, Q0.15, Q0.31, Q0.63) has
    [1 << n] one above the largest value: the cast of C turns it into
    [MIN], which is minus one, and the braces of C++ reject it, so the
    header does not compile where [ONE] is used. *)
Theorem FIXP_ONE_branches :
  (n < storage_bits H - 1 ->
   cv (FIXP_ONE H) = 2 ^ n /\
   WRAP_cpp H true (c_literal (one_val H)) = Some (FIXP_ONE H)) /\
  (n = storage_bits H - 1 ->
   FIXP_ONE H = FIXP_MIN H /\ WRAP_cpp H true (c_literal (one_val H)) = None).
Proof.
  split; intros Hn.
  - assert (Hr : in_range (type_name H) (one_val H)).
    { header_split; unfold in_range; cbn; unfold smin, smax;
        pose proof (pow2_pos n ltac:(lia));
        pose proof (pow2_lt_mono n _ ltac:(split; [lia|exact Hn])); lia. }
    split.
    + unfold FIXP_ONE, WRAP, cast. cbn [cv]. rewrite cv_c_literal, wrap_small.
      * apply (wf_one m n H Hwf).
      * unfold type_name. rewrite (wf_storage m n H Hwf). cbn.
        pose proof (wf_header_bounds m n H Hwf Hm). lia.
      * exact Hr.
    + unfold WRAP_cpp, narrows. rewrite cv_c_literal, (in_rangeb_true _ _ Hr).
      cbn [andb negb]. rewrite andb_false_r. reflexivity.
  - header_split; subst n; vm_compute; split; reflexivity.
Qed.

(** [MAX] and [MIN] are the limits of the storage type in both
    languages. *)
Theorem FIXP_limits_cpp :
  WRAP_cpp H true (c_literal (storage_max H)) = Some (FIXP_MAX H) /\
  WRAP_cpp H true (c_literal (storage_min H)) = Some (FIXP_MIN H).
Proof. header_split; split; reflexivity. Qed.

End ArithProps.

Section ArithDialects.
Variables D1 D2 : Dialect.
Hypothesis Hle : dialect_le D1 D2.
Variables m n : Z.
Variable H : header.
Hypothesis Hwf : wf_header m n H.

(** The arithmetic core is monotone in the dialect: a result that
    [q_mul] or [q_div] has under a dialect is its result under every
    dialect that defines more; in particular what ISO C defines, GCC
    computes. *)
Theorem arith_dialect_mono (a b : Z) :
  refines (q_mul (D := D1) n H a b) (q_mul (D := D2) n H a b) /\
  refines (q_div (D := D1) n H a b) (q_div (D := D2) n H a b).
Proof.
  unfold q_mul, q_div. split.
  - apply refines_bind; [ apply refines_refl | intros p ].
    apply refines_bind; [ apply refines_refl | intros e ].
    apply refines_bind; [ | intros s; apply refines_refl ].
    apply c_shl_mono; [ exact Hle | cbn; lia ].
  - destruct (c_eq _ _); [ apply refines_refl | ].
    apply refines_bind; [ | intros d; apply refines_refl ].
    apply c_shl_mono; [ exact Hle | ]. cbn [cast cty].
    rewrite (wf_wide m n H Hwf); cbn [width].
    destruct (wf_width m n H Hwf) as [<-|[<-|[<-|[<-|[]]]]]; lia.
Qed.

End ArithDialects.

(** * Witnesses: the Q7.8 format (16-bit storage, 32-bit wide type) *)

Lemma Q7_8_range (z : Z) : -32768 <= z <= 32767 -> in_srange (storage_bits Q7_8) z.
Proof. intros Hz. unfold in_srange, smin, smax. cbn. lia. Defined.

Lemma Q31_0_range (z : Z) :
  -2147483648 <= z <= 2147483647 -> in_srange (storage_bits Q31_0) z.
Proof. intros Hz. unfold in_srange, smin, smax. cbn. lia. Defined.

(** Discharges the side conditions of a theorem applied to constants. *)
Ltac arith_wit :=
  repeat first
    [ lia | reflexivity | solve [ closed_Z ]
    | apply Q7_8_range | apply Q31_0_range ].

Lemma q_add_wraps_witness : q_add Q7_8 32767 1 = Ok (swrap 16 (32767 + 1)).
Proof. apply (q_add_wraps 7 8 Q7_8 Q7_8_wf); arith_wit. Defined.

Lemma q_sub_wraps_witness : q_sub Q7_8 (-32768) 1 = Ok (swrap 16 (-32768 - 1)).
Proof. apply (q_sub_wraps 7 8 Q7_8 Q7_8_wf); arith_wit. Defined.

Lemma q_mul_spec_witness :
  q_mul (D := iso_c) 8 Q7_8 384 512 = Ok (swrap 16 (mul_exact 8 384 512)).
Proof. apply (q_mul_spec 7 8 Q7_8 Q7_8_wf); arith_wit. Defined.

Lemma q_mul_frac0_faults_witness : q_mul (D := gnu_c) 0 Q31_0 3 4 = Err ShiftCount.
Proof. apply (q_mul_frac0_faults 31 0 Q31_0 Q31_0_wf); arith_wit. Defined.

Lemma q_div_by_zero_witness :
  q_div (D := iso_c) 8 Q7_8 (-5) 0 = Ok (div_saturated 16 (-5)).
Proof. apply (q_div_by_zero 7 8 Q7_8 Q7_8_wf); arith_wit. Defined.

Lemma q_div_nonneg_witness :
  q_div (D := iso_c) 8 Q7_8 384 512 = Ok (swrap 16 (div_exact 8 384 512)).
Proof. apply (q_div_nonneg 7 8 Q7_8 Q7_8_wf); arith_wit. Defined.

Lemma q_div_negative_iso_witness :
  q_div (D := iso_c) 8 Q7_8 (-384) 512 = Err ShiftNegative.
Proof. apply (q_div_negative_iso 7 8 Q7_8 Q7_8_wf); arith_wit. Defined.

Lemma q_div_gnu_witness :
  q_div (D := gnu_c) 8 Q7_8 (-384) 512 = Ok (swrap 16 (div_exact 8 (-384) 512)).
Proof. apply (q_div_gnu 7 8 Q7_8 Q7_8_wf); arith_wit. Defined.

Lemma Q16_32_range (z : Z) : - 2 ^ 63 <= z <= 2 ^ 63 - 1 -> in_srange (storage_bits Q16_32) z.
Proof. intros Hz. unfold in_srange, smin, smax. cbn in *. lia. Defined.

Lemma q_mul_wide_frac_iso_witness :
  q_mul (D := iso_c) 32 Q16_32 (2 ^ 32) (2 ^ 32) = Err ShiftOverflow.
Proof.
  apply (q_mul_wide_frac_iso 16 32 Q16_32 Q16_32_wf);
    try apply Q16_32_range; cbn; lia.
Defined.

Lemma q_mul_frac32_gnu_witness :
  q_mul (D := gnu_c) 32 Q16_32 (2 ^ 32) (2 ^ 32) =
  Ok (swrap (storage_bits Q16_32) ((2 ^ 32 * 2 ^ 32 - 2 ^ 31) / 2 ^ 32)).
Proof.
  apply (q_mul_frac32_gnu 16 32 Q16_32 Q16_32_wf);
    try apply Q16_32_range; cbn; lia.
Defined.

Lemma q_mul_half_up_witness :
  exists r, q_mul (D := iso_c) 8 Q7_8 (-384) 1 = Ok r /\
    - 2 ^ (8 - 1) <= -384 * 1 - r * 2 ^ 8 < 2 ^ (8 - 1) /\
    (forall k, -384 * 1 = k * 2 ^ 8 - 2 ^ (8 - 1) -> r = k).
Proof. apply (q_mul_half_up 7 8 Q7_8 Q7_8_wf); arith_wit. Defined.

Lemma q_mul_one_exact_witness :
  q_mul (D := iso_c) 8 Q7_8 (-12345) (cv (FIXP_ONE Q7_8)) = Ok (-12345).
Proof. apply (q_mul_one_exact 7 8 Q7_8 Q7_8_wf); arith_wit. Defined.

Lemma q_add_sub_inverse_witness :
  bind (q_add Q7_8 32767 32767) (fun s => q_sub Q7_8 s 32767) = Ok 32767.
Proof. apply (q_add_sub_inverse 7 8 Q7_8 Q7_8_wf); arith_wit. Defined.

Lemma q_add_max_wraps_witness : q_add Q7_8 (storage_max Q7_8) 1 = Ok (storage_min Q7_8).
Proof. apply (q_add_max_wraps 7 8 Q7_8 Q7_8_wf); arith_wit. Defined.

Lemma FIXP_ONE_branches_witness :
  FIXP_ONE Q0_7 = FIXP_MIN Q0_7 /\ WRAP_cpp Q0_7 true (c_literal (one_val Q0_7)) = None.
Proof.
  apply (proj2 (FIXP_ONE_branches 0 7 Q0_7 Q0_7_wf ltac:(lia))). reflexivity.
Defined.

Lemma arith_dialect_mono_witness :
  refines (q_mul (D := iso_c) 8 Q7_8 384 512) (q_mul (D := gnu_c) 8 Q7_8 384 512) /\
  refines (q_div (D := iso_c) 8 Q7_8 384 512) (q_div (D := gnu_c) 8 Q7_8 384 512).
Proof. apply (arith_dialect_mono iso_c gnu_c (iso_le gnu_c) 7 8 Q7_8 Q7_8_wf). Defined.
