(* ===== verification/MathHeader.v ===== *)
(** * MathHeader: constants and inline functions of the math header

    The macros [ONE], [HALF], [MAX], [MIN] and the inline functions
    [abs], [min], [max], [clamp], [floor], [ceil], [round], [trunc] that
    [generate_math_header] writes (generate_math_headers.py lines 38-94).
    A macro is an expression, evaluated where it is used: its model is
    a computation that can fault.  The section variables are the widths
    [m_bits], [n_bits] and the type [bt] that [base_type] returned. *)

From Stdlib Require Import ZArith Lia Bool List.
From S2P Require Import Prelude CInt Format.
Import ListNotations.
#[local] Open Scope Z_scope.
#[local] Open Scope res_scope.

(** * Specification of the rounding functions on raw values *)

(** The multiples of [2^n] are the integers of the format. *)
Definition on_grid (n x : Z) : Prop := x mod 2 ^ n = 0.

(** The integer above: [-floor(-x)]. *)
Definition grid_ceil (n x : Z) : Z := - grid_floor n (- x).

(** Truncation toward zero. *)
Definition grid_trunc (n x : Z) : Z :=
  if 0 <=? x then grid_floor n x else grid_ceil n x.

(** Rounding to the nearest integer, a tie going away from zero. *)
Definition grid_round (n x : Z) : Z :=
  if 0 <=? x then grid_floor n (x + 2 ^ (n - 1))
  else grid_ceil n (x - 2 ^ (n - 1)).

(** A raw value of type [bt] that is an integer of the format. *)
Definition grid_value (n : Z) (bt : ity) (r : Z) : Prop :=
  on_grid n r /\ in_range bt r.

(** * The emitted macros and functions *)

Section MathOps.
Context {D : Dialect}.
Variables m_bits n_bits : Z.
Variable bt : ity.

(** [typedef base_type q<m>_<n>_t]. *)
Definition q_t : ity := bt.

Definition qv (x : Z) : cval := CV q_t x.

(** The conversion of [return e;] and of an initialisation. *)
Definition as_q (v : cval) : Z := cv (cast q_t v).

(** The value of [c ? a : b] for operands of the types of [a] and [b]:
    the chosen operand, converted to their common type. *)
Definition cond (c : bool) (a b : cval) : cval :=
  cast (common a b) (if c then a else b).

(** [#define Q_ONE ((q_t)(1LL << n))]. *)
Definition Q_ONE : res cval :=
  v <- c_shl (litLL 1) (lit n_bits) ;;
  ret (cast q_t v).

(** [#define Q_HALF ((q_t)(1LL << (n - 1)))]. *)
Definition Q_HALF : res cval :=
  e <- c_sub (lit n_bits) (lit 1) ;;
  v <- c_shl (litLL 1) e ;;
  ret (cast q_t v).

(** [#define Q_MAX ((q_t)((1LL << (total_bits - 1)) - 1))]. *)
Definition Q_MAX : res cval :=
  e <- c_sub (lit (total_bits m_bits n_bits)) (lit 1) ;;
  v <- c_shl (litLL 1) e ;;
  w <- c_sub v (lit 1) ;;
  ret (cast q_t w).

(** [#define Q_MIN ((q_t)(-(1LL << (total_bits - 1))))]. *)
Definition Q_MIN : res cval :=
  e <- c_sub (lit (total_bits m_bits n_bits)) (lit 1) ;;
  v <- c_shl (litLL 1) e ;;
  w <- c_neg v ;;
  ret (cast q_t w).

(** [return (x < 0) ? -x : x;] *)
Definition q_abs (x : Z) : res Z :=
  if c_lt (qv x) (lit 0) then
    v <- c_neg (qv x) ;;
    ret (as_q (cond true v (qv x)))
  else ret (as_q (cast (promote q_t) (qv x))).

(** [return (a < b) ? a : b;] *)
Definition q_min (a b : Z) : res Z :=
  ret (as_q (cond (c_lt (qv a) (qv b)) (qv a) (qv b))).

(** [return (a > b) ? a : b;] *)
Definition q_max (a b : Z) : res Z :=
  ret (as_q (cond (c_gt (qv a) (qv b)) (qv a) (qv b))).

(** [return q_min(q_max(x, lo), hi);] *)
Definition q_clamp (x lo hi : Z) : res Z :=
  t <- q_max x lo ;;
  q_min t hi.

(** [const q_t frac_mask = Q_ONE - 1;] *)
Definition frac_mask : res cval :=
  one <- Q_ONE ;;
  d <- c_sub one (lit 1) ;;
  ret (cast q_t d).

(** [if (x >= 0) return x & ~frac_mask;
     else return (x & frac_mask) ? ((x & ~frac_mask) - Q_ONE) : x;] *)
Definition q_floor (x : Z) : res Z :=
  fm <- frac_mask ;;
  if c_ge (qv x) (lit 0) then
    ret (as_q (c_and (qv x) (c_not fm)))
  else if c_true (c_and (qv x) fm) then
    one <- Q_ONE ;;
    d <- c_sub (c_and (qv x) (c_not fm)) one ;;
    ret (as_q (cond true d (qv x)))
  else ret (as_q (cast (promote q_t) (qv x))).

(** [if (x >= 0) return (x & frac_mask) ? ((x & ~frac_mask) + Q_ONE) : x;
     else return x & ~frac_mask;] *)
Definition q_ceil (x : Z) : res Z :=
  fm <- frac_mask ;;
  if c_ge (qv x) (lit 0) then
    if c_true (c_and (qv x) fm) then
      one <- Q_ONE ;;
      s <- c_add (c_and (qv x) (c_not fm)) one ;;
      ret (as_q (cond true s (qv x)))
    else ret (as_q (cast (promote q_t) (qv x)))
  else ret (as_q (c_and (qv x) (c_not fm))).

(** [if (x >= 0) return (x + Q_HALF) & ~(Q_ONE - 1);
     else return (x - Q_HALF) & ~(Q_ONE - 1);] *)
Definition q_round (x : Z) : res Z :=
  if c_ge (qv x) (lit 0) then
    half <- Q_HALF ;;
    s <- c_add (qv x) half ;;
    one <- Q_ONE ;;
    d <- c_sub one (lit 1) ;;
    ret (as_q (c_and s (c_not d)))
  else
    half <- Q_HALF ;;
    s <- c_sub (qv x) half ;;
    one <- Q_ONE ;;
    d <- c_sub one (lit 1) ;;
    ret (as_q (c_and s (c_not d))).

(** [return x & ~(Q_ONE - 1);] *)
Definition q_trunc (x : Z) : res Z :=
  one <- Q_ONE ;;
  d <- c_sub one (lit 1) ;;
  ret (as_q (c_and (qv x) (c_not d))).

End MathOps.

Arguments q_t bt : assert.
Arguments qv bt x : assert.
Arguments as_q bt v : assert.

(** * Tactics *)

(** Splits a goal about the base type of a format into the four types;
    [k] adds the facts that mention the storage width before the split. *)
Ltac math_split_k k :=
  match goal with
  | Hbt : base_type ?m ?n = Return ?bt, Hm : 0 <= ?m, Hn : 0 <= ?n |- _ =>
      let sb := fresh "sb" in
      let Hsb := fresh "Hsb" in
      let Hnsb := fresh "Hnsb" in
      let Ht := fresh "Ht" in
      destruct (base_type_cases m n bt Hbt Hm Hn) as (sb & Hsb & Hnsb & Ht & ->);
      clear Hbt; unfold total_bits in *;
      pose proof (pow2_le_mono n (sb - 1) ltac:(lia));
      try pose proof (pow2_le_mono (n - 1) (sb - 2) ltac:(lia));
      try pose proof (pow2_le_mono n (sb - 2) ltac:(lia));
      pose proof (pow2_le_mono (m + n + 1 - 1) (sb - 1) ltac:(lia));
      k sb;
      destruct Hsb as [<-|[<-|[<-|[<-|[]]]]]
  end.

Ltac math_split := math_split_k ltac:(fun sb => idtac).

Ltac unfold_math :=
  unfold q_abs, q_min, q_max, q_clamp, q_floor, q_ceil, q_round, q_trunc,
    frac_mask, Q_ONE, Q_HALF, Q_MAX, Q_MIN, as_q, cond, qv, q_t, total_bits.

(** Runs a function to its result, casing on its comparisons. *)
Ltac math_eval :=
  unfold_math; c_start; c_eval;
  repeat (c_case; try lia; c_eval).

(** * The grid *)

Section Grid.
Variable n : Z.
Hypothesis Hn : 0 <= n.

Lemma grid_ceil_off (x : Z) :
  ~ on_grid n x -> grid_ceil n x = grid_floor n x + 2 ^ n.
Proof.
  unfold on_grid. intros Hx. unfold grid_ceil, grid_floor. pose proof (pow2_pos n Hn).
  pose proof (Z.div_mod x (2 ^ n) ltac:(lia)).
  pose proof (Z.mod_pos_bound x (2 ^ n) ltac:(lia)).
  assert (- x / 2 ^ n = - (x / 2 ^ n) - 1); [ | lia ].
  symmetry. apply (Z.div_unique_pos _ _ _ (2 ^ n - x mod 2 ^ n)); lia.
Qed.

Lemma grid_ceil_on (x : Z) : on_grid n x -> grid_ceil n x = x.
Proof.
  unfold on_grid. intros Hx. unfold grid_ceil. rewrite grid_floor_on_grid; try lia.
  pose proof (pow2_pos n Hn). rewrite Z.mod_opp_l_z; lia.
Qed.

Lemma grid_floor_is_on_grid (x : Z) : on_grid n (grid_floor n x).
Proof.
  unfold on_grid, grid_floor. rewrite Z.mul_comm. apply Z_mod_mult.
Qed.

Lemma on_grid_sub (x : Z) : on_grid n x -> on_grid n (x - 2 ^ n).
Proof.
  unfold on_grid. intros Hx. pose proof (pow2_pos n Hn).
  replace (x - 2 ^ n) with (x + (-1) * 2 ^ n) by lia.
  rewrite Z_mod_plus_full. exact Hx.
Qed.

Lemma on_grid_add (x : Z) : on_grid n x -> on_grid n (x + 2 ^ n).
Proof.
  unfold on_grid. intros Hx. replace (x + 2 ^ n) with (x + 1 * 2 ^ n) by lia.
  rewrite Z_mod_plus_full. exact Hx.
Qed.

Lemma on_grid_swrap (w x : Z) : n <= w -> on_grid n x -> on_grid n (swrap w x).
Proof. unfold on_grid. intros Hw Hx. rewrite swrap_mod_low by lia. exact Hx. Qed.

(** Half a unit below an integer, the floor is the integer below. *)
Lemma grid_floor_below_half (x : Z) :
  1 <= n -> on_grid n x -> grid_floor n (x - 2 ^ (n - 1)) = x - 2 ^ n.
Proof.
  unfold on_grid. intros Hn1 Hx. rewrite grid_floor_mod by assumption.
  pose proof (pow2_double n ltac:(lia)). pose proof (pow2_pos (n - 1) ltac:(lia)).
  assert ((x - 2 ^ (n - 1)) mod 2 ^ n = 2 ^ (n - 1)); [ | lia ].
  symmetry. apply (Z.mod_unique_pos _ _ (x / 2 ^ n - 1)); [ lia | ].
  pose proof (Z.div_mod x (2 ^ n) ltac:(lia)). lia.
Qed.

Lemma on_grid_dec (x : Z) : {on_grid n x} + {~ on_grid n x}.
Proof. unfold on_grid. apply Z.eq_dec. Defined.

(** Truncation toward zero is the floor for a value that is not
    negative or is an integer, and one integer above the floor
    otherwise. *)
Lemma grid_trunc_negative (x : Z) :
  x < 0 -> ~ on_grid n x -> grid_trunc n x = grid_floor n x + 2 ^ n.
Proof.
  intros Hx Hg. unfold grid_trunc. destruct (Z.leb_spec 0 x); [ lia | ].
  apply grid_ceil_off, Hg.
Qed.
End Grid.

Ltac grid_solve :=
  repeat first
    [ assumption
    | apply grid_floor_is_on_grid
    | apply on_grid_swrap; try lia
    | apply on_grid_sub; try lia
    | apply on_grid_add; try lia ].

(** * Theorems *)

Section MathProps.
Context {D : Dialect}.
Variables m n : Z.
Variable bt : ity.
Hypothesis Hbt : base_type m n = Return bt.
Hypothesis Hm : 0 <= m.
Hypothesis Hn : 0 <= n.

(** ** Constants *)

Lemma Q_ONE_value : 1 <= m -> Q_ONE n bt = Ok (CV bt (2 ^ n)).
Proof. intros Hm1. math_split; math_eval; c_done. Qed.

(** Without an integer bit, when the format fills its storage
    type ([m = 0] and [n + 1] bits of storage, as in Q0.7 and Q0.15),
    [2^n] is not a raw value and the macro [ONE] is the smallest value
    of the type, which represents -1. *)
Theorem Q_ONE_no_integer_bit :
  m = 0 -> bt = Int (n + 1) -> n < 63 ->
  Q_ONE n bt = Ok (CV bt (ty_min bt)).
Proof.
  intros Hm0 Hw Hn63.
  math_split; injection Hw as Hw;
    match type of Hw with
    | ?k = _ => let v := eval vm_compute in (k - 1) in assert (n = v) by lia
    end; subst n; try lia; cbn [ty_min]; unfold smin; math_eval; reflexivity.
Qed.

Lemma Q_HALF_value : 1 <= n -> Q_HALF n bt = Ok (CV bt (2 ^ (n - 1))).
Proof. intros Hn1. math_split; math_eval; c_done. Qed.

(** With no fractional bit the macro [HALF] is undefined: it
    shifts by [0 - 1]. *)
Theorem Q_HALF_frac0 : n = 0 -> Q_HALF n bt = Err ShiftCount.
Proof. intros Hn0. math_split; subst n; math_eval; reflexivity. Qed.

Lemma Q_MAX_value :
  total_bits m n <= 63 -> Q_MAX m n bt = Ok (CV bt (smax (total_bits m n))).
Proof.
  intros Ht63. unfold smax, total_bits in *.
  pose proof (pow2_le_mono (m + n + 1 - 1) 62 ltac:(lia)).
  math_split; math_eval; c_done.
Qed.

Lemma Q_MIN_value :
  total_bits m n <= 63 -> Q_MIN m n bt = Ok (CV bt (smin (total_bits m n))).
Proof.
  intros Ht63. unfold smin, total_bits in *.
  pose proof (pow2_le_mono (m + n + 1 - 1) 62 ltac:(lia)).
  math_split; math_eval; c_done.
Qed.

(** C26. The constants of a format with an integer bit, a fractional
    bit and at most 63 bits: [ONE] is [2^n], [HALF] is [2^(n-1)], and
    [MAX] and [MIN] are the bounds of a signed integer of [m + n + 1]
    bits, which are the bounds of the storage type only when the format
    fills it. *)
Theorem math_constants_spec :
  1 <= m -> 1 <= n -> total_bits m n <= 63 ->
  Q_ONE n bt = Ok (CV bt (2 ^ n)) /\
  Q_HALF n bt = Ok (CV bt (2 ^ (n - 1))) /\
  Q_MAX m n bt = Ok (CV bt (smax (total_bits m n))) /\
  Q_MIN m n bt = Ok (CV bt (smin (total_bits m n))).
Proof.
  intros Hm1 Hn1 Ht.
  auto using Q_ONE_value, Q_HALF_value, Q_MAX_value, Q_MIN_value.
Qed.

(** For a format of 64 bits the macros [MAX] and [MIN] are
    undefined in every dialect: [1LL << 63] does not fit [long long],
    and where it wraps the subtraction or the negation overflows. *)
Theorem Q_MAX_MIN_64_fault :
  total_bits m n = 64 ->
  is_ok (Q_MAX m n bt) = false /\ is_ok (Q_MIN m n bt) = false.
Proof.
  intros Ht64. unfold Q_MAX, Q_MIN. rewrite Ht64.
  math_split; try (unfold total_bits in *; lia).
  destruct D as [[|]]; split; reflexivity.
Qed.

(** ** abs, min, max, clamp *)

(** [q_abs] returns the absolute value of every raw value but
    the smallest one. *)
Theorem q_abs_spec (x : Z) :
  in_range bt x -> ty_min bt < x -> q_abs bt x = Ok (Z.abs x).
Proof.
  intros Hx Hlo.
  math_split; unfold ty_min, smin in Hlo; fold_consts_in Hlo;
    math_eval; c_done; f_equal; lia.
Qed.

(** At the smallest value [q_abs] returns that value, negative,
    when the storage type is narrower than [int] (the negation is done
    in [int] and converted back), and is undefined for the 32- and
    64-bit storage types, where the negation overflows. *)
Theorem q_abs_min :
  q_abs bt (ty_min bt) =
  if width bt <? 32 then Ok (ty_min bt) else Err SignedOverflow.
Proof.
  math_split; cbn [ty_min width]; unfold smin; fold_consts_in_goal;
    math_eval; reflexivity.
Qed.

Lemma q_min_spec (a b : Z) :
  in_range bt a -> in_range bt b -> q_min bt a b = Ok (Z.min a b).
Proof. intros Ha Hb. math_split; math_eval; c_done; f_equal; lia. Qed.

Lemma q_max_spec (a b : Z) :
  in_range bt a -> in_range bt b -> q_max bt a b = Ok (Z.max a b).
Proof. intros Ha Hb. math_split; math_eval; c_done; f_equal; lia. Qed.

(** C4. [q_clamp] returns [min (max x lo) hi]; for [lo <= hi] the
    result lies in [[lo, hi]] and is [x] when [x] does. *)
Theorem q_clamp_spec (x lo hi : Z) :
  in_range bt x -> in_range bt lo -> in_range bt hi ->
  q_clamp bt x lo hi = Ok (Z.min (Z.max x lo) hi) /\
  (lo <= hi -> lo <= Z.min (Z.max x lo) hi <= hi) /\
  (lo <= x <= hi -> Z.min (Z.max x lo) hi = x).
Proof.
  intros Hx Hlo Hhi. split; [ | lia ].
  unfold q_clamp. rewrite q_max_spec by assumption. cbn [bind].
  apply q_min_spec; [ | assumption ].
  unfold in_range in *. lia.
Qed.

(** ** Rounding *)

Lemma frac_mask_spec : 1 <= m -> frac_mask n bt = Ok (CV bt (2 ^ n - 1)).
Proof. intros Hm1. math_split; math_eval; c_done. Qed.

(** C30. [q_trunc] clears the fractional bits, which in two's
    complement rounds toward minus infinity: its result is the floor of
    [x] on the grid, for negative values too. *)
Theorem q_trunc_spec (x : Z) :
  1 <= m -> in_range bt x -> q_trunc n bt x = Ok (grid_floor n x).
Proof.
  intros Hm1 Hx.
  math_split_k ltac:(fun sb => pose proof (grid_floor_srange sb n x ltac:(lia) Hx));
    math_eval; c_done.
Qed.

(** [q_floor] is the floor for a value that is not negative or
    is an integer of the format. *)
Theorem q_floor_ok (x : Z) :
  1 <= m -> in_range bt x -> 0 <= x \/ on_grid n x ->
  q_floor n bt x = Ok (grid_floor n x).
Proof.
  intros Hm1 Hx Hg. unfold on_grid in Hg.
  math_split_k ltac:(fun sb => pose proof (grid_floor_srange sb n x ltac:(lia) Hx));
    math_eval; rewrite ?grid_floor_on_grid by lia; c_done.
Qed.

(** C28. For a negative value with fractional bits [q_floor] returns
    the integer below the floor: the mask has already rounded down when
    [ONE] is subtracted. *)
Theorem q_floor_negative (x : Z) :
  1 <= m -> in_range bt x -> x < 0 -> ~ on_grid n x ->
  in_range bt (grid_floor n x - 2 ^ n) ->
  q_floor n bt x = Ok (grid_floor n x - 2 ^ n).
Proof.
  intros Hm1 Hx Hx0 Hg Hlo. unfold on_grid in Hg.
  math_split_k ltac:(fun sb => pose proof (grid_floor_srange sb n x ltac:(lia) Hx));
    math_eval; c_done.
Qed.

(** [q_ceil] is the ceiling of a value that is not negative,
    when the ceiling is a raw value. *)
Theorem q_ceil_nonneg (x : Z) :
  1 <= m -> in_range bt x -> 0 <= x -> in_range bt (grid_ceil n x) ->
  q_ceil n bt x = Ok (grid_ceil n x).
Proof.
  intros Hm1 Hx Hx0 Hr.
  destruct (on_grid_dec n x) as [Hg | Hg];
    [ rewrite (grid_ceil_on n Hn x Hg) in * | rewrite (grid_ceil_off n Hn x Hg) in * ];
    unfold on_grid in Hg;
    (math_split_k ltac:(fun sb => pose proof (grid_floor_srange sb n x ltac:(lia) Hx));
     math_eval; c_done).
Qed.

(** For a negative value [q_ceil] returns the floor, which is
    one integer below the ceiling unless the value is an integer. *)
Theorem q_ceil_negative (x : Z) :
  1 <= m -> in_range bt x -> x < 0 ->
  q_ceil n bt x = Ok (grid_floor n x) /\
  (~ on_grid n x -> grid_floor n x = grid_ceil n x - 2 ^ n).
Proof.
  intros Hm1 Hx Hx0. split.
  - math_split_k ltac:(fun sb => pose proof (grid_floor_srange sb n x ltac:(lia) Hx));
      math_eval; c_done.
  - intros Hg. rewrite (grid_ceil_off n Hn x Hg). lia.
Qed.

(** [q_round] rounds a value that is not negative to the nearest
    integer, a tie going up, when [x + HALF] is a raw value. *)
Theorem q_round_nonneg (x : Z) :
  1 <= m -> 1 <= n -> in_range bt x -> 0 <= x ->
  in_range bt (x + 2 ^ (n - 1)) ->
  q_round n bt x = Ok (grid_round n x).
Proof.
  intros Hm1 Hn1 Hx Hx0 Hr. unfold grid_round.
  destruct (Z.leb_spec 0 x); [ | lia ].
  math_split_k ltac:(fun sb =>
    pose proof (grid_floor_srange sb n (x + 2 ^ (n - 1)) ltac:(lia) Hr));
    math_eval; c_done.
Qed.

(** C29. For a negative value [q_round] returns the floor of
    [x - HALF]: one integer below the nearest one, unless [x] lies
    exactly between two integers. *)
Theorem q_round_negative (x : Z) :
  1 <= m -> 1 <= n -> in_range bt x -> x < 0 ->
  in_range bt (x - 2 ^ (n - 1)) ->
  q_round n bt x = Ok (grid_floor n (x - 2 ^ (n - 1))) /\
  (~ on_grid n (x - 2 ^ (n - 1)) ->
   grid_floor n (x - 2 ^ (n - 1)) = grid_round n x - 2 ^ n).
Proof.
  intros Hm1 Hn1 Hx Hx0 Hr. split.
  - math_split_k ltac:(fun sb =>
      pose proof (grid_floor_srange sb n (x - 2 ^ (n - 1)) ltac:(lia) Hr));
      math_eval; c_done.
  - intros Hg. unfold grid_round. destruct (Z.leb_spec 0 x); [ lia | ].
    rewrite (grid_ceil_off n Hn _ Hg). lia.
Qed.

Lemma grid_floor_in_range (x : Z) : in_range bt x -> in_range bt (grid_floor n x).
Proof.
  intros Hx. destruct (base_type_cases m n bt Hbt Hm Hn) as (sb & _ & Hnsb & _ & ->).
  apply grid_floor_srange; assumption.
Qed.

(** A result of a rounding function is a raw value and an integer of
    the format, the results that wrapped around included. *)
Ltac grid_eval n x :=
  lazymatch goal with
  | Hx : in_range _ x |- _ =>
      unfold grid_value;
      math_split_k ltac:(fun sb => pose proof (grid_floor_srange sb n x ltac:(lia) Hx));
      math_eval; try exact I; (split; [ grid_solve | rng ])
  end.

Lemma q_floor_grid (x : Z) :
  1 <= m -> in_range bt x -> ensures (grid_value n bt) (q_floor n bt x).
Proof. intros Hm1 Hx. grid_eval n x. Qed.

Lemma q_ceil_grid (x : Z) :
  1 <= m -> in_range bt x -> ensures (grid_value n bt) (q_ceil n bt x).
Proof. intros Hm1 Hx. grid_eval n x. Qed.

Lemma q_trunc_grid (x : Z) :
  1 <= m -> in_range bt x -> ensures (grid_value n bt) (q_trunc n bt x).
Proof. intros Hm1 Hx. grid_eval n x. Qed.

Lemma q_round_grid (x : Z) :
  1 <= m -> 1 <= n -> in_range bt x -> ensures (grid_value n bt) (q_round n bt x).
Proof. intros Hm1 Hn1 Hx. grid_eval n x. Qed.

(** An integer of the format is a fixed point of [q_floor], [q_ceil]
    and [q_trunc]. *)
Ltac fix_eval n r :=
  lazymatch goal with
  | Hr : in_range _ r, Hg : on_grid n r |- _ =>
      unfold on_grid, grid_value in *;
      math_split_k ltac:(fun sb => pose proof (grid_floor_srange sb n r ltac:(lia) Hr));
      math_eval; rewrite ?grid_floor_on_grid by lia; c_done
  end.

Lemma q_floor_fix (r : Z) : 1 <= m -> grid_value n bt r -> q_floor n bt r = Ok r.
Proof. intros Hm1 [Hg Hr]. fix_eval n r. Qed.

Lemma q_ceil_fix (r : Z) : 1 <= m -> grid_value n bt r -> q_ceil n bt r = Ok r.
Proof. intros Hm1 [Hg Hr]. fix_eval n r. Qed.

Lemma q_trunc_fix (r : Z) : 1 <= m -> grid_value n bt r -> q_trunc n bt r = Ok r.
Proof. intros Hm1 [Hg Hr]. fix_eval n r. Qed.

(** C27. The invariant of the rounding functions: whenever [q_floor],
    [q_ceil], [q_trunc] or [q_round] returns, on any raw value, the
    result is a raw value and an integer of the format (a multiple of
    [2^n]), the results that wrapped around included. *)
Theorem rounding_on_grid (x : Z) :
  1 <= m -> in_range bt x ->
  ensures (grid_value n bt) (q_floor n bt x) /\
  ensures (grid_value n bt) (q_ceil n bt x) /\
  ensures (grid_value n bt) (q_trunc n bt x) /\
  (1 <= n -> ensures (grid_value n bt) (q_round n bt x)).
Proof.
  intros Hm1 Hx.
  split; [ | split; [ | split; [ | intros Hn1 ] ] ];
    auto using q_floor_grid, q_ceil_grid, q_trunc_grid, q_round_grid.
Qed.

(** [q_floor], [q_ceil] and [q_trunc] are idempotent: applied to
    a value one of them returned, each returns that value. *)
Theorem rounding_idempotent (x r : Z) :
  1 <= m -> in_range bt x ->
  (q_floor n bt x = Ok r -> q_floor n bt r = Ok r) /\
  (q_ceil n bt x = Ok r -> q_ceil n bt r = Ok r) /\
  (q_trunc n bt x = Ok r -> q_trunc n bt r = Ok r).
Proof.
  intros Hm1 Hx. split; [ | split ]; intros E.
  - apply q_floor_fix, (ensures_Ok _ _ _ (q_floor_grid x Hm1 Hx) E); assumption.
  - apply q_ceil_fix, (ensures_Ok _ _ _ (q_ceil_grid x Hm1 Hx) E); assumption.
  - apply q_trunc_fix, (ensures_Ok _ _ _ (q_trunc_grid x Hm1 Hx) E); assumption.
Qed.

(** [q_round] is not idempotent: it moves every negative integer
    of the format to the integer below, so that rounding a rounded
    negative value changes it again. *)
Theorem q_round_negative_integer (x : Z) :
  1 <= m -> 1 <= n -> in_range bt x -> x < 0 -> on_grid n x ->
  in_range bt (x - 2 ^ n) ->
  q_round n bt x = Ok (x - 2 ^ n).
Proof.
  intros Hm1 Hn1 Hx Hx0 Hg Hr.
  rewrite <- (grid_floor_below_half n Hn x Hn1 Hg) in *.
  pose proof (pow2_pos (n - 1) ltac:(lia)).
  math_split_k ltac:(fun sb => pose proof (grid_floor_le n (x - 2 ^ (n - 1)) Hn));
    math_eval; c_done.
Qed.

(** [q_trunc] does not truncate toward zero: on a negative value
    with fractional bits it returns the integer below the truncated
    value. *)
Theorem q_trunc_negative_low (x : Z) :
  1 <= m -> in_range bt x -> x < 0 -> ~ on_grid n x ->
  q_trunc n bt x = Ok (grid_trunc n x - 2 ^ n).
Proof.
  intros Hm1 Hx Hx0 Hg. rewrite (grid_trunc_negative n Hn x Hx0 Hg).
  replace (grid_floor n x + 2 ^ n - 2 ^ n) with (grid_floor n x) by lia.
  math_split_k ltac:(fun sb => pose proof (grid_floor_srange sb n x ltac:(lia) Hx));
    math_eval; c_done.
Qed.

End MathProps.

(** * Witnesses: the Q7.8 format, whose base type is [int16_t] *)

Lemma Q7_8_base : base_type 7 8 = Return int16_t.
Proof. reflexivity. Defined.

Lemma int16_range (z : Z) : -32768 <= z <= 32767 -> in_range int16_t z.
Proof. intros Hz. unfold in_range. cbn. lia. Defined.

Ltac math_wit :=
  repeat first
    [ lia | reflexivity | solve [ closed_Z ] | apply int16_range | left; lia ].

Lemma math_constants_spec_witness :
  Q_ONE (D := iso_c) 8 int32_t = Ok (CV int32_t (2 ^ 8)) /\
  Q_HALF (D := iso_c) 8 int32_t = Ok (CV int32_t (2 ^ (8 - 1))) /\
  Q_MAX (D := iso_c) 8 8 int32_t = Ok (CV int32_t (smax (total_bits 8 8))) /\
  Q_MIN (D := iso_c) 8 8 int32_t = Ok (CV int32_t (smin (total_bits 8 8))).
Proof. apply (math_constants_spec 8 8 int32_t); math_wit. Defined.

Lemma Q_ONE_no_integer_bit_witness :
  Q_ONE (D := iso_c) 7 int8_t = Ok (CV int8_t (ty_min int8_t)).
Proof. apply (Q_ONE_no_integer_bit 0 7 int8_t); math_wit. Defined.

Lemma Q_HALF_frac0_witness : Q_HALF (D := iso_c) 0 int32_t = Err ShiftCount.
Proof. apply (Q_HALF_frac0 31 0 int32_t); math_wit. Defined.

Lemma Q_MAX_MIN_64_fault_witness :
  is_ok (Q_MAX (D := gnu_c) 31 32 int64_t) = false /\
  is_ok (Q_MIN (D := gnu_c) 31 32 int64_t) = false.
Proof. apply (Q_MAX_MIN_64_fault 31 32 int64_t); math_wit. Defined.

Lemma q_abs_spec_witness : q_abs int16_t (-384) = Ok (Z.abs (-384)).
Proof. apply (q_abs_spec 7 8 int16_t Q7_8_base); math_wit. Defined.

Lemma q_abs_min_witness :
  q_abs int32_t (ty_min int32_t) =
  if width int32_t <? 32 then Ok (ty_min int32_t) else Err SignedOverflow.
Proof. apply (q_abs_min 15 16 int32_t); math_wit. Defined.

Lemma q_clamp_spec_witness :
  q_clamp int16_t 900 (-256) 256 = Ok (Z.min (Z.max 900 (-256)) 256) /\
  (-256 <= 256 -> -256 <= Z.min (Z.max 900 (-256)) 256 <= 256) /\
  (-256 <= 900 <= 256 -> Z.min (Z.max 900 (-256)) 256 = 900).
Proof. apply (q_clamp_spec 7 8 int16_t Q7_8_base); math_wit. Defined.

Lemma q_trunc_spec_witness :
  q_trunc (D := iso_c) 8 int16_t (-1) = Ok (grid_floor 8 (-1)).
Proof. apply (q_trunc_spec 7 8 int16_t Q7_8_base); math_wit. Defined.

Lemma q_floor_ok_witness :
  q_floor (D := iso_c) 8 int16_t 384 = Ok (grid_floor 8 384).
Proof. apply (q_floor_ok 7 8 int16_t Q7_8_base); math_wit. Defined.

Lemma q_floor_negative_witness :
  q_floor (D := iso_c) 8 int16_t (-1) = Ok (grid_floor 8 (-1) - 2 ^ 8).
Proof. apply (q_floor_negative 7 8 int16_t Q7_8_base); math_wit. Defined.

Lemma q_ceil_nonneg_witness :
  q_ceil (D := iso_c) 8 int16_t 384 = Ok (grid_ceil 8 384).
Proof. apply (q_ceil_nonneg 7 8 int16_t Q7_8_base); math_wit. Defined.

Lemma q_ceil_negative_witness :
  q_ceil (D := iso_c) 8 int16_t (-384) = Ok (grid_floor 8 (-384)) /\
  (~ on_grid 8 (-384) -> grid_floor 8 (-384) = grid_ceil 8 (-384) - 2 ^ 8).
Proof. apply (q_ceil_negative 7 8 int16_t Q7_8_base); math_wit. Defined.

Lemma q_round_nonneg_witness :
  q_round (D := iso_c) 8 int16_t 384 = Ok (grid_round 8 384).
Proof. apply (q_round_nonneg 7 8 int16_t Q7_8_base); math_wit. Defined.

Lemma q_round_negative_witness :
  q_round (D := iso_c) 8 int16_t (-64) = Ok (grid_floor 8 (-64 - 2 ^ (8 - 1))) /\
  (~ on_grid 8 (-64 - 2 ^ (8 - 1)) ->
   grid_floor 8 (-64 - 2 ^ (8 - 1)) = grid_round 8 (-64) - 2 ^ 8).
Proof. apply (q_round_negative 7 8 int16_t Q7_8_base); math_wit. Defined.

Lemma rounding_on_grid_witness :
  ensures (grid_value 8 int16_t) (q_floor (D := iso_c) 8 int16_t (-32767)) /\
  ensures (grid_value 8 int16_t) (q_ceil (D := iso_c) 8 int16_t (-32767)) /\
  ensures (grid_value 8 int16_t) (q_trunc (D := iso_c) 8 int16_t (-32767)) /\
  (1 <= 8 -> ensures (grid_value 8 int16_t) (q_round (D := iso_c) 8 int16_t (-32767))).
Proof. apply (rounding_on_grid 7 8 int16_t Q7_8_base); math_wit. Defined.

Lemma rounding_idempotent_witness :
  (q_floor (D := iso_c) 8 int16_t (-1) = Ok (-512) ->
   q_floor (D := iso_c) 8 int16_t (-512) = Ok (-512)) /\
  (q_ceil (D := iso_c) 8 int16_t (-1) = Ok (-512) ->
   q_ceil (D := iso_c) 8 int16_t (-512) = Ok (-512)) /\
  (q_trunc (D := iso_c) 8 int16_t (-1) = Ok (-512) ->
   q_trunc (D := iso_c) 8 int16_t (-512) = Ok (-512)).
Proof. apply (rounding_idempotent 7 8 int16_t Q7_8_base); math_wit. Defined.

Lemma q_round_negative_integer_witness :
  q_round (D := iso_c) 8 int16_t (-256) = Ok (-256 - 2 ^ 8).
Proof. apply (q_round_negative_integer 7 8 int16_t Q7_8_base); math_wit. Defined.

Lemma q_trunc_negative_low_witness :
  q_trunc (D := iso_c) 8 int16_t (-1) = Ok (grid_trunc 8 (-1) - 2 ^ 8).
Proof. apply (q_trunc_negative_low 7 8 int16_t Q7_8_base); math_wit. Defined.
