(* ===== verification/Consts.v ===== *)
(** * Consts: the Constant Generator

    The constants that are computed in floating point: the macros [PI]
    and [E] of the math header (generate_math_headers.py lines 41-42),
    which the C compiler evaluates, and the CORDIC gain and arctangent
    table, which Python evaluates in [generate_cordic_tables] (lines
    121-134) and [generate_cordic_c_file] writes into the C file (lines
    136-165).

    Every floating-point operation here is a product of a [double] by a
    power of two, which is exact, followed by a truncation toward zero:
    a double is modelled by its integer significand and its exponent,
    and no rounding is needed.  The values of the literals and of
    [math.atan (2.0 ** -i)] are the doubles nearest to them. *)

From Stdlib Require Import ZArith Lia Bool List.
From S2P Require Import Prelude CInt Format MathHeader.
Import ListNotations.
#[local] Open Scope Z_scope.
#[local] Open Scope res_scope.

(** * Doubles *)

(** The finite double [dm * 2 ^ de]. *)
Record double : Type := Dbl { dm : Z; de : Z }.

(** The integral part, toward zero: the value of [int(d)] in Python and
    of a conversion to an integer type in C. *)
Definition dbl_trunc (d : double) : Z :=
  if 0 <=? de d then dm d * 2 ^ de d else Z.quot (dm d) (2 ^ (- de d)).

(** The product of a double by an integer; exact, and so the product of
    the doubles, when the integer is a power of two or its opposite. *)
Definition dbl_mul_int (d : double) (v : Z) : double := Dbl (dm d * v) (de d).

(** The order of doubles, decided on integers. *)
Definition dbl_leb (d1 d2 : double) : bool :=
  let e := Z.min (de d1) (de d2) in
  dm d1 * 2 ^ (de d1 - e) <=? dm d2 * 2 ^ (de d2 - e).

(** [2.0 ** -i]. *)
Definition dbl_pow2 (e : Z) : double := Dbl 1 e.

(** Conversion of a double to the integer type [t] in C: the integral
    part, undefined when the type does not hold it. *)
Definition c_of_double (t : ity) (d : double) : res cval :=
  let z := dbl_trunc d in
  if in_rangeb t z then Ok (CV t z) else Err ConvRange.

(** * The literals *)

(** [3.14159265358979323846] *)
Definition pi_literal : double := Dbl 884279719003555 (-48).

(** [2.71828182845904523536] *)
Definition e_literal : double := Dbl 6121026514868073 (-51).

(** [0.60725293500888], the CORDIC gain [k]. *)
Definition cordic_gain : double := Dbl 85463252869551 (-47).

(** [math.atan(2.0 ** -i)] for [i] from 0 to 31. *)
Definition atan_pow2 : list double :=
  [ Dbl 884279719003555 (-50); Dbl 8352332796509007 (-54);
    Dbl 8826286527774941 (-55); Dbl 4480360856819639 (-55);
    Dbl 4497749271019253 (-56); Dbl 9004268940523045 (-58);
    Dbl 9006466354344603 (-59); Dbl 9007016009513623 (-60);
    Dbl 9007153442175927 (-61); Dbl 2251796950380271 (-60);
    Dbl 2251799097857775 (-61); Dbl 2251799634728303 (-62);
    Dbl 2251799768946007 (-63); Dbl 4503599605000875 (-65);
    Dbl 9007199243556181 (-67); Dbl 9007199251944789 (-68);
    Dbl 9007199254041941 (-69); Dbl 9007199254566229 (-70);
    Dbl 9007199254697301 (-71); Dbl 9007199254730069 (-72);
    Dbl 9007199254738261 (-73); Dbl 9007199254740309 (-74);
    Dbl 9007199254740821 (-75); Dbl 9007199254740949 (-76);
    Dbl 9007199254740981 (-77); Dbl 9007199254740989 (-78);
    Dbl 9007199254740991 (-79); Dbl 1 (-27); Dbl 1 (-28); Dbl 1 (-29);
    Dbl 1 (-30); Dbl 1 (-31) ].

(** * The macros of the header *)

Section ConstOps.
Context {D : Dialect}.
Variable n_bits : Z.
Variable bt : ity.

(** [((q_t)(d * (1LL << n)))]: the shift in [long long], the product in
    [double], the conversion to the type of the format. *)
Definition scaled (d : double) : res cval :=
  v <- c_shl (litLL 1) (lit n_bits) ;;
  c_of_double (q_t bt) (dbl_mul_int d (cv v)).

Definition Q_PI : res cval := scaled pi_literal.

Definition Q_E : res cval := scaled e_literal.

End ConstOps.

(** * The generator of the CORDIC tables *)

(** [int(d * (1 << n_bits))] in Python: the shift raises on a negative
    count, the conversion of the power of two to [float] on one that is
    too large; the product is exact. *)
Definition py_int_scaled (d : double) (n_bits : Z) : pyres Z :=
  (p <- py_shl 1 n_bits ;;
   _ <- py_float_pow2 n_bits ;;
   Return (dbl_trunc (dbl_mul_int d p)))%py.

(** [range(k)] consumed by a loop over a list of [len] values. *)
Definition py_range_take {A : Type} (k : Z) (l : list A) : list A :=
  firstn (Z.to_nat k) l.

Definition generate_cordic_tables (n_bits : Z) : pyres (Z * list Z) :=
  (k_fixed <- py_int_scaled cordic_gain n_bits ;;
   atan_table <- py_map (fun atan_val => py_int_scaled atan_val n_bits)
                   (py_range_take (Z.min n_bits 32) atan_pow2) ;;
   Return (k_fixed, atan_table))%py.

(** What [generate_cordic_c_file] computes before it fills the template:
    the type, the gain, the number of iterations that is the length of
    the C array, and the initialisers of the array. *)
Record cfile : Type := CFile {
  cf_type : ity;
  cf_k : Z;
  cf_iterations : Z;
  cf_table : list Z
}.

Definition generate_cordic_c_file (m_bits n_bits : Z) : pyres cfile :=
  (base_type <- base_type m_bits n_bits ;;
   kt <- generate_cordic_tables n_bits ;;
   Return (CFile base_type (fst kt) (Z.min n_bits 16) (snd kt)))%py.

(** * The constants of the C file *)

Section CordicConsts.
Variable cf : cfile.

(** [#define CORDIC_K ((q_t)k_fixed)]. *)
Definition CORDIC_K : cval := cast (q_t (cf_type cf)) (c_literal (cf_k cf)).

(** [#define CORDIC_ITERATIONS min(n, 16)]. *)
Definition CORDIC_ITERATIONS : cval := lit (cf_iterations cf).

(** [cordic_atan_table[i]]: the array has [CORDIC_ITERATIONS] elements,
    the initialisers converted to the element type, zero where there is
    none; an index outside the array is undefined. *)
Definition cordic_atan_table (i : Z) : res cval :=
  if (0 <=? i) && (i <? cf_iterations cf) then
    Ok (cast (q_t (cf_type cf)) (c_literal (nth (Z.to_nat i) (cf_table cf) 0)))
  else Err OutOfBounds.

End CordicConsts.

(** The C files of Q7.8 and Q15.16, formats of [main], used as concrete
    inputs. *)
Definition Q7_8_cfile : cfile :=
  CFile int16_t 155 8 [201; 118; 62; 31; 15; 7; 3; 1].

Definition Q15_16_cfile : cfile :=
  CFile int32_t 39796 16
    [51471; 30385; 16054; 8149; 4090; 2047; 1023; 511; 255; 127; 63; 31; 15;
     7; 3; 1].

(** * Specification *)

(** The raw value of a real constant: the double scaled by [2^n] and
    truncated. *)
Definition raw_of (d : double) (n : Z) : Z := dbl_trunc (dbl_mul_int d (2 ^ n)).

(** Rounding to nearest, for comparison. *)
Definition dbl_round (d : double) : Z :=
  if 0 <=? de d then dm d * 2 ^ de d
  else (dm d + 2 ^ (- de d - 1)) / 2 ^ (- de d).

(** The double at index [i] of the table. *)
Definition atan_at (i : Z) : double := nth (Z.to_nat i) atan_pow2 (Dbl 0 0).

(** The contract of the C file that the CORDIC engine relies on. *)
Class CordicTable (m n : Z) (cf : cfile) : Prop := {
  ct_type : base_type m n = Return (cf_type cf);
  ct_frac : 0 <= n;
  ct_iterations : cf_iterations cf = Z.min n 16;
  ct_k : cf_k cf = raw_of cordic_gain n;
  ct_length : cf_iterations cf <= Z.of_nat (length (cf_table cf));
  ct_entry : forall i, 0 <= i < cf_iterations cf ->
      nth (Z.to_nat i) (cf_table cf) 0 = raw_of (atan_at i) n
}.

(** Every double of [atan_pow2] is positive and at most [2 ^ -i] at its
    index [i], and the list decreases. *)
Fixpoint atan_checkb (i : Z) (l : list double) : bool :=
  match l with
  | [] => true
  | d :: l' =>
      (0 <? dm d) && (de d <=? - i) && (dm d <=? 2 ^ (- de d - i)) &&
      match l' with [] => true | d' :: _ => dbl_leb d' d end &&
      atan_checkb (i + 1) l'
  end.

(** * Lemmas on doubles *)

Section Doubles.
Variable d : double.
Variable n : Z.
Hypothesis Hn : 0 <= n.
Hypothesis Hde : de d <= 0.
Hypothesis Hdm : 0 <= dm d.

Lemma raw_of_eq : raw_of d n = (dm d * 2 ^ n) / 2 ^ (- de d).
Proof.
  unfold raw_of, dbl_trunc, dbl_mul_int. cbn [dm de].
  pose proof (pow2_pos n Hn). pose proof (pow2_pos (- de d) ltac:(lia)).
  destruct (Z.leb_spec 0 (de d)).
  - replace (de d) with 0 by lia. cbn. rewrite Z.div_1_r. lia.
  - apply Z.quot_div_nonneg; nia.
Qed.

(** A double between two integers scales to a raw value between their
    multiples of [2^n]. *)
Lemma raw_of_between (a b : Z) :
  a * 2 ^ (- de d) <= dm d < b * 2 ^ (- de d) ->
  a * 2 ^ n <= raw_of d n < b * 2 ^ n.
Proof.
  intros [Ha Hb]. rewrite raw_of_eq.
  pose proof (pow2_pos n Hn). pose proof (pow2_pos (- de d) ltac:(lia)).
  split.
  - apply Z.div_le_lower_bound; nia.
  - apply Z.div_lt_upper_bound; nia.
Qed.

(** A double of at most [2 ^ -i] scales to at most [2 ^ (n - i)]. *)
Lemma raw_of_le_pow2 (i : Z) :
  0 <= i <= n -> de d <= - i -> dm d <= 2 ^ (- de d - i) ->
  0 <= raw_of d n <= 2 ^ (n - i).
Proof.
  intros Hi Hei Hm. rewrite raw_of_eq.
  pose proof (pow2_pos n Hn). pose proof (pow2_pos (- de d) ltac:(lia)).
  pose proof (pow2_pos (n - i) ltac:(lia)).
  split; [ apply Z.div_pos; nia | ].
  apply Z.div_le_upper_bound; [ lia | ].
  replace (2 ^ (- de d) * 2 ^ (n - i)) with (2 ^ (- de d - i) * 2 ^ n); [ nia | ].
  rewrite <- !Z.pow_add_r by lia. f_equal. lia.
Qed.

End Doubles.

Lemma raw_of_mono (d1 d2 : double) (n : Z) :
  0 <= n -> de d1 <= 0 -> de d2 <= 0 -> 0 <= dm d1 ->
  dbl_leb d1 d2 = true -> raw_of d1 n <= raw_of d2 n.
Proof.
  intros Hn H1 H2 Hm Hle. unfold dbl_leb in Hle. apply Z.leb_le in Hle.
  set (e := Z.min (de d1) (de d2)) in *.
  pose proof (pow2_pos (de d1 - e) ltac:(lia)).
  pose proof (pow2_pos (de d2 - e) ltac:(lia)).
  pose proof (pow2_pos n Hn). pose proof (pow2_pos (- e) ltac:(lia)).
  assert (E : forall d, e <= de d -> de d <= 0 -> 0 <= dm d ->
            raw_of d n = (dm d * 2 ^ (de d - e) * 2 ^ n) / 2 ^ (- e)).
  { intros d He Hd0 Hd. rewrite raw_of_eq by assumption.
    replace (2 ^ (- e)) with (2 ^ (- de d) * 2 ^ (de d - e))
      by (rewrite <- Z.pow_add_r by lia; f_equal; lia).
    pose proof (pow2_pos (- de d) ltac:(lia)). pose proof (pow2_pos (de d - e) ltac:(lia)).
    replace (dm d * 2 ^ (de d - e) * 2 ^ n) with (dm d * 2 ^ n * 2 ^ (de d - e)) by lia.
    rewrite Z.div_mul_cancel_r by lia. reflexivity. }
  rewrite (E d1), (E d2); try lia.
  apply Z.div_le_mono; nia.
Qed.

(** * Lemmas on the table of arctangents *)

Lemma atan_checkb_nth (l : list double) (i0 : Z) (k : nat) (d : double) :
  atan_checkb i0 l = true -> nth_error l k = Some d ->
  0 < dm d /\ de d <= - (i0 + Z.of_nat k) /\
  dm d <= 2 ^ (- de d - (i0 + Z.of_nat k)) /\
  forall d', nth_error l (S k) = Some d' -> dbl_leb d' d = true.
Proof.
  revert i0 k. induction l as [|a l IH]; intros i0 k Hc Hk.
  - destruct k; discriminate Hk.
  - cbn [atan_checkb] in Hc. apply andb_prop in Hc as [Hc Hrest].
    apply andb_prop in Hc as [Hc Hnext]. apply andb_prop in Hc as [Hc Hm].
    apply andb_prop in Hc as [Hpos He].
    destruct k as [|k].
    + injection Hk as <-. apply Z.ltb_lt in Hpos. apply Z.leb_le in He, Hm.
      replace (i0 + Z.of_nat 0) with i0 by lia.
      repeat split; try assumption.
      intros d' Hd'. destruct l; [ discriminate Hd' | ]. injection Hd' as <-. exact Hnext.
    + replace (i0 + Z.of_nat (S k)) with (i0 + 1 + Z.of_nat k) by lia.
      apply IH; assumption.
Qed.

Lemma atan_pow2_ok : atan_checkb 0 atan_pow2 = true.
Proof. vm_compute. reflexivity. Qed.

Lemma atan_pow2_length : length atan_pow2 = 32%nat.
Proof. reflexivity. Qed.

Lemma atan_at_facts (i : Z) :
  0 <= i < 32 ->
  0 < dm (atan_at i) /\ de (atan_at i) <= - i /\
  dm (atan_at i) <= 2 ^ (- de (atan_at i) - i) /\
  (i + 1 < 32 -> dbl_leb (atan_at (i + 1)) (atan_at i) = true).
Proof.
  intros Hi. unfold atan_at.
  assert (Hlen : (Z.to_nat i < length atan_pow2)%nat) by (rewrite atan_pow2_length; lia).
  pose proof (atan_checkb_nth atan_pow2 0 (Z.to_nat i) _ atan_pow2_ok
                (nth_error_nth' atan_pow2 (Dbl 0 0) Hlen)) as (H1 & H2 & H3 & H4).
  rewrite Z.add_0_l, Z2Nat.id in H2, H3 by lia.
  repeat split; try assumption. intros Hi1. apply H4.
  replace (Z.to_nat (i + 1)) with (S (Z.to_nat i)) by lia.
  apply nth_error_nth'. rewrite atan_pow2_length. lia.
Qed.

(** An entry of the table is positive or zero, at most [2 ^ (n - i)],
    and at most the entry before it. *)
Lemma atan_entry_bound (n i : Z) :
  0 <= i < 32 -> i <= n -> 0 <= raw_of (atan_at i) n <= 2 ^ (n - i).
Proof.
  intros Hi Hn. destruct (atan_at_facts i Hi) as (H1 & H2 & H3 & _).
  apply raw_of_le_pow2; lia.
Qed.

Lemma atan_entry_mono (n i : Z) :
  0 <= i -> i + 1 < 32 -> 0 <= n ->
  raw_of (atan_at (i + 1)) n <= raw_of (atan_at i) n.
Proof.
  intros Hi Hi1 Hn.
  destruct (atan_at_facts i ltac:(lia)) as (H1 & H2 & _ & H4).
  destruct (atan_at_facts (i + 1) ltac:(lia)) as (H1' & H2' & _ & _).
  apply raw_of_mono; try lia. apply H4. lia.
Qed.

(** * Lemmas on the generator *)

Lemma py_int_scaled_spec (d : double) (n : Z) :
  0 <= n < 1024 -> py_int_scaled d n = Return (raw_of d n).
Proof.
  intros Hn. unfold py_int_scaled.
  rewrite (py_shl_one n), (py_float_pow2_ok n) by lia. reflexivity.
Qed.

Lemma py_map_total {A B : Type} (f : A -> pyres B) (g : A -> B) (l : list A) :
  (forall a, f a = Return (g a)) -> py_map f l = Return (map g l).
Proof.
  intros Hf. induction l as [|a l IH]; [ reflexivity | ].
  cbn [py_map map]. rewrite Hf, IH. reflexivity.
Qed.

Lemma generate_cordic_tables_spec (n : Z) :
  0 <= n < 1024 ->
  generate_cordic_tables n =
  Return (raw_of cordic_gain n,
          map (fun d => raw_of d n) (firstn (Z.to_nat (Z.min n 32)) atan_pow2)).
Proof.
  intros Hn. unfold generate_cordic_tables, py_range_take.
  rewrite py_int_scaled_spec by assumption. cbn [pybind].
  rewrite (py_map_total _ (fun d => raw_of d n)); [ reflexivity | ].
  intros d. apply py_int_scaled_spec, Hn.
Qed.

Lemma generate_cordic_tables_raises (n : Z) :
  (n < 0 -> generate_cordic_tables n = Raise ValueError) /\
  (1024 <= n -> generate_cordic_tables n = Raise OverflowError).
Proof.
  unfold generate_cordic_tables, py_int_scaled. split; intros Hn.
  - rewrite py_shl_neg by assumption. reflexivity.
  - rewrite py_shl_one by lia. unfold py_float_pow2.
    destruct (Z.leb_spec 1024 n); [ reflexivity | lia ].
Qed.

(** * Theorems *)

Section ConstProps.
Context {D : Dialect}.
Variables m n : Z.
Variable bt : ity.
Hypothesis Hbt : base_type m n = Return bt.
Hypothesis Hm : 0 <= m.
Hypothesis Hn : 0 <= n.

Lemma shl_one_LL : n <= 62 -> c_shl (litLL 1) (lit n) = Ok (CV c_long_long (2 ^ n)).
Proof.
  intros Hn62. pose proof (pow2_le_mono n 62 ltac:(lia)).
  c_start; c_eval; c_done.
Qed.

(** A scaled constant is the truncated product when the type holds it,
    and undefined when it does not. *)
Lemma scaled_spec (d : double) :
  n <= 62 ->
  scaled n bt d =
  if in_rangeb bt (raw_of d n) then Ok (CV bt (raw_of d n)) else Err ConvRange.
Proof.
  intros Hn62. unfold scaled. rewrite shl_one_LL by assumption. reflexivity.
Qed.

Lemma pi_between : 3 * 2 ^ n <= raw_of pi_literal n < 4 * 2 ^ n.
Proof. apply raw_of_between; cbn; lia. Qed.

Lemma e_between : 2 * 2 ^ n <= raw_of e_literal n < 3 * 2 ^ n.
Proof. apply raw_of_between; cbn; lia. Qed.

(** A constant below [4] fits a format with two integer bits, and one
    of at least [2] does not fit a storage type it leaves at most one
    bit of: the side conditions of the theorems on [PI] and [E]. *)
Lemma const_fits (z : Z) :
  2 <= m -> 0 <= z < 4 * 2 ^ n -> n <= 62 /\ in_range bt z.
Proof.
  intros Hm2 Hz.
  destruct (base_type_cases m n bt Hbt Hm Hn) as (sb & Hsb & Hnsb & Ht & ->).
  unfold total_bits in Ht. unfold in_range, ty_min, ty_max, smin, smax.
  pose proof (standard_width_bounds sb Hsb).
  pose proof (pow2_le_mono (n + 2) (sb - 1) ltac:(lia)).
  rewrite (pow2_add n 2) in * by lia. change (2 ^ 2) with 4 in *. lia.
Qed.

Lemma const_overflows (z : Z) :
  width bt - 2 <= n -> 2 * 2 ^ n <= z -> ~ in_range bt z.
Proof.
  intros Hw Hz.
  destruct (base_type_cases m n bt Hbt Hm Hn) as (sb & Hsb & Hnsb & Ht & ->).
  cbn [width] in Hw. unfold in_range, ty_min, ty_max, smin, smax.
  pose proof (standard_width_bounds sb Hsb).
  pose proof (pow2_le_mono (sb - 2) n ltac:(lia)).
  pose proof (pow2_double (sb - 1) ltac:(lia)).
  replace (sb - 1 - 1) with (sb - 2) in * by lia. lia.
Qed.

Lemma Q_PI_value : 2 <= m -> Q_PI n bt = Ok (CV bt (raw_of pi_literal n)).
Proof.
  intros Hm2. pose proof pi_between as Hpi.
  destruct (const_fits (raw_of pi_literal n) Hm2 ltac:(lia)) as [Hn62 Hr].
  unfold Q_PI. rewrite scaled_spec, in_rangeb_true by assumption. reflexivity.
Qed.

(** For a format with at least two integer bits the macro [PI] is
    the double nearest to pi, scaled by [2^n] and truncated: a raw value
    between [3 * 2^n] and [4 * 2^n]. *)
Theorem Q_PI_spec :
  2 <= m ->
  Q_PI n bt = Ok (CV bt (raw_of pi_literal n)) /\
  3 * 2 ^ n <= raw_of pi_literal n < 4 * 2 ^ n.
Proof. intros Hm2. split; [ apply Q_PI_value, Hm2 | apply pi_between ]. Qed.

(** C33. When the fractional bits leave at most one bit of the storage
    type ([n >= width - 2], as in Q0.7 and Q0.15), pi scaled by [2^n] is
    not a value of the type and the macro [PI] is undefined: the
    conversion of a double that the type cannot hold. *)
Theorem Q_PI_unrepresentable :
  width bt - 2 <= n -> n <= 62 -> Q_PI n bt = Err ConvRange.
Proof.
  intros Hw Hn62. pose proof pi_between as Hpi.
  unfold Q_PI. rewrite scaled_spec, in_rangeb_false; [ reflexivity | | assumption ].
  apply const_overflows; [ assumption | lia ].
Qed.

(** The macro [E] is the double nearest to e, scaled and truncated,
    for a format with two integer bits, and undefined under the same
    condition as [PI]. *)
Theorem Q_E_spec :
  n <= 62 ->
  (2 <= m -> Q_E n bt = Ok (CV bt (raw_of e_literal n))) /\
  (width bt - 2 <= n -> Q_E n bt = Err ConvRange).
Proof.
  intros Hn62. pose proof e_between as He. unfold Q_E. split; intros Hc.
  - destruct (const_fits (raw_of e_literal n) Hc ltac:(lia)) as [_ Hr].
    rewrite scaled_spec, in_rangeb_true by assumption. reflexivity.
  - rewrite scaled_spec, in_rangeb_false; [ reflexivity | | assumption ].
    apply const_overflows; [ assumption | lia ].
Qed.

End ConstProps.

(** * The tables *)

Section TableProps.
Variables m n : Z.
Variable cf : cfile.
Hypothesis Hgen : generate_cordic_c_file m n = Return cf.

Lemma generate_cordic_c_file_inv :
  0 <= n < 1024 /\ base_type m n = Return (cf_type cf) /\
  cf_k cf = raw_of cordic_gain n /\ cf_iterations cf = Z.min n 16 /\
  cf_table cf = map (fun d => raw_of d n) (firstn (Z.to_nat (Z.min n 32)) atan_pow2).
Proof.
  unfold generate_cordic_c_file in Hgen.
  destruct (base_type m n) as [t|e]; [ | discriminate Hgen ]. cbn [pybind] in Hgen.
  destruct (generate_cordic_tables_raises n) as [Hneg Hbig].
  destruct (Z.ltb_spec n 0) as [H0|H0]; [ rewrite Hneg in Hgen by lia; discriminate Hgen | ].
  destruct (Z.leb_spec 1024 n) as [H1|H1]; [ rewrite Hbig in Hgen by lia; discriminate Hgen | ].
  rewrite generate_cordic_tables_spec in Hgen by lia. cbn [pybind fst snd] in Hgen.
  injection Hgen as <-. cbn [cf_type cf_k cf_iterations cf_table]. auto.
Qed.

Lemma cf_table_length : Z.of_nat (length (cf_table cf)) = Z.min n 32.
Proof.
  destruct generate_cordic_c_file_inv as (Hn & _ & _ & _ & ->).
  rewrite length_map, length_firstn, atan_pow2_length. lia.
Qed.

Lemma cf_table_nth (i : Z) :
  0 <= i < Z.min n 32 -> nth (Z.to_nat i) (cf_table cf) 0 = raw_of (atan_at i) n.
Proof.
  intros Hi. destruct generate_cordic_c_file_inv as (Hn & _ & _ & _ & ->).
  assert (Hlen : (Z.to_nat i < length (firstn (Z.to_nat (Z.min n 32)) atan_pow2))%nat)
    by (rewrite length_firstn, atan_pow2_length; lia).
  rewrite (nth_indep _ 0 (raw_of (Dbl 0 0) n)) by (rewrite length_map; exact Hlen).
  rewrite (map_nth (fun d => raw_of d n)). f_equal.
  unfold atan_at. rewrite nth_firstn.
  destruct (Nat.ltb_spec (Z.to_nat i) (Z.to_nat (Z.min n 32))); [ reflexivity | lia ].
Qed.

Lemma cfile_contract : CordicTable m n cf.
Proof.
  destruct generate_cordic_c_file_inv as (Hn & Ht & Hk & Hi & Htab).
  constructor; try assumption; try lia.
  - rewrite cf_table_length. lia.
  - intros i Hi'. apply cf_table_nth. lia.
Qed.

(** C9. The C file that the generator returns satisfies the contract
    of the CORDIC engine: the type of the format, [min(n, 16)]
    iterations, the gain scaled and truncated, and for each iteration an
    initialiser that is the arctangent scaled and truncated.  The gain
    is a raw value below one, and the angles of the iterations are not
    negative, at most [2^(n-i)], and decreasing. *)
Theorem generate_cordic_c_file_table :
  CordicTable m n cf /\
  0 <= cf_k cf < 2 ^ n /\
  forall i, 0 <= i < cf_iterations cf ->
    0 <= nth (Z.to_nat i) (cf_table cf) 0 <= 2 ^ (n - i) /\
    (i + 1 < cf_iterations cf ->
     nth (Z.to_nat (i + 1)) (cf_table cf) 0 <= nth (Z.to_nat i) (cf_table cf) 0).
Proof.
  destruct generate_cordic_c_file_inv as (Hn & Ht & Hk & Hi & Htab).
  split; [ exact cfile_contract | ]. split.
  - rewrite Hk.
    assert (0 * 2 ^ n <= raw_of cordic_gain n < 1 * 2 ^ n)
      by (apply raw_of_between; cbn; lia).
    lia.
  - intros i Hi'. rewrite !cf_table_nth by lia.
    split; [ apply atan_entry_bound; lia | ].
    intros Hi1. rewrite cf_table_nth by lia. apply atan_entry_mono; lia.
Qed.

(** C34. For more than 16 fractional bits the array has more
    initialisers than elements: the table is computed for [min(n, 32)]
    entries and declared with [min(n, 16)]. *)
Theorem cf_table_excess :
  16 < n -> cv (CORDIC_ITERATIONS cf) < Z.of_nat (length (cf_table cf)).
Proof.
  intros Hn. unfold CORDIC_ITERATIONS, lit. cbn [cv]. destruct generate_cordic_c_file_inv as (_ & _ & _ & -> & _).
  rewrite cf_table_length. lia.
Qed.

End TableProps.

(** * The concrete C files *)

Lemma Q7_8_cfile_generated : generate_cordic_c_file 7 8 = Return Q7_8_cfile.
Proof. vm_compute. reflexivity. Qed.

Lemma Q15_16_cfile_generated : generate_cordic_c_file 15 16 = Return Q15_16_cfile.
Proof. vm_compute. reflexivity. Qed.

#[export] Instance Q7_8_table : CordicTable 7 8 Q7_8_cfile :=
  cfile_contract 7 8 Q7_8_cfile Q7_8_cfile_generated.

#[export] Instance Q15_16_table : CordicTable 15 16 Q15_16_cfile :=
  cfile_contract 15 16 Q15_16_cfile Q15_16_cfile_generated.

(** The table holds the arctangents truncated, not rounded to nearest:
    in Q7.8 every entry but the first is one below the rounded value. *)
Example atan_table_truncated :
  generate_cordic_tables 8 = Return (155, [201; 118; 62; 31; 15; 7; 3; 1]) /\
  map (fun d => dbl_round (dbl_mul_int d (2 ^ 8))) (firstn 8 atan_pow2) =
  [201; 119; 63; 32; 16; 8; 4; 2].
Proof. vm_compute. split; reflexivity. Qed.

(** * Witnesses *)

Lemma Q_PI_spec_witness :
  Q_PI (D := iso_c) 8 int16_t = Ok (CV int16_t (raw_of pi_literal 8)) /\
  3 * 2 ^ 8 <= raw_of pi_literal 8 < 4 * 2 ^ 8.
Proof. apply (Q_PI_spec 7 8 int16_t); first [ reflexivity | lia ]. Defined.

Lemma Q_PI_unrepresentable_witness : Q_PI (D := iso_c) 7 int8_t = Err ConvRange.
Proof.
  apply (Q_PI_unrepresentable 0 7 int8_t); first [ reflexivity | lia | cbn; lia ].
Defined.

Lemma Q_E_spec_witness :
  (2 <= 7 -> Q_E (D := iso_c) 8 int16_t = Ok (CV int16_t (raw_of e_literal 8))) /\
  (width int16_t - 2 <= 8 -> Q_E (D := iso_c) 8 int16_t = Err ConvRange).
Proof. apply (Q_E_spec 7 8 int16_t); first [ reflexivity | lia ]. Defined.

Lemma generate_cordic_c_file_table_witness :
  CordicTable 7 8 Q7_8_cfile /\
  0 <= cf_k Q7_8_cfile < 2 ^ 8 /\
  forall i, 0 <= i < cf_iterations Q7_8_cfile ->
    0 <= nth (Z.to_nat i) (cf_table Q7_8_cfile) 0 <= 2 ^ (8 - i) /\
    (i + 1 < cf_iterations Q7_8_cfile ->
     nth (Z.to_nat (i + 1)) (cf_table Q7_8_cfile) 0 <=
     nth (Z.to_nat i) (cf_table Q7_8_cfile) 0).
Proof. apply (generate_cordic_c_file_table 7 8 Q7_8_cfile). vm_compute. reflexivity. Defined.

Lemma cf_table_excess_witness :
  cv (CORDIC_ITERATIONS (CFile int32_t (raw_of cordic_gain 30) 16
                           (map (fun d => raw_of d 30) (firstn 30 atan_pow2)))) <
  Z.of_nat (length (map (fun d => raw_of d 30) (firstn 30 atan_pow2))).
Proof.
  apply (cf_table_excess 1 30 (CFile int32_t (raw_of cordic_gain 30) 16
           (map (fun d => raw_of d 30) (firstn 30 atan_pow2))));
    [ vm_compute; reflexivity | lia ].
Defined.
