(* ===== verification/Cordic.v ===== *)
(** * Cordic: the CORDIC engine and the trigonometric functions

    The functions of the C file that [generate_cordic_c_file] writes
    (generate_math_headers.py lines 167-282): [cordic_rotate],
    [cordic_vector], [sin], [cos], [tan], [atan2] and [atan].  The
    section variables are the widths [m_bits] and [n_bits] of the format
    and the constants [cf] of the C file; a value of the format is a raw
    integer, and a function returns its result or the undefined
    behaviour it reaches.

    The two [for] loops run [CORDIC_ITERATIONS] times by construction.
    The [while] loops of the range reduction take [fuel], a bound on the
    number of tests of their condition. *)

From Stdlib Require Import ZArith Lia Bool List.
From S2P Require Import Prelude CInt Format MathHeader Consts.
Import ListNotations.
#[local] Open Scope Z_scope.
#[local] Open Scope res_scope.

(** * Specification on integers *)

(** One CORDIC step on [(x, y, z)] with the angle [t] of the step: the
    rotation by [+t] when [pos], by [-t] otherwise. *)
Definition cordic_step (pos : bool) (i t : Z) (s : Z * Z * Z) : Z * Z * Z :=
  let '(x, y, z) := s in
  if pos then (x - Z.shiftr y i, y + Z.shiftr x i, z - t)
  else (x + Z.shiftr y i, y - Z.shiftr x i, z + t).

(** Rotation mode turns by the sign of the residual angle [z],
    vectoring mode by the sign of [y]. *)
Definition rot_step (i t : Z) (s : Z * Z * Z) : Z * Z * Z :=
  cordic_step (0 <=? snd s) i t s.

Definition vec_step (i t : Z) (s : Z * Z * Z) : Z * Z * Z :=
  cordic_step (snd (fst s) <? 0) i t s.

(** The steps [0, ..., k-1] from the state [s], with the angles of the
    table of the format. *)
Fixpoint cordic_run (step : Z -> Z -> Z * Z * Z -> Z * Z * Z) (n : Z) (k : nat)
  (s : Z * Z * Z) : Z * Z * Z :=
  match k with
  | O => s
  | S k' =>
      step (Z.of_nat k') (raw_of (atan_at (Z.of_nat k')) n) (cordic_run step n k' s)
  end.

(** The growth of a bound [B] on the magnitudes of [x] and [y] in step
    [i], and the bound after the steps [0, ..., k-1]. *)
Definition grow (i B : Z) : Z := B + (B + 2 ^ i - 1) / 2 ^ i.

Fixpoint bound_after (B : Z) (k : nat) : Z :=
  match k with
  | O => B
  | S k' => grow (Z.of_nat k') (bound_after B k')
  end.

(** The bound on the residual angle of rotation mode after the steps
    [0, ..., k-1]: a step of angle [t] takes a residual of at most [r] to
    one of at most [max (r - t) t]. *)
Fixpoint residual_after (n r : Z) (k : nat) : Z :=
  match k with
  | O => r
  | S k' =>
      let t := raw_of (atan_at (Z.of_nat k')) n in
      Z.max (residual_after n r k' - t) t
  end.

(** The bound on the angle that vectoring mode accumulates. *)
Fixpoint angle_sum (n : Z) (k : nat) : Z :=
  match k with
  | O => 0
  | S k' => angle_sum n k' + raw_of (atan_at (Z.of_nat k')) n
  end.

(** [|x| <= B] and [|y| <= B] for the first two components of a state. *)
Definition xy_within (B : Z) (s : Z * Z * Z) : Prop :=
  - B <= fst (fst s) <= B /\ - B <= snd (fst s) <= B.

(** The invariant of the two loops of the engine at the counter [j]: the
    state is the one the integer steps reach from [s0], its [x] and [y]
    are within the bound grown from [B], and its angle satisfies
    [zinv]. *)
Definition engine_inv (step : Z -> Z -> Z * Z * Z -> Z * Z * Z)
  (zinv : Z -> Z -> Prop) (n iters B : Z) (s0 : Z * Z * Z) (j : Z)
  (t : Z * Z * Z) : Prop :=
  0 <= j <= iters /\
  t = cordic_run step n (Z.to_nat j) s0 /\
  xy_within (bound_after B (Z.to_nat j)) t /\
  zinv j (snd t).

(** The bound grown from the gain stays below three units, checked for
    one fractional width. *)
Definition gain_bound_okb (n : Z) : bool :=
  bound_after (raw_of cordic_gain n) (Z.to_nat (Z.min n 16)) <=? 3 * 2 ^ n.

(** A linear bound on [bound_after B k]: the triple [(A, C, e)] with
    [2^e * bound_after B k <= A * B + C]. *)
Fixpoint lin_bound (k : nat) : Z * Z * Z :=
  match k with
  | O => (1, 0, 0)
  | S k' =>
      let '(A, C, e) := lin_bound k' in
      let i := Z.of_nat k' in
      ((2 ^ i + 1) * A, (2 ^ i + 1) * C + 2 ^ e * (2 ^ i - 1), e + i)
  end.

(** The angle of vectoring mode on [(x, y)], on integers. *)
Definition vector_raw (n x y : Z) : Z :=
  snd (cordic_run vec_step n (Z.to_nat (Z.min n 16)) (x, y, 0)).

(** [atan2] on integers: the angle of vectoring mode, reflected through
    [PI] when [x] is negative. *)
Definition atan2_raw (n y x : Z) : Z :=
  if (x =? 0) && (y =? 0) then 0
  else
    let v := vector_raw n x y in
    if x <? 0 then
      if 0 <=? y then raw_of pi_literal n - v else - raw_of pi_literal n + v
    else v.

(** The number of times each loop of the range reduction runs on the
    angle [a], for the half period [p]. *)
Definition down_steps (p a : Z) : Z := if p <? a then (a + p - 1) / (2 * p) else 0.

Definition up_steps (p a : Z) : Z := if a <? - p then (p - a - 1) / (2 * p) else 0.

(** The angle reduced into [[-p, p]], by one division: what the two
    loops compute. *)
Definition reduce_mod (p a : Z) : Z :=
  a - 2 * p * down_steps p a + 2 * p * up_steps p a.

(** The results of rotation mode on the angle [z], on integers. *)
Definition rotate_raw (n z : Z) : Z * Z :=
  let s := cordic_run rot_step n (Z.to_nat (Z.min n 16)) (raw_of cordic_gain n, 0, z) in
  (fst (fst s), snd (fst s)).

(** Sine and cosine of a raw angle, on integers: the reduction, the
    reflection of a negative angle, the rotation. *)
Definition sin_raw (n a : Z) : Z :=
  let r := reduce_mod (raw_of pi_literal n) a in
  if r <? 0 then - snd (rotate_raw n (- r)) else snd (rotate_raw n r).

Definition cos_raw (n a : Z) : Z :=
  let r := reduce_mod (raw_of pi_literal n) a in
  fst (rotate_raw n (Z.abs r)).

(** * The emitted functions *)

Section CordicOps.
Context {D : Dialect}.
Variables m_bits n_bits : Z.
Variable cf : cfile.

#[local] Notation "'bt'" := (cf_type cf).

(** The body of the loop of [cordic_rotate], on the state
    [(x_val, y_val, z)]:
    [if (z >= 0) { x_new = x_val - (y_val >> i); y_new = y_val + (x_val >> i);
                   z_new = z - cordic_atan_table[i]; }
     else { x_new = x_val + (y_val >> i); y_new = y_val - (x_val >> i);
            z_new = z + cordic_atan_table[i]; }
     x_val = x_new; y_val = y_new; z = z_new;] *)
Definition rotate_body (i : Z) (s : Z * Z * Z) : res (Z * Z * Z) :=
  let '(x_val, y_val, z) := s in
  if c_ge (qv bt z) (lit 0) then
    ys <- c_shr (qv bt y_val) (lit i) ;;
    x_new <- c_sub (qv bt x_val) ys ;;
    xs <- c_shr (qv bt x_val) (lit i) ;;
    y_new <- c_add (qv bt y_val) xs ;;
    t <- cordic_atan_table cf i ;;
    z_new <- c_sub (qv bt z) t ;;
    ret (as_q bt x_new, as_q bt y_new, as_q bt z_new)
  else
    ys <- c_shr (qv bt y_val) (lit i) ;;
    x_new <- c_add (qv bt x_val) ys ;;
    xs <- c_shr (qv bt x_val) (lit i) ;;
    y_new <- c_sub (qv bt y_val) xs ;;
    t <- cordic_atan_table cf i ;;
    z_new <- c_add (qv bt z) t ;;
    ret (as_q bt x_new, as_q bt y_new, as_q bt z_new).

(** [cordic_rotate(&x, &y, z)]: the pair it stores through [x] and [y]. *)
Definition cordic_rotate (z : Z) : res (Z * Z) :=
  let x_val := cv (CORDIC_K cf) in
  let y_val := 0 in
  s <- for_loop (Z.to_nat (cv (CORDIC_ITERATIONS cf))) 0 rotate_body (x_val, y_val, z) ;;
  ret (fst (fst s), snd (fst s)).

(** The body of the loop of [cordic_vector], on the state [(x, y, z)]:
    the same steps, chosen by the sign of [y]. *)
Definition vector_body (i : Z) (s : Z * Z * Z) : res (Z * Z * Z) :=
  let '(x, y, z) := s in
  if c_lt (qv bt y) (lit 0) then
    ys <- c_shr (qv bt y) (lit i) ;;
    x_new <- c_sub (qv bt x) ys ;;
    xs <- c_shr (qv bt x) (lit i) ;;
    y_new <- c_add (qv bt y) xs ;;
    t <- cordic_atan_table cf i ;;
    z_new <- c_sub (qv bt z) t ;;
    ret (as_q bt x_new, as_q bt y_new, as_q bt z_new)
  else
    ys <- c_shr (qv bt y) (lit i) ;;
    x_new <- c_add (qv bt x) ys ;;
    xs <- c_shr (qv bt x) (lit i) ;;
    y_new <- c_sub (qv bt y) xs ;;
    t <- cordic_atan_table cf i ;;
    z_new <- c_add (qv bt z) t ;;
    ret (as_q bt x_new, as_q bt y_new, as_q bt z_new).

Definition cordic_vector (x y : Z) : res Z :=
  s <- for_loop (Z.to_nat (cv (CORDIC_ITERATIONS cf))) 0 vector_body (x, y, 0) ;;
  ret (snd s).

(** [while (angle > PI) angle -= 2 * PI;] *)
Definition reduce_down_cond (angle : Z) : res bool :=
  pi <- Q_PI n_bits bt ;;
  ret (c_gt (qv bt angle) pi).

Definition reduce_down_body (angle : Z) : res Z :=
  pi <- Q_PI n_bits bt ;;
  t <- c_mul (lit 2) pi ;;
  d <- c_sub (qv bt angle) t ;;
  ret (as_q bt d).

(** [while (angle < -PI) angle += 2 * PI;] *)
Definition reduce_up_cond (angle : Z) : res bool :=
  pi <- Q_PI n_bits bt ;;
  np <- c_neg pi ;;
  ret (c_lt (qv bt angle) np).

Definition reduce_up_body (angle : Z) : res Z :=
  pi <- Q_PI n_bits bt ;;
  t <- c_mul (lit 2) pi ;;
  s <- c_add (qv bt angle) t ;;
  ret (as_q bt s).

(** The two loops that open [sin] and [cos]. *)
Definition reduce_angle (fuel : nat) (angle : Z) : res Z :=
  a <- while_loop fuel reduce_down_cond reduce_down_body angle ;;
  while_loop fuel reduce_up_cond reduce_up_body a.

(** [if (angle < 0) { angle = -angle; negate = true; }
     cordic_rotate(&x, &y, angle); return negate ? -y : y;] *)
Definition q_sin (fuel : nat) (angle : Z) : res Z :=
  a <- reduce_angle fuel angle ;;
  if c_lt (qv bt a) (lit 0) then
    na <- c_neg (qv bt a) ;;
    xy <- cordic_rotate (as_q bt na) ;;
    ny <- c_neg (qv bt (snd xy)) ;;
    ret (as_q bt (cond true ny (qv bt (snd xy))))
  else
    xy <- cordic_rotate a ;;
    ret (as_q bt (cast (promote bt) (qv bt (snd xy)))).

(** [if (angle < 0) angle = -angle; cordic_rotate(&x, &y, angle); return x;] *)
Definition q_cos (fuel : nat) (angle : Z) : res Z :=
  a <- reduce_angle fuel angle ;;
  if c_lt (qv bt a) (lit 0) then
    na <- c_neg (qv bt a) ;;
    xy <- cordic_rotate (as_q bt na) ;;
    ret (fst xy)
  else
    xy <- cordic_rotate a ;;
    ret (fst xy).

(** [s = sin(angle); c = cos(angle); if (c == 0) return MAX;
     return ((base_type)s << n) / c;] *)
Definition q_tan (fuel : nat) (angle : Z) : res Z :=
  s <- q_sin fuel angle ;;
  c <- q_cos fuel angle ;;
  if c_eq (qv bt c) (lit 0) then
    mx <- Q_MAX m_bits n_bits bt ;;
    ret (as_q bt mx)
  else
    sh <- c_shl (cast bt (qv bt s)) (lit n_bits) ;;
    q <- c_div sh (qv bt c) ;;
    ret (as_q bt q).

(** [if (x == 0 && y == 0) return 0;
     result = cordic_vector(x, y);
     if (x < 0) { if (y >= 0) result = PI - result; else result = -PI + result; }
     return result;] *)
Definition q_atan2 (y x : Z) : res Z :=
  if c_eq (qv bt x) (lit 0) && c_eq (qv bt y) (lit 0) then ret (as_q bt (lit 0))
  else
    result <- cordic_vector x y ;;
    if c_lt (qv bt x) (lit 0) then
      if c_ge (qv bt y) (lit 0) then
        pi <- Q_PI n_bits bt ;;
        r <- c_sub pi (qv bt result) ;;
        ret (as_q bt r)
      else
        pi <- Q_PI n_bits bt ;;
        np <- c_neg pi ;;
        r <- c_add np (qv bt result) ;;
        ret (as_q bt r)
    else ret result.

(** [return atan2(x, ONE);] *)
Definition q_atan (x : Z) : res Z :=
  one <- Q_ONE n_bits bt ;;
  q_atan2 x (cv one).

End CordicOps.

(** * Lemmas on the integer specification *)

Lemma grow_ge (i B : Z) : 0 <= i -> 0 <= B -> B <= grow i B.
Proof.
  intros Hi HB. unfold grow. pose proof (pow2_pos i Hi).
  pose proof (Z.div_pos (B + 2 ^ i - 1) (2 ^ i) ltac:(lia) ltac:(lia)). lia.
Qed.

Lemma bound_after_ge (B : Z) (k : nat) : 0 <= B -> B <= bound_after B k.
Proof.
  intros HB. induction k as [|k IH]; cbn [bound_after]; [ lia | ].
  pose proof (grow_ge (Z.of_nat k) (bound_after B k) ltac:(lia) ltac:(lia)). lia.
Qed.

Lemma bound_after_mono (B : Z) (j k : nat) :
  0 <= B -> (j <= k)%nat -> bound_after B j <= bound_after B k.
Proof.
  intros HB Hjk. induction Hjk as [|k Hjk IH]; [ lia | ]. cbn [bound_after].
  pose proof (bound_after_ge B k HB).
  pose proof (grow_ge (Z.of_nat k) (bound_after B k) ltac:(lia) ltac:(lia)). lia.
Qed.

(** A step keeps [x] and [y] within the grown bound, whatever its
    direction. *)
Lemma cordic_step_within (pos : bool) (i t B : Z) (s : Z * Z * Z) :
  0 <= i -> xy_within B s -> xy_within (grow i B) (cordic_step pos i t s).
Proof.
  destruct s as [[x y] z]. unfold xy_within, cordic_step, grow. cbn [fst snd].
  intros Hi [Hx Hy]. pose proof (pow2_pos i Hi).
  pose proof (shiftr_abs_le x i B Hi Hx). pose proof (shiftr_abs_le y i B Hi Hy).
  pose proof (Z.div_le_mono B (B + 2 ^ i - 1) (2 ^ i) ltac:(lia) ltac:(lia)).
  destruct pos; cbn [fst snd]; lia.
Qed.

Lemma cordic_step_z (pos : bool) (i t : Z) (s : Z * Z * Z) :
  snd (cordic_step pos i t s) = if pos then snd s - t else snd s + t.
Proof. destruct s as [[x y] z]. destruct pos; reflexivity. Qed.

(** Rotation mode brings the residual angle toward zero. *)
Lemma rot_step_residual (i t r : Z) (s : Z * Z * Z) :
  0 <= t -> - r <= snd s <= r ->
  - Z.max (r - t) t <= snd (rot_step i t s) <= Z.max (r - t) t.
Proof.
  intros Ht Hz. unfold rot_step. rewrite cordic_step_z.
  destruct (Z.leb_spec 0 (snd s)); lia.
Qed.

(** Vectoring mode adds or subtracts the angle of the step. *)
Lemma vec_step_angle (i t a : Z) (s : Z * Z * Z) :
  0 <= t -> - a <= snd s <= a -> - (a + t) <= snd (vec_step i t s) <= a + t.
Proof.
  intros Ht Hz. unfold vec_step. rewrite cordic_step_z.
  destruct (snd (fst s) <? 0); lia.
Qed.

(** The angles of the steps [0, ..., k-1] add up to less than [2^(n+1)]. *)
Lemma angle_sum_bound (n : Z) (k : nat) :
  Z.of_nat k <= n -> Z.of_nat k <= 32 ->
  0 <= angle_sum n k <= 2 ^ (n + 1) - 2 ^ (n + 1 - Z.of_nat k).
Proof.
  intros Hk H32. induction k as [|k IH].
  - cbn [angle_sum]. replace (n + 1 - Z.of_nat 0) with (n + 1) by lia. lia.
  - cbn [angle_sum]. specialize (IH ltac:(lia) ltac:(lia)).
    pose proof (atan_entry_bound n (Z.of_nat k) ltac:(lia) ltac:(lia)).
    pose proof (pow2_double (n + 1 - Z.of_nat k) ltac:(lia)).
    replace (n + 1 - Z.of_nat k - 1) with (n - Z.of_nat k) in * by lia.
    replace (n + 1 - Z.of_nat (S k)) with (n - Z.of_nat k) by lia. lia.
Qed.

Lemma lin_bound_spec (B : Z) (k : nat) :
  0 <= B ->
  0 <= snd (lin_bound k) /\ 0 <= fst (fst (lin_bound k)) /\
  0 <= snd (fst (lin_bound k)) /\
  2 ^ snd (lin_bound k) * bound_after B k <=
    fst (fst (lin_bound k)) * B + snd (fst (lin_bound k)).
Proof.
  intros HB. induction k as [|k IH].
  - cbn. lia.
  - cbn [lin_bound bound_after]. destruct (lin_bound k) as [[A C] e].
    cbn [fst snd] in *. destruct IH as (He & HA & HC & IH).
    set (i := Z.of_nat k). set (b := bound_after B k) in *.
    assert (Hi : 0 <= i) by lia.
    pose proof (pow2_pos i Hi). pose proof (pow2_pos e He).
    pose proof (Z.mul_div_le (b + 2 ^ i - 1) (2 ^ i) ltac:(lia)) as Hd.
    assert (Hg : 2 ^ i * grow i b <= (2 ^ i + 1) * b + (2 ^ i - 1))
      by (unfold grow; lia).
    rewrite (pow2_add e i) by lia.
    repeat split; try nia.
Qed.

(** Sixteen steps at most take a bound [B] to at most [5 * B + 15]. *)
Lemma bound_after_linear (B : Z) (k : nat) :
  0 <= B -> (k <= 16)%nat -> bound_after B k <= 5 * B + 15.
Proof.
  intros HB Hk. pose proof (bound_after_mono B k 16 HB Hk).
  pose proof (lin_bound_spec B 16 HB) as (_ & _ & _ & H16).
  set (b := bound_after B 16) in *. clearbody b.
  let v := eval vm_compute in (lin_bound 16) in change (lin_bound 16) with v in H16.
  cbn [fst snd] in H16. fold_consts_in H16. lia.
Qed.

(** ** The range reduction *)

Section Reduce.
Variable p : Z.
Hypothesis Hp : 0 < p.

Lemma down_steps_next (a : Z) :
  p < a -> down_steps p (a - 2 * p) = down_steps p a - 1 /\ 1 <= down_steps p a.
Proof.
  intros Ha. unfold down_steps.
  destruct (Z.ltb_spec p a); [ | lia ].
  replace (a - 2 * p + p - 1) with (a + p - 1 + (-1) * (2 * p)) by lia.
  rewrite Z.div_add by lia.
  pose proof (Z.div_le_lower_bound (a + p - 1) (2 * p) 1 ltac:(lia) ltac:(lia)).
  destruct (Z.ltb_spec p (a - 2 * p)); [ lia | ].
  pose proof (Z.div_lt_upper_bound (a + p - 1) (2 * p) 2 ltac:(lia) ltac:(lia)). lia.
Qed.

Lemma up_steps_next (a : Z) :
  a < - p -> up_steps p (a + 2 * p) = up_steps p a - 1 /\ 1 <= up_steps p a.
Proof.
  intros Ha. unfold up_steps.
  destruct (Z.ltb_spec a (- p)); [ | lia ].
  replace (p - (a + 2 * p) - 1) with (p - a - 1 + (-1) * (2 * p)) by lia.
  rewrite Z.div_add by lia.
  pose proof (Z.div_le_lower_bound (p - a - 1) (2 * p) 1 ltac:(lia) ltac:(lia)).
  destruct (Z.ltb_spec (a + 2 * p) (- p)); [ lia | ].
  pose proof (Z.div_lt_upper_bound (p - a - 1) (2 * p) 2 ltac:(lia) ltac:(lia)). lia.
Qed.

Lemma down_steps_nonneg (a : Z) : 0 <= down_steps p a.
Proof.
  unfold down_steps. destruct (Z.ltb_spec p a); [ | lia ].
  apply Z.div_pos; lia.
Qed.

Lemma up_steps_nonneg (a : Z) : 0 <= up_steps p a.
Proof.
  unfold up_steps. destruct (Z.ltb_spec a (- p)); [ | lia ].
  apply Z.div_pos; lia.
Qed.

(** Where the first loop leaves the angle. *)
Lemma down_result (a : Z) :
  a - 2 * p * down_steps p a <= p /\
  (p < a -> - p < a - 2 * p * down_steps p a).
Proof.
  unfold down_steps. destruct (Z.ltb_spec p a); [ | lia ].
  pose proof (Z.div_mod (a + p - 1) (2 * p) ltac:(lia)).
  pose proof (Z.mod_pos_bound (a + p - 1) (2 * p) ltac:(lia)). lia.
Qed.

Lemma up_result (a : Z) :
  - p <= a + 2 * p * up_steps p a /\
  (a < - p -> a + 2 * p * up_steps p a < p).
Proof.
  unfold up_steps. destruct (Z.ltb_spec a (- p)); [ | lia ].
  pose proof (Z.div_mod (p - a - 1) (2 * p) ltac:(lia)).
  pose proof (Z.mod_pos_bound (p - a - 1) (2 * p) ltac:(lia)). lia.
Qed.

(** The second loop runs on the angle the first one leaves as it would
    on the angle given. *)
Lemma up_steps_after_down (a : Z) :
  up_steps p (a - 2 * p * down_steps p a) = up_steps p a.
Proof.
  destruct (down_result a) as [_ Hlo]. unfold down_steps in *.
  destruct (Z.ltb_spec p a); [ | f_equal; lia ].
  specialize (Hlo ltac:(lia)). unfold up_steps.
  destruct (Z.ltb_spec (a - 2 * p * ((a + p - 1) / (2 * p))) (- p)); [ lia | ].
  destruct (Z.ltb_spec a (- p)); [ lia | reflexivity ].
Qed.

Lemma reduce_mod_range (a : Z) : - p <= reduce_mod p a <= p.
Proof.
  unfold reduce_mod. destruct (down_result a) as [Hd Hd']. destruct (up_result a) as [Hu Hu'].
  unfold down_steps, up_steps in *.
  destruct (Z.ltb_spec p a); destruct (Z.ltb_spec a (- p)); lia.
Qed.

Lemma reduce_mod_id (a : Z) : - p <= a <= p -> reduce_mod p a = a.
Proof.
  intros Ha. unfold reduce_mod, down_steps, up_steps.
  destruct (Z.ltb_spec p a); destruct (Z.ltb_spec a (- p)); lia.
Qed.

(** The reduction is odd. *)
Lemma reduce_mod_opp (a : Z) : reduce_mod p (- a) = - reduce_mod p a.
Proof.
  unfold reduce_mod, down_steps, up_steps.
  destruct (Z.ltb_spec p a); destruct (Z.ltb_spec a (- p));
    destruct (Z.ltb_spec p (- a)); destruct (Z.ltb_spec (- a) (- p)); try lia.
  - replace (p - - a - 1) with (a + p - 1) by lia. lia.
  - replace (- a + p - 1) with (p - a - 1) by lia. lia.
Qed.

End Reduce.

(** The iteration lengths the loops need are bounded by the magnitude
    of the angle. *)
Lemma reduce_steps_bound (p a : Z) :
  0 < p ->
  down_steps p a <= Z.abs a / (2 * p) + 1 /\ up_steps p a <= Z.abs a / (2 * p) + 1.
Proof.
  intros Hp. pose proof (Z.div_pos (Z.abs a) (2 * p) ltac:(lia) ltac:(lia)).
  unfold down_steps, up_steps.
  destruct (Z.ltb_spec p a); destruct (Z.ltb_spec a (- p)); try lia; split; try lia.
  - replace (Z.abs a / (2 * p) + 1) with ((Z.abs a + 1 * (2 * p)) / (2 * p))
      by (rewrite Z.div_add by lia; reflexivity).
    apply Z.div_le_mono; lia.
  - replace (Z.abs a / (2 * p) + 1) with ((Z.abs a + 1 * (2 * p)) / (2 * p))
      by (rewrite Z.div_add by lia; reflexivity).
    apply Z.div_le_mono; lia.
Qed.

Lemma reduce_mod_congr (p a : Z) : 0 < p -> (a - reduce_mod p a) mod (2 * p) = 0.
Proof.
  intros Hp. unfold reduce_mod.
  replace (a - (a - 2 * p * down_steps p a + 2 * p * up_steps p a))
    with ((down_steps p a - up_steps p a) * (2 * p)) by lia.
  apply Z_mod_mult.
Qed.

(** The integer sine is odd away from the multiples of the period, the
    integer cosine is even. *)
Lemma sin_raw_opp (n a : Z) :
  0 < raw_of pi_literal n -> reduce_mod (raw_of pi_literal n) a <> 0 ->
  sin_raw n (- a) = - sin_raw n a.
Proof.
  intros Hp Hr. unfold sin_raw. cbv zeta. rewrite reduce_mod_opp by assumption.
  set (r := reduce_mod _ a) in *.
  destruct (Z.ltb_spec (- r) 0); destruct (Z.ltb_spec r 0); try lia;
    rewrite ?Z.opp_involutive; lia.
Qed.

Lemma cos_raw_opp (n a : Z) :
  0 < raw_of pi_literal n -> cos_raw n (- a) = cos_raw n a.
Proof.
  intros Hp. unfold cos_raw. cbv zeta. rewrite reduce_mod_opp by assumption.
  rewrite Z.abs_opp. reflexivity.
Qed.

Lemma gain_bound_ok (n : Z) :
  0 <= n < 64 ->
  bound_after (raw_of cordic_gain n) (Z.to_nat (Z.min n 16)) <= 3 * 2 ^ n.
Proof.
  revert n.
  apply (forall_below
           (fun n => bound_after (raw_of cordic_gain n) (Z.to_nat (Z.min n 16)) <= 3 * 2 ^ n)
           gain_bound_okb 64).
  - intros z Hz. apply Z.leb_le, Hz.
  - vm_compute. reflexivity.
Qed.

(** * The engine against the contract of the table *)

Section CordicProps.
Context {D : Dialect}.
Variables m n : Z.
Variable cf : cfile.
Context {T : CordicTable m n cf}.
Hypothesis Hm : 1 <= m.

#[local] Notation "'bt'" := (cf_type cf).
#[local] Notation "'entry' i" := (raw_of (atan_at i) n) (at level 10).

Lemma ct_cases :
  exists sb, standard_width sb /\ 0 <= n /\ n + 2 <= sb /\ total_bits m n <= sb /\
             bt = Int sb.
Proof.
  destruct (base_type_cases m n bt ct_type ltac:(lia) ct_frac) as (sb & H1 & H2 & H3 & H4).
  exists sb. unfold total_bits in *. repeat split; try assumption; lia.
Qed.

Lemma ct_iterations_range : 0 <= cf_iterations cf <= 16 /\ cf_iterations cf <= n.
Proof. rewrite ct_iterations. pose proof ct_frac. lia. Qed.

Lemma ct_range_sym (z B : Z) : 0 <= B <= ty_max bt -> - B <= z <= B -> in_range bt z.
Proof.
  destruct ct_cases as (sb & _ & _ & _ & _ & ->).
  unfold in_range, ty_min, ty_max, smin, smax. lia.
Qed.

Lemma table_entry_range (i : Z) :
  0 <= i < cf_iterations cf -> 0 <= entry i <= 2 ^ n /\ in_range bt (entry i).
Proof.
  intros Hi. pose proof ct_iterations_range.
  pose proof (atan_entry_bound n i ltac:(lia) ltac:(lia)) as Hb.
  pose proof (pow2_le_mono (n - i) n ltac:(lia)).
  destruct ct_cases as (sb & Hsb & Hn & Hnsb & Ht & ->).
  pose proof (pow2_lt_mono n (sb - 1) ltac:(lia)).
  unfold in_range, ty_min, ty_max, smin, smax. lia.
Qed.

Lemma table_read (i : Z) :
  0 <= i < cf_iterations cf -> cordic_atan_table cf i = Ok (CV bt (entry i)).
Proof.
  intros Hi. unfold cordic_atan_table.
  destruct (Z.leb_spec 0 i); [ | lia ]. destruct (Z.ltb_spec i (cf_iterations cf)); [ | lia ].
  cbn [andb]. rewrite (@ct_entry m n cf T i Hi). unfold cast, q_t. rewrite cv_c_literal.
  destruct (table_entry_range i Hi) as [_ Hr].
  rewrite wrap_small; [ reflexivity | | exact Hr ].
  destruct ct_cases as (sb & Hsb & _ & _ & _ & ->).
  pose proof (standard_width_bounds sb Hsb). cbn [width]. lia.
Qed.

(** The gain is a raw value below one. *)
Lemma CORDIC_K_value :
  cv (CORDIC_K cf) = cf_k cf /\ 0 <= cf_k cf < 2 ^ n.
Proof.
  pose proof ct_frac as Hn. rewrite ct_k.
  assert (Hk : 0 * 2 ^ n <= raw_of cordic_gain n < 1 * 2 ^ n)
    by (apply raw_of_between; cbn; lia).
  split; [ | lia ]. unfold CORDIC_K, cast, q_t. cbn [cv]. rewrite cv_c_literal, ct_k.
  destruct ct_cases as (sb & Hsb & _ & Hnsb & _ & ->).
  pose proof (standard_width_bounds sb Hsb).
  pose proof (pow2_lt_mono n (sb - 1) ltac:(lia)).
  apply wrap_small; [ cbn [width]; lia | ].
  unfold in_range, ty_min, ty_max, smin, smax. lia.
Qed.

(** Runs the body of a loop of the engine on a state whose components,
    and those of the next one, are raw values. *)
Ltac body_eval i x y :=
  lazymatch goal with
  | Hi : 0 <= i < cf_iterations cf, Hx : in_range _ x, Hy : in_range _ y |- _ =>
      rewrite (table_read i Hi);
      destruct (table_entry_range i Hi) as [Ht Htr];
      pose proof ct_iterations_range;
      let sb := fresh "sb" in
      let Hsb := fresh "Hsb" in
      let E := fresh "E" in
      destruct ct_cases as (sb & Hsb & ? & ? & ? & E); rewrite E in *; clear E;
      pose proof (standard_width_bounds sb Hsb);
      pose proof (pow2_pos (sb - 1) ltac:(lia));
      assert (Hz0 : ty_min (Int sb) <= 0 <= ty_max (Int sb))
        by (unfold ty_min, ty_max, smin, smax; lia);
      pose proof (shiftr_range x i _ _ ltac:(lia) Hz0 Hx) as Hxs;
      pose proof (shiftr_range y i _ _ ltac:(lia) Hz0 Hy) as Hys;
      fold (in_range (Int sb) (Z.shiftr x i)) in Hxs;
      fold (in_range (Int sb) (Z.shiftr y i)) in Hys; clear Hz0;
      lazymatch goal with
      | |- context [Z.leb ?a ?b] => destruct (Z.leb_spec a b)
      | |- context [Z.ltb ?a ?b] => destruct (Z.ltb_spec a b)
      end;
      cbn [fst snd]; intros;
      destruct Hsb as [<-|[<-|[<-|[<-|[]]]]]; unfold as_q, qv, q_t;
      c_start; c_eval; try (c_case; try lia; c_eval); c_done
  end.

Lemma rotate_body_spec (i x y z : Z) :
  0 <= i < cf_iterations cf ->
  in_range bt x -> in_range bt y -> in_range bt z ->
  in_range bt (fst (fst (rot_step i (entry i) (x, y, z)))) ->
  in_range bt (snd (fst (rot_step i (entry i) (x, y, z)))) ->
  rotate_body cf i (x, y, z) = Ok (rot_step i (entry i) (x, y, z)).
Proof.
  intros Hi Hx Hy Hz. unfold rotate_body, rot_step, cordic_step. cbn [fst snd].
  body_eval i x y.
Qed.

Lemma vector_body_spec (i x y z : Z) :
  0 <= i < cf_iterations cf ->
  in_range bt x -> in_range bt y -> in_range bt z ->
  in_range bt (fst (fst (vec_step i (entry i) (x, y, z)))) ->
  in_range bt (snd (fst (vec_step i (entry i) (x, y, z)))) ->
  in_range bt (snd (vec_step i (entry i) (x, y, z))) ->
  vector_body cf i (x, y, z) = Ok (vec_step i (entry i) (x, y, z)).
Proof.
  intros Hi Hx Hy Hz. unfold vector_body, vec_step, cordic_step. cbn [fst snd].
  body_eval i x y.
Qed.

(** ** The loop, for either mode *)

Section Engine.
Variable body : Z -> Z * Z * Z -> res (Z * Z * Z).
Variable step : Z -> Z -> Z * Z * Z -> Z * Z * Z.
Variable zinv : Z -> Z -> Prop.
Variable B : Z.
Hypothesis HB : 0 <= B.
Hypothesis Hfit : bound_after B (Z.to_nat (cf_iterations cf)) <= ty_max bt.
Hypothesis step_dir : forall i t s, exists pos, step i t s = cordic_step pos i t s.
Hypothesis body_spec : forall i x y z,
  0 <= i < cf_iterations cf ->
  in_range bt x -> in_range bt y -> in_range bt z ->
  in_range bt (fst (fst (step i (entry i) (x, y, z)))) ->
  in_range bt (snd (fst (step i (entry i) (x, y, z)))) ->
  in_range bt (snd (step i (entry i) (x, y, z))) ->
  body i (x, y, z) = Ok (step i (entry i) (x, y, z)).
Hypothesis zinv_range : forall i z, zinv i z -> in_range bt z.
Hypothesis zinv_step : forall i s,
  0 <= i < cf_iterations cf -> zinv i (snd s) ->
  zinv (i + 1) (snd (step i (entry i) s)).

Lemma within_range (j : Z) (t : Z * Z * Z) :
  0 <= j <= cf_iterations cf -> xy_within (bound_after B (Z.to_nat j)) t ->
  in_range bt (fst (fst t)) /\ in_range bt (snd (fst t)).
Proof.
  intros Hj [Hx Hy].
  pose proof (bound_after_ge B (Z.to_nat j) HB).
  pose proof (bound_after_mono B (Z.to_nat j) (Z.to_nat (cf_iterations cf)) HB ltac:(lia)).
  split; apply (ct_range_sym _ (bound_after B (Z.to_nat j))); lia || assumption.
Qed.

Lemma engine_step (s0 : Z * Z * Z) (j : Z) (t : Z * Z * Z) :
  0 <= j < 0 + Z.of_nat (Z.to_nat (cf_iterations cf)) ->
  engine_inv step zinv n (cf_iterations cf) B s0 j t ->
  exists t', body j t = Ok t' /\
             engine_inv step zinv n (cf_iterations cf) B s0 (j + 1) t'.
Proof.
  intros Hj (Hj' & Ht & Hw & Hz).
  assert (Hi : 0 <= j < cf_iterations cf) by lia.
  exists (step j (entry j) t).
  assert (Hnext : Z.to_nat (j + 1) = S (Z.to_nat j)) by lia.
  assert (Hw' : xy_within (bound_after B (Z.to_nat (j + 1))) (step j (entry j) t)).
  { rewrite Hnext. cbn [bound_after]. rewrite Z2Nat.id by lia.
    destruct (step_dir j (entry j) t) as [pos ->].
    apply cordic_step_within; [ lia | exact Hw ]. }
  pose proof (zinv_step j t Hi Hz) as Hz'.
  destruct (within_range j t ltac:(lia) Hw) as [Hx Hy].
  destruct (within_range (j + 1) _ ltac:(lia) Hw') as [Hx' Hy'].
  split.
  - apply zinv_range in Hz, Hz'. destruct t as [[x y] z]. apply body_spec; assumption.
  - split; [ lia | split; [ | split; assumption ] ].
    rewrite Hnext. cbn [cordic_run]. rewrite Z2Nat.id by lia. rewrite <- Ht. reflexivity.
Qed.

(** The loop returns the state that the integer steps reach, within the
    bound. *)
Lemma engine_loop (s0 : Z * Z * Z) :
  xy_within B s0 -> zinv 0 (snd s0) ->
  let k := Z.to_nat (cf_iterations cf) in
  for_loop k 0 body s0 = Ok (cordic_run step n k s0) /\
  xy_within (bound_after B k) (cordic_run step n k s0) /\
  zinv (cf_iterations cf) (snd (cordic_run step n k s0)).
Proof.
  intros Hw Hz k. pose proof ct_iterations_range as Hit.
  destruct (for_loop_inv body (engine_inv step zinv n (cf_iterations cf) B s0) k 0 s0)
    as (t & Et & Hj & Ht & Hw' & Hz').
  - split; [ lia | split; [ reflexivity | split; assumption ] ].
  - intros j t Hj. apply engine_step, Hj.
  - subst k. rewrite Z.add_0_l, Z2Nat.id in * by lia.
    rewrite <- Ht. auto.
Qed.

End Engine.

(** ** Rotation mode *)

(** The loop of rotation mode refines the integer iteration: when the
    bound grown from the gain fits the type, it reaches no undefined
    behaviour on any angle and ends in the state that [min(n, 16)]
    integer steps reach from [(K, 0, z)]; [x] and [y] are within the
    bound, and the residual angle is within [residual_after]. *)
Lemma rotate_loop_run (z r : Z) :
  in_range bt z -> - r <= z <= r ->
  bound_after (cf_k cf) (Z.to_nat (cf_iterations cf)) <= ty_max bt ->
  let k := Z.to_nat (cf_iterations cf) in
  let s := cordic_run rot_step n k (cf_k cf, 0, z) in
  for_loop k 0 (rotate_body cf) (cf_k cf, 0, z) = Ok s /\
  xy_within (bound_after (cf_k cf) k) s /\
  - residual_after n r k <= snd s <= residual_after n r k.
Proof.
  intros Hz Hr Hfit k s. destruct CORDIC_K_value as [HK HKr].
  destruct (engine_loop (rotate_body cf) rot_step
              (fun i z => in_range bt z /\
                 - residual_after n r (Z.to_nat i) <= z <= residual_after n r (Z.to_nat i))
              (cf_k cf) ltac:(lia) Hfit) with (s0 := (cf_k cf, 0, z))
    as (E & Hw & _ & Hres).
  - intros i t u. eexists. reflexivity.
  - intros i x y z0 Hi Hx Hy Hz0 Hx' Hy' _. apply rotate_body_spec; assumption.
  - intros i z0 [H _]. exact H.
  - intros i u Hi [Hu Hru]. destruct (table_entry_range i Hi) as [Ht Htr].
    replace (Z.to_nat (i + 1)) with (S (Z.to_nat i)) by lia. cbn [residual_after].
    rewrite Z2Nat.id by lia. split; [ | apply rot_step_residual; [ lia | exact Hru ] ].
    unfold rot_step. rewrite cordic_step_z.
    destruct ct_cases as (sb & _ & _ & _ & _ & Ebt). rewrite Ebt in *.
    unfold in_range, ty_min, ty_max, smin, smax in *.
    destruct (Z.leb_spec 0 (snd u)); lia.
  - unfold xy_within. cbn [fst snd]. lia.
  - cbn [snd residual_after Z.to_nat]. auto.
  - subst k s. cbv zeta in *. auto.
Qed.

Lemma cordic_rotate_unfold (z : Z) :
  cordic_rotate cf z =
  bind (for_loop (Z.to_nat (cf_iterations cf)) 0 (rotate_body cf) (cf_k cf, 0, z))
       (fun s => Ok (fst (fst s), snd (fst s))).
Proof.
  destruct CORDIC_K_value as [HK _].
  unfold cordic_rotate, CORDIC_ITERATIONS, lit. cbv zeta. cbn [cv]. rewrite HK. reflexivity.
Qed.

(** With two integer bits the bound grown from the gain fits. *)
Lemma gain_bound_fits :
  2 <= m ->
  bound_after (cf_k cf) (Z.to_nat (cf_iterations cf)) <= 3 * 2 ^ n /\
  3 * 2 ^ n <= ty_max bt.
Proof.
  intros Hm2. destruct ct_cases as (sb & Hsb & Hn & Hnsb & Ht & Ebt).
  pose proof (standard_width_bounds sb Hsb). unfold total_bits in Ht.
  pose proof (gain_bound_ok n ltac:(lia)) as Hg.
  rewrite <- ct_k, <- ct_iterations in Hg.
  pose proof (pow2_le_mono (n + 2) (sb - 1) ltac:(lia)) as Hp.
  rewrite (pow2_add n 2) in Hp by lia. change (2 ^ 2) with 4 in Hp.
  pose proof (pow2_pos n Hn). rewrite Ebt. unfold ty_max, smax. lia.
Qed.

(** With two integer bits rotation mode returns the results of the
    integer iteration, at most three units in magnitude. *)
Lemma cordic_rotate_raw (z : Z) :
  2 <= m -> in_range bt z ->
  cordic_rotate cf z = Ok (rotate_raw n z) /\
  - (3 * 2 ^ n) <= fst (rotate_raw n z) <= 3 * 2 ^ n /\
  - (3 * 2 ^ n) <= snd (rotate_raw n z) <= 3 * 2 ^ n.
Proof.
  intros Hm2 Hz. destruct (gain_bound_fits Hm2) as [Hg Hfit].
  destruct (rotate_loop_run z (Z.abs z) Hz ltac:(lia) ltac:(lia)) as (E & [Hx Hy] & _).
  rewrite cordic_rotate_unfold, E. unfold rotate_raw. rewrite <- ct_k, <- ct_iterations.
  cbv zeta. split; [ reflexivity | cbn [fst snd]; lia ].
Qed.

(** C12. In every format with at least two integer bits rotation mode
    is defined on every angle: it reaches no undefined behaviour, and
    its results are at most three units in magnitude, so that they are
    raw values. *)
Theorem cordic_rotate_safe (z : Z) :
  2 <= m -> in_range bt z ->
  exists x y, cordic_rotate cf z = Ok (x, y) /\
    - (3 * 2 ^ n) <= x <= 3 * 2 ^ n /\ - (3 * 2 ^ n) <= y <= 3 * 2 ^ n /\
    in_range bt x /\ in_range bt y.
Proof.
  intros Hm2 Hz. destruct (cordic_rotate_raw z Hm2 Hz) as (E & Hx & Hy).
  destruct (gain_bound_fits Hm2) as [_ Hfit].
  exists (fst (rotate_raw n z)), (snd (rotate_raw n z)).
  rewrite <- surjective_pairing.
  repeat split; try assumption; try lia;
    apply (ct_range_sym _ (3 * 2 ^ n)); lia.
Qed.

(** The residual angle of rotation mode: when the bound grown from
    the gain fits the type, the loop of [cordic_rotate] ends, without
    undefined behaviour, in the state that the integer steps reach, and
    the angle that remains, from an angle of magnitude at most [r], is at
    most [residual_after n r] in magnitude. *)
Theorem cordic_rotate_residual (z r : Z) :
  in_range bt z -> - r <= z <= r ->
  bound_after (cf_k cf) (Z.to_nat (cf_iterations cf)) <= ty_max bt ->
  let k := Z.to_nat (cf_iterations cf) in
  for_loop k 0 (rotate_body cf) (cf_k cf, 0, z) =
    Ok (cordic_run rot_step n k (cf_k cf, 0, z)) /\
  Z.abs (snd (cordic_run rot_step n k (cf_k cf, 0, z))) <= residual_after n r k.
Proof.
  intros Hz Hr Hfit k.
  destruct (rotate_loop_run z r Hz Hr Hfit) as (E & _ & Hres).
  split; [ exact E | fold k in Hres; lia ].
Qed.

(** ** Vectoring mode *)

(** Vectoring mode refines the integer iteration: for [x] and [y] of
    magnitude at most [B], when the bound grown from [B] fits the type,
    [cordic_vector] reaches no undefined behaviour and returns the angle
    that the integer steps accumulate from [(x, y, 0)], which is less
    than two units in magnitude. *)
Lemma cordic_vector_run (x y B : Z) :
  - B <= x <= B -> - B <= y <= B ->
  bound_after B (Z.to_nat (cf_iterations cf)) <= ty_max bt ->
  let k := Z.to_nat (cf_iterations cf) in
  let z := snd (cordic_run vec_step n k (x, y, 0)) in
  cordic_vector cf x y = Ok z /\ - 2 ^ (n + 1) < z < 2 ^ (n + 1).
Proof.
  intros Hx Hy Hfit k z. pose proof ct_iterations_range as Hit.
  assert (Hsum : forall i, 0 <= i <= cf_iterations cf ->
            0 <= angle_sum n (Z.to_nat i) < 2 ^ (n + 1)).
  { intros i Hi. pose proof (angle_sum_bound n (Z.to_nat i) ltac:(lia) ltac:(lia)).
    pose proof (pow2_pos (n + 1 - Z.of_nat (Z.to_nat i)) ltac:(lia)). lia. }
  destruct (engine_loop (vector_body cf) vec_step
              (fun i z => 0 <= i <= cf_iterations cf /\
                 - angle_sum n (Z.to_nat i) <= z <= angle_sum n (Z.to_nat i))
              B ltac:(lia) Hfit) with (s0 := (x, y, 0))
    as (E & _ & _ & Hang).
  - intros i t u. eexists. reflexivity.
  - intros i x0 y0 z0 Hi Hx0 Hy0 Hz0 Hx' Hy' Hz'. apply vector_body_spec; assumption.
  - intros i z0 [Hi Hz0]. specialize (Hsum i Hi).
    destruct ct_cases as (sb & _ & _ & Hnsb & _ & ->).
    pose proof (pow2_le_mono (n + 1) (sb - 1) ltac:(lia)).
    unfold in_range, ty_min, ty_max, smin, smax. lia.
  - intros i u Hi [_ Hu]. destruct (table_entry_range i Hi) as [Ht _].
    split; [ lia | ].
    replace (Z.to_nat (i + 1)) with (S (Z.to_nat i)) by lia. cbn [angle_sum].
    rewrite Z2Nat.id by lia. apply vec_step_angle; [ lia | exact Hu ].
  - unfold xy_within. cbn [fst snd]. lia.
  - cbn [snd angle_sum Z.to_nat]. lia.
  - subst k z. unfold cordic_vector, CORDIC_ITERATIONS, lit. cbv zeta in *.
    cbn [cv]. rewrite E. cbn [bind ret].
    specialize (Hsum (cf_iterations cf) ltac:(lia)). split; [ reflexivity | lia ].
Qed.

(** For [x] and [y] of magnitude at most [B] with [5 * B + 15] in the
    type, vectoring mode returns the angle of the integer iteration. *)
Lemma cordic_vector_raw (x y B : Z) :
  - B <= x <= B -> - B <= y <= B -> 5 * B + 15 <= ty_max bt ->
  cordic_vector cf x y = Ok (vector_raw n x y) /\
  - 2 ^ (n + 1) < vector_raw n x y < 2 ^ (n + 1).
Proof.
  intros Hx Hy HB. pose proof ct_iterations_range.
  pose proof (bound_after_linear B (Z.to_nat (cf_iterations cf)) ltac:(lia) ltac:(lia)).
  unfold vector_raw. rewrite <- ct_iterations.
  apply (cordic_vector_run x y B); lia || assumption.
Qed.

End CordicProps.

(** * The trigonometric functions *)

Section TrigProps.
Context {D : Dialect}.
Variables m n : Z.
Variable cf : cfile.
Context {T : CordicTable m n cf}.
Hypothesis Hm : 3 <= m.

#[local] Notation "'bt'" := (cf_type cf).
#[local] Notation "'PI'" := (raw_of pi_literal n).

Lemma PI_value : Q_PI n bt = Ok (CV bt PI) /\ 3 * 2 ^ n <= PI < 4 * 2 ^ n.
Proof.
  pose proof ct_frac. split; [ | apply pi_between; assumption ].
  apply (Q_PI_value m); [ apply ct_type | lia | assumption | lia ].
Qed.

Lemma PI_range : 0 < PI /\ in_range bt PI /\ in_range bt (- PI).
Proof.
  destruct PI_value as [_ HPI]. pose proof (pow2_pos n ct_frac).
  destruct (ct_cases m n cf ltac:(lia)) as (sb & Hsb & Hn & _ & Ht & E).
  unfold total_bits in Ht.
  pose proof (pow2_le_mono (n + 2) (sb - 1) ltac:(lia)) as Hp.
  rewrite (pow2_add n 2) in Hp by lia. change (2 ^ 2) with 4 in Hp.
  split; [ lia | ].
  split; apply (ct_range_sym m n cf ltac:(lia) _ PI); rewrite ?E;
    unfold ty_max, smax; lia.
Qed.

(** Runs a statement that uses [PI] in each of the four types; [k] adds
    the facts that mention the width before the split. *)
Ltac trig_split_k k :=
  let sb := fresh "sb" in
  let Hsb := fresh "Hsb" in
  let E := fresh "E" in
  let Hp4 := fresh "Hp4" in
  let Ht := fresh "Ht" in
  let HPI := fresh "HPI" in
  let p := fresh "p" in
  let EPI := fresh "EPI" in
  destruct PI_value as [EPI HPI]; rewrite ?EPI; clear EPI; cbn [bind];
  destruct (ct_cases m n cf ltac:(lia)) as (sb & Hsb & ? & ? & Ht & E);
  unfold total_bits in Ht; rewrite E in *; clear E;
  pose proof (pow2_le_mono (n + 4) sb ltac:(lia)) as Hp4;
  rewrite (pow2_add n 4) in Hp4 by lia; change (2 ^ 4) with 16 in Hp4;
  set (p := PI) in *; clearbody p;
  k sb;
  destruct Hsb as [<-|[<-|[<-|[<-|[]]]]]; unfold as_q, qv, q_t, cond;
  c_start; c_eval.

Ltac trig_split := trig_split_k ltac:(fun sb => idtac).

Lemma reduce_down_cond_spec (a : Z) :
  in_range bt a -> reduce_down_cond n cf a = Ok (PI <? a).
Proof.
  intros Ha. unfold reduce_down_cond. trig_split; rewrite Z.gtb_ltb; reflexivity.
Qed.

Lemma reduce_down_body_spec (a : Z) :
  in_range bt a -> PI < a -> reduce_down_body n cf a = Ok (a - 2 * PI).
Proof. intros Ha Hpa. unfold reduce_down_body. trig_split; c_done. Qed.

Lemma reduce_up_cond_spec (a : Z) :
  in_range bt a -> reduce_up_cond n cf a = Ok (a <? - PI).
Proof. intros Ha. unfold reduce_up_cond. trig_split; reflexivity. Qed.

Lemma reduce_up_body_spec (a : Z) :
  in_range bt a -> a < - PI -> reduce_up_body n cf a = Ok (a + 2 * PI).
Proof. intros Ha Hpa. unfold reduce_up_body. trig_split; c_done. Qed.

(** The first loop subtracts [2 * PI] [down_steps] times. *)
Lemma reduce_down_loop (fuel : nat) (a : Z) :
  in_range bt a -> down_steps PI a < Z.of_nat fuel ->
  while_loop fuel (reduce_down_cond n cf) (reduce_down_body n cf) a =
  Ok (a - 2 * PI * down_steps PI a).
Proof.
  intros Ha Hf. destruct PI_range as (Hp & Hpr & Hnr).
  destruct (while_loop_variant (reduce_down_cond n cf) (reduce_down_body n cf)
              (fun t => in_range bt t /\
                 t - 2 * PI * down_steps PI t = a - 2 * PI * down_steps PI a)
              (down_steps PI) fuel a) as (t & E & [Ht Hinv] & Hc & _); auto.
  - intros t [Ht Hinv]. split; [ apply down_steps_nonneg, Hp | ].
    exists (PI <? t). split; [ apply reduce_down_cond_spec, Ht | ].
    intros Hb. apply Z.ltb_lt in Hb. exists (t - 2 * PI).
    destruct (down_steps_next PI Hp t Hb) as [Hn1 Hn2].
    split; [ apply reduce_down_body_spec; assumption | ].
    split; [ split | lia ]; [ unfold in_range in *; lia | rewrite Hn1; lia ].
  - rewrite E. f_equal. rewrite reduce_down_cond_spec in Hc by assumption.
    injection Hc as Hc. unfold down_steps in Hinv at 1. rewrite Hc in Hinv. lia.
Qed.

(** The second loop adds [2 * PI] [up_steps] times. *)
Lemma reduce_up_loop (fuel : nat) (a : Z) :
  in_range bt a -> up_steps PI a < Z.of_nat fuel ->
  while_loop fuel (reduce_up_cond n cf) (reduce_up_body n cf) a =
  Ok (a + 2 * PI * up_steps PI a).
Proof.
  intros Ha Hf. destruct PI_range as (Hp & Hpr & Hnr).
  destruct (while_loop_variant (reduce_up_cond n cf) (reduce_up_body n cf)
              (fun t => in_range bt t /\
                 t + 2 * PI * up_steps PI t = a + 2 * PI * up_steps PI a)
              (up_steps PI) fuel a) as (t & E & [Ht Hinv] & Hc & _); auto.
  - intros t [Ht Hinv]. split; [ apply up_steps_nonneg, Hp | ].
    exists (t <? - PI). split; [ apply reduce_up_cond_spec, Ht | ].
    intros Hb. apply Z.ltb_lt in Hb. exists (t + 2 * PI).
    destruct (up_steps_next PI Hp t Hb) as [Hn1 Hn2].
    split; [ apply reduce_up_body_spec; assumption | ].
    split; [ split | lia ]; [ unfold in_range in *; lia | rewrite Hn1; lia ].
  - rewrite E. f_equal. rewrite reduce_up_cond_spec in Hc by assumption.
    injection Hc as Hc. unfold up_steps in Hinv at 1. rewrite Hc in Hinv. lia.
Qed.

(** The two loops compute the reduction by division. *)
Lemma reduce_angle_run (fuel : nat) (a : Z) :
  in_range bt a ->
  down_steps PI a < Z.of_nat fuel -> up_steps PI a < Z.of_nat fuel ->
  reduce_angle n cf fuel a = Ok (reduce_mod PI a) /\
  in_range bt (reduce_mod PI a) /\ - PI <= reduce_mod PI a <= PI.
Proof.
  intros Ha Hd Hu. destruct PI_range as (Hp & Hpr & Hnr).
  pose proof (reduce_mod_range PI Hp a) as Hr.
  split; [ | split; [ unfold in_range in *; lia | exact Hr ] ].
  unfold reduce_angle. rewrite reduce_down_loop by assumption. cbn [bind].
  pose proof (down_result PI Hp a) as [Hd1 Hd2].
  pose proof (down_steps_nonneg PI Hp a).
  rewrite reduce_up_loop; rewrite ?up_steps_after_down by assumption; try assumption.
  - reflexivity.
  - unfold in_range in *. unfold down_steps in *.
    destruct (Z.ltb_spec PI a); [ specialize (Hd2 ltac:(lia)) | ]; lia.
Qed.

(** Fuel above the magnitude of the angle in periods is enough. *)
Lemma fuel_enough (fuel : nat) (a : Z) :
  Z.abs a / (2 * PI) + 1 < Z.of_nat fuel ->
  down_steps PI a < Z.of_nat fuel /\ up_steps PI a < Z.of_nat fuel.
Proof.
  intros Hf. destruct PI_range as (Hp & _).
  destruct (reduce_steps_bound PI a Hp). lia.
Qed.

(** C13. The range reduction terminates and computes the reduction by
    division: on every raw angle, with fuel above the magnitude of the
    angle in periods, the two loops return [reduce_mod PI a], an angle of
    [[-PI, PI]] that differs from [a] by a multiple of [2 * PI]. *)
Theorem reduce_angle_spec (fuel : nat) (a : Z) :
  in_range bt a -> Z.abs a / (2 * PI) + 1 < Z.of_nat fuel ->
  reduce_angle n cf fuel a = Ok (reduce_mod PI a) /\
  - PI <= reduce_mod PI a <= PI /\
  (a - reduce_mod PI a) mod (2 * PI) = 0.
Proof.
  intros Ha Hf. destruct (fuel_enough fuel a Hf) as [Hd Hu].
  destruct (reduce_angle_run fuel a Ha Hd Hu) as (E & _ & Hr).
  destruct PI_range as (Hp & _).
  split; [ exact E | split; [ exact Hr | apply reduce_mod_congr, Hp ] ].
Qed.

(** The cost of the range reduction is linear in the angle: the
    first loop runs [down_steps PI a] times, one for each period above
    [PI], and with no more fuel than that it has not left. *)
Theorem reduce_angle_starves (fuel : nat) (a : Z) :
  in_range bt a -> Z.of_nat fuel <= down_steps PI a ->
  reduce_angle n cf fuel a = Err OutOfFuel.
Proof.
  intros Ha Hf. destruct PI_range as (Hp & Hpr & Hnr).
  unfold reduce_angle.
  rewrite (while_loop_starved (reduce_down_cond n cf) (reduce_down_body n cf)
             (fun t => in_range bt t) (down_steps PI) fuel a); auto.
  intros t Ht Hv.
  assert (Hb : PI < t) by (unfold down_steps in Hv; destruct (Z.ltb_spec PI t); lia).
  destruct (down_steps_next PI Hp t Hb) as [Hn1 _].
  rewrite reduce_down_cond_spec by assumption.
  split; [ f_equal; apply Z.ltb_lt, Hb | ].
  exists (t - 2 * PI). split; [ apply reduce_down_body_spec; assumption | ].
  split; [ unfold in_range in *; lia | lia ].
Qed.

(** [sin] and [cos] return the integer sine and cosine. *)
Lemma q_sin_run (fuel : nat) (a : Z) :
  in_range bt a ->
  down_steps PI a < Z.of_nat fuel -> up_steps PI a < Z.of_nat fuel ->
  q_sin n cf fuel a = Ok (sin_raw n a) /\
  - (3 * 2 ^ n) <= sin_raw n a <= 3 * 2 ^ n.
Proof.
  intros Ha Hd Hu. destruct (reduce_angle_run fuel a Ha Hd Hu) as (E & Hr & Hrp).
  unfold q_sin, sin_raw. rewrite E. cbn [bind]. cbv zeta.
  set (r := reduce_mod PI a) in *. clearbody r.
  assert (Hnr : in_range bt (- r))
    by (destruct PI_range as (_ & ? & ?); unfold in_range in *; lia).
  destruct (cordic_rotate_raw m n cf ltac:(lia) r ltac:(lia) Hr) as (Er & _ & Hy).
  destruct (cordic_rotate_raw m n cf ltac:(lia) (- r) ltac:(lia) Hnr) as (Enr & _ & Hny).
  destruct (rotate_raw n r) as [x y]. destruct (rotate_raw n (- r)) as [nx ny].
  cbn [fst snd] in *.
  split; [ | destruct (Z.ltb_spec r 0); lia ].
  trig_split; c_case; c_eval; rewrite ?Er, ?Enr; cbn [bind snd]; c_eval; c_done;
    cbn [wrap]; c_eval; c_done.
Qed.

Lemma q_cos_run (fuel : nat) (a : Z) :
  in_range bt a ->
  down_steps PI a < Z.of_nat fuel -> up_steps PI a < Z.of_nat fuel ->
  q_cos n cf fuel a = Ok (cos_raw n a) /\
  - (3 * 2 ^ n) <= cos_raw n a <= 3 * 2 ^ n.
Proof.
  intros Ha Hd Hu. destruct (reduce_angle_run fuel a Ha Hd Hu) as (E & Hr & Hrp).
  unfold q_cos, cos_raw. rewrite E. cbn [bind]. cbv zeta.
  set (r := reduce_mod PI a) in *. clearbody r.
  assert (Hnr : in_range bt (- r))
    by (destruct PI_range as (_ & ? & ?); unfold in_range in *; lia).
  destruct (cordic_rotate_raw m n cf ltac:(lia) r ltac:(lia) Hr) as (Er & Hx & _).
  destruct (cordic_rotate_raw m n cf ltac:(lia) (- r) ltac:(lia) Hnr) as (Enr & Hnx & _).
  destruct (Z.abs_spec r) as [[H0 ->] | [H0 ->]];
    (split; [ | assumption ]);
    destruct (rotate_raw n r) as [x y]; destruct (rotate_raw n (- r)) as [nx ny];
    cbn [fst snd] in *;
    trig_split; c_case; try lia; c_eval; rewrite ?Er, ?Enr; cbn [bind fst]; reflexivity.
Qed.

(** C6. [sin] and [cos] refine the integer CORDIC: in a format with at
    least three integer bits, on every raw angle and with enough fuel,
    they reach no undefined behaviour and return [sin_raw] and
    [cos_raw], the results of the integer iteration on the reduced
    angle, which are at most three units in magnitude. *)
Theorem q_sin_cos_spec (fuel : nat) (a : Z) :
  in_range bt a -> Z.abs a / (2 * PI) + 1 < Z.of_nat fuel ->
  q_sin n cf fuel a = Ok (sin_raw n a) /\
  q_cos n cf fuel a = Ok (cos_raw n a) /\
  Z.abs (sin_raw n a) <= 3 * 2 ^ n /\ Z.abs (cos_raw n a) <= 3 * 2 ^ n.
Proof.
  intros Ha Hf. destruct (fuel_enough fuel a Hf) as [Hd Hu].
  destruct (q_sin_run fuel a Ha Hd Hu) as [Es Hs].
  destruct (q_cos_run fuel a Ha Hd Hu) as [Ec Hc].
  repeat split; try assumption; lia.
Qed.

(** The symmetries of [sin] and [cos]: on opposite angles [cos]
    returns the same value and [sin] opposite values, except where the
    reduced angle is zero, where [sin] returns the same value on both. *)
Theorem q_sin_cos_symmetry (fuel : nat) (a : Z) :
  in_range bt a -> in_range bt (- a) -> Z.abs a / (2 * PI) + 1 < Z.of_nat fuel ->
  q_cos n cf fuel (- a) = q_cos n cf fuel a /\
  (reduce_mod PI a <> 0 ->
   q_sin n cf fuel (- a) = Ok (- sin_raw n a) /\ q_sin n cf fuel a = Ok (sin_raw n a)) /\
  (reduce_mod PI a = 0 -> q_sin n cf fuel (- a) = q_sin n cf fuel a).
Proof.
  intros Ha Hna Hf. destruct PI_range as (Hp & _).
  destruct (fuel_enough fuel a Hf) as [Hd Hu].
  destruct (fuel_enough fuel (- a) ltac:(rewrite Z.abs_opp; exact Hf)) as [Hnd Hnu].
  destruct (q_sin_run fuel a Ha Hd Hu) as [Es _].
  destruct (q_sin_run fuel (- a) Hna Hnd Hnu) as [Ens _].
  destruct (q_cos_run fuel a Ha Hd Hu) as [Ec _].
  destruct (q_cos_run fuel (- a) Hna Hnd Hnu) as [Enc _].
  rewrite Es, Ens, Ec, Enc.
  split; [ f_equal; apply cos_raw_opp, Hp | split; intros Hr ].
  - split; [ f_equal; apply sin_raw_opp; assumption | reflexivity ].
  - f_equal. unfold sin_raw. cbv zeta. rewrite reduce_mod_opp, Hr by assumption.
    reflexivity.
Qed.

(** [tan] divides the sine, shifted left in the type of the
    format, by the cosine: where the cosine is zero it returns the
    macro [MAX]; where the sine is not negative and its shifted value
    fits the promoted type, the quotient truncated toward zero and
    converted to the type. *)
Theorem q_tan_spec (fuel : nat) (a : Z) :
  in_range bt a -> Z.abs a / (2 * PI) + 1 < Z.of_nat fuel ->
  (cos_raw n a = 0 -> total_bits m n <= 63 ->
   q_tan m n cf fuel a = Ok (smax (total_bits m n))) /\
  (cos_raw n a <> 0 -> 0 <= sin_raw n a ->
   in_srange (pw (width bt)) (sin_raw n a * 2 ^ n) ->
   q_tan m n cf fuel a = Ok (wrap bt (Z.quot (sin_raw n a * 2 ^ n) (cos_raw n a)))).
Proof.
  intros Ha Hf. destruct (fuel_enough fuel a Hf) as [Hd Hu].
  destruct (q_sin_run fuel a Ha Hd Hu) as [Es Hs].
  destruct (q_cos_run fuel a Ha Hd Hu) as [Ec Hc].
  unfold q_tan. rewrite Es, Ec. cbn [bind].
  set (s := sin_raw n a) in *. set (c := cos_raw n a) in *. clearbody s c.
  split.
  - intros -> Ht. rewrite (Q_MAX_value m n bt ct_type ltac:(lia) ct_frac Ht).
    unfold smax, total_bits in *.
    trig_split_k ltac:(fun sb =>
      pose proof (pow2_le_mono (m + n + 1 - 1) (sb - 1) ltac:(lia)));
      cbn [Z.eqb bind]; c_eval; c_done.
  - intros Hc0 Hs0 Hr.
    pose proof (quot_abs_le (s * 2 ^ n) c Hc0) as Hq.
    trig_split; repeat (c_case; try lia; c_eval); c_done.
Qed.

(** Where the signed left shift does not wrap, [tan] is undefined
    on every angle whose sine is negative: it shifts the negative sine
    left before it divides. *)
Theorem q_tan_negative_strict (fuel : nat) (a : Z) :
  signed_shl_wraps = false ->
  in_range bt a -> Z.abs a / (2 * PI) + 1 < Z.of_nat fuel ->
  cos_raw n a <> 0 -> sin_raw n a < 0 ->
  q_tan m n cf fuel a = Err ShiftNegative.
Proof.
  intros HD Ha Hf Hc0 Hs0. destruct (fuel_enough fuel a Hf) as [Hd Hu].
  destruct (q_sin_run fuel a Ha Hd Hu) as [Es Hs].
  destruct (q_cos_run fuel a Ha Hd Hu) as [Ec Hc].
  unfold q_tan. rewrite Es, Ec. cbn [bind].
  set (s := sin_raw n a) in *. set (c := cos_raw n a) in *. clearbody s c.
  trig_split; repeat (c_case; try lia; c_eval); reflexivity.
Qed.

(** [atan2] returns the integer [atan2_raw]. *)
Lemma q_atan2_run (y x B : Z) :
  - B <= x <= B -> - B <= y <= B -> 5 * B + 15 <= ty_max bt ->
  q_atan2 n cf y x = Ok (atan2_raw n y x).
Proof.
  intros Hx Hy HB.
  destruct (cordic_vector_raw m n cf ltac:(lia) x y B Hx Hy HB) as [Ev Hv].
  assert (Hxr : in_range bt x) by (apply (ct_range_sym m n cf ltac:(lia) _ B); lia).
  assert (Hyr : in_range bt y) by (apply (ct_range_sym m n cf ltac:(lia) _ B); lia).
  unfold q_atan2, atan2_raw. cbv zeta.
  set (v := vector_raw n x y) in *. clearbody v.
  rewrite (pow2_add n 1) in Hv by (pose proof ct_frac; lia). change (2 ^ 1) with 2 in Hv.
  trig_split; repeat (c_case; try lia; c_eval);
    try rewrite Ev; cbn [bind andb]; c_eval;
    repeat (c_case; try lia; c_eval); c_done.
Qed.

Lemma atan2_raw_bound (y x : Z) :
  0 <= n -> - 2 ^ (n + 1) < vector_raw n x y < 2 ^ (n + 1) ->
  - (6 * 2 ^ n) < atan2_raw n y x < 6 * 2 ^ n.
Proof.
  intros Hn Hv. destruct PI_value as [_ HPI].
  rewrite (pow2_add n 1) in Hv by lia. change (2 ^ 1) with 2 in Hv.
  unfold atan2_raw. cbv zeta.
  destruct ((x =? 0) && (y =? 0)); [ lia | ].
  destruct (x <? 0); [ destruct (0 <=? y) | ]; lia.
Qed.

(** C14. [atan2] refines the integer iteration: for [x] and [y] of
    magnitude at most [B] with [5 * B + 15] in the type it reaches no
    undefined behaviour and returns [atan2_raw]: zero at the origin, the
    angle of vectoring mode for [x >= 0], and that angle subtracted from
    [PI] or added to [-PI] for [x < 0]; the result is less than six units
    in magnitude. *)
Theorem q_atan2_spec (y x B : Z) :
  - B <= x <= B -> - B <= y <= B -> 5 * B + 15 <= ty_max bt ->
  q_atan2 n cf y x = Ok (atan2_raw n y x) /\
  - (6 * 2 ^ n) < atan2_raw n y x < 6 * 2 ^ n /\
  atan2_raw n 0 0 = 0.
Proof.
  intros Hx Hy HB.
  destruct (cordic_vector_raw m n cf ltac:(lia) x y B Hx Hy HB) as [_ Hv].
  split; [ apply (q_atan2_run y x B); assumption | ].
  split; [ apply atan2_raw_bound; [ apply ct_frac | exact Hv ] | reflexivity ].
Qed.

(** [atan] is the angle of vectoring mode from [(ONE, x)]. *)
Theorem q_atan_spec (x B : Z) :
  - B <= x <= B -> 2 ^ n <= B -> 5 * B + 15 <= ty_max bt ->
  q_atan n cf x = Ok (vector_raw n (2 ^ n) x) /\
  - 2 ^ (n + 1) < vector_raw n (2 ^ n) x < 2 ^ (n + 1).
Proof.
  intros Hx HB Hfit. pose proof (pow2_pos n ct_frac).
  destruct (cordic_vector_raw m n cf ltac:(lia) (2 ^ n) x B ltac:(lia) Hx Hfit) as [_ Hv].
  split; [ | exact Hv ].
  unfold q_atan. rewrite (Q_ONE_value m n bt ct_type ltac:(lia) ct_frac ltac:(lia)).
  cbn [bind cv]. rewrite (q_atan2_run x (2 ^ n) B) by (lia || assumption).
  unfold atan2_raw. cbv zeta.
  destruct (Z.eqb_spec (2 ^ n) 0); [ lia | ]. destruct (Z.ltb_spec (2 ^ n) 0); [ lia | ].
  reflexivity.
Qed.

End TrigProps.

(** * The functions of Q7.8 and Q15.16, evaluated *)

(** In Q7.8 [sin(0)] is [-1] and [cos(0)] is [255], one unit of
    the last place away from the exact [0] and [256]: the gain is
    truncated to [155] and the eight steps leave a residue. *)
Example Q7_8_sin_cos_zero :
  q_sin (D := iso_c) 8 Q7_8_cfile 2 0 = Ok (-1) /\
  q_cos (D := iso_c) 8 Q7_8_cfile 2 0 = Ok 255.
Proof. vm_compute. split; reflexivity. Qed.

(** Rotation mode converges only for angles up to the sum of the
    table, about 1.74 radians, and the reduction leaves angles up to
    [PI]: in Q7.8 the sine of [PI] (804) is [249], almost one, and its
    cosine [-37]; the steps end with a residual angle of [366]. *)
Example Q7_8_sin_pi :
  Q_PI (D := iso_c) 8 int16_t = Ok (CV int16_t 804) /\
  q_sin (D := iso_c) 8 Q7_8_cfile 2 804 = Ok 249 /\
  q_cos (D := iso_c) 8 Q7_8_cfile 2 804 = Ok (-37) /\
  cordic_run rot_step 8 8 (155, 0, 804) = (-37, 249, 366).
Proof. vm_compute. repeat split; reflexivity. Qed.

(** [atan2] is wrong on the left half plane: vectoring mode turns
    a vector with [x < 0] away from the axis until the table is
    exhausted, and the reflection through [PI] is applied to that
    angle.  In Q7.8, [atan2(0, -1)] is [366] where [PI] is [804], and
    [atan2(-1, -1)] is [-1242], below [-PI]. *)
Example Q7_8_atan2_left :
  q_atan2 (D := iso_c) 8 Q7_8_cfile 0 (-256) = Ok 366 /\
  q_atan2 (D := iso_c) 8 Q7_8_cfile (-256) (-256) = Ok (-1242) /\
  q_atan2 (D := iso_c) 8 Q7_8_cfile 256 256 = Ok 202.
Proof. vm_compute. repeat split; reflexivity. Qed.

(** [tan] shifts the sine in the type of the format, not in a
    wider one: in Q15.16 the tangent of [PI / 4] (51471) shifts [46341]
    left by 16 bits in [int], which is undefined in ISO C and wraps to
    a negative value with GCC, where the result is [-27146] in place of
    about [65536]. *)
Example Q15_16_tan_overflows :
  q_sin (D := iso_c) 16 Q15_16_cfile 2 51471 = Ok 46341 /\
  q_tan (D := iso_c) 15 16 Q15_16_cfile 2 51471 = Err ShiftOverflow /\
  q_tan (D := gnu_c) 15 16 Q15_16_cfile 2 51471 = Ok (-27146).
Proof. vm_compute. repeat split; reflexivity. Qed.

(** * Witnesses *)

Lemma Q7_8_angle (z : Z) : -32768 <= z <= 32767 -> in_range (cf_type Q7_8_cfile) z.
Proof. intros Hz. unfold in_range. cbn. lia. Defined.

Ltac cordic_wit :=
  repeat first
    [ lia | reflexivity | solve [ closed_Z ] | apply Q7_8_angle ].

Lemma cordic_rotate_residual_witness :
  for_loop (Z.to_nat (cf_iterations Q7_8_cfile)) 0 (rotate_body Q7_8_cfile)
    (cf_k Q7_8_cfile, 0, 402) =
    Ok (cordic_run rot_step 8 (Z.to_nat (cf_iterations Q7_8_cfile))
          (cf_k Q7_8_cfile, 0, 402)) /\
  Z.abs (snd (cordic_run rot_step 8 (Z.to_nat (cf_iterations Q7_8_cfile))
                (cf_k Q7_8_cfile, 0, 402))) <=
  residual_after 8 402 (Z.to_nat (cf_iterations Q7_8_cfile)).
Proof. apply (cordic_rotate_residual 7 8 Q7_8_cfile); cordic_wit. Defined.

Lemma cordic_rotate_safe_witness :
  exists x y, cordic_rotate Q7_8_cfile (-32768) = Ok (x, y) /\
    - (3 * 2 ^ 8) <= x <= 3 * 2 ^ 8 /\ - (3 * 2 ^ 8) <= y <= 3 * 2 ^ 8 /\
    in_range (cf_type Q7_8_cfile) x /\ in_range (cf_type Q7_8_cfile) y.
Proof. apply (cordic_rotate_safe 7 8 Q7_8_cfile); cordic_wit. Defined.

Lemma reduce_angle_spec_witness :
  reduce_angle (D := iso_c) 8 Q7_8_cfile 30 32767 =
    Ok (reduce_mod (raw_of pi_literal 8) 32767) /\
  - raw_of pi_literal 8 <= reduce_mod (raw_of pi_literal 8) 32767 <= raw_of pi_literal 8 /\
  (32767 - reduce_mod (raw_of pi_literal 8) 32767) mod (2 * raw_of pi_literal 8) = 0.
Proof. apply (reduce_angle_spec 7 8 Q7_8_cfile); cordic_wit. Defined.

Lemma reduce_angle_starves_witness :
  reduce_angle (D := iso_c) 8 Q7_8_cfile 20 32767 = Err OutOfFuel.
Proof. apply (reduce_angle_starves 7 8 Q7_8_cfile); cordic_wit. Defined.

Lemma q_sin_cos_spec_witness :
  q_sin (D := iso_c) 8 Q7_8_cfile 3 201 = Ok (sin_raw 8 201) /\
  q_cos (D := iso_c) 8 Q7_8_cfile 3 201 = Ok (cos_raw 8 201) /\
  Z.abs (sin_raw 8 201) <= 3 * 2 ^ 8 /\ Z.abs (cos_raw 8 201) <= 3 * 2 ^ 8.
Proof. apply (q_sin_cos_spec 7 8 Q7_8_cfile); cordic_wit. Defined.

Lemma q_sin_cos_symmetry_witness :
  q_cos (D := iso_c) 8 Q7_8_cfile 3 (Z.opp 201) = q_cos (D := iso_c) 8 Q7_8_cfile 3 201 /\
  (reduce_mod (raw_of pi_literal 8) 201 <> 0 ->
   q_sin (D := iso_c) 8 Q7_8_cfile 3 (Z.opp 201) = Ok (- sin_raw 8 201) /\
   q_sin (D := iso_c) 8 Q7_8_cfile 3 201 = Ok (sin_raw 8 201)) /\
  (reduce_mod (raw_of pi_literal 8) 201 = 0 ->
   q_sin (D := iso_c) 8 Q7_8_cfile 3 (Z.opp 201) = q_sin (D := iso_c) 8 Q7_8_cfile 3 201).
Proof.
  apply (q_sin_cos_symmetry 7 8 Q7_8_cfile ltac:(lia) 3%nat 201); cordic_wit.
Defined.

Lemma q_tan_spec_witness :
  (cos_raw 8 201 = 0 -> total_bits 7 8 <= 63 ->
   q_tan (D := iso_c) 7 8 Q7_8_cfile 3 201 = Ok (smax (total_bits 7 8))) /\
  (cos_raw 8 201 <> 0 -> 0 <= sin_raw 8 201 ->
   in_srange (pw (width (cf_type Q7_8_cfile))) (sin_raw 8 201 * 2 ^ 8) ->
   q_tan (D := iso_c) 7 8 Q7_8_cfile 3 201 =
   Ok (wrap (cf_type Q7_8_cfile) (Z.quot (sin_raw 8 201 * 2 ^ 8) (cos_raw 8 201)))).
Proof. apply (q_tan_spec 7 8 Q7_8_cfile); cordic_wit. Defined.

Lemma q_tan_negative_strict_witness :
  q_tan (D := iso_c) 7 8 Q7_8_cfile 3 (- 201) = Err ShiftNegative.
Proof. apply (q_tan_negative_strict 7 8 Q7_8_cfile); cordic_wit. Defined.

Lemma q_atan2_spec_witness :
  q_atan2 (D := iso_c) 8 Q7_8_cfile 256 (-256) = Ok (atan2_raw 8 256 (-256)) /\
  - (6 * 2 ^ 8) < atan2_raw 8 256 (-256) < 6 * 2 ^ 8 /\
  atan2_raw 8 0 0 = 0.
Proof. apply (q_atan2_spec 7 8 Q7_8_cfile ltac:(lia) 256 (-256) 256); cordic_wit. Defined.

Lemma q_atan_spec_witness :
  q_atan (D := iso_c) 8 Q7_8_cfile 512 = Ok (vector_raw 8 (2 ^ 8) 512) /\
  - 2 ^ (8 + 1) < vector_raw 8 (2 ^ 8) 512 < 2 ^ (8 + 1).
Proof. apply (q_atan_spec 7 8 Q7_8_cfile ltac:(lia) 512 512); cordic_wit. Defined.
