(* ===== verification/Transc.v ===== *)
(** * Transc: square root, exponentials and logarithms

    The functions [sqrt], [exp2], [exp], [log2], [log] and [pow] of the C
    file that [generate_cordic_c_file] writes (generate_math_headers.py
    lines 284-380).  The section variables are the widths [m_bits] and
    [n_bits] of the format and its type [bt].

    The two bit scans are [while] loops and take [fuel]; they halve a
    positive value until it is zero, so that the width of the type is
    fuel enough.  The Newton iteration of [sqrt] is a [for] loop of four
    rounds. *)

From Stdlib Require Import ZArith Lia Bool List.
From S2P Require Import Prelude CInt Format MathHeader Consts.
Import ListNotations.
#[local] Open Scope Z_scope.
#[local] Open Scope res_scope.

(** * The literals *)

(** [0.693147] *)
Definition ln2_literal : double := Dbl 3121656570912977 (-52).

(** [1.442695] *)
Definition log2e_literal : double := Dbl 3248660332204639 (-51).

(** * Specification on integers *)

(** The number of bits of a positive value. *)
Definition bit_length (x : Z) : Z := if 0 <? x then Z.log2 x + 1 else 0.

(** One round of Newton's iteration for the square root of [X]. *)
Definition newton (X g : Z) : Z := Z.shiftr (g + Z.quot X g) 1.

(** The square root on raw values: the seed from the highest bit, at
    least one, then four rounds on [x * 2^n]. *)
Definition sqrt_raw (n x : Z) : Z :=
  let g0 := Z.max (2 ^ Z.log2 x) (2 ^ n) in
  let X := x * 2 ^ n in
  newton X (newton X (newton X (newton X g0))).

(** The bounds that keep a round of the iteration in the type: the guess
    is positive and at most [M + 1], its quotient at most [M + 2]. *)
Definition newton_ok (X M g : Z) : Prop :=
  0 < g <= M + 1 /\ 0 <= X / g <= M + 2.

(** [2^x] on raw values, for an integer part [0 <= ip < m]: the
    polynomial [1 + t + t^2 / 2] in [t = frac * ln 2], shifted. *)
Definition exp2_frac (n x : Z) : Z :=
  let frac := x mod 2 ^ n in
  let term := Z.shiftr (frac * raw_of ln2_literal n) n in
  2 ^ n + term + Z.shiftr (term * term) (n + 1).

Definition exp2_raw (n x : Z) : Z :=
  Z.shiftr (2 ^ (n + Z.shiftr x n) * exp2_frac n x) n.

(** The base-two logarithm on raw values: the position of the highest
    bit, and a linear term in the bits below it. *)
Definition log2_raw (n x : Z) : Z :=
  let bit_pos := Z.log2 x in
  let normalized :=
    if n <=? bit_pos then Z.shiftr x (bit_pos - n) else x * 2 ^ (n - bit_pos) in
  (bit_pos - n) * 2 ^ n +
  Z.shiftr ((normalized - 2 ^ n) * raw_of log2e_literal n) n.

(** * The emitted functions *)

Section TranscOps.
Context {D : Dialect}.
Variables m_bits n_bits : Z.
Variable bt : ity.

(** [while (val > 0) { val >>= 1; bit <<= 1; }] on the state
    [(val, bit)]. *)
Definition sqrt_scan_cond (s : Z * Z) : res bool :=
  ret (c_gt (qv bt (fst s)) (lit 0)).

Definition sqrt_scan_body (s : Z * Z) : res (Z * Z) :=
  v <- c_shr (qv bt (fst s)) (lit 1) ;;
  b <- c_shl (qv bt (snd s)) (lit 1) ;;
  ret (as_q bt v, as_q bt b).

(** [q_t div = ((base_type)x << n) / guess; guess = (guess + div) >> 1;] *)
Definition newton_body (x : Z) (i : Z) (guess : Z) : res Z :=
  sh <- c_shl (cast bt (qv bt x)) (lit n_bits) ;;
  q <- c_div sh (qv bt guess) ;;
  let div := as_q bt q in
  s <- c_add (qv bt guess) (qv bt div) ;;
  h <- c_shr s (lit 1) ;;
  ret (as_q bt h).

(** [if (x <= 0) return 0;
     bit = 1; val = x; while ...; guess = bit >> 1;
     if (guess < ONE) guess = ONE;
     for (int i = 0; i < 4; i++) ...; return guess;] *)
Definition q_sqrt (fuel : nat) (x : Z) : res Z :=
  if c_le (qv bt x) (lit 0) then ret (as_q bt (lit 0))
  else
    s <- while_loop fuel sqrt_scan_cond sqrt_scan_body (x, as_q bt (lit 1)) ;;
    g <- c_shr (qv bt (snd s)) (lit 1) ;;
    let guess := as_q bt g in
    one <- Q_ONE n_bits bt ;;
    guess1 <- (if c_lt (qv bt guess) one then
                 one' <- Q_ONE n_bits bt ;; ret (as_q bt one')
               else ret guess) ;;
    for_loop 4 0 (newton_body x) guess1.

(** [int int_part = x >> n; q_t frac_part = x & (ONE - 1);
     if (int_part >= m) return MAX; if (int_part < -n) return 0;
     q_t int_result = ONE << int_part;
     q_t ln2 = (q_t)(0.693147 * (1LL << n));
     q_t term = ((base_type)frac_part * ln2) >> n;
     q_t result = ONE + term;
     term = ((base_type)term * term) >> (n + 1);
     result += term;
     return ((base_type)int_result * result) >> n;] *)
Definition q_exp2 (x : Z) : res Z :=
  ip <- c_shr (qv bt x) (lit n_bits) ;;
  let int_part := cast c_int ip in
  one <- Q_ONE n_bits bt ;;
  d <- c_sub one (lit 1) ;;
  let frac_part := as_q bt (c_and (qv bt x) d) in
  if c_ge int_part (lit m_bits) then
    mx <- Q_MAX m_bits n_bits bt ;; ret (as_q bt mx)
  else
    nn <- c_neg (lit n_bits) ;;
    if c_lt int_part nn then ret (as_q bt (lit 0))
    else
      one1 <- Q_ONE n_bits bt ;;
      ir <- c_shl one1 int_part ;;
      let int_result := as_q bt ir in
      ln2 <- scaled n_bits bt ln2_literal ;;
      p <- c_mul (cast bt (qv bt frac_part)) ln2 ;;
      t <- c_shr p (lit n_bits) ;;
      let term := as_q bt t in
      one2 <- Q_ONE n_bits bt ;;
      r <- c_add one2 (qv bt term) ;;
      let result := as_q bt r in
      p2 <- c_mul (cast bt (qv bt term)) (qv bt term) ;;
      n1 <- c_add (lit n_bits) (lit 1) ;;
      t2 <- c_shr p2 n1 ;;
      let term2 := as_q bt t2 in
      r2 <- c_add (qv bt result) (qv bt term2) ;;
      let result2 := as_q bt r2 in
      p3 <- c_mul (cast bt (qv bt int_result)) (qv bt result2) ;;
      out <- c_shr p3 (lit n_bits) ;;
      ret (as_q bt out).

(** [q_t log2e = (q_t)(1.442695 * (1LL << n));
     q_t scaled = ((base_type)x * log2e) >> n; return exp2(scaled);] *)
Definition q_exp (x : Z) : res Z :=
  log2e <- scaled n_bits bt log2e_literal ;;
  p <- c_mul (cast bt (qv bt x)) log2e ;;
  s <- c_shr p (lit n_bits) ;;
  q_exp2 (as_q bt s).

(** [while (val > 0) { val >>= 1; bit_pos++; }] on the state
    [(val, bit_pos)]. *)
Definition log2_scan_cond (s : Z * Z) : res bool :=
  ret (c_gt (qv bt (fst s)) (lit 0)).

Definition log2_scan_body (s : Z * Z) : res (Z * Z) :=
  v <- c_shr (qv bt (fst s)) (lit 1) ;;
  b <- c_add (lit (snd s)) (lit 1) ;;
  ret (as_q bt v, cv b).

(** [if (x <= 0) return MIN;
     bit_pos = 0; val = x; while ...; bit_pos--;
     int int_part = bit_pos - n;
     if (bit_pos >= n) normalized = x >> (bit_pos - n);
     else normalized = x << (n - bit_pos);
     q_t frac = normalized - ONE;
     q_t inv_ln2 = (q_t)(1.442695 * (1LL << n));
     q_t log_frac = ((base_type)frac * inv_ln2) >> n;
     return (int_part << n) + log_frac;] *)
Definition q_log2 (fuel : nat) (x : Z) : res Z :=
  if c_le (qv bt x) (lit 0) then
    mn <- Q_MIN m_bits n_bits bt ;; ret (as_q bt mn)
  else
    s <- while_loop fuel log2_scan_cond log2_scan_body (x, cv (lit 0)) ;;
    bp <- c_sub (lit (snd s)) (lit 1) ;;
    let bit_pos := cv bp in
    ipv <- c_sub (lit bit_pos) (lit n_bits) ;;
    let int_part := cv ipv in
    nv <- (if c_ge (lit bit_pos) (lit n_bits) then
             k <- c_sub (lit bit_pos) (lit n_bits) ;;
             c_shr (qv bt x) k
           else
             k <- c_sub (lit n_bits) (lit bit_pos) ;;
             c_shl (qv bt x) k) ;;
    let normalized := as_q bt nv in
    one <- Q_ONE n_bits bt ;;
    f <- c_sub (qv bt normalized) one ;;
    let frac := as_q bt f in
    inv_ln2 <- scaled n_bits bt log2e_literal ;;
    p <- c_mul (cast bt (qv bt frac)) inv_ln2 ;;
    lf <- c_shr p (lit n_bits) ;;
    let log_frac := as_q bt lf in
    hi <- c_shl (lit int_part) (lit n_bits) ;;
    r <- c_add hi (qv bt log_frac) ;;
    ret (as_q bt r).

(** [q_t log2_val = log2(x); q_t ln2 = (q_t)(0.693147 * (1LL << n));
     return ((base_type)log2_val * ln2) >> n;] *)
Definition q_log (fuel : nat) (x : Z) : res Z :=
  log2_val <- q_log2 fuel x ;;
  ln2 <- scaled n_bits bt ln2_literal ;;
  p <- c_mul (cast bt (qv bt log2_val)) ln2 ;;
  r <- c_shr p (lit n_bits) ;;
  ret (as_q bt r).

(** [if (base <= 0) return 0;
     q_t log_base = log2(base);
     q_t scaled = ((base_type)exponent * log_base) >> n;
     return exp2(scaled);] *)
Definition q_pow (fuel : nat) (base exponent : Z) : res Z :=
  if c_le (qv bt base) (lit 0) then ret (as_q bt (lit 0))
  else
    log_base <- q_log2 fuel base ;;
    p <- c_mul (cast bt (qv bt exponent)) (qv bt log_base) ;;
    s <- c_shr p (lit n_bits) ;;
    q_exp2 (as_q bt s).

End TranscOps.

(** * Lemmas on the integer specification *)

Lemma bit_length_shiftr (x : Z) :
  0 < x -> Z.shiftr x (bit_length x) = 0 /\
  forall k, 0 <= k < bit_length x -> 0 < Z.shiftr x k.
Proof.
  intros Hx. unfold bit_length. destruct (Z.ltb_spec 0 x); [ | lia ].
  pose proof (Z.log2_nonneg x). pose proof (Z.log2_spec x Hx) as [Hlo Hhi].
  replace (Z.succ (Z.log2 x)) with (Z.log2 x + 1) in Hhi by lia.
  split.
  - rewrite Z.shiftr_div_pow2 by lia. apply Z.div_small. lia.
  - intros k Hk. rewrite Z.shiftr_div_pow2 by lia.
    pose proof (pow2_le_mono k (Z.log2 x) ltac:(lia)).
    apply Z.div_str_pos. pose proof (pow2_pos k ltac:(lia)). lia.
Qed.

(** Newton's iteration from any positive guess does not go below the
    integer square root. *)
Lemma newton_lower (X g : Z) : 0 <= X -> 0 < g -> Z.sqrt X <= newton X g.
Proof.
  intros HX Hg. unfold newton. rewrite Z.shiftr_div_pow2 by lia. change (2 ^ 1) with 2.
  rewrite Z.quot_div_nonneg by lia.
  pose proof (Z.sqrt_spec X HX) as [Hr _]. pose proof (Z.sqrt_nonneg X).
  set (r := Z.sqrt X) in *.
  pose proof (Z.square_nonneg (r - g)).
  assert (Hq : 2 * r - g <= X / g) by (apply Z.div_le_lower_bound; nia).
  apply Z.div_le_lower_bound; lia.
Qed.

(** A guess of at least the root has a quotient of at most the root plus
    two. *)
Lemma newton_quot_upper (X g : Z) :
  0 < X -> Z.sqrt X <= g -> 0 <= X / g <= Z.sqrt X + 2.
Proof.
  intros HX Hg. pose proof (Z.sqrt_spec X ltac:(lia)) as [Hlo Hhi].
  assert (Hr : 0 < Z.sqrt X) by (apply Z.sqrt_pos; lia).
  set (r := Z.sqrt X) in *.
  split; [ apply Z.div_pos; lia | ].
  assert (X / g < r + 3); [ | lia ].
  apply Z.div_lt_upper_bound; nia.
Qed.

Lemma newton_ok_step (X M g : Z) :
  0 < X -> Z.sqrt X <= M -> newton_ok X M g ->
  Z.sqrt X <= newton X g /\ newton_ok X M (newton X g).
Proof.
  intros HX HM [Hg Hq]. pose proof (newton_lower X g ltac:(lia) ltac:(lia)) as Hl.
  assert (Hr : 0 < Z.sqrt X) by (apply Z.sqrt_pos; lia).
  split; [ exact Hl | ].
  assert (Hu : newton X g <= M + 1).
  { unfold newton. rewrite Z.shiftr_div_pow2 by lia. change (2 ^ 1) with 2.
    rewrite Z.quot_div_nonneg by lia.
    assert ((g + X / g) / 2 < M + 2); [ apply Z.div_lt_upper_bound; lia | lia ]. }
  split; [ lia | ].
  pose proof (newton_quot_upper X (newton X g) HX Hl). lia.
Qed.

(** The seed is good. *)
Lemma newton_ok_seed (n x : Z) :
  0 <= n -> 0 < x ->
  let g0 := Z.max (2 ^ Z.log2 x) (2 ^ n) in
  let M := Z.max x (2 ^ n) in
  newton_ok (x * 2 ^ n) M g0 /\ Z.sqrt (x * 2 ^ n) <= M.
Proof.
  intros Hn Hx g0 M. pose proof (pow2_pos n Hn).
  pose proof (Z.log2_spec x Hx) as [Hlo _]. pose proof (Z.log2_nonneg x).
  pose proof (pow2_pos (Z.log2 x) ltac:(lia)).
  split.
  - unfold newton_ok. subst g0 M. split; [ lia | ].
    split; [ apply Z.div_pos; nia | ].
    assert (x * 2 ^ n / Z.max (2 ^ Z.log2 x) (2 ^ n) <= x); [ | lia ].
    apply Z.div_le_upper_bound; nia.
  - subst M. assert (Z.sqrt (x * 2 ^ n) < Z.max x (2 ^ n) + 1); [ | lia ].
    apply Z.sqrt_lt_square; nia.
Qed.

Lemma half_range (z lo hi : Z) :
  2 * lo <= z <= 2 * hi + 1 -> lo <= z / 2 ^ 1 <= hi.
Proof.
  change (2 ^ 1) with 2. intros Hz.
  pose proof (Z.div_mod z 2 ltac:(lia)). pose proof (Z.mod_pos_bound z 2 ltac:(lia)).
  lia.
Qed.

(** * The bit scans *)

Section Scan.
Variable cond : Z * Z -> res bool.
Variable body : Z * Z -> res (Z * Z).
Variable cnt : Z -> Z.
Variable x : Z.
Hypothesis Hx : 0 < x.
Hypothesis cond_pos : forall k,
  0 <= k < bit_length x -> cond (Z.shiftr x k, cnt k) = Ok true.
Hypothesis cond_zero : cond (0, cnt (bit_length x)) = Ok false.
Hypothesis body_step : forall k,
  0 <= k < bit_length x ->
  body (Z.shiftr x k, cnt k) = Ok (Z.shiftr x (k + 1), cnt (k + 1)).

Lemma scan_from (j : nat) (k : Z) (fuel : nat) :
  0 <= k -> k + Z.of_nat j = bit_length x -> (j < fuel)%nat ->
  while_loop fuel cond body (Z.shiftr x k, cnt k) = Ok (0, cnt (bit_length x)).
Proof.
  revert k fuel. induction j as [|j IH]; intros k fuel Hk Hj Hf;
    (destruct fuel as [|fuel]; [ lia | ]); cbn [while_loop].
  - replace k with (bit_length x) by lia.
    destruct (bit_length_shiftr x Hx) as [-> _]. rewrite cond_zero. reflexivity.
  - rewrite cond_pos, body_step by lia. cbn [bind]. apply IH; lia.
Qed.

(** A scan halves the value [bit_length x] times and leaves, whatever
    fuel it is given beyond that, the counter of that many rounds. *)
Lemma scan_run (fuel : nat) :
  bit_length x < Z.of_nat fuel ->
  while_loop fuel cond body (x, cnt 0) = Ok (0, cnt (bit_length x)).
Proof.
  intros Hf. assert (HL : 0 <= bit_length x)
    by (unfold bit_length; destruct (0 <? x); pose proof (Z.log2_nonneg x); lia).
  rewrite <- (Z.shiftr_0_r x) at 1.
  apply (scan_from (Z.to_nat (bit_length x))); lia.
Qed.

End Scan.

(** * The square root *)

Section SqrtProps.
Context {D : Dialect}.
Variables m n : Z.
Variable bt : ity.
Hypothesis Hbt : base_type m n = Return bt.
Hypothesis Hm : 0 <= m.
Hypothesis Hn : 0 <= n.

Lemma scan_cond_spec (v c : Z) :
  in_range bt v -> sqrt_scan_cond bt (v, c) = Ok (0 <? v).
Proof.
  intros Hv. unfold sqrt_scan_cond. cbn [fst].
  math_split; math_eval; reflexivity.
Qed.

Lemma positive_test (x : Z) :
  in_range bt x -> c_le (qv bt x) (lit 0) = (x <=? 0).
Proof.
  intros Hx. math_split; math_eval; symmetry; apply Z.leb_le || apply Z.leb_gt; lia.
Qed.

Lemma sqrt_scan_body_spec (v b : Z) :
  in_range bt v -> 0 <= v -> 0 <= b -> in_range bt (b * 2) ->
  sqrt_scan_body bt (v, b) = Ok (Z.shiftr v 1, b * 2).
Proof.
  intros Hv Hv0 Hb Hb2. unfold sqrt_scan_body. cbn [fst snd].
  pose proof (shiftr_range v 1 0 v ltac:(lia) ltac:(lia) ltac:(lia)).
  math_split; math_eval; c_done.
Qed.

(** One round of Newton's iteration, within the bounds. *)
Lemma newton_body_spec (x M g i : Z) :
  in_range bt x -> 0 < x -> in_srange (pw (width bt)) (x * 2 ^ n) ->
  newton_ok (x * 2 ^ n) M g ->
  in_range bt (M + 2) -> in_srange (pw (width bt)) (2 * M + 3) ->
  newton_body n bt x i g = Ok (newton (x * 2 ^ n) g).
Proof.
  intros Hx Hx0 HX [Hg Hq] HM HM2. unfold newton_body, newton.
  pose proof (pow2_pos n Hn).
  pose proof (Z.quot_div_nonneg (x * 2 ^ n) g ltac:(nia) ltac:(lia)) as Eq.
  assert (Hh : 0 <= (g + x * 2 ^ n ÷ g) / 2 ^ 1 <= M + 1)
    by (apply half_range; lia).
  math_split; math_eval; c_done; rewrite swrap_small by rng; reflexivity.
Qed.

Lemma in_range_pos (z hi : Z) : 0 <= z <= hi -> in_range bt hi -> in_range bt z.
Proof. intros Hz Hhi. math_split; c_start; rng. Qed.

Lemma as_q_lit (z : Z) : in_range bt z -> in_range c_int z -> as_q bt (lit z) = z.
Proof. intros Hz Hi. math_split; math_eval; c_done. Qed.

(** The width of the type is fuel enough for a scan. *)
Lemma bit_length_width (x : Z) : in_range bt x -> bit_length x < width bt.
Proof.
  intros Hx. unfold bit_length. destruct (Z.ltb_spec 0 x) as [Hx0|_].
  - assert (Z.log2 x < width bt - 1); [ | lia ].
    apply Z.log2_lt_pow2; [ assumption | ]. math_split; c_start; rng.
  - math_split; cbn; lia.
Qed.

Lemma sqrt_scan_run (fuel : nat) (x : Z) :
  in_range bt x -> 0 < x -> in_range bt (2 ^ bit_length x) ->
  bit_length x < Z.of_nat fuel ->
  while_loop fuel (sqrt_scan_cond bt) (sqrt_scan_body bt) (x, 1) =
  Ok (0, 2 ^ bit_length x).
Proof.
  intros Hx Hx0 HL Hf. destruct (bit_length_shiftr x Hx0) as [_ Hpos].
  assert (Hr : forall k, 0 <= k -> in_range bt (Z.shiftr x k)).
  { intros k Hk. apply in_range_pos with x; [ | assumption ].
    apply shiftr_range; lia. }
  apply (scan_run _ _ (fun k => 2 ^ k) x Hx0); [ | | | assumption ].
  - intros k Hk. rewrite scan_cond_spec by (apply Hr; lia).
    specialize (Hpos k Hk). destruct (Z.ltb_spec 0 (Z.shiftr x k)); [ reflexivity | lia ].
  - apply scan_cond_spec, in_range_pos with x; [ lia | assumption ].
  - intros k Hk. pose proof (pow2_pos k ltac:(lia)).
    rewrite sqrt_scan_body_spec.
    + rewrite Z.shiftr_shiftr, Z.pow_add_r by lia. reflexivity.
    + apply Hr; lia.
    + specialize (Hpos k Hk). lia.
    + lia.
    + apply in_range_pos with (2 ^ bit_length x); [ | assumption ].
      pose proof (pow2_le_mono (k + 1) (bit_length x) ltac:(lia)).
      rewrite Z.pow_add_r in * by lia. lia.
Qed.

(** The four rounds from the seed. *)
Lemma newton_run (x : Z) :
  0 < x -> in_range bt (2 * Z.max x (2 ^ n) + 3) ->
  in_srange (pw (width bt)) (x * 2 ^ n) ->
  (for_loop 4 0 (newton_body n bt x) (Z.max (2 ^ Z.log2 x) (2 ^ n)) =
    Ok (sqrt_raw n x)) /\
  Z.sqrt (x * 2 ^ n) <= sqrt_raw n x <= Z.max x (2 ^ n) + 1.
Proof.
  intros Hx0 HM HX. pose proof (pow2_pos n Hn).
  destruct (newton_ok_seed n x Hn Hx0) as [ok0 Hs]. cbv zeta in ok0, Hs.
  set (M := Z.max x (2 ^ n)) in *. set (X := x * 2 ^ n) in *.
  assert (HX0 : 0 < X) by (subst X; nia).
  destruct (newton_ok_step X M _ HX0 Hs ok0) as [_ ok1].
  destruct (newton_ok_step X M _ HX0 Hs ok1) as [_ ok2].
  destruct (newton_ok_step X M _ HX0 Hs ok2) as [_ ok3].
  destruct (newton_ok_step X M _ HX0 Hs ok3) as [Hlo [Hhi _]].
  assert (Hx : in_range bt x) by (apply in_range_pos with (2 * M + 3); [ lia | assumption ]).
  assert (HM2 : in_range bt (M + 2)) by (apply in_range_pos with (2 * M + 3); [ lia | assumption ]).
  assert (HM3 : in_srange (pw (width bt)) (2 * M + 3)) by (math_split; c_start; rng).
  split; [ | unfold sqrt_raw; fold X; lia ].
  unfold sqrt_raw. cbn [for_loop]. fold X.
  rewrite (newton_body_spec x M _ _ Hx Hx0 HX ok0 HM2 HM3). cbn [bind].
  rewrite (newton_body_spec x M _ _ Hx Hx0 HX ok1 HM2 HM3). cbn [bind].
  rewrite (newton_body_spec x M _ _ Hx Hx0 HX ok2 HM2 HM3). cbn [bind].
  rewrite (newton_body_spec x M _ _ Hx Hx0 HX ok3 HM2 HM3). reflexivity.
Qed.

Lemma q_sqrt_unfold (fuel : nat) (x : Z) :
  0 < x -> in_range bt (2 * Z.max x (2 ^ n) + 3) ->
  bit_length x < Z.of_nat fuel ->
  q_sqrt n bt fuel x =
  for_loop 4 0 (newton_body n bt x) (Z.max (2 ^ Z.log2 x) (2 ^ n)).
Proof.
  intros Hx0 HM Hf. unfold q_sqrt. pose proof (pow2_pos n Hn).
  pose proof (Z.log2_spec x Hx0) as [Hlo _]. pose proof (Z.log2_nonneg x).
  pose proof (pow2_pos (Z.log2 x) ltac:(lia)).
  assert (EL : 2 ^ bit_length x = 2 * 2 ^ Z.log2 x).
  { unfold bit_length. destruct (Z.ltb_spec 0 x); [ | lia ].
    rewrite Z.pow_add_r by lia. lia. }
  assert (Hx : in_range bt x) by (apply in_range_pos with (2 * Z.max x (2 ^ n) + 3); [ lia | assumption ]).
  assert (HL : in_range bt (2 ^ bit_length x))
    by (apply in_range_pos with (2 * Z.max x (2 ^ n) + 3); [ lia | assumption ]).
  assert (Hone : in_range bt 1)
    by (apply in_range_pos with (2 * Z.max x (2 ^ n) + 3); [ lia | assumption ]).
  rewrite (as_q_lit 1 Hone) by (vm_compute; split; discriminate).
  rewrite (sqrt_scan_run fuel x Hx Hx0 HL Hf). cbn [bind snd].
  rewrite EL in *.
  set (p := 2 ^ Z.log2 x) in *.
  assert (Es : Z.shiftr (2 * p) 1 = p)
    by (rewrite Z.shiftr_div_pow2, Z.pow_1_r, Z.mul_comm, Z.div_mul; lia).
  math_split; math_eval; rewrite Es in *; rewrite ?swrap_small in * by rng;
    f_equal; lia.
Qed.

(** [sqrt] of a value that is not positive is 0: the guard of the
    function, for every format and every fuel. *)
Theorem q_sqrt_nonpositive (fuel : nat) (x : Z) :
  in_range bt x -> x <= 0 -> q_sqrt n bt fuel x = Ok 0.
Proof. intros Hx Hx0. unfold q_sqrt. math_split; math_eval; c_done. Qed.

(** C7. [sqrt] of a positive value, when twice the larger of [x] and [ONE]
    plus three fits the type and [x << n] fits the promoted type, returns
    without a fault what four rounds of Newton's iteration on [x * 2^n]
    give from the seed, and that is never below the integer square root
    of [x * 2^n], the exact result in the format. *)
Theorem q_sqrt_spec (fuel : nat) (x : Z) :
  0 < x -> in_range bt (2 * Z.max x (2 ^ n) + 3) ->
  in_srange (pw (width bt)) (x * 2 ^ n) ->
  bit_length x < Z.of_nat fuel ->
  q_sqrt n bt fuel x = Ok (sqrt_raw n x) /\
  Z.sqrt (x * 2 ^ n) <= sqrt_raw n x <= Z.max x (2 ^ n) + 1.
Proof.
  intros Hx0 HM HX Hf. rewrite (q_sqrt_unfold fuel x Hx0 HM Hf).
  apply newton_run; assumption.
Qed.

End SqrtProps.

(** * The exponentials *)

(** A double of ratio at most [a / b] scales to at most that ratio of
    [2^n]. *)
Lemma raw_of_ratio (d : double) (n a b : Z) :
  0 <= n -> de d <= 0 -> 0 <= dm d -> 0 < b ->
  b * dm d <= a * 2 ^ (- de d) -> 0 <= raw_of d n /\ b * raw_of d n <= a * 2 ^ n.
Proof.
  intros Hn He Hd Hb Hab. rewrite raw_of_eq by assumption.
  pose proof (pow2_pos n Hn). pose proof (pow2_pos (- de d) ltac:(lia)).
  pose proof (Z.mul_div_le (dm d * 2 ^ n) (2 ^ (- de d)) ltac:(lia)).
  split; [ apply Z.div_pos; nia | nia ].
Qed.

Lemma exp2_frac_bounds (n x L : Z) :
  0 <= n -> 0 <= L -> 10 * L <= 7 * 2 ^ n ->
  let f := x mod 2 ^ n in
  let t := Z.shiftr (f * L) n in
  let t2 := Z.shiftr (t * t) (n + 1) in
  0 <= f < 2 ^ n /\ 0 <= f * L < 2 ^ n * 2 ^ n /\ 0 <= t <= L /\
  0 <= t * t < 2 ^ n * 2 ^ n /\ 0 <= t2 /\ 2 ^ n + t + t2 < 2 * 2 ^ n.
Proof.
  intros Hn HL0 HL f t t2. pose proof (pow2_pos n Hn) as HP.
  pose proof (Z.mod_pos_bound x (2 ^ n) ltac:(lia)) as Hf. fold f in Hf.
  assert (Ht : 0 <= t <= L).
  { subst t. rewrite Z.shiftr_div_pow2 by lia.
    split; [ apply Z.div_pos; nia | apply Z.div_le_upper_bound; nia ]. }
  assert (Ht2 : 0 <= t2 /\ 200 * t2 <= 49 * 2 ^ n).
  { subst t2. rewrite Z.shiftr_div_pow2, Z.pow_add_r, Z.pow_1_r by lia.
    set (P := 2 ^ n) in *.
    pose proof (Z.mul_div_le (t * t) (P * 2) ltac:(lia)).
    pose proof (Z.mul_nonneg_nonneg (7 * P - 10 * t) (7 * P + 10 * t) ltac:(lia) ltac:(lia)).
    split; [ apply Z.div_pos; nia | nia ]. }
  set (P := 2 ^ n) in *. repeat split; nia.
Qed.

Lemma exp2_int_bounds (n m q r : Z) :
  0 <= n -> 0 <= q < m -> r < 2 * 2 ^ n -> 0 <= r ->
  2 * (2 ^ n * 2 ^ q) <= 2 ^ (m + n + 1 - 1) /\
  2 ^ n * 2 ^ n <= 2 ^ (2 * n + m) /\
  0 <= 2 ^ n * 2 ^ q * r < 2 ^ (2 * n + m) /\
  0 <= Z.shiftr (2 ^ n * 2 ^ q * r) n < 2 ^ (m + n + 1 - 1).
Proof.
  intros Hn Hq Hr Hr0. pose proof (pow2_pos n Hn). pose proof (pow2_pos q ltac:(lia)).
  pose proof (pow2_le_mono (q + 1) m ltac:(lia)) as Hqm.
  rewrite Z.pow_add_r, Z.pow_1_r in Hqm by lia.
  replace (m + n + 1 - 1) with (n + m) by lia.
  replace (2 * n + m) with (n + n + m) by lia.
  rewrite !Z.pow_add_r by lia. pose proof (pow2_pos m ltac:(lia)).
  rewrite Z.shiftr_div_pow2 by lia.
  replace (2 ^ n * 2 ^ q * r) with (2 ^ q * r * 2 ^ n) by lia.
  rewrite Z.div_mul by lia.
  set (P := 2 ^ n) in *. set (Q := 2 ^ q) in *. set (M := 2 ^ m) in *.
  assert (Q * r <= Q * (2 * P - 1)) by (apply Z.mul_le_mono_nonneg_l; lia).
  assert (Q * (2 * P - 1) < P * M) by nia.
  assert (0 <= Q * r) by nia.
  repeat split; nia.
Qed.

Lemma exp2_raw_binade (n x : Z) :
  0 <= n -> 0 <= Z.shiftr x n ->
  2 ^ (n + Z.shiftr x n) <= exp2_raw n x < 2 * 2 ^ (n + Z.shiftr x n).
Proof.
  intros Hn Hq.
  destruct (raw_of_ratio ln2_literal n 7 10 Hn) as [HL0 HL]; try (cbn; lia).
  destruct (exp2_frac_bounds n x _ Hn HL0 HL) as (_ & _ & Ht & _ & Ht2 & Hr).
  unfold exp2_raw. fold (exp2_frac n x) in Hr.
  assert (Hlo : 2 ^ n <= exp2_frac n x) by (unfold exp2_frac; lia).
  set (r := exp2_frac n x) in *. set (q := Z.shiftr x n) in *.
  pose proof (pow2_pos n Hn). pose proof (pow2_pos q Hq).
  rewrite Z.pow_add_r, Z.shiftr_div_pow2 by lia.
  replace (2 ^ n * 2 ^ q * r) with (2 ^ q * r * 2 ^ n) by lia.
  rewrite Z.div_mul by lia. nia.
Qed.

Lemma exp2_raw_integer (n k : Z) :
  0 <= n -> 0 <= k -> exp2_raw n (k * 2 ^ n) = 2 ^ (n + k).
Proof.
  intros Hn Hk. pose proof (pow2_pos n Hn). unfold exp2_raw, exp2_frac.
  rewrite Z.mod_mul by lia. cbn [Z.mul].
  rewrite !(Z.shiftr_div_pow2 0), Z.div_0_l, !Z.add_0_r by lia.
  rewrite !Z.shiftr_div_pow2, !Z.div_mul by lia. reflexivity.
Qed.

(** Evaluates the bound of the promoted type once the width is known. *)
Ltac pw_consts :=
  repeat match goal with
  | H : context [2 ^ (pw (width (Int ?w)) - 1)] |- _ =>
      let v := eval vm_compute in (2 ^ (pw (width (Int w)) - 1)) in
      change (2 ^ (pw (width (Int w)) - 1)) with v in H
  | H : context [pw (width (Int ?w))] |- _ =>
      let v := eval vm_compute in (pw (width (Int w))) in
      change (pw (width (Int w))) with v in H
  | H : context [width (Int ?w)] |- _ => change (width (Int w)) with w in H
  end.

Section ExpProps.
Context {D : Dialect}.
Variables m n : Z.
Variable bt : ity.
Hypothesis Hbt : base_type m n = Return bt.
Hypothesis Hm : 1 <= m.
Hypothesis Hn : 0 <= n.

Let Hm0 : 0 <= m.
Proof. lia. Qed.

(** [exp2] of a value whose integer part is at least [m] saturates: it
    returns [MAX], the largest value of [m + n + 1] bits. *)
Theorem q_exp2_saturates (x : Z) :
  in_range bt x -> in_range c_int (Z.shiftr x n) -> total_bits m n <= 63 ->
  m <= Z.shiftr x n ->
  q_exp2 m n bt x = Ok (smax (total_bits m n)).
Proof.
  intros Hx Hi Ht63 Hip. unfold q_exp2. rewrite (Q_MAX_value m n bt Hbt) by lia.
  math_split; math_eval; c_done.
Qed.

(** [exp2] of a value whose integer part is below [-n] is 0. *)
Theorem q_exp2_underflows (x : Z) :
  in_range bt x -> in_range c_int (Z.shiftr x n) ->
  Z.shiftr x n < - n ->
  q_exp2 m n bt x = Ok 0.
Proof.
  intros Hx Hi Hip. unfold q_exp2. math_split; math_eval; c_done.
Qed.

(** C37. [exp2] of a negative value whose integer part is at least [-n]
    shifts [ONE] left by that negative count: the behaviour is undefined,
    in every dialect. *)
Theorem q_exp2_negative_faults (x : Z) :
  in_range bt x -> - n <= Z.shiftr x n < 0 ->
  q_exp2 m n bt x = Err ShiftCount.
Proof.
  intros Hx Hip. unfold q_exp2. math_split; math_eval; c_done.
Qed.

Lemma ln2_value :
  scaled n bt ln2_literal = Ok (CV bt (raw_of ln2_literal n)) /\
  0 <= raw_of ln2_literal n /\ 10 * raw_of ln2_literal n <= 7 * 2 ^ n.
Proof.
  pose proof (raw_of_ratio ln2_literal n 7 10 Hn) as Hr.
  specialize (Hr ltac:(cbn; lia) ltac:(cbn; lia) ltac:(lia) ltac:(cbn; lia)).
  split; [ | exact Hr ]. pose proof (pow2_pos n Hn).
  assert (n <= 62 /\ in_range bt (raw_of ln2_literal n)) as [Hn62 Hi].
  { destruct (base_type_cases m n bt Hbt Hm0 Hn) as (sb & Hsb & Hnsb & Ht & ->).
    pose proof (standard_width_bounds sb Hsb).
    pose proof (pow2_le_mono n (sb - 1) ltac:(lia)).
    unfold total_bits in Ht. split; [ lia | c_start; rng ]. }
  rewrite scaled_spec, in_rangeb_true by assumption. reflexivity.
Qed.

Lemma q_exp2_run (x : Z) :
  in_range bt x -> 0 <= Z.shiftr x n < m -> 2 * n + m < pw (width bt) ->
  q_exp2 m n bt x = Ok (exp2_raw n x).
Proof.
  intros Hx Hip Hw. unfold q_exp2. destruct ln2_value as (-> & HL0 & HL).
  destruct (exp2_frac_bounds n x (raw_of ln2_literal n) Hn HL0 HL)
    as (Hf & Hp & Ht & Hp2 & Ht2 & Hr).
  unfold exp2_raw, exp2_frac. rewrite (Z.pow_add_r 2 n) by lia.
  set (L := raw_of ln2_literal n) in *. clearbody L.
  destruct (exp2_int_bounds n m (Z.shiftr x n) _ Hn Hip Hr ltac:(lia))
    as (Hi & Hnn & Hp3 & Ho).
  pose proof (pow2_le_mono (2 * n + m) (pw (width bt) - 1) ltac:(lia)) as Hpw.
  math_split; pw_consts; math_eval; c_done.
Qed.

(** C10. [exp2] of a value with integer part [0 <= q < m], in a format whose
    products fit the promoted type ([2n + m] bits), returns without a
    fault the polynomial approximation shifted by [q], which lies in the
    binade of the exact result: between [2^q] and [2^(q+1)] in the
    format. *)
Theorem q_exp2_spec (x : Z) :
  in_range bt x -> 0 <= Z.shiftr x n < m -> 2 * n + m < pw (width bt) ->
  q_exp2 m n bt x = Ok (exp2_raw n x) /\
  2 ^ (n + Z.shiftr x n) <= exp2_raw n x < 2 * 2 ^ (n + Z.shiftr x n).
Proof.
  intros Hx Hip Hw. split; [ apply q_exp2_run; assumption | ].
  apply exp2_raw_binade; [ assumption | lia ].
Qed.

(** [exp2] is exact at the integers: [exp2 (k * ONE) = ONE << k] for
    [0 <= k < m]. *)
Theorem q_exp2_integer (k : Z) :
  0 <= k < m -> 2 * n + m < pw (width bt) ->
  q_exp2 m n bt (k * 2 ^ n) = Ok (2 ^ (n + k)).
Proof.
  intros Hk Hw. pose proof (pow2_pos n Hn).
  assert (Es : Z.shiftr (k * 2 ^ n) n = k)
    by (rewrite Z.shiftr_div_pow2, Z.div_mul by lia; reflexivity).
  assert (Hin : in_range bt (k * 2 ^ n)).
  { apply (in_range_pos m n bt Hbt Hm0 Hn _ (2 ^ (m + n + 1 - 1) - 1)).
    - pose proof (Z.pow_gt_lin_r 2 m ltac:(lia) ltac:(lia)) as Hkm.
      replace (m + n + 1 - 1) with (m + n) by lia.
      rewrite !Z.pow_add_r in * by lia. nia.
    - math_split; c_start; rng. }
  rewrite q_exp2_run, exp2_raw_integer by (rewrite ?Es; assumption || lia).
  reflexivity.
Qed.

Lemma log2e_value :
  scaled n bt log2e_literal = Ok (CV bt (raw_of log2e_literal n)) /\
  0 <= raw_of log2e_literal n /\ 2 * raw_of log2e_literal n <= 3 * 2 ^ n.
Proof.
  pose proof (raw_of_ratio log2e_literal n 3 2 Hn) as Hr.
  specialize (Hr ltac:(cbn; lia) ltac:(cbn; lia) ltac:(lia) ltac:(cbn; lia)).
  split; [ | exact Hr ]. pose proof (pow2_pos n Hn).
  assert (n <= 62 /\ in_range bt (raw_of log2e_literal n)) as [Hn62 Hi].
  { destruct (base_type_cases m n bt Hbt Hm0 Hn) as (sb & Hsb & Hnsb & Ht & ->).
    pose proof (standard_width_bounds sb Hsb).
    pose proof (pow2_le_mono n (sb - 2) ltac:(unfold total_bits in Ht; lia)).
    pose proof (pow2_double (sb - 1) ltac:(lia)).
    replace (sb - 1 - 1) with (sb - 2) in * by lia.
    unfold total_bits in Ht. split; [ lia | c_start; rng ]. }
  rewrite scaled_spec, in_rangeb_true by assumption. reflexivity.
Qed.

(** [exp] of 0 is [ONE], in a format whose products fit the promoted
    type. *)
Theorem q_exp_zero :
  2 * n + m < pw (width bt) -> q_exp m n bt 0 = Ok (2 ^ n).
Proof.
  intros Hw. unfold q_exp. destruct log2e_value as (-> & HL0 & HL). cbn [bind].
  pose proof (pow2_pos n Hn).
  assert (H0 : in_range bt 0) by (math_split; c_start; rng).
  pose proof (q_exp2_run 0 H0) as E. rewrite Z.shiftr_0_l in E.
  specialize (E ltac:(lia) Hw).
  pose proof (exp2_raw_integer n 0 Hn ltac:(lia)) as E0.
  rewrite Z.mul_0_l, Z.add_0_r in E0. rewrite E0 in E.
  rewrite <- E. generalize (q_exp2 m n bt). intros F.
  math_split; math_eval; c_done.
Qed.

End ExpProps.

(** * The logarithms *)

(** The bounds of the linear term of [log2] on a normalised value. *)
Lemma log2_frac_bounds (n N L : Z) :
  0 <= n -> 2 ^ n <= N < 2 * 2 ^ n -> 0 <= L -> 2 * L <= 3 * 2 ^ n ->
  let lf := Z.shiftr ((N - 2 ^ n) * L) n in
  0 <= (N - 2 ^ n) * L < 2 ^ (2 * n + 1) /\
  0 <= lf /\ 2 * lf <= 3 * (2 ^ n - 1).
Proof.
  intros Hn HN HL0 HL lf. pose proof (pow2_pos n Hn) as HP.
  subst lf. rewrite Z.shiftr_div_pow2 by lia.
  pose proof (Z.mul_div_le ((N - 2 ^ n) * L) (2 ^ n) HP).
  replace (2 * n + 1) with (n + n + 1) by lia. rewrite !Z.pow_add_r, Z.pow_1_r by lia.
  set (P := 2 ^ n) in *.
  repeat split; [ nia | nia | apply Z.div_pos; nia | nia ].
Qed.

(** The bounds of the steps of [log2] on a value of [c] bits, at least
    [n + 1], in a type of [sb] bits. *)
Lemma log2_bounds (n c x L sb : Z) :
  0 <= n -> n <= c - 1 -> c < sb -> 2 ^ (c - 1) <= x < 2 * 2 ^ (c - 1) ->
  0 <= L -> 2 * L <= 3 * 2 ^ n ->
  let N := Z.shiftr x (c - 1 - n) in
  let lf := Z.shiftr ((N - 2 ^ n) * L) n in
  2 ^ n <= N < 2 * 2 ^ n /\
  0 <= (N - 2 ^ n) * L < 2 ^ (2 * n + 1) /\
  0 <= lf /\ 2 * lf <= 3 * (2 ^ n - 1) /\
  0 <= (c - 1 - n) * 2 ^ n + lf <= 2 ^ (sb - 1) - 1.
Proof.
  intros Hn Hc Hsb Hx HL0 HL N lf. pose proof (pow2_pos n Hn) as HP.
  pose proof (pow2_pos (c - 1 - n) ltac:(lia)) as HJ.
  assert (HN : 2 ^ n <= N < 2 * 2 ^ n).
  { subst N. rewrite Z.shiftr_div_pow2 by lia.
    replace (c - 1) with (c - 1 - n + n) in Hx by lia.
    rewrite Z.pow_add_r in Hx by lia.
    split; [ apply Z.div_le_lower_bound; nia | apply Z.div_lt_upper_bound; nia ]. }
  destruct (log2_frac_bounds n N L Hn HN HL0 HL) as (Hp & Hlf0 & Hlf).
  fold lf in Hlf0, Hlf.
  pose proof (Z.pow_gt_lin_r 2 (c - 1 - n) ltac:(lia) ltac:(lia)) as Hlin.
  pose proof (pow2_le_mono (c - 1 - n + 1 + n) (sb - 1) ltac:(lia)) as Hsbp.
  rewrite !Z.pow_add_r, ?Z.pow_1_r in Hsbp by lia.
  set (P := 2 ^ n) in *. set (J := 2 ^ (c - 1 - n)) in *.
  repeat split; try assumption; try lia; nia.
Qed.

Lemma log2_raw_bounds (n x : Z) :
  0 <= n -> 2 ^ n <= x ->
  (Z.log2 x - n) * 2 ^ n <= log2_raw n x /\
  2 * log2_raw n x <= 2 * (Z.log2 x - n) * 2 ^ n + 3 * (2 ^ n - 1).
Proof.
  intros Hn Hx. pose proof (pow2_pos n Hn).
  pose proof (Z.log2_spec x ltac:(lia)) as Hlog.
  pose proof (Z.log2_le_pow2 x n ltac:(lia)) as [Hle _]. specialize (Hle Hx).
  destruct (raw_of_ratio log2e_literal n 3 2 Hn) as [HL0 HL]; try (cbn; lia).
  replace (Z.succ (Z.log2 x)) with (Z.log2 x + 1) in Hlog by lia.
  rewrite Z.pow_add_r, Z.pow_1_r in Hlog by lia.
  destruct (log2_bounds n (Z.log2 x + 1) x (raw_of log2e_literal n) (Z.log2 x + 2) Hn)
    as (_ & _ & Hlf0 & Hlf & _);
    rewrite ?Z.add_simpl_r; try eassumption; try lia.
  unfold log2_raw. destruct (Z.leb_spec n (Z.log2 x)); [ | lia ].
  rewrite Z.add_simpl_r in *. lia.
Qed.

Lemma log2_raw_power_of_two (n k : Z) :
  0 <= n -> n <= k -> log2_raw n (2 ^ k) = (k - n) * 2 ^ n.
Proof.
  intros Hn Hk. unfold log2_raw. rewrite Z.log2_pow2 by lia.
  destruct (Z.leb_spec n k); [ | lia ].
  rewrite (Z.shiftr_div_pow2 (2 ^ k)), <- Z.pow_sub_r by lia.
  replace (k - (k - n)) with n by lia. rewrite Z.sub_diag. cbn [Z.mul].
  rewrite Z.shiftr_div_pow2, Z.div_0_l by (pose proof (pow2_pos n Hn); lia). lia.
Qed.

(** The normalised value of [log2] below [ONE]. *)
Lemma log2_norm_low (n c x : Z) :
  1 <= c -> c - 1 < n -> 2 ^ (c - 1) <= x < 2 * 2 ^ (c - 1) ->
  2 ^ n <= x * 2 ^ (n - (c - 1)) < 2 * 2 ^ n.
Proof.
  intros Hc Hcn Hx.
  assert (E : 2 ^ n = 2 ^ (c - 1) * 2 ^ (n - (c - 1)))
    by (rewrite <- Z.pow_add_r by lia; f_equal; lia).
  rewrite E.
  pose proof (pow2_pos (c - 1) ltac:(lia)). pose proof (pow2_pos (n - (c - 1)) ltac:(lia)).
  nia.
Qed.

Section LogProps.
Context {D : Dialect}.
Variables m n : Z.
Variable bt : ity.
Hypothesis Hbt : base_type m n = Return bt.
Hypothesis Hm : 1 <= m.
Hypothesis Hn : 0 <= n.

Let Hm0 : 0 <= m.
Proof. lia. Qed.

Lemma log2_scan_cond_spec (v c : Z) :
  in_range bt v -> log2_scan_cond bt (v, c) = Ok (0 <? v).
Proof.
  intros Hv. unfold log2_scan_cond. cbn [fst].
  math_split; math_eval; reflexivity.
Qed.

Lemma log2_scan_body_spec (v c : Z) :
  in_range bt v -> 0 <= v -> 0 <= c <= 64 ->
  log2_scan_body bt (v, c) = Ok (Z.shiftr v 1, c + 1).
Proof.
  intros Hv Hv0 Hc. unfold log2_scan_body. cbn [fst snd].
  pose proof (shiftr_range v 1 0 v ltac:(lia) ltac:(lia) ltac:(lia)).
  math_split; math_eval; c_done.
Qed.

Lemma log2_scan_run (fuel : nat) (x : Z) :
  in_range bt x -> 0 < x -> bit_length x < Z.of_nat fuel ->
  while_loop fuel (log2_scan_cond bt) (log2_scan_body bt) (x, 0) =
  Ok (0, bit_length x).
Proof.
  intros Hx Hx0 Hf. destruct (bit_length_shiftr x Hx0) as [_ Hpos].
  pose proof (bit_length_width m n bt Hbt Hm0 Hn x Hx) as Hw.
  assert (Hr : forall k, 0 <= k -> in_range bt (Z.shiftr x k)).
  { intros k Hk. apply (in_range_pos m n bt Hbt Hm0 Hn) with x; [ | assumption ].
    apply shiftr_range; lia. }
  assert (Hw64 : width bt <= 64) by (math_split; cbn; lia).
  apply (scan_run _ _ (fun k => k) x Hx0); [ | | | assumption ].
  - intros k Hk. rewrite log2_scan_cond_spec by (apply Hr; lia).
    specialize (Hpos k Hk). destruct (Z.ltb_spec 0 (Z.shiftr x k)); [ reflexivity | lia ].
  - apply log2_scan_cond_spec, (in_range_pos m n bt Hbt Hm0 Hn) with x; [ lia | assumption ].
  - intros k Hk. rewrite log2_scan_body_spec.
    + rewrite Z.shiftr_shiftr by lia. reflexivity.
    + apply Hr; lia.
    + specialize (Hpos k Hk). lia.
    + lia.
Qed.

(** [log2] of a value that is not positive is [MIN]. *)
Theorem q_log2_nonpositive (fuel : nat) (x : Z) :
  in_range bt x -> x <= 0 -> total_bits m n <= 63 ->
  q_log2 m n bt fuel x = Ok (smin (total_bits m n)).
Proof.
  intros Hx Hx0 Ht63. unfold q_log2. rewrite (Q_MIN_value m n bt Hbt) by lia.
  math_split; math_eval; c_done.
Qed.

Lemma q_log2_run (fuel : nat) (x : Z) :
  in_range bt x -> 2 ^ n <= x -> bit_length x < Z.of_nat fuel ->
  2 * n + 1 < pw (width bt) ->
  in_range c_int ((Z.log2 x - n) * 2 ^ n) ->
  q_log2 m n bt fuel x = Ok (log2_raw n x).
Proof.
  intros Hx Hx1 Hf Hw Hi. pose proof (pow2_pos n Hn). unfold q_log2.
  rewrite (positive_test m n bt Hbt Hm0 Hn x Hx).
  destruct (Z.leb_spec x 0); [ lia | ].
  change (cv (lit 0)) with 0. rewrite (log2_scan_run fuel x Hx ltac:(lia) Hf).
  destruct (log2e_value m n bt Hbt Hm Hn) as (-> & HL0 & HL). cbn [bind snd]. unfold log2_raw.
  pose proof (bit_length_width m n bt Hbt Hm0 Hn x Hx) as Hc.
  pose proof (Z.log2_spec x ltac:(lia)) as Hlog.
  pose proof (Z.log2_le_pow2 x n ltac:(lia)) as [Hle _]. specialize (Hle Hx1).
  assert (Ec : Z.log2 x = bit_length x - 1)
    by (unfold bit_length; destruct (Z.ltb_spec 0 x); lia).
  rewrite Ec in *. destruct (Z.leb_spec n (bit_length x - 1)); [ | lia ].
  replace (Z.succ (bit_length x - 1)) with (bit_length x - 1 + 1) in Hlog by lia.
  rewrite Z.pow_add_r, Z.pow_1_r in Hlog by lia.
  destruct (log2_bounds n (bit_length x) x _ (width bt) Hn Hle Hc ltac:(lia) HL0 HL)
    as (HN & Hp & Hlf0 & Hlf & Hout).
  set (L := raw_of log2e_literal n) in *. clearbody L.
  set (c := bit_length x) in *. clearbody c.
  pose proof (pow2_le_mono (2 * n + 1) (pw (width bt) - 1) ltac:(lia)) as Hpw.
  math_split; pw_consts; math_eval; c_done.
Qed.

(** C11. [log2] of a value of at least [ONE], in a format whose products fit
    the promoted type, returns without a fault the position of the
    highest bit and a linear term, which is at least the floor of the
    exact logarithm and exceeds it by less than [3/2]. *)
Theorem q_log2_spec (fuel : nat) (x : Z) :
  in_range bt x -> 2 ^ n <= x -> bit_length x < Z.of_nat fuel ->
  2 * n + 1 < pw (width bt) ->
  in_range c_int ((Z.log2 x - n) * 2 ^ n) ->
  q_log2 m n bt fuel x = Ok (log2_raw n x) /\
  (Z.log2 x - n) * 2 ^ n <= log2_raw n x /\
  2 * log2_raw n x <= 2 * (Z.log2 x - n) * 2 ^ n + 3 * (2 ^ n - 1).
Proof.
  intros Hx Hx1 Hf Hw Hi. split; [ apply q_log2_run; assumption | ].
  apply log2_raw_bounds; assumption.
Qed.

(** [log2] is exact at the powers of two from [ONE] on. *)
Theorem q_log2_power_of_two (fuel : nat) (k : Z) :
  n <= k -> in_range bt (2 ^ k) -> (k + 1 < Z.of_nat fuel) ->
  2 * n + 1 < pw (width bt) -> in_range c_int ((k - n) * 2 ^ n) ->
  q_log2 m n bt fuel (2 ^ k) = Ok ((k - n) * 2 ^ n).
Proof.
  intros Hk Hx Hf Hw Hi. pose proof (pow2_pos k ltac:(lia)).
  assert (Eb : bit_length (2 ^ k) = k + 1)
    by (unfold bit_length; destruct (Z.ltb_spec 0 (2 ^ k)); [ rewrite Z.log2_pow2; lia | lia ]).
  rewrite q_log2_run, log2_raw_power_of_two;
    rewrite ?Z.log2_pow2, ?Eb; try assumption; try lia.
  - reflexivity.
  - apply pow2_le_mono; lia.
Qed.

(** C38. In a dialect where the left shift of a negative value is undefined,
    [log2] of a positive value below [ONE] is undefined: its integer
    part is negative and is shifted left. *)
Theorem q_log2_below_one_strict (fuel : nat) (x : Z) :
  signed_shl_wraps = false ->
  in_range bt x -> 0 < x < 2 ^ n -> bit_length x < Z.of_nat fuel ->
  2 * n + 1 < pw (width bt) ->
  q_log2 m n bt fuel x = Err ShiftNegative.
Proof.
  intros HD Hx Hx1 Hf Hw. pose proof (pow2_pos n Hn). unfold q_log2.
  rewrite (positive_test m n bt Hbt Hm0 Hn x Hx).
  destruct (Z.leb_spec x 0); [ lia | ].
  change (cv (lit 0)) with 0. rewrite (log2_scan_run fuel x Hx ltac:(lia) Hf).
  destruct (log2e_value m n bt Hbt Hm Hn) as (-> & HL0 & HL). cbn [bind snd].
  pose proof (bit_length_width m n bt Hbt Hm0 Hn x Hx) as Hc.
  pose proof (Z.log2_spec x ltac:(lia)) as Hlog. pose proof (Z.log2_nonneg x).
  pose proof (Z.log2_lt_pow2 x n ltac:(lia)) as [Hlt _]. specialize (Hlt ltac:(lia)).
  assert (Ec : Z.log2 x = bit_length x - 1)
    by (unfold bit_length; destruct (Z.ltb_spec 0 x); lia).
  rewrite Ec in *.
  replace (Z.succ (bit_length x - 1)) with (bit_length x - 1 + 1) in Hlog by lia.
  rewrite Z.pow_add_r, Z.pow_1_r in Hlog by lia.
  pose proof (log2_norm_low n (bit_length x) x ltac:(lia) Hlt ltac:(lia)) as HN.
  destruct (log2_frac_bounds n _ _ Hn HN HL0 HL) as (Hp & Hlf0 & Hlf).
  set (L := raw_of log2e_literal n) in *. clearbody L.
  set (c := bit_length x) in *. clearbody c.
  pose proof (pow2_le_mono (2 * n + 1) (pw (width bt) - 1) ltac:(lia)) as Hpw.
  math_split; pw_consts; math_eval; c_done.
Qed.

(** [log] of [ONE] is 0. *)
Theorem q_log_one (fuel : nat) :
  n + 1 < Z.of_nat fuel -> 2 * n + 1 < pw (width bt) ->
  q_log m n bt fuel (2 ^ n) = Ok 0.
Proof.
  intros Hf Hw. unfold q_log. pose proof (pow2_pos n Hn).
  assert (Eb : bit_length (2 ^ n) = n + 1)
    by (unfold bit_length; destruct (Z.ltb_spec 0 (2 ^ n)); [ rewrite Z.log2_pow2; lia | lia ]).
  assert (Hx : in_range bt (2 ^ n)) by (math_split; c_start; rng).
  rewrite q_log2_run, log2_raw_power_of_two;
    rewrite ?Z.log2_pow2, ?Eb, ?Z.sub_diag; try assumption; try lia;
    [ | vm_compute; split; discriminate ].
  destruct (ln2_value m n bt Hbt Hm Hn) as (-> & HL0 & HL). cbn [bind Z.mul].
  math_split; math_eval; c_done.
Qed.

(** [pow] of a base that is not positive is 0. *)
Theorem q_pow_nonpositive (fuel : nat) (base exponent : Z) :
  in_range bt base -> base <= 0 -> q_pow m n bt fuel base exponent = Ok 0.
Proof.
  intros Hx Hx0. unfold q_pow. rewrite (positive_test m n bt Hbt Hm0 Hn base Hx).
  destruct (Z.leb_spec base 0); [ | lia ]. math_split; math_eval; c_done.
Qed.

(** [pow] of the base two is [exp2]: the logarithm of [2 * ONE] is
    [ONE] exactly, and the product with it shifts back to the
    exponent. *)
Theorem q_pow_two (fuel : nat) (e : Z) :
  2 <= m -> n <= 30 -> in_range bt e -> in_srange (pw (width bt)) (e * 2 ^ n) ->
  n + 2 < Z.of_nat fuel -> 2 * n + 1 < pw (width bt) ->
  q_pow m n bt fuel (2 ^ (n + 1)) e = q_exp2 m n bt e.
Proof.
  intros Hm2 Hn30 He Hp Hf Hw. unfold q_pow. pose proof (pow2_pos n Hn).
  pose proof (pow2_pos (n + 1) ltac:(lia)).
  assert (Eb : bit_length (2 ^ (n + 1)) = n + 2)
    by (unfold bit_length; destruct (Z.ltb_spec 0 (2 ^ (n + 1)));
        [ rewrite Z.log2_pow2; lia | lia ]).
  assert (Hx : in_range bt (2 ^ (n + 1))).
  { destruct (base_type_cases m n bt Hbt Hm0 Hn) as (sb & Hsb & Hnsb & Ht & ->).
    pose proof (pow2_lt_mono (n + 1) (sb - 1) ltac:(unfold total_bits in Ht; lia)).
    c_start; rng. }
  assert (Hi : in_range c_int (2 ^ n)).
  { pose proof (pow2_lt_mono n 31 ltac:(lia)). c_start; rng. }
  rewrite (positive_test m n bt Hbt Hm0 Hn _ Hx).
  destruct (Z.leb_spec (2 ^ (n + 1)) 0); [ lia | ].
  rewrite q_log2_run, log2_raw_power_of_two;
    rewrite ?Z.log2_pow2, ?Eb, ?Z.add_simpl_l, ?Z.mul_1_l; try assumption; try lia;
    [ | apply pow2_le_mono; lia ].
  cbn [bind].
  assert (Es : Z.shiftr (e * 2 ^ n) n = e)
    by (rewrite Z.shiftr_div_pow2, Z.div_mul by lia; reflexivity).
  replace (q_exp2 m n bt e) with (q_exp2 m n bt (Z.shiftr (e * 2 ^ n) n)) by (rewrite Es; reflexivity).
  generalize (q_exp2 m n bt). intros F.
  math_split; pw_consts; math_eval; rewrite ?Es; c_done.
Qed.

End LogProps.

(** * Concrete formats *)

(** In Q7.8 four rounds of Newton's iteration from the seed [ONE] have
    not converged for the smallest raw value: [sqrt] returns 20 where
    the root of [1 * 2^8] is 16; and for the largest the result, 3257,
    is above the root 2896. *)
Example Q7_8_sqrt_not_converged :
  q_sqrt (D := iso_c) 8 int16_t 64 1 = Ok 20 /\ Z.sqrt (1 * 2 ^ 8) = 16 /\
  q_sqrt (D := iso_c) 8 int16_t 64 32767 = Ok 3257 /\ Z.sqrt (32767 * 2 ^ 8) = 2896.
Proof. closed_Z. Qed.

(** In Q15.16 the dividend [x << 16] of [sqrt] is computed in 32 bits:
    for [x = ONE] the shift overflows, which is undefined in ISO C, and
    where it wraps the result is 4096, one sixteenth of [ONE]. *)
Example Q15_16_sqrt_one :
  q_sqrt (D := iso_c) 16 int32_t 64 65536 = Err ShiftOverflow /\
  q_sqrt (D := gnu_c) 16 int32_t 64 65536 = Ok 4096 /\
  Z.sqrt (65536 * 2 ^ 16) = 65536.
Proof. closed_Z. Qed.

(** In Q15.16 the last product of [exp2] is computed in 32 bits and
    overflows already for [x = 0], in both dialects. *)
Example Q15_16_exp2_zero :
  q_exp2 (D := iso_c) 15 16 int32_t 0 = Err SignedOverflow /\
  q_exp2 (D := gnu_c) 15 16 int32_t 0 = Err SignedOverflow.
Proof. closed_Z. Qed.

(** [log2] is not monotone: in Q7.8 the value just below [2 * ONE] has
    a larger logarithm than [2 * ONE] itself. *)
Example Q7_8_log2_not_monotone :
  q_log2 (D := iso_c) 7 8 int16_t 64 511 = Ok 367 /\
  q_log2 (D := iso_c) 7 8 int16_t 64 512 = Ok 256.
Proof. closed_Z. Qed.

(** In Q7.8 [exp] of [ONE] is 690 (2.695), and [exp] of [-ONE] is
    undefined: its scaled argument has the integer part -2. *)
Example Q7_8_exp_values :
  q_exp (D := iso_c) 7 8 int16_t 256 = Ok 690 /\
  q_exp (D := iso_c) 7 8 int16_t (-256) = Err ShiftCount /\
  q_exp (D := gnu_c) 7 8 int16_t (-256) = Err ShiftCount.
Proof. closed_Z. Qed.

(** * Witnesses *)

Ltac transc_wit := repeat first [ lia | reflexivity | solve [ closed_Z ] ].

Lemma q_sqrt_nonpositive_witness : q_sqrt (D := iso_c) 8 int16_t 0 (-5) = Ok 0.
Proof. apply (q_sqrt_nonpositive 7 8 int16_t); transc_wit. Defined.

Lemma q_sqrt_spec_witness :
  q_sqrt (D := iso_c) 8 int16_t 16 1024 = Ok (sqrt_raw 8 1024) /\
  Z.sqrt (1024 * 2 ^ 8) <= sqrt_raw 8 1024 <= Z.max 1024 (2 ^ 8) + 1.
Proof. apply (q_sqrt_spec 7 8 int16_t); transc_wit. Defined.

Lemma q_exp2_saturates_witness :
  q_exp2 (D := iso_c) 7 8 int16_t 1792 = Ok (smax (total_bits 7 8)).
Proof. apply (q_exp2_saturates 7 8 int16_t); transc_wit. Defined.

Lemma q_exp2_underflows_witness : q_exp2 (D := iso_c) 7 8 int16_t (-2305) = Ok 0.
Proof. apply (q_exp2_underflows 7 8 int16_t); transc_wit. Defined.

Lemma q_exp2_negative_faults_witness :
  q_exp2 (D := gnu_c) 7 8 int16_t (-1) = Err ShiftCount.
Proof. apply (q_exp2_negative_faults 7 8 int16_t); transc_wit. Defined.

Lemma q_exp2_spec_witness :
  q_exp2 (D := iso_c) 7 8 int16_t 384 = Ok (exp2_raw 8 384) /\
  2 ^ (8 + Z.shiftr 384 8) <= exp2_raw 8 384 < 2 * 2 ^ (8 + Z.shiftr 384 8).
Proof. apply (q_exp2_spec 7 8 int16_t); transc_wit. Defined.

Lemma q_exp2_integer_witness :
  q_exp2 (D := iso_c) 7 8 int16_t (3 * 2 ^ 8) = Ok (2 ^ (8 + 3)).
Proof. apply (q_exp2_integer 7 8 int16_t); transc_wit. Defined.

Lemma q_exp_zero_witness : q_exp (D := iso_c) 7 8 int16_t 0 = Ok (2 ^ 8).
Proof. apply (q_exp_zero 7 8 int16_t); transc_wit. Defined.

Lemma q_log2_nonpositive_witness :
  q_log2 (D := iso_c) 7 8 int16_t 0 0 = Ok (smin (total_bits 7 8)).
Proof. apply (q_log2_nonpositive 7 8 int16_t); transc_wit. Defined.

Lemma q_log2_spec_witness :
  q_log2 (D := iso_c) 7 8 int16_t 16 511 = Ok (log2_raw 8 511) /\
  (Z.log2 511 - 8) * 2 ^ 8 <= log2_raw 8 511 /\
  2 * log2_raw 8 511 <= 2 * (Z.log2 511 - 8) * 2 ^ 8 + 3 * (2 ^ 8 - 1).
Proof. apply (q_log2_spec 7 8 int16_t); transc_wit. Defined.

Lemma q_log2_power_of_two_witness :
  q_log2 (D := iso_c) 7 8 int16_t 16 (2 ^ 10) = Ok ((10 - 8) * 2 ^ 8).
Proof. apply (q_log2_power_of_two 7 8 int16_t); transc_wit. Defined.

Lemma q_log2_below_one_strict_witness :
  q_log2 (D := iso_c) 7 8 int16_t 16 128 = Err ShiftNegative.
Proof. apply (q_log2_below_one_strict 7 8 int16_t); transc_wit. Defined.

Lemma q_log_one_witness : q_log (D := iso_c) 7 8 int16_t 16 (2 ^ 8) = Ok 0.
Proof. apply (q_log_one 7 8 int16_t); transc_wit. Defined.

Lemma q_pow_nonpositive_witness : q_pow (D := iso_c) 7 8 int16_t 0 (-1) 512 = Ok 0.
Proof. apply (q_pow_nonpositive 7 8 int16_t); transc_wit. Defined.

Lemma q_pow_two_witness :
  q_pow (D := iso_c) 7 8 int16_t 16 (2 ^ (8 + 1)) 384 = q_exp2 (D := iso_c) 7 8 int16_t 384.
Proof. apply (q_pow_two 7 8 int16_t); transc_wit. Defined.
