(* ===== verification/Convert.v ===== *)
(** * Convert: the conversions from and to [double]

    The two inline functions [q<m>_<n>_from_double] and
    [q<m>_<n>_to_double] of generate_headers.py (lines 108-114).

    A finite double is a dyadic pair [Dbl m e] of [Consts], the value
    [m * 2^e]; [round53] is the rounding of binary64: to 53 significant
    bits, to the nearest, ties to even.  The exponent is not bounded:
    the products of [from_double] are with [2^n] for [n >= 0], so they
    do not underflow, and a product that would overflow to infinity is
    outside every integer type here as well; [to_double] divides an
    integer of at most 64 bits by [2^n] for [n < 64].  The argument of
    [from_double] is a [cdouble]: finite, infinite or not a number. *)

From Stdlib Require Import ZArith Lia Bool List Morphisms RelationClasses Setoid.
From S2P Require Import Prelude CInt Format Arith Consts.
Import ListNotations.
#[local] Open Scope Z_scope.
#[local] Open Scope res_scope.

(** * Binary64 *)

Inductive cdouble : Type :=
| Fin (d : double)
| Inf (negative : bool)
| NaN.

(** Rounding to 53 significant bits, to nearest, ties to even. *)
Definition round53 (d : double) : double :=
  let a := Z.abs (dm d) in
  let k := Z.log2 a + 1 - 53 in
  if k <=? 0 then d
  else
    let q := Z.shiftr a k in
    let r := a mod 2 ^ k in
    let half := 2 ^ (k - 1) in
    let up := (half <? r) || ((r =? half) && Z.odd q) in
    Dbl (Z.sgn (dm d) * (if up then q + 1 else q)) (de d + k).

(** [a * b] and [a + b] in [double]. *)
Definition dbl_mul (a b : double) : double :=
  round53 (Dbl (dm a * dm b) (de a + de b)).

Definition dbl_add (a b : double) : double :=
  let e := Z.min (de a) (de b) in
  round53 (Dbl (dm a * 2 ^ (de a - e) + dm b * 2 ^ (de b - e)) e).

(** [(double)z] for an integer. *)
Definition dbl_of_int (z : Z) : double := round53 (Dbl z 0).

(** [a / 2^n]: exact. *)
Definition dbl_div_pow2 (a : double) (n : Z) : double := Dbl (dm a) (de a - n).

(** [d >= 0]. *)
Definition dbl_ge0 (d : double) : bool := 0 <=? dm d.

(** Equality of the values of two doubles. *)
Definition dbl_eqb (a b : double) : bool := dbl_leb a b && dbl_leb b a.

(** Two pairs are equivalent when they have the same value: the same
    mantissa at their smaller exponent. *)
Definition dbl_equiv (a b : double) : Prop :=
  let e := Z.min (de a) (de b) in
  dm a * 2 ^ (de a - e) = dm b * 2 ^ (de b - e).

#[local] Infix "==" := dbl_equiv (at level 70, no associativity).

(** [0.5] and [-0.5]. *)
Definition half : double := Dbl 1 (-1).
Definition neg_half : double := Dbl (-1) (-1).

(** * Specification *)

(** The nearest integer to the value of a double, ties away from
    zero. *)
Definition round_half_away (d : double) : Z :=
  if 0 <=? de d then dm d * 2 ^ de d
  else if 0 <=? dm d then (dm d + 2 ^ (- de d - 1)) / 2 ^ (- de d)
  else - ((- dm d + 2 ^ (- de d - 1)) / 2 ^ (- de d)).

(** The exact sum of a double and one half of its sign. *)
Definition add_half (p : double) : double :=
  let e := Z.min (de p) (-1) in
  Dbl (dm p * 2 ^ (de p - e) + (if 0 <=? dm p then 1 else -1) * 2 ^ (-1 - e)) e.

(** * The emitted functions *)

Section ConvOps.
Variable n : Z.
Variable H : header.

(** [return WRAP((storage_type)(d * float(1 << n) + (d >= 0 ? 0.5 : -0.5)));]
    The conversion of an infinity or of a NaN to an integer type is
    undefined. *)
Definition from_double (x : cdouble) : res Z :=
  match x with
  | Fin d =>
      let p := dbl_mul d (dbl_pow2 n) in
      let h := if dbl_ge0 d then half else neg_half in
      v <- c_of_double (storage_type H) (dbl_add p h) ;;
      ret (cv (WRAP H v))
  | Inf _ | NaN => Err ConvRange
  end.

(** [return (double)a / float(1 << n);] *)
Definition to_double (a : Z) : double := dbl_div_pow2 (dbl_of_int a) n.

End ConvOps.

(** * The equivalence of doubles *)

(** The equivalence can be tested at any exponent below both. *)
Lemma dbl_equiv_at (e : Z) (a b : double) :
  e <= de a -> e <= de b ->
  (a == b <-> dm a * 2 ^ (de a - e) = dm b * 2 ^ (de b - e)).
Proof.
  intros Ha Hb. unfold dbl_equiv. cbv zeta. set (e0 := Z.min (de a) (de b)).
  pose proof (pow2_pos (e0 - e) ltac:(lia)) as Hp.
  replace (de a - e) with (de a - e0 + (e0 - e)) by lia.
  replace (de b - e) with (de b - e0 + (e0 - e)) by lia.
  rewrite !Z.pow_add_r, !Z.mul_assoc by lia.
  split; [ intros ->; reflexivity | ].
  intros E. apply Z.mul_cancel_r in E; [ exact E | lia ].
Qed.

#[export] Instance dbl_equiv_equivalence : Equivalence dbl_equiv.
Proof.
  split.
  - intros a. reflexivity.
  - intros a b E. unfold dbl_equiv in *. rewrite (Z.min_comm (de b)). symmetry. exact E.
  - intros a b c Hab Hbc. set (e := Z.min (de a) (Z.min (de b) (de c))).
    apply (dbl_equiv_at e) in Hab, Hbc; try lia.
    apply (dbl_equiv_at e); [ lia | lia | congruence ].
Qed.

(** The integral part at any exponent below the pair's and zero. *)
Lemma dbl_trunc_at (e : Z) (d : double) :
  e <= de d -> e <= 0 ->
  dbl_trunc d = Z.quot (dm d * 2 ^ (de d - e)) (2 ^ (- e)).
Proof.
  intros He H0. unfold dbl_trunc. pose proof (pow2_pos (- e) ltac:(lia)).
  destruct (Z.leb_spec 0 (de d)).
  - replace (de d - e) with (de d + - e) by lia.
    rewrite Z.pow_add_r, Z.mul_assoc, Z.quot_mul by lia. reflexivity.
  - replace (- e) with (- de d + (de d - e)) by lia.
    pose proof (pow2_pos (- de d) ltac:(lia)). pose proof (pow2_pos (de d - e) ltac:(lia)).
    rewrite Z.pow_add_r, Z.quot_mul_cancel_r by lia. reflexivity.
Qed.

#[export] Instance dbl_trunc_proper : Proper (dbl_equiv ==> eq) dbl_trunc.
Proof.
  intros a b E. set (e := Z.min 0 (Z.min (de a) (de b))).
  apply (dbl_equiv_at e) in E; try lia.
  rewrite (dbl_trunc_at e a), (dbl_trunc_at e b) by lia. rewrite E. reflexivity.
Qed.

#[export] Instance c_of_double_proper (t : ity) :
  Proper (dbl_equiv ==> eq) (c_of_double t).
Proof.
  intros a b E. unfold c_of_double. cbv zeta.
  rewrite (dbl_trunc_proper a b E). reflexivity.
Qed.

(** * Lemmas on the rounding *)

Lemma round53_small (m e : Z) : Z.abs m < 2 ^ 53 -> round53 (Dbl m e) = Dbl m e.
Proof.
  intros Hm. unfold round53. cbn [dm de].
  destruct (Z.eq_dec (Z.abs m) 0) as [E|E].
  - rewrite E. reflexivity.
  - pose proof (Z.log2_lt_pow2 (Z.abs m) 53 ltac:(lia)) as [Hl _].
    specialize (Hl Hm). destruct (Z.leb_spec (Z.log2 (Z.abs m) + 1 - 53) 0); [ reflexivity | lia ].
Qed.

(** Truncation after adding half of the sign is rounding half away
    from zero. *)
Lemma trunc_add_half (p : double) : dbl_trunc (add_half p) = round_half_away p.
Proof.
  destruct p as [m e]. unfold add_half, dbl_trunc, round_half_away. cbn [dm de].
  destruct (Z.leb_spec 0 e) as [He|He].
  - rewrite Z.min_r by lia. destruct (Z.leb_spec 0 (-1)); [ lia | ].
    replace (-1 - -1) with 0 by lia. replace (- -1) with 1 by lia.
    replace (e - -1) with (e + 1) by lia. rewrite Z.pow_add_r by lia.
    change (2 ^ 0) with 1. change (2 ^ 1) with 2. pose proof (pow2_pos e He).
    destruct (Z.leb_spec 0 m).
    + rewrite Z.quot_div_nonneg by nia.
      symmetry. apply (Z.div_unique_pos _ _ _ 1); nia.
    + rewrite <- (Z.opp_involutive (m * _ + _)), Z.quot_opp_l by lia.
      rewrite Z.quot_div_nonneg by nia.
      assert ((- (m * (2 ^ e * 2) + -1 * 1)) / 2 = - m * 2 ^ e); [ | lia ].
      symmetry. apply (Z.div_unique_pos _ _ _ 1); nia.
  - rewrite Z.min_l by lia. destruct (Z.leb_spec 0 e); [ lia | ].
    rewrite Z.sub_diag, Z.mul_1_r. replace (-1 - e) with (- e - 1) by lia.
    pose proof (pow2_pos (- e) ltac:(lia)). pose proof (pow2_pos (- e - 1) ltac:(lia)).
    destruct (Z.leb_spec 0 m).
    + rewrite Z.mul_1_l. apply Z.quot_div_nonneg; lia.
    + rewrite <- (Z.opp_involutive (m + _)), Z.quot_opp_l by lia.
      rewrite Z.quot_div_nonneg by lia. f_equal. f_equal. lia.
Qed.

(** The error of rounding half away from zero: at most one half. *)
Lemma round_half_away_error (m e : Z) :
  e < 0 -> 2 * Z.abs (round_half_away (Dbl m e) * 2 ^ (- e) - m) <= 2 ^ (- e).
Proof.
  intros He. unfold round_half_away. cbn [dm de].
  destruct (Z.leb_spec 0 e); [ lia | ].
  pose proof (pow2_pos (- e - 1) ltac:(lia)) as Hh.
  assert (E2 : 2 ^ (- e) = 2 * 2 ^ (- e - 1)).
  { replace (- e) with (- e - 1 + 1) at 1 by lia. rewrite Z.pow_add_r by lia. lia. }
  rewrite E2. set (h := 2 ^ (- e - 1)) in *.
  destruct (Z.leb_spec 0 m).
  - pose proof (Z.div_mod (m + h) (2 * h) ltac:(lia)).
    pose proof (Z.mod_pos_bound (m + h) (2 * h) ltac:(lia)). lia.
  - pose proof (Z.div_mod (- m + h) (2 * h) ltac:(lia)).
    pose proof (Z.mod_pos_bound (- m + h) (2 * h) ltac:(lia)). lia.
Qed.

(** * Theorems *)

Section ConvProps.
Variables m n : Z.
Variable H : header.
Hypothesis Hwf : wf_header m n H.
Hypothesis Hm : 0 <= m.

Lemma WRAP_id (z : Z) :
  in_range (storage_type H) z -> cv (WRAP H (CV (storage_type H) z)) = z.
Proof.
  intros Hz. unfold WRAP, type_name, cast. cbn [cv].
  apply wrap_small; [ | exact Hz ].
  destruct (wf_header_cases m n H Hwf Hm) as (sb & Hsb & _ & ->).
  pose proof (standard_width_bounds sb Hsb). cbn. lia.
Qed.

(** [from_double] on a finite double whose product and sum are exact:
    the conversion of the sum, which is the rounded scaled value. *)
Lemma from_double_run (d : double) :
  let p := Dbl (dm d) (de d + n) in
  Z.abs (dm d) < 2 ^ 53 -> Z.abs (dm (add_half p)) < 2 ^ 53 ->
  from_double n H (Fin d) =
  if in_rangeb (storage_type H) (round_half_away p)
  then Ok (round_half_away p) else Err ConvRange.
Proof.
  intros p Hd Hs. unfold from_double, dbl_mul, dbl_pow2. cbn [dm de].
  rewrite Z.mul_1_r, round53_small by exact Hd. fold p.
  assert (E : dbl_add p (if dbl_ge0 d then half else neg_half) = add_half p).
  { unfold dbl_add, add_half, dbl_ge0, half, neg_half in *. subst p. cbn [dm de] in *.
    destruct (0 <=? dm d); cbn [dm de]; apply round53_small; exact Hs. }
  rewrite E. unfold c_of_double. rewrite trunc_add_half.
  destruct (in_rangeb (storage_type H) (round_half_away p)) eqn:Er; [ | reflexivity ].
  cbn [bind]. unfold ret. rewrite WRAP_id; [ reflexivity | ].
  apply in_rangeb_spec, Er.
Qed.

(** C35. [from_double] rounds half away from zero, as long as the double
    arithmetic is exact: for a finite [d] whose sum with one half has at
    most 53 significant bits it returns the integer nearest to
    [d * 2^n], ties away from zero, which is within one half of it; and
    when that integer is not a value of the storage type the conversion
    is undefined, before [WRAP] is applied. *)
Theorem from_double_spec (d : double) :
  let p := Dbl (dm d) (de d + n) in
  Z.abs (dm d) < 2 ^ 53 -> Z.abs (dm (add_half p)) < 2 ^ 53 ->
  from_double n H (Fin d) =
    (if in_rangeb (storage_type H) (round_half_away p)
     then Ok (round_half_away p) else Err ConvRange) /\
  (de d + n < 0 ->
   2 * Z.abs (round_half_away p * 2 ^ (- (de d + n)) - dm d) <= 2 ^ (- (de d + n))).
Proof.
  intros p Hd Hs. split; [ apply from_double_run; assumption | ].
  intros He. apply round_half_away_error, He.
Qed.

Lemma to_double_small (a : Z) : Z.abs a < 2 ^ 53 -> to_double n a = Dbl a (- n).
Proof.
  intros Ha. unfold to_double, dbl_of_int, dbl_div_pow2.
  rewrite round53_small by exact Ha. reflexivity.
Qed.

(** [to_double] is exact for the storage types of at most 32 bits: the
    double it returns is [a * 2^-n]. *)
Theorem to_double_exact (a : Z) :
  storage_bits H <= 32 -> in_srange (storage_bits H) a ->
  to_double n a = Dbl a (- n).
Proof.
  intros Hsb Ha. apply to_double_small.
  destruct (wf_header_cases m n H Hwf Hm) as (sb & Hw & _ & ->).
  cbn [storage_bits] in *. pose proof (standard_width_bounds sb Hw).
  pose proof (pow2_le_mono (sb - 1) 31 ltac:(lia)).
  pose proof (pow2_lt_mono 31 53 ltac:(lia)).
  unfold in_srange, smin, smax in Ha. lia.
Qed.

(** C8. Round trip: every raw value below [2^52] in magnitude, so every
    value of a format of at most 53 bits, comes back from
    [from_double (to_double a)]. *)
Theorem from_double_to_double (a : Z) :
  in_srange (storage_bits H) a -> Z.abs a < 2 ^ 52 ->
  from_double n H (Fin (to_double n a)) = Ok a.
Proof.
  intros Ha Hs. pose proof (pow2_lt_mono 52 53 ltac:(lia)).
  assert (E53 : 2 ^ 53 = 2 * 2 ^ 52) by reflexivity.
  rewrite to_double_small by lia. rewrite from_double_run; cbn [dm de].
  - replace (- n + n) with 0 by lia. unfold round_half_away. cbn [dm de Z.leb Z.compare].
    change (2 ^ 0) with 1. rewrite Z.mul_1_r, in_rangeb_true; [ reflexivity | ].
    destruct (wf_header_cases m n H Hwf Hm) as (sb & _ & _ & ->). exact Ha.
  - lia.
  - replace (- n + n) with 0 by lia. unfold add_half. cbn [dm de].
    rewrite Z.min_r by lia. change (2 ^ (0 - -1)) with 2. change (2 ^ (-1 - -1)) with 1.
    destruct (0 <=? a); lia.
Qed.

(** C36. Round trip from a double: a finite double that is a multiple of
    [2^-n], with a scaled value [r] that is a raw value below [2^52] in
    magnitude, is converted to [r], and [to_double r] has the value of
    the double. *)
Theorem to_double_from_double (d : double) :
  0 <= de d + n -> Z.abs (dm d * 2 ^ (de d + n)) < 2 ^ 52 ->
  in_srange (storage_bits H) (dm d * 2 ^ (de d + n)) ->
  from_double n H (Fin d) = Ok (dm d * 2 ^ (de d + n)) /\
  dbl_equiv (to_double n (dm d * 2 ^ (de d + n))) d.
Proof.
  intros He Hr Hin. pose proof (pow2_pos (de d + n) He) as Hp.
  assert (E53 : 2 ^ 53 = 2 * 2 ^ 52) by reflexivity.
  set (r := dm d * 2 ^ (de d + n)) in *.
  assert (Hm53 : Z.abs (dm d) < 2 ^ 53) by (subst r; nia).
  split.
  - rewrite from_double_run; [ | exact Hm53 | ].
    + unfold round_half_away. cbn [dm de]. destruct (Z.leb_spec 0 (de d + n)); [ | lia ].
      fold r. rewrite in_rangeb_true; [ reflexivity | ].
      destruct (wf_header_cases m n H Hwf Hm) as (sb & _ & _ & ->). exact Hin.
    + unfold add_half. cbn [dm de]. rewrite Z.min_r by lia.
      replace (de d + n - -1) with (de d + n + 1) by lia.
      rewrite Z.pow_add_r by lia. change (2 ^ (-1 - -1)) with 1. change (2 ^ 1) with 2.
      fold r. destruct (0 <=? dm d); lia.
  - rewrite to_double_small by lia. unfold dbl_equiv. cbn [dm de].
    rewrite Z.min_l by lia. rewrite Z.sub_diag. subst r.
    replace (de d - - n) with (de d + n) by lia. change (2 ^ 0) with 1. lia.
Qed.

End ConvProps.

(** * Concrete formats *)

(** The header of Q31.32, a format that fills 64 bits. *)
Definition Q31_32 : header :=
  Header 64 int64_t uint64_t int128_t INT64_MAX INT64_MIN (2 ^ 32).

(** The boundary values of Q7.8: [from_double(1.5)] is 384 and
    [to_double(384)] is 1.5; [from_double(128.0)] is outside [int16_t],
    so that the conversion is undefined and nothing saturates or wraps;
    an infinity and a NaN have no conversion either. *)
Example Q7_8_from_double_values :
  from_double 8 Q7_8 (Fin (Dbl 3 (-1))) = Ok 384 /\
  dbl_eqb (to_double 8 384) (Dbl 3 (-1)) = true /\
  from_double 8 Q7_8 (Fin (Dbl 128 0)) = Err ConvRange /\
  from_double 8 Q7_8 (Inf false) = Err ConvRange /\
  from_double 8 Q7_8 NaN = Err ConvRange.
Proof. vm_compute. repeat split; reflexivity. Qed.

(** Double rounding: for [n = 0] the largest double below one half,
    [(2^53 - 1) * 2^-54], is converted to 1, because its sum with [0.5]
    rounds to [1.0]; the nearest integer is 0. *)
Example from_double_below_half :
  from_double 0 Q31_0 (Fin (Dbl (2 ^ 53 - 1) (-54))) = Ok 1 /\
  round_half_away (Dbl (2 ^ 53 - 1) (-54)) = 0.
Proof. vm_compute. split; reflexivity. Qed.

(** In a 64-bit format [to_double] rounds the raw values of more than
    53 bits, and the round trip does not return them: in Q31.32 the raw
    value [2^53 + 1] comes back as [2^53]. *)
Example Q31_32_round_trip_lost :
  in_srange (storage_bits Q31_32) (2 ^ 53 + 1) /\
  to_double 32 (2 ^ 53 + 1) = Dbl (2 ^ 52) (1 - 32) /\
  from_double 32 Q31_32 (Fin (to_double 32 (2 ^ 53 + 1))) = Ok (2 ^ 53).
Proof. vm_compute. repeat split; reflexivity || discriminate. Qed.

(** * Witnesses *)

Ltac conv_wit :=
  repeat first [ lia | reflexivity | solve [ closed_Z ] | exact Q7_8_wf | apply Q7_8_range ].

Lemma from_double_spec_witness :
  from_double 8 Q7_8 (Fin (Dbl 5 (-10))) =
    (if in_rangeb (storage_type Q7_8) (round_half_away (Dbl 5 (-10 + 8)))
     then Ok (round_half_away (Dbl 5 (-10 + 8))) else Err ConvRange) /\
  (-10 + 8 < 0 ->
   2 * Z.abs (round_half_away (Dbl 5 (-10 + 8)) * 2 ^ (- (-10 + 8)) - 5) <=
   2 ^ (- (-10 + 8))).
Proof. apply (from_double_spec 7 8 Q7_8 Q7_8_wf ltac:(lia) (Dbl 5 (-10))); conv_wit. Defined.

Lemma to_double_exact_witness : to_double 8 (-32768) = Dbl (-32768) (- 8).
Proof. apply (to_double_exact 7 8 Q7_8 Q7_8_wf); conv_wit. Defined.

Lemma to_double_from_double_witness :
  from_double 8 Q7_8 (Fin (Dbl 3 (-1))) = Ok (3 * 2 ^ (-1 + 8)) /\
  dbl_equiv (to_double 8 (3 * 2 ^ (-1 + 8))) (Dbl 3 (-1)).
Proof. apply (to_double_from_double 7 8 Q7_8 Q7_8_wf ltac:(lia) (Dbl 3 (-1))); conv_wit. Defined.

Lemma from_double_to_double_witness :
  from_double 8 Q7_8 (Fin (to_double 8 (-32768))) = Ok (-32768).
Proof. apply (from_double_to_double 7 8 Q7_8 Q7_8_wf); conv_wit. Defined.
