(* ===== verification/Names.v ===== *)
(** * Names: the strings and paths the generators build

    The strings the two scripts build from [m] and [n]: file names,
    include guards, type and macro names (generate_headers.py lines
    40-50, generate_math_headers.py lines 13, 26-27, 117, 156, 160, 402, 408),
    and
    the path operations they call ([os.path.join], [pathlib.Path],
    [parent], [/], [str]).

    Python strings are [string]s of bytes and [f"{m}"] of an [int] is
    stdpp's [pretty]; [str.upper] is modelled on ASCII.  A path string
    is resolved against the working directory into the list of its
    components; there are no symbolic links and no [..] components in
    the model.

    The lemmas say which numbers and names can be read back from a file
    name ([q_file_inj]), which names are identifiers of C ([q_ident]),
    and how joining a directory and a simple name resolves
    ([resolve_join], [pp_resolve_div]). *)

From Stdlib Require Import Ascii.
From stdpp Require Import strings pretty list.
From S2P Require Import Prelude.
#[local] Open Scope Z_scope.
#[local] Set Warnings "-clear-no-such-hyp".
#[local] Arguments String.append !_ _ / : simpl nomatch.

(** * Python strings *)

(** [f"{z}"] and [str(z)] of an [int]. *)
Definition str (z : Z) : string := pretty z.

Fixpoint string_map (f : ascii -> ascii) (s : string) : string :=
  match s with
  | EmptyString => EmptyString
  | String c s' => String (f c) (string_map f s')
  end.

Fixpoint string_forallb (f : ascii -> bool) (s : string) : bool :=
  match s with
  | EmptyString => true
  | String c s' => f c && string_forallb f s'
  end.

Definition between (lo hi : N) (c : ascii) : bool :=
  ((lo <=? Ascii.N_of_ascii c) && (Ascii.N_of_ascii c <=? hi))%N.

Definition is_lower : ascii -> bool := between 97 122.
Definition is_upper : ascii -> bool := between 65 90.
Definition is_digit : ascii -> bool := between 48 57.

(** [str.upper] on ASCII text. *)
Definition upper_char (c : ascii) : ascii :=
  if is_lower c then Ascii.ascii_of_N (Ascii.N_of_ascii c - 32) else c.

Definition upper : string -> string := string_map upper_char.

(** [s.replace(old, new)] for one-character [old] and [new]. *)
Definition replace (old new : ascii) : string -> string :=
  string_map (fun c => if Ascii.eqb c old then new else c).

(** Truth value of an optional string argument: [None] and [""] are
    false. *)
Definition truthy (o : option string) : option string :=
  match o with
  | Some EmptyString => None
  | _ => o
  end.

(** The characters of [str z]. *)
Definition numeric (c : ascii) : bool := is_digit c || Ascii.eqb c "-"%char.

(** An identifier of C: a letter or underscore, then letters, digits
    and underscores. *)
Definition ident_start (c : ascii) : bool :=
  is_lower c || is_upper c || Ascii.eqb c "_"%char.

Definition ident_char (c : ascii) : bool := ident_start c || is_digit c.

Definition c_ident (s : string) : bool :=
  match s with
  | EmptyString => false
  | String c s' => ident_start c && string_forallb ident_char s'
  end.

(** * Names *)

(** The names [generate_header] derives from its arguments;
    [type_ident] is the script's [type_name]. *)
Record names : Type := Names {
  filename : string;
  guard : string;
  type_ident : string;
  macro_prefix : string
}.

(** The shape of every file name the scripts build. *)
Definition q_file (m n : Z) (suffix : string) : string :=
  "q" +:+ str m +:+ "_" +:+ str n +:+ suffix.

(** generate_headers.py lines 40-50. *)
Definition header_names (m n : Z) (filename_override : option string) : names :=
  match truthy filename_override with
  | Some filename =>
      let guard_base := upper (replace "."%char "_"%char filename) in
      Names filename ("FIXP_GEN_" +:+ guard_base)
        ("q" +:+ str m +:+ "_" +:+ str n +:+ "_t")
        ("Q" +:+ str m +:+ "_" +:+ str n)
  | None =>
      Names ("q" +:+ str m +:+ "_" +:+ str n +:+ ".h")
        ("FIXP_GEN_Q" +:+ str m +:+ "_" +:+ str n +:+ "_H")
        ("q" +:+ str m +:+ "_" +:+ str n +:+ "_t")
        ("Q" +:+ str m +:+ "_" +:+ str n)
  end.

(** generate_math_headers.py: the include guard (lines 26-27 and 117),
    the type name (line 13), the two file names (lines 402 and 408; the
    first is also the [#include] of line 156) and the gain macro (line
    160). *)
Definition math_guard (m_bits n_bits : Z) : string :=
  "FIXP_Q" +:+ str m_bits +:+ "_" +:+ str n_bits +:+ "_MATH_H".

Definition math_type_name (m_bits n_bits : Z) : string :=
  "q" +:+ str m_bits +:+ "_" +:+ str n_bits +:+ "_t".

Definition math_header_name (m n : Z) : string :=
  "q" +:+ str m +:+ "_" +:+ str n +:+ "_math.h".

Definition math_impl_name (m n : Z) : string :=
  "q" +:+ str m +:+ "_" +:+ str n +:+ "_math.c".

Definition cordic_k_name (n_bits : Z) : string := "CORDIC_K_" +:+ str n_bits.

(** * Paths *)

(** A resolved path: its components from the root. *)
Abbreviation path := (list string).

Definition is_abs (s : string) : bool :=
  match s with
  | String c _ => Ascii.eqb c "/"%char
  | EmptyString => false
  end.

Fixpoint ends_with_sep (s : string) : bool :=
  match s with
  | EmptyString => false
  | String c EmptyString => Ascii.eqb c "/"%char
  | String _ s' => ends_with_sep s'
  end.

(** [s.split("/")]: never empty. *)
Fixpoint split_sep (s : string) : list string :=
  match s with
  | EmptyString => [EmptyString]
  | String c s' =>
      if Ascii.eqb c "/"%char then EmptyString :: split_sep s'
      else match split_sep s' with
           | x :: xs => String c x :: xs
           | [] => [String c EmptyString]
           end
  end.

Definition real_component (x : string) : bool :=
  negb (String.eqb x "") && negb (String.eqb x ".").

(** A file name that is one component of a path. *)
Definition simple_name (f : string) : bool :=
  string_forallb (fun x => negb (Ascii.eqb x "/"%char)) f && real_component f
  && negb (String.eqb f "..").

(** The components path resolution and [pathlib] see: empty ones and
    [.] are dropped. *)
Definition components (s : string) : list string :=
  List.filter real_component (split_sep s).

Definition resolve (cwd : path) (s : string) : path :=
  (if is_abs s then [] else cwd) ++ components s.

(** [os.path.join(a, b)]. *)
Definition path_join (a b : string) : string :=
  if is_abs b then b
  else if String.eqb a "" || ends_with_sep a then a +:+ b
  else a +:+ "/" +:+ b.

(** A [pathlib.Path]: whether it has a root, and its parts. *)
Record ppath : Type := PPath {
  pp_abs : bool;
  pp_parts : list string
}.

Definition Path (s : string) : ppath := PPath (is_abs s) (components s).

(** [p.parent]: lexical, and a path without parts is its own parent. *)
Definition pp_parent (p : ppath) : ppath :=
  PPath (pp_abs p) (removelast (pp_parts p)).

(** [p / s]. *)
Definition pp_div (p : ppath) (s : string) : ppath :=
  if is_abs s then Path s
  else PPath (pp_abs p) (pp_parts p ++ components s).

Fixpoint join_sep (l : list string) : string :=
  match l with
  | [] => ""
  | [x] => x
  | x :: l' => x +:+ "/" +:+ join_sep l'
  end.

(** [str(p)]. *)
Definition pp_str (p : ppath) : string :=
  if pp_abs p then "/" +:+ join_sep (pp_parts p)
  else match pp_parts p with
       | [] => "."
       | l => join_sep l
       end.

Definition pp_resolve (cwd : path) (p : ppath) : path :=
  (if pp_abs p then [] else cwd) ++ pp_parts p.

(** * Lemmas *)

(** ** Strings *)

Lemma string_forallb_app f (s t : string) :
  string_forallb f (s +:+ t) = string_forallb f s && string_forallb f t.
Proof. induction s as [|c s IH]; simpl; [done|]. by rewrite IH, andb_assoc. Qed.

Lemma string_forallb_impl (f g : ascii -> bool) s :
  (forall c, f c = true -> g c = true) ->
  string_forallb f s = true -> string_forallb g s = true.
Proof.
  intros Hfg. induction s as [|c s IH]; simpl; [done|].
  rewrite !andb_true_iff. intros [? ?]. auto.
Qed.

(** The first occurrence of a separator determines both sides. *)
Lemma app_sep_inj (c : ascii) (a a' b b' : string) :
  string_forallb (fun x => negb (Ascii.eqb x c)) a = true ->
  string_forallb (fun x => negb (Ascii.eqb x c)) a' = true ->
  a +:+ String c b = a' +:+ String c b' -> a = a' /\ b = b'.
Proof.
  revert a'. induction a as [|x a IH]; intros [|x' a']; simpl;
    rewrite ?andb_true_iff, ?negb_true_iff; intros Ha Ha' E;
    simplify_eq; try done.
  - destruct Ha' as [Hx _]. by rewrite Ascii.eqb_refl in Hx.
  - destruct Ha as [Hx _]. by rewrite Ascii.eqb_refl in Hx.
  - destruct Ha, Ha'. by destruct (IH a') as [-> ->].
Qed.

Lemma pretty_N_char_digit x : is_digit (pretty_N_char x) = true.
Proof. unfold pretty_N_char. by repeat case_match. Qed.

Lemma pretty_N_go_digits x s :
  string_forallb is_digit s = true ->
  string_forallb is_digit (pretty_N_go x s) = true.
Proof.
  revert s. induction (N.lt_wf_0 x) as [x _ IH]; intros s Hs.
  destruct (decide (x = 0)%N) as [->|]; [by rewrite pretty_N_go_0|].
  rewrite pretty_N_go_step by lia. apply IH; [apply N.div_lt; lia|].
  simpl. by rewrite pretty_N_char_digit.
Qed.

Lemma pretty_N_digits (x : N) : string_forallb is_digit (pretty x) = true.
Proof.
  unfold pretty, pretty_N. case_decide; [done|]. by apply pretty_N_go_digits.
Qed.

Lemma pretty_N_go_nonempty x s : s <> "" -> pretty_N_go x s <> "".
Proof.
  revert s. induction (N.lt_wf_0 x) as [x _ IH]; intros s Hs.
  destruct (decide (x = 0)%N) as [->|]; [by rewrite pretty_N_go_0|].
  rewrite pretty_N_go_step by lia. apply IH; [apply N.div_lt; lia|done].
Qed.

Lemma str_nonneg z : 0 <= z -> string_forallb is_digit (str z) = true.
Proof.
  destruct z as [|p|p]; [done| |lia]. intros _. apply (pretty_N_digits (N.pos p)).
Qed.

Lemma str_neg z :
  z < 0 -> exists s, str z = String "-" s /\ string_forallb is_digit s = true.
Proof.
  destruct z as [|p|p]; [lia|lia|]. intros _.
  exists (pretty (N.pos p)). split; [done|apply pretty_N_digits].
Qed.

Lemma str_numeric z : string_forallb numeric (str z) = true.
Proof.
  destruct (decide (0 <= z)) as [H|H].
  - eapply string_forallb_impl, str_nonneg, H. unfold numeric. by intros c ->.
  - destruct (str_neg z) as (s & -> & Hs); [lia|]. simpl.
    eapply string_forallb_impl, Hs. unfold numeric. by intros c ->.
Qed.

Lemma str_nonempty z : str z <> "".
Proof.
  destruct (decide (0 <= z)) as [H|H].
  - destruct z as [|p|p]; [done| |lia]. unfold str, pretty, pretty_Z, pretty, pretty_positive, pretty, pretty_N.
    case_decide; [done|]. rewrite pretty_N_go_step by lia. apply pretty_N_go_nonempty. done.
  - destruct (str_neg z) as (s & -> & _); [lia|done].
Qed.

#[global] Instance str_inj : Inj (=) (=) str.
Proof. unfold str. apply _. Qed.

(** No character of a number is a separator of the names. *)
Lemma str_no_sep (c : ascii) z :
  numeric c = false -> string_forallb (fun x => negb (Ascii.eqb x c)) (str z) = true.
Proof.
  intros Hc. eapply string_forallb_impl, str_numeric.
  intros x Hx. apply negb_true_iff, Ascii.eqb_neq. by intros ->; congruence.
Qed.

(** ** Identifiers *)

Lemma digit_ident c : is_digit c = true -> ident_char c = true.
Proof. unfold ident_char. intros ->. apply orb_true_r. Qed.

(** The digits of a number are characters of an identifier, its sign is
    not. *)
Lemma str_ident z : string_forallb ident_char (str z) = true <-> 0 <= z.
Proof.
  split.
  - intros Hz. destruct (decide (0 <= z)) as [|Hneg]; [done|].
    destruct (str_neg z) as (s & E & _); [lia|]. by rewrite E in Hz.
  - intros Hz. eapply string_forallb_impl; [apply digit_ident|by apply str_nonneg].
Qed.

Lemma c_ident_app (pre s : string) :
  c_ident pre = true -> c_ident (pre +:+ s) = string_forallb ident_char s.
Proof.
  destruct pre as [|c pre]; [done|]. simpl. rewrite string_forallb_app.
  by intros [-> ->]%andb_true_iff.
Qed.

(** A name built from [m] and [n] is an identifier exactly when neither
    is negative. *)
Lemma q_ident (pre suf : string) m n :
  c_ident pre = true -> string_forallb ident_char suf = true ->
  c_ident (pre +:+ str m +:+ "_" +:+ str n +:+ suf) = true <-> 0 <= m /\ 0 <= n.
Proof.
  intros Hp Hs. rewrite c_ident_app by done. rewrite string_forallb_app. simpl.
  rewrite string_forallb_app, Hs, andb_true_r, andb_true_iff.
  by rewrite !str_ident.
Qed.

Lemma upper_replace_ident (c : ascii) :
  ident_char (upper_char (if Ascii.eqb c "." then "_" else c))
  = ident_char c || Ascii.eqb c ".".
Proof. by destruct c as [[] [] [] [] [] [] [] []]. Qed.

Lemma guard_base_ident f :
  string_forallb ident_char (upper (replace "." "_" f))
  = string_forallb (fun c => ident_char c || Ascii.eqb c ".") f.
Proof.
  unfold upper, replace. induction f as [|c f IH]; [done|]. simpl.
  by rewrite upper_replace_ident, IH.
Qed.

(** ** Paths *)

Lemma split_sep_cons s : exists x xs, split_sep s = x :: xs.
Proof. induction s as [|c s (x & xs & IH)]; simpl; [eauto|]. rewrite IH. case_match; eauto. Qed.

Lemma split_sep_no_sep f :
  string_forallb (fun x => negb (Ascii.eqb x "/"%char)) f = true -> split_sep f = [f].
Proof.
  induction f as [|c f IH]; simpl; [done|].
  rewrite andb_true_iff, negb_true_iff. intros [-> Hf]. by rewrite IH.
Qed.

Lemma split_sep_app a b :
  split_sep (a +:+ String "/" b) = split_sep a ++ split_sep b.
Proof.
  induction a as [|c a IH]; simpl; [done|]. rewrite IH.
  destruct (Ascii.eqb c "/"); [done|].
  by destruct (split_sep_cons a) as (x & xs & ->).
Qed.

Lemma components_simple f : simple_name f = true -> components f = [f].
Proof.
  unfold simple_name, components. rewrite !andb_true_iff. intros [[Hf Hr] _].
  rewrite split_sep_no_sep by done. simpl. by rewrite Hr.
Qed.

Lemma components_app a b :
  components (a +:+ String "/" b) = components a ++ components b.
Proof. unfold components. by rewrite split_sep_app, List.filter_app. Qed.

Lemma ends_with_sep_inv a :
  ends_with_sep a = true -> exists a', a = a' +:+ "/".
Proof.
  induction a as [|c a IH]; simpl; [done|]. destruct a as [|c' a].
  - intros ->%Ascii.eqb_eq. by exists "".
  - intros (a' & ->)%IH. by exists (String c a').
Qed.

Lemma simple_not_abs f : simple_name f = true -> is_abs f = false.
Proof.
  destruct f as [|c f]; [done|]. unfold simple_name. simpl.
  rewrite !andb_true_iff, negb_true_iff. tauto.
Qed.

Lemma is_abs_app a b : a <> "" -> is_abs (a +:+ b) = is_abs a.
Proof. by destruct a. Qed.

Lemma string_app_assoc (a b c : string) : (a +:+ b) +:+ c = a +:+ (b +:+ c).
Proof. induction a as [|x a IH]; simpl; congruence. Qed.

Lemma string_app_nil_r (a : string) : a +:+ "" = a.
Proof. induction a as [|x a IH]; simpl; congruence. Qed.

Lemma resolve_sep c a f :
  simple_name f = true ->
  resolve c (a +:+ String "/" f) = resolve c (a +:+ "/") ++ [f].
Proof.
  intros Hf. unfold resolve. change "/" with (String "/" "").
  rewrite !components_app, (components_simple f) by done.
  replace (is_abs (a +:+ String "/" f)) with (is_abs (a +:+ String "/" ""))
    by (by destruct a).
  change (components "") with (@nil string). by rewrite app_nil_r, app_assoc.
Qed.

(** [os.path.join] of a directory and a simple name adds one component. *)
Lemma resolve_join c d f :
  simple_name f = true -> resolve c (path_join d f) = resolve c d ++ [f].
Proof.
  intros Hf. unfold path_join. rewrite (simple_not_abs f Hf).
  destruct (decide (d = "")) as [->|Hd].
  { unfold resolve. simpl.
    by rewrite (simple_not_abs f Hf), components_simple, app_nil_r. }
  replace (String.eqb d "") with false by (symmetry; by apply String.eqb_neq).
  simpl orb. destruct (ends_with_sep d) eqn:E.
  - apply ends_with_sep_inv in E as (a' & ->).
    rewrite string_app_assoc. by apply resolve_sep.
  - change ("/" +:+ f) with (String "/" f). unfold resolve.
    rewrite is_abs_app, components_app, (components_simple f) by done.
    by rewrite app_assoc.
Qed.

Lemma resolve_Path c s : resolve c s = pp_resolve c (Path s).
Proof. done. Qed.

Lemma pp_resolve_div c p f :
  simple_name f = true -> pp_resolve c (pp_div p f) = pp_resolve c p ++ [f].
Proof.
  intros Hf. unfold pp_div, pp_resolve. rewrite (simple_not_abs f Hf). simpl.
  by rewrite components_simple, app_assoc.
Qed.

(** ** File names *)

(** A number followed by something that does not start like a number
    can be read back. *)
Lemma numeric_prefix_inj (a a' s s' : string) :
  string_forallb numeric a = true -> string_forallb numeric a' = true ->
  string_forallb numeric (String.substring 0 1 s) = false ->
  string_forallb numeric (String.substring 0 1 s') = false ->
  a +:+ s = a' +:+ s' -> a = a' /\ s = s'.
Proof.
  revert a'. induction a as [|x a IH]; intros [|x' a']; simpl; intros Ha Ha' Hs Hs' E.
  - done.
  - subst s. simpl in Hs. apply andb_true_iff in Ha' as [Hx _].
    rewrite Hx in Hs. destruct a', s'; simpl in Hs; done.
  - subst s'. simpl in Hs'. apply andb_true_iff in Ha as [Hx _].
    rewrite Hx in Hs'. destruct a, s; simpl in Hs'; done.
  - apply andb_true_iff in Ha as [_ Ha], Ha' as [_ Ha']. simplify_eq.
    by destruct (IH a') as [-> ->].
Qed.

Lemma q_file_inj m n m' n' suf suf' :
  string_forallb numeric (String.substring 0 1 suf) = false ->
  string_forallb numeric (String.substring 0 1 suf') = false ->
  q_file m n suf = q_file m' n' suf' -> m = m' /\ n = n' /\ suf = suf'.
Proof.
  intros Hs Hs' [= E].
  apply numeric_prefix_inj in E as [Em [= E]]; try apply str_numeric; try done.
  apply numeric_prefix_inj in E as [En E]; try apply str_numeric; try done.
  by apply (inj str) in Em, En.
Qed.

Lemma q_file_simple m n suf :
  string_forallb (fun x => negb (Ascii.eqb x "/"%char)) suf = true ->
  simple_name (q_file m n suf) = true.
Proof.
  intros Hs. unfold simple_name, q_file. rewrite !andb_true_iff. split; [split|]; [|done..].
  simpl. rewrite string_forallb_app. simpl.
  by rewrite string_forallb_app, !str_no_sep, Hs.
Qed.

(** ** Joining and resolving *)

Lemma app_empty_inv (a b : string) : a +:+ b = "" -> a = "" /\ b = "".
Proof. by destruct a, b. Qed.

Lemma path_join_nonempty d f : f <> "" -> path_join d f <> "".
Proof.
  unfold path_join. intros Hf. repeat case_match; try done;
    intros E%app_empty_inv; try apply proj2, app_empty_inv in E; naive_solver.
Qed.
