(* ===== verification/Emit.v ===== *)
(** * Emit: the file system the generators write to

    The calls of the two scripts that change the world outside the
    process: [os.makedirs], [Path.mkdir], [open] with [write],
    [Path.write_text] and [print].

    The file system is a finite set of directories and a finite map of
    regular files, keyed by resolved paths ([gset], [gmap]); permissions
    are not modelled.  An effectful Python function is an [io A]: a
    function from the world to an outcome and the world it leaves, so
    that what was written before an exception stays written.
    [preserves I c] says that [c] keeps the invariant [I] whatever its
    outcome; the rules for it are in the hint database [io]. *)

From Stdlib Require Import Ascii.
From stdpp Require Import gmap strings pretty list.
From S2P Require Import Prelude CInt Format Consts Names.
#[local] Open Scope Z_scope.
#[local] Set Warnings "-clear-no-such-hyp".
#[local] Arguments String.append !_ _ / : simpl nomatch.

(** * The world *)

(** What a generated file holds: the template of its generator filled
    with these values. *)
Inductive content : Type :=
| ArithHeader (nm : names) (m n : Z) (h : header)
| MathHeader (m_bits n_bits : Z) (base_type : ity)
| CordicImpl (m_bits n_bits : Z) (cf : cfile).

Record world : Type := World {
  cwd : path;
  dirs : gset path;
  files : gmap path content;
  stdout : list string
}.

Definition add_dir (p : path) (w : world) : world :=
  World (cwd w) ({[p]} ∪ dirs w) (files w) (stdout w).

Definition put_file (p : path) (c : content) (w : world) : world :=
  World (cwd w) (dirs w) (<[p := c]> (files w)) (stdout w).

Definition put_line (s : string) (w : world) : world :=
  World (cwd w) (dirs w) (files w) (stdout w ++ [s]).

(** The prefixes of a path: the root, its ancestors and itself. *)
Fixpoint inits (p : path) : list path :=
  [] :: match p with
        | [] => []
        | x :: p' => List.map (cons x) (inits p')
        end.

(** A world with the root, the working directory and its ancestors, and
    nothing else. *)
Definition fresh_world (cwd : path) : world :=
  World cwd (list_to_set (inits cwd)) ∅ [].

(** Directories are closed under parent, a regular file lies in a
    directory and is not one. *)
Record wf_world (w : world) : Prop := WfWorld {
  wf_root : [] ∈ dirs w;
  wf_cwd : cwd w ∈ dirs w;
  wf_parent : forall p, p ∈ dirs w -> removelast p ∈ dirs w;
  wf_file : forall p, is_Some (files w !! p) -> removelast p ∈ dirs w /\ p ∉ dirs w
}.

(** * Effects *)

Definition io (A : Type) : Type := world -> pyres A * world.

Definition io_ret {A : Type} (a : A) : io A := fun w => (Return a, w).

Definition io_bind {A B : Type} (c : io A) (k : A -> io B) : io B :=
  fun w =>
    match c w with
    | (Return a, w') => k a w'
    | (Raise e, w') => (Raise e, w')
    end.

Definition io_lift {A : Type} (r : pyres A) : io A := fun w => (r, w).

(** [c] keeps [I], whatever its outcome. *)
Definition preserves {A : Type} (I : world -> Prop) (c : io A) : Prop :=
  forall w, I w -> I (c w).2.

(** The working directory and the directories stay what they are. *)
Definition same_dirs (c : path) (D : gset path) (w : world) : Prop :=
  cwd w = c /\ dirs w = D.

Declare Scope io_scope.
Delimit Scope io_scope with io.
Notation "x <- c ;; k" := (io_bind c (fun x => k))
  (at level 100, c at next level, right associativity) : io_scope.

(** A [for] loop over a list whose body has effects. *)
Fixpoint for_each {A : Type} (body : A -> io unit) (l : list A) : io unit :=
  match l with
  | [] => io_ret tt
  | a :: l' => (_ <- body a ;; for_each body l')%io
  end.

(** [print(s)]. *)
Definition print (s : string) : io unit := fun w => (Return tt, put_line s w).

(** Creating the directories of [base ++ rest] that are missing, from
    the root down; a regular file in the way is an error. *)
Fixpoint mkdir_p (base : path) (rest : list string) : io unit :=
  match rest with
  | [] => io_ret tt
  | x :: rest' => fun w =>
      let p := base ++ [x] in
      if bool_decide (is_Some (files w !! p)) then
        (Raise (match rest' with
                | [] => FileExistsError
                | _ => NotADirectoryError
                end), w)
      else mkdir_p p rest' (add_dir p w)
  end.

(** Opening [p] for writing and writing [c]: the file is created or
    replaced. *)
Definition fs_write (p : path) (c : content) : io unit := fun w =>
  if bool_decide (p ∈ dirs w) then (Raise IsADirectoryError, w)
  else if bool_decide (removelast p ∈ dirs w) then (Return tt, put_file p c w)
  else if bool_decide (set_Exists (fun q => q `prefix_of` p) (dom (files w)))
  then (Raise NotADirectoryError, w)
  else (Raise FileNotFoundError, w).

(** [os.makedirs(name, exist_ok=True)]. *)
Definition os_makedirs (name : string) : io unit := fun w =>
  if String.eqb name "" then (Raise FileNotFoundError, w)
  else mkdir_p [] (resolve (cwd w) name) w.

(** [with open(name, "w") as f: f.write(c)]. *)
Definition open_write (name : string) (c : content) : io unit := fun w =>
  if String.eqb name "" then (Raise FileNotFoundError, w)
  else fs_write (resolve (cwd w) name) c w.

(** [p.mkdir(parents=True, exist_ok=True)]. *)
Definition Path_mkdir (p : ppath) : io unit := fun w =>
  mkdir_p [] (pp_resolve (cwd w) p) w.

(** [p.write_text(c)]. *)
Definition Path_write_text (p : ppath) (c : content) : io unit := fun w =>
  fs_write (pp_resolve (cwd w) p) c w.

(** The directories [mkdir_p base rest] creates, in order. *)
Fixpoint mkdir_dirs (base : path) (rest : list string) : list path :=
  match rest with
  | [] => []
  | x :: rest' => (base ++ [x]) :: mkdir_dirs (base ++ [x]) rest'
  end.

Definition add_dirs (ps : list path) (w : world) : world :=
  World (cwd w) (list_to_set ps ∪ dirs w) (files w) (stdout w).

(** * Lemmas *)

(** ** The file system *)

Lemma inits_spec (q p : path) : q ∈ inits p <-> q `prefix_of` p.
Proof.
  revert q. induction p as [|x p IH]; intros q; simpl.
  - rewrite list_elem_of_singleton. split; [by intros ->|apply prefix_nil_inv].
  - rewrite elem_of_cons, list_elem_of_fmap. split.
    + intros [->|(q' & -> & Hq)]; [apply prefix_nil|]. by apply prefix_cons, IH.
    + destruct q as [|y q]; [by left|]. intros Hq. right.
      pose proof (prefix_cons_inv_1 _ _ _ _ Hq) as ->.
      exists q. split; [done|]. by eapply IH, prefix_cons_inv_2.
Qed.

Lemma removelast_prefix (p : path) : removelast p `prefix_of` p.
Proof.
  destruct (decide (p = [])) as [->|Hp]; [done|].
  rewrite (app_removelast_last "" Hp) at 2. by apply prefix_app_r.
Qed.

Lemma fresh_world_wf c : wf_world (fresh_world c).
Proof.
  split; simpl; try setoid_rewrite elem_of_list_to_set;
    try setoid_rewrite inits_spec.
  - apply prefix_nil.
  - done.
  - intros p Hp. etrans; [apply removelast_prefix|done].
  - intros p [? Hp]. by rewrite lookup_empty in Hp.
Qed.

Lemma add_dir_wf base x w :
  wf_world w -> base ∈ dirs w -> files w !! (base ++ [x]) = None ->
  wf_world (add_dir (base ++ [x]) w).
Proof.
  intros [Hr Hc Hp Hf] Hb Hx. split; simpl.
  - set_solver.
  - set_solver.
  - intros p [->%elem_of_singleton|Hd]%elem_of_union.
    + rewrite removelast_last. set_solver.
    + specialize (Hp p Hd). set_solver.
  - intros p Hs. destruct (Hf p Hs) as [H1 H2]. split; [set_solver|].
    intros [->%elem_of_singleton|Hd]%elem_of_union; [|done].
    rewrite Hx in Hs. by destruct Hs.
Qed.

(** [mkdir_p] keeps the world well formed, whatever its outcome. *)
Lemma mkdir_p_wf rest : forall base w,
  wf_world w -> base ∈ dirs w -> wf_world (mkdir_p base rest w).2.
Proof.
  induction rest as [|x rest IH]; intros base w Hw Hb; simpl; [done|].
  case_bool_decide as Hx; [done|]. apply IH; [|set_solver].
  apply add_dir_wf; [done..|]. by apply eq_None_not_Some.
Qed.

(** What [mkdir_p] leaves alone. *)
Lemma mkdir_p_frame rest : forall base w,
  let w' := (mkdir_p base rest w).2 in
  cwd w' = cwd w /\ files w' = files w /\ stdout w' = stdout w /\
  dirs w ⊆ dirs w'.
Proof.
  induction rest as [|x rest IH]; intros base w; simpl; [done|].
  case_bool_decide; [done|].
  destruct (IH (base ++ [x]) (add_dir (base ++ [x]) w)) as (?&?&?&?).
  simpl in *. repeat split; [done..|set_solver].
Qed.

(** With no regular file in the way, all the directories exist
    afterwards. *)
Lemma mkdir_p_ok rest : forall base w,
  Forall (fun q => files w !! q = None) (mkdir_dirs base rest) ->
  mkdir_p base rest w = (Return tt, add_dirs (mkdir_dirs base rest) w).
Proof.
  induction rest as [|x rest IH]; intros base w; simpl.
  - intros _. unfold io_ret, add_dirs. destruct w; simpl. do 2 f_equal. set_solver.
  - intros [Hx Hq]%Forall_cons. case_bool_decide as E.
    { rewrite Hx in E. by destruct E. }
    rewrite IH by done. unfold add_dirs, add_dir. simpl. do 2 f_equal. set_solver.
Qed.

(** A failure of [mkdir_p] is a regular file on the way. *)
Lemma mkdir_p_raise rest : forall base w e w',
  mkdir_p base rest w = (Raise e, w') ->
  (e = FileExistsError /\ is_Some (files w !! (base ++ rest))) \/
  (e = NotADirectoryError /\
   exists q, q ∈ mkdir_dirs base rest /\ is_Some (files w !! q)).
Proof.
  induction rest as [|x rest IH]; intros base w e w'; simpl; [done|].
  case_bool_decide as Hx.
  - intros [= <- <-]. destruct rest; [by left|]. right. set_solver.
  - intros [[-> Hf]|(-> & q & Hq & Hf)]%IH; simpl in *.
    + left. by rewrite <- app_assoc in Hf.
    + right. split; [done|]. exists q. set_solver.
Qed.

Lemma mkdir_dirs_last base rest :
  rest <> [] -> base ++ rest ∈ mkdir_dirs base rest.
Proof.
  revert base. induction rest as [|x rest IH]; intros base Hr; [done|]. simpl.
  destruct rest as [|y rest]; [set_solver|].
  apply elem_of_cons. right. rewrite (cons_middle x), app_assoc. by apply IH.
Qed.

Lemma mkdir_dirs_parent base rest q :
  q ∈ mkdir_dirs base rest -> q <> base ++ rest -> 
  exists x, q ++ [x] ∈ mkdir_dirs base rest.
Proof.
  revert base. induction rest as [|x rest IH]; intros base; simpl; [set_solver|].
  intros [->|Hq]%elem_of_cons Hne.
  - destruct rest as [|y rest]; [done|]. exists y. simpl. set_solver.
  - rewrite (cons_middle x), app_assoc in Hne.
    destruct (IH _ Hq Hne) as (y & Hy). exists y. set_solver.
Qed.

(** [fs_write] writes exactly when the parent is a directory and the
    path is not one. *)
Lemma fs_write_ok p c w :
  p ∉ dirs w -> removelast p ∈ dirs w ->
  fs_write p c w = (Return tt, put_file p c w).
Proof. intros. unfold fs_write. by rewrite bool_decide_false, bool_decide_true. Qed.

(** A failed [fs_write] changes nothing. *)
Lemma fs_write_raise p c w e w' :
  fs_write p c w = (Raise e, w') -> w' = w /\ files w !! p = files w' !! p.
Proof. unfold fs_write. repeat case_bool_decide; by intros [= <- <-]. Qed.

Lemma fs_write_wf p c : preserves wf_world (fs_write p c).
Proof.
  intros w Hw. unfold fs_write. repeat case_bool_decide; simpl; try done.
  destruct Hw as [Hr Hc Hp Hf]. split; simpl; [done..|].
  intros q [->|[_ Hq]]%lookup_insert_is_Some; [done|]. by apply Hf.
Qed.

Lemma print_wf s : preserves wf_world (print s).
Proof. by intros w []. Qed.

(** ** Effects *)

Section Preserves.
Context {I : world -> Prop}.

Lemma preserves_ret {A} (a : A) : preserves I (io_ret a).
Proof. by intros w. Qed.

Lemma preserves_lift {A} (r : pyres A) : preserves I (io_lift r).
Proof. by intros w. Qed.

Lemma preserves_bind {A B} (c : io A) (k : A -> io B) :
  preserves I c -> (forall a, preserves I (k a)) -> preserves I (io_bind c k).
Proof.
  intros Hc Hk w Hw. unfold io_bind. specialize (Hc w Hw).
  destruct (c w) as [[a|e] w']; [by apply Hk|done].
Qed.

Lemma preserves_for_each {A} (body : A -> io unit) l :
  (forall a, preserves I (body a)) -> preserves I (for_each body l).
Proof.
  intros Hb. induction l; simpl; [apply preserves_ret|by apply preserves_bind].
Qed.

End Preserves.

Lemma print_same_dirs c D s : preserves (same_dirs c D) (print s).
Proof. by intros w. Qed.

Lemma fs_write_same_dirs c D p x : preserves (same_dirs c D) (fs_write p x).
Proof. intros w Hw. unfold fs_write. by repeat case_bool_decide. Qed.

Lemma open_write_wf name x : preserves wf_world (open_write name x).
Proof. intros w Hw. unfold open_write. case_match; [done|by apply fs_write_wf]. Qed.

Lemma open_write_same_dirs c D name x :
  preserves (same_dirs c D) (open_write name x).
Proof.
  intros w Hw. unfold open_write. case_match; [done|by apply fs_write_same_dirs].
Qed.

Lemma Path_write_text_wf p x : preserves wf_world (Path_write_text p x).
Proof. intros w Hw. by apply fs_write_wf. Qed.

Lemma Path_write_text_same_dirs c D p x :
  preserves (same_dirs c D) (Path_write_text p x).
Proof. intros w Hw. by apply fs_write_same_dirs. Qed.

Lemma os_makedirs_wf name : preserves wf_world (os_makedirs name).
Proof.
  intros w Hw. unfold os_makedirs. case_match; [done|].
  apply mkdir_p_wf; [done|apply Hw].
Qed.

Lemma Path_mkdir_wf p : preserves wf_world (Path_mkdir p).
Proof. intros w Hw. apply mkdir_p_wf; [done|apply Hw]. Qed.

Create HintDb io discriminated.
#[export] Hint Resolve preserves_ret preserves_lift preserves_bind
  preserves_for_each print_wf print_same_dirs open_write_wf
  open_write_same_dirs Path_write_text_wf Path_write_text_same_dirs
  os_makedirs_wf Path_mkdir_wf : io.

(** ** The calls of the scripts *)

(** In every directory of a well-formed world no component is a
    regular file. *)
Lemma wf_prefix_dir w p q :
  wf_world w -> p ∈ dirs w -> q `prefix_of` p -> q ∈ dirs w.
Proof.
  intros Hw. induction p as [|x p IH] using rev_ind; intros Hp Hq.
  - by apply prefix_nil_inv in Hq as ->.
  - destruct (decide (q = p ++ [x])) as [->|Hne]; [done|].
    apply (wf_parent w Hw) in Hp. rewrite removelast_last in Hp.
    apply IH; [done|].
    destruct Hq as [k Hq]. destruct k as [|y k _] using rev_ind.
    { by rewrite app_nil_r in Hq. }
    rewrite app_assoc in Hq. apply app_inj_tail in Hq as [-> _]. by eexists.
Qed.

Lemma wf_dir_not_file w p : wf_world w -> p ∈ dirs w -> files w !! p = None.
Proof.
  intros Hw Hp. apply eq_None_not_Some. intros Hs.
  by destruct (wf_file w Hw p Hs).
Qed.

Lemma mkdir_dirs_app base a b :
  mkdir_dirs base (a ++ b) = mkdir_dirs base a ++ mkdir_dirs (base ++ a) b.
Proof.
  revert base. induction a as [|x a IH]; intros base; simpl.
  - by rewrite app_nil_r.
  - by rewrite IH, <- app_assoc.
Qed.

Lemma mkdir_dirs_prefix base rest q :
  q ∈ mkdir_dirs base rest -> q `prefix_of` base ++ rest.
Proof.
  revert base. induction rest as [|x rest IH]; intros base; simpl; [set_solver|].
  intros [->|Hq]%elem_of_cons.
  - apply prefix_app, prefix_cons, prefix_nil.
  - apply IH in Hq. by rewrite <- app_assoc in Hq.
Qed.

(** Below an existing directory, [mkdir_p] needs only the new
    components to be free, and creates only those. *)
Lemma mkdir_p_below w base rest :
  wf_world w -> base ∈ dirs w ->
  Forall (fun q => files w !! q = None) (mkdir_dirs base rest) ->
  mkdir_p [] (base ++ rest) w = (Return tt, add_dirs (mkdir_dirs base rest) w).
Proof.
  intros Hw Hb Hr.
  assert (Hin : forall q, q ∈ mkdir_dirs [] base -> q ∈ dirs w).
  { intros q Hq%mkdir_dirs_prefix. by eapply wf_prefix_dir. }
  rewrite mkdir_p_ok, mkdir_dirs_app.
  - unfold add_dirs. do 2 f_equal. rewrite list_to_set_app_L.
    apply set_eq. intros q. rewrite !elem_of_union, elem_of_list_to_set.
    naive_solver.
  - rewrite mkdir_dirs_app. apply Forall_app. split; [|done].
    apply Forall_forall. intros q Hq. by apply wf_dir_not_file, Hin.
Qed.

(** A path below [base ++ rest] is none of the directories created. *)
Lemma mkdir_dirs_not_below base rest x :
  base ++ rest ++ [x] ∉ mkdir_dirs base rest.
Proof.
  intros Hq%mkdir_dirs_prefix%prefix_length. rewrite !length_app in Hq.
  simpl in Hq. lia.
Qed.

(** The world after [mkdir_p]: well formed, with the directory asked
    for. *)
Lemma add_dirs_wf w base rest :
  wf_world w -> base ∈ dirs w ->
  Forall (fun q => files w !! q = None) (mkdir_dirs base rest) ->
  wf_world (add_dirs (mkdir_dirs base rest) w).
Proof.
  intros Hw Hb Hfree.
  pose proof (mkdir_p_wf (base ++ rest) [] w Hw (wf_root w Hw)) as Hw1.
  by rewrite mkdir_p_below in Hw1.
Qed.

Lemma add_dirs_target w base rest :
  base ∈ dirs w -> base ++ rest ∈ dirs (add_dirs (mkdir_dirs base rest) w).
Proof.
  intros Hb. unfold add_dirs. simpl. destruct rest as [|x r].
  - rewrite app_nil_r. set_solver.
  - apply elem_of_union_l, elem_of_list_to_set. by apply mkdir_dirs_last.
Qed.
