(* ===== verification/Loop.v ===== *)
(** * Loop: the contract of a generator for one format, and loops over formats

    Both scripts do the same thing for each format: they compute what
    to write from [(m, n)], write files with names of one component
    into one directory, and print.  [Emitter] states that contract;
    generate_headers.py and generate_math_headers.py satisfy it (in
    [Main]), and what a loop over a list of formats leaves in the world
    is proved here once, against the contract.

    The loop itself is the function [for_each] of [Emit]: it runs the
    generator on the formats in order and stops at the first one that
    raises. *)

From stdpp Require Import gmap strings list.
From S2P Require Import Prelude CInt Format Consts Names Emit.
#[local] Open Scope Z_scope.
#[local] Set Warnings "-clear-no-such-hyp".

(** * What one format writes *)

(** The files after [out] was written into [dir], in order. *)
Definition write_files (dir : path) (out : list (string * content))
    (fs : gmap path content) : gmap path content :=
  foldl (fun fs x => <[dir ++ [x.1] := x.2]> fs) fs out.

(** The world after the files [out] were written into [dir] and the
    lines [log] printed. *)
Definition write_all (dir : path) (out : list (string * content))
    (log : list string) (w : world) : world :=
  World (cwd w) (dirs w) (write_files dir out (files w)) (stdout w ++ log).

(** The contract: for a format on which the generator does not raise
    ([em_ok]), in a world where the output directory exists and no
    directory has the name of a file to write, the generator returns
    and leaves [write_all]; and it never breaks the file system or
    creates a directory. *)
Class Emitter (emit : Z * Z -> io unit) : Type := {
  em_dir : path -> path;
  em_ok : Z * Z -> Prop;
  em_out : Z * Z -> list (string * content);
  em_log : Z * Z -> list string;
  em_simple : forall f x, x ∈ em_out f -> simple_name x.1 = true;
  em_functional : forall f g x y,
    x ∈ em_out f -> y ∈ em_out g -> x.1 = y.1 -> x.2 = y.2;
  em_spec : forall f w,
    em_ok f -> wf_world w -> em_dir (cwd w) ∈ dirs w ->
    (forall x, x ∈ em_out f -> em_dir (cwd w) ++ [x.1] ∉ dirs w) ->
    emit f w = (Return tt, write_all (em_dir (cwd w)) (em_out f) (em_log f) w);
  em_wf : forall f w, wf_world w -> wf_world (emit f w).2;
  em_frame : forall f w, cwd (emit f w).2 = cwd w /\ dirs (emit f w).2 = dirs w
}.

(** The files of format [f] are in [dir]. *)
Definition written `{Emitter emit} (dir : path) (f : Z * Z) (w : world) : Prop :=
  forall x, x ∈ em_out f -> files w !! (dir ++ [x.1]) = Some x.2.

(** * Lemmas *)

(** ** Writing several files *)

Lemma write_all_nil dir w : write_all dir [] [] w = w.
Proof. destruct w. unfold write_all. simpl. by rewrite app_nil_r. Qed.

Lemma write_all_app dir o1 o2 l1 l2 w :
  write_all dir o2 l2 (write_all dir o1 l1 w) = write_all dir (o1 ++ o2) (l1 ++ l2) w.
Proof. unfold write_all, write_files. simpl. by rewrite foldl_app, app_assoc. Qed.

Lemma write_files_snoc dir out x fs :
  write_files dir (out ++ [x]) fs = <[dir ++ [x.1] := x.2]> (write_files dir out fs).
Proof. unfold write_files. by rewrite foldl_app. Qed.

(** A path none of the files has keeps what it held. *)
Lemma lookup_write_files_other dir out fs p :
  (forall y, y ∈ out -> dir ++ [y.1] <> p) ->
  write_files dir out fs !! p = fs !! p.
Proof.
  induction out as [|x out IH] using rev_ind; intros Hp; [done|].
  rewrite write_files_snoc, lookup_insert_ne by set_solver. apply IH. set_solver.
Qed.

(** A path holds [c] afterwards if it did before and no other content
    is written to it. *)
Lemma lookup_write_files_stable dir out fs p c :
  fs !! p = Some c ->
  (forall y, y ∈ out -> dir ++ [y.1] = p -> y.2 = c) ->
  write_files dir out fs !! p = Some c.
Proof.
  intros Hw. induction out as [|x out IH] using rev_ind; intros Hp; [done|].
  rewrite write_files_snoc. destruct (decide (dir ++ [x.1] = p)) as [E|E].
  - rewrite E, lookup_insert_eq. f_equal. apply Hp; set_solver.
  - rewrite lookup_insert_ne by done. apply IH. set_solver.
Qed.

(** A file of the list is there afterwards, when names determine
    contents. *)
Lemma lookup_write_files_in dir out fs x :
  x ∈ out ->
  (forall y, y ∈ out -> y.1 = x.1 -> y.2 = x.2) ->
  write_files dir out fs !! (dir ++ [x.1]) = Some x.2.
Proof.
  induction out as [|y out IH] using rev_ind; intros Hx Hf; [set_solver|].
  rewrite write_files_snoc. destruct (decide (y.1 = x.1)) as [E|E].
  - rewrite E, lookup_insert_eq. f_equal. apply Hf; set_solver.
  - rewrite lookup_insert_ne by (intros ?; simplify_list_eq; done).
    apply IH; [|set_solver]. apply elem_of_app in Hx as [?|Hx]; [done|].
    apply list_elem_of_singleton in Hx. by subst.
Qed.

(** Writing the same files again changes no file. *)
Lemma write_files_idem dir out fs :
  (forall x y, x ∈ out -> y ∈ out -> y.1 = x.1 -> y.2 = x.2) ->
  write_files dir out (write_files dir out fs) = write_files dir out fs.
Proof.
  intros Hf. apply map_eq. intros p.
  destruct (decide (Exists (fun y => dir ++ [y.1] = p) out)) as [Hp|Hp].
  - apply Exists_exists in Hp as (y & Hy & <-).
    rewrite (lookup_write_files_in _ _ fs y) by auto.
    apply lookup_write_files_stable; [apply lookup_write_files_in; auto|].
    intros z Hz E. apply Hf; [done..|]. by simplify_list_eq.
  - apply lookup_write_files_other. intros y Hy E. apply Hp, Exists_exists. eauto.
Qed.

Lemma write_all_wf dir out log w :
  wf_world w -> dir ∈ dirs w ->
  (forall x, x ∈ out -> dir ++ [x.1] ∉ dirs w) ->
  wf_world (write_all dir out log w).
Proof.
  intros [Hr Hc Hp Hf] Hd Hn. split; simpl; [done..|].
  induction out as [|x out IH] using rev_ind; [done|].
  rewrite write_files_snoc. intros q [<-|[_ Hq]]%lookup_insert_is_Some.
  - rewrite removelast_last. split; [done|]. apply Hn. set_solver.
  - apply IH; [|done]. set_solver.
Qed.

(** ** Loops over an emitter *)

Section Emitter.
Context `{Emitter emit}.

(** The functions of the loop: all formats good, the world it leaves. *)
Lemma for_each_ok l : forall w,
  Forall em_ok l -> wf_world w -> em_dir (cwd w) ∈ dirs w ->
  (forall f x, f ∈ l -> x ∈ em_out f -> em_dir (cwd w) ++ [x.1] ∉ dirs w) ->
  for_each emit l w
  = (Return tt, write_all (em_dir (cwd w)) (l ≫= em_out) (l ≫= em_log) w).
Proof.
  induction l as [|f l IH]; intros w Hok Hw Hd Hn; simpl.
  { by rewrite write_all_nil. }
  apply Forall_cons in Hok as [Hf Hok]. unfold io_bind.
  assert (Hnf : forall x, x ∈ em_out f -> em_dir (cwd w) ++ [x.1] ∉ dirs w)
    by (intros x Hx; apply (Hn f x); set_solver).
  rewrite em_spec by done.
  rewrite IH; [by rewrite write_all_app|done|by apply write_all_wf|done|].
  intros g x Hg Hx. apply (Hn g x); set_solver.
Qed.

Lemma for_each_wf l : forall w, wf_world w -> wf_world (for_each emit l w).2.
Proof.
  induction l as [|f l IH]; intros w Hw; simpl; [done|]. unfold io_bind.
  pose proof (em_wf f w Hw) as Hf. destruct (emit f w) as [[[]|e] w']; [|done].
  by apply IH.
Qed.

Lemma for_each_frame l : forall w,
  cwd (for_each emit l w).2 = cwd w /\ dirs (for_each emit l w).2 = dirs w.
Proof.
  induction l as [|f l IH]; intros w; simpl; [done|]. unfold io_bind.
  pose proof (em_frame f w) as Hf. destruct (emit f w) as [[[]|e] w']; [|done].
  destruct (IH w') as [-> ->]. done.
Qed.

(** Names determine contents across the formats of a list. *)
Lemma bind_functional (l : list (Z * Z)) x y :
  x ∈ l ≫= em_out -> y ∈ l ≫= em_out -> y.1 = x.1 -> y.2 = x.2.
Proof.
  intros (f & Hx & _)%list_elem_of_bind (g & Hy & _)%list_elem_of_bind.
  by eapply em_functional.
Qed.

(** The files of every format of a list are among those of the list. *)
Lemma write_all_written (l : list (Z * Z)) f dir log w :
  f ∈ l -> written dir f (write_all dir (l ≫= em_out) log w).
Proof.
  intros Hf x Hx.
  apply lookup_write_files_in; [apply list_elem_of_bind; eauto|].
  intros y Hy. apply (bind_functional l); [|done]. apply list_elem_of_bind; eauto.
Qed.

(** After the loop every format of the list has its files. *)
Lemma for_each_written l w f :
  Forall em_ok l -> wf_world w -> em_dir (cwd w) ∈ dirs w ->
  (forall f x, f ∈ l -> x ∈ em_out f -> em_dir (cwd w) ++ [x.1] ∉ dirs w) ->
  f ∈ l -> written (em_dir (cwd w)) f (for_each emit l w).2.
Proof.
  intros Hok Hw Hd Hn Hf. rewrite for_each_ok by done. by apply write_all_written.
Qed.

End Emitter.
