(* ===== verification/Main.v ===== *)
(** * Main: the two generators as programs that write files

    [generate_header] of generate_headers.py with its effects
    ([generate_header_io]: the "Skipping" message, the names, the file it
    opens and writes), its [main], and [main] of
    generate_math_headers.py ([math_main]) with the body of its loop
    ([math_emit]).  The values written are those of [Format] and
    [Consts]; the effects are those of [Emit]. *)

From Stdlib Require Import Ascii.
From stdpp Require Import gmap strings pretty list.
From S2P Require Import Prelude CInt Format Consts Names Emit Loop.
#[local] Open Scope Z_scope.
#[local] Set Warnings "-clear-no-such-hyp".
#[local] Arguments String.append !_ _ / : simpl nomatch.

(** * generate_headers.py *)

(** [generate_header(m, n, output_dir, filename_override)], lines 5-124:
    the format selector, then the names, then the file. *)
Definition skip_message (m n : Z) : string :=
  "Skipping Q" +:+ str m +:+ "." +:+ str n +:+ ": Too large ("
  +:+ str (total_bits m n) +:+ " bits needed)".

Definition generate_header_io (m n : Z) (output_dir : string)
    (filename_override : option string) : io unit :=
  (selected <- io_lift (generate_header m n) ;;
   match selected with
   | None => print (skip_message m n)
   | Some h =>
       let nm := header_names m n filename_override in
       open_write (path_join output_dir (filename nm)) (ArithHeader nm m n h)
   end)%io.

(** [main()], lines 126-148. *)
Definition main : io unit :=
  let output_dir := "include/fixp/gen" in
  (_ <- os_makedirs output_dir ;;
   _ <- generate_header_io 15 16 output_dir None ;;
   _ <- generate_header_io 16 16 output_dir None ;;
   _ <- generate_header_io 0 7 output_dir None ;;
   _ <- generate_header_io 7 8 output_dir None ;;
   _ <- generate_header_io 23 8 output_dir None ;;
   _ <- generate_header_io 1 30 output_dir None ;;
   print ("Generated key headers in " +:+ output_dir))%io.

(** * generate_math_headers.py *)

(** [generate_math_header(m_bits, n_bits)], lines 10-24 and 118: the
    text of the header is determined by the format and the base type. *)
Definition generate_math_header (m_bits n_bits : Z) : pyres content :=
  (base_type <- base_type m_bits n_bits ;;
   Return (MathHeader m_bits n_bits base_type))%py.

(** The body of the loop of [main], lines 399-410. *)
Definition math_emit (output_dir : ppath) (f : Z * Z) : io unit :=
  let m := fst f in
  let n := snd f in
  (header_content <- io_lift (generate_math_header m n) ;;
   let header_file := pp_div output_dir (math_header_name m n) in
   _ <- Path_write_text header_file header_content ;;
   _ <- print ("Generated " +:+ pp_str header_file) ;;
   impl <- io_lift (generate_cordic_c_file m n) ;;
   let impl_file := pp_div output_dir (math_impl_name m n) in
   _ <- Path_write_text impl_file (CordicImpl m n impl) ;;
   print ("Generated " +:+ pp_str impl_file))%io.

(** [Path(__file__).parent.parent / "include" / "fixp" / "gen"]. *)
Definition math_output_dir (file__ : string) : ppath :=
  pp_div (pp_div (pp_div (pp_parent (pp_parent (Path file__))) "include")
            "fixp") "gen".

(** [main()], lines 384-410; [file__] is the script's [__file__]. *)
Definition math_main (file__ : string) : io unit :=
  let output_dir := math_output_dir file__ in
  (_ <- Path_mkdir output_dir ;;
   for_each (math_emit output_dir) math_main_formats)%io.

(** * The two generators as emitters *)

(** One call of [main] of generate_headers.py. *)
Definition header_emit (output_dir : string) (f : Z * Z) : io unit :=
  generate_header_io f.1 f.2 output_dir None.

(** [r] is a value, not an exception. *)
Definition returns {A : Type} (r : pyres A) : Prop :=
  match r with
  | Return _ => True
  | Raise _ => False
  end.

Definition header_out (f : Z * Z) : list (string * content) :=
  match generate_header f.1 f.2 with
  | Return (Some h) =>
      let nm := header_names f.1 f.2 None in
      [(filename nm, ArithHeader nm f.1 f.2 h)]
  | _ => []
  end.

Definition header_log (f : Z * Z) : list string :=
  match generate_header f.1 f.2 with
  | Return None => [skip_message f.1 f.2]
  | _ => []
  end.

Definition math_out (f : Z * Z) : list (string * content) :=
  match generate_math_header f.1 f.2, generate_cordic_c_file f.1 f.2 with
  | Return header_content, Return impl =>
      [(math_header_name f.1 f.2, header_content);
       (math_impl_name f.1 f.2, CordicImpl f.1 f.2 impl)]
  | _, _ => []
  end.

Definition math_log (output_dir : ppath) (f : Z * Z) : list string :=
  ["Generated " +:+ pp_str (pp_div output_dir (math_header_name f.1 f.2));
   "Generated " +:+ pp_str (pp_div output_dir (math_impl_name f.1 f.2))].

(** The directory [main] of generate_headers.py writes to, and the path
    of a file in it. *)
Definition gen_dir (c : path) : path := c ++ ["include"; "fixp"; "gen"].

(** The world [main] of generate_headers.py leaves. *)
Definition main_world (w : world) : world :=
  put_line "Generated key headers in include/fixp/gen"
    (write_all (gen_dir (cwd w)) (main_formats ≫= header_out) []
       (add_dirs (mkdir_dirs (cwd w) ["include"; "fixp"; "gen"]) w)).

(** The world [main] of generate_math_headers.py leaves. *)
Definition math_world (file__ : string) (w : world) : world :=
  let output_dir := math_output_dir file__ in
  let out := pp_resolve (cwd w) output_dir in
  write_all out (math_main_formats ≫= math_out)
    (math_main_formats ≫= math_log output_dir)
    (add_dirs (mkdir_dirs [] out) w).

(** What [main] of generate_headers.py needs of the world. *)
Definition main_pre (w : world) : Prop :=
  wf_world w /\
  Forall (fun q => files w !! q = None)
    (mkdir_dirs (cwd w) ["include"; "fixp"; "gen"]) /\
  forall f x, f ∈ main_formats -> x ∈ header_out f ->
    gen_dir (cwd w) ++ [x.1] ∉ dirs w.

(** What [main] of generate_math_headers.py needs of the world. *)
Definition math_pre (file__ : string) (w : world) : Prop :=
  let out := pp_resolve (cwd w) (math_output_dir file__) in
  wf_world w /\
  Forall (fun q => files w !! q = None) (mkdir_dirs [] out) /\
  forall f x, f ∈ math_main_formats -> x ∈ math_out f -> out ++ [x.1] ∉ dirs w.

(** A world with the output directory of generate_headers.py. *)
Definition repo_world : world :=
  add_dirs (mkdir_dirs ["repo"] ["include"; "fixp"; "gen"]) (fresh_world ["repo"]).

(** * Lemmas *)

(** ** Names *)

Lemma default_names m n :
  header_names m n None
  = Names (q_file m n ".h") ("FIXP_GEN_Q" +:+ str m +:+ "_" +:+ str n +:+ "_H")
      (q_file m n "_t") ("Q" +:+ str m +:+ "_" +:+ str n).
Proof. done. Qed.

Lemma default_filename_simple m n :
  simple_name (filename (header_names m n None)) = true.
Proof. by apply q_file_simple. Qed.

Lemma math_header_name_simple m n : simple_name (math_header_name m n) = true.
Proof. by apply (q_file_simple m n "_math.h"). Qed.

Lemma math_impl_name_simple m n : simple_name (math_impl_name m n) = true.
Proof. by apply (q_file_simple m n "_math.c"). Qed.

(** ** One call of [generate_header] *)

Section HeaderCall.
Variables (m n : Z) (output_dir : string) (o : option string) (w : world).

(** A format of more than 64 bits: a line on the output, no file. *)
Lemma header_io_skip :
  generate_header m n = Return None ->
  generate_header_io m n output_dir o w = (Return tt, put_line (skip_message m n) w).
Proof. intros E. unfold generate_header_io, io_bind, io_lift. by rewrite E. Qed.

(** An exception of the selector: nothing happens. *)
Lemma header_io_raise e :
  generate_header m n = Raise e ->
  generate_header_io m n output_dir o w = (Raise e, w).
Proof. intros E. unfold generate_header_io, io_bind, io_lift. by rewrite E. Qed.

(** A header: one file, whose name is one component. *)
Lemma header_io_write h :
  generate_header m n = Return (Some h) ->
  let nm := header_names m n o in
  let p := resolve (cwd w) output_dir ++ [filename nm] in
  simple_name (filename nm) = true ->
  resolve (cwd w) output_dir ∈ dirs w -> p ∉ dirs w ->
  generate_header_io m n output_dir o w
  = (Return tt, put_file p (ArithHeader nm m n h) w).
Proof.
  intros E nm p Hs Hd Hp. unfold generate_header_io, io_bind, io_lift.
  rewrite E. unfold open_write. fold nm.
  replace (String.eqb _ "") with false.
  2: { symmetry. apply String.eqb_neq, path_join_nonempty. by destruct (filename nm). }
  rewrite resolve_join by done. apply fs_write_ok; [done|].
  unfold p. by rewrite removelast_last.
Qed.

End HeaderCall.

Lemma generate_header_io_wf m n d o : preserves wf_world (generate_header_io m n d o).
Proof. unfold generate_header_io. apply preserves_bind; [auto with io|]. intros []; auto with io. Qed.

Lemma generate_header_io_same_dirs c D m n d o :
  preserves (same_dirs c D) (generate_header_io m n d o).
Proof. unfold generate_header_io. apply preserves_bind; [auto with io|]. intros []; auto with io. Qed.

#[export] Hint Resolve generate_header_io_wf generate_header_io_same_dirs : io.

(** ** The contract of generate_headers.py *)

Lemma header_out_functional f g x y :
  x ∈ header_out f -> y ∈ header_out g -> x.1 = y.1 -> x.2 = y.2.
Proof.
  unfold header_out. destruct f as [m n], g as [m' n']. simpl.
  repeat case_match; try set_solver.
  intros ->%list_elem_of_singleton ->%list_elem_of_singleton. simpl.
  intros (-> & -> & _)%q_file_inj; [|done..]. congruence.
Qed.

Lemma header_out_simple f x : x ∈ header_out f -> simple_name x.1 = true.
Proof.
  unfold header_out. repeat case_match; try set_solver.
  intros ->%list_elem_of_singleton. apply default_filename_simple.
Qed.

Lemma header_emit_spec d f w :
  returns (generate_header f.1 f.2) -> wf_world w ->
  resolve (cwd w) d ∈ dirs w ->
  (forall x, x ∈ header_out f -> resolve (cwd w) d ++ [x.1] ∉ dirs w) ->
  header_emit d f w
  = (Return tt, write_all (resolve (cwd w) d) (header_out f) (header_log f) w).
Proof.
  destruct f as [m n]. intros Hok Hw Hd Hn.
  unfold header_emit, header_out, header_log in *. simpl in *.
  destruct (generate_header m n) as [[h|]|e] eqn:E; [| |done].
  - specialize (Hn _ ltac:(left)).
    rewrite (header_io_write _ _ _ _ _ h) by
      (done || apply default_filename_simple).
    unfold write_all, put_file. simpl. by rewrite app_nil_r.
  - by rewrite header_io_skip.
Qed.

#[export] Instance header_emitter (output_dir : string) :
  Emitter (header_emit output_dir) := {|
  em_dir c := resolve c output_dir;
  em_ok f := returns (generate_header f.1 f.2);
  em_out := header_out;
  em_log := header_log;
  em_simple := header_out_simple;
  em_functional := header_out_functional;
  em_spec := header_emit_spec output_dir;
  em_wf f := generate_header_io_wf f.1 f.2 output_dir None;
  em_frame f w := generate_header_io_same_dirs _ _ f.1 f.2 output_dir None w
                    (conj eq_refl eq_refl)
|}.

(** ** The contract of generate_math_headers.py *)

Section MathCall.
Variables (output_dir : ppath) (m n : Z) (w : world).
Let dir := pp_resolve (cwd w) output_dir.
Hypothesis Hd : dir ∈ dirs w.

Lemma write_text_in (name : string) (c : content) (w' : world) :
  simple_name name = true -> same_dirs (cwd w) (dirs w) w' ->
  dir ++ [name] ∉ dirs w ->
  Path_write_text (pp_div output_dir name) c w'
  = (Return tt, put_file (dir ++ [name]) c w').
Proof.
  intros Hs [Hc HD] Hn. unfold Path_write_text.
  rewrite pp_resolve_div, Hc by done. apply fs_write_ok; rewrite HD; [done|].
  by rewrite removelast_last.
Qed.

(** A format the selector rejects: no file. *)
Lemma math_emit_too_wide :
  64 < total_bits m n -> math_emit output_dir (m, n) w = (Raise ValueError, w).
Proof.
  intros Ht. unfold math_emit, generate_math_header, base_type, io_bind, io_lift.
  simpl. split_chain; (lia || done).
Qed.

(** Both files and both lines. *)
Lemma math_emit_both bt cf :
  base_type m n = Return bt -> generate_cordic_c_file m n = Return cf ->
  dir ++ [math_header_name m n] ∉ dirs w ->
  dir ++ [math_impl_name m n] ∉ dirs w ->
  math_emit output_dir (m, n) w
  = (Return tt,
     write_all dir
       [(math_header_name m n, MathHeader m n bt);
        (math_impl_name m n, CordicImpl m n cf)]
       (math_log output_dir (m, n)) w).
Proof.
  intros Hb Hc Hh Hi. unfold math_emit, generate_math_header, io_bind, io_lift.
  simpl. rewrite Hb, Hc. simpl.
  rewrite write_text_in by (done || apply math_header_name_simple).
  unfold print at 1.
  rewrite write_text_in by (done || apply math_impl_name_simple).
  unfold print, write_all, math_log, put_line, put_file. simpl.
  by rewrite <- app_assoc.
Qed.

(** The header only: the tables raise after it is written. *)
Lemma math_emit_header_only bt e :
  base_type m n = Return bt -> generate_cordic_tables n = Raise e ->
  dir ++ [math_header_name m n] ∉ dirs w ->
  math_emit output_dir (m, n) w
  = (Raise e,
     write_all dir [(math_header_name m n, MathHeader m n bt)]
       ["Generated " +:+ pp_str (pp_div output_dir (math_header_name m n))] w).
Proof.
  intros Hb Hc Hh.
  unfold math_emit, generate_math_header, generate_cordic_c_file, io_bind, io_lift.
  simpl. rewrite Hb, Hc. simpl.
  by rewrite write_text_in by (done || apply math_header_name_simple).
Qed.

End MathCall.

Lemma math_emit_wf out f : preserves wf_world (math_emit out f).
Proof. unfold math_emit. auto 10 with io. Qed.

Lemma math_emit_same_dirs c D out f : preserves (same_dirs c D) (math_emit out f).
Proof. unfold math_emit. auto 10 with io. Qed.

#[export] Hint Resolve math_emit_wf math_emit_same_dirs : io.

Lemma math_out_simple f x : x ∈ math_out f -> simple_name x.1 = true.
Proof.
  unfold math_out. repeat case_match; try set_solver.
  intros [->|[->|?]%elem_of_cons]%elem_of_cons; [| |set_solver].
  - apply math_header_name_simple.
  - apply math_impl_name_simple.
Qed.

Lemma math_out_functional f g x y :
  x ∈ math_out f -> y ∈ math_out g -> x.1 = y.1 -> x.2 = y.2.
Proof.
  unfold math_out. destruct f as [m n], g as [m' n']. simpl.
  repeat case_match; try set_solver.
  rewrite !elem_of_cons, !elem_of_nil.
  intros [->|[->|[]]] [->|[->|[]]]; simpl;
    intros (-> & -> & ?)%(q_file_inj _ _ _ _ "_math.h" "_math.h")
    || intros (-> & -> & ?)%(q_file_inj _ _ _ _ "_math.h" "_math.c")
    || intros (-> & -> & ?)%(q_file_inj _ _ _ _ "_math.c" "_math.h")
    || intros (-> & -> & ?)%(q_file_inj _ _ _ _ "_math.c" "_math.c");
    try done; congruence.
Qed.

Lemma math_emit_spec out f w :
  returns (generate_cordic_c_file f.1 f.2) -> wf_world w ->
  pp_resolve (cwd w) out ∈ dirs w ->
  (forall x, x ∈ math_out f -> pp_resolve (cwd w) out ++ [x.1] ∉ dirs w) ->
  math_emit out f w
  = (Return tt, write_all (pp_resolve (cwd w) out) (math_out f) (math_log out f) w).
Proof.
  destruct f as [m n]. intros Hok Hw Hd Hn. unfold math_out in *. simpl in *.
  destruct (generate_cordic_c_file m n) as [cf|] eqn:Hc; [|done].
  destruct (generate_cordic_c_file_inv m n cf Hc) as (_ & Hb & _).
  unfold generate_math_header in *. rewrite Hb in *. simpl in *.
  apply math_emit_both; [done..| |].
  - apply (Hn (_, MathHeader m n (cf_type cf))). set_solver.
  - apply (Hn (_, CordicImpl m n cf)). set_solver.
Qed.

#[export] Instance math_emitter (output_dir : ppath) :
  Emitter (math_emit output_dir) := {|
  em_dir c := pp_resolve c output_dir;
  em_ok f := returns (generate_cordic_c_file f.1 f.2);
  em_out := math_out;
  em_log := math_log output_dir;
  em_simple := math_out_simple;
  em_functional := math_out_functional;
  em_spec := math_emit_spec output_dir;
  em_wf := math_emit_wf output_dir;
  em_frame f w := math_emit_same_dirs _ _ output_dir f w (conj eq_refl eq_refl)
|}.

(** ** The two [main] functions *)

(** [main] of generate_headers.py is a loop over [main_formats]. *)
Lemma main_loop w :
  main w
  = (_ <- os_makedirs "include/fixp/gen" ;;
     _ <- for_each (header_emit "include/fixp/gen") main_formats ;;
     print "Generated key headers in include/fixp/gen")%io w.
Proof.
  unfold main, main_formats, for_each, header_emit, io_bind, io_ret. simpl.
  destruct (os_makedirs _ w) as [[[]|?] ?]; [|done].
  repeat match goal with
  | |- context [generate_header_io ?a ?b ?c ?d ?v] =>
      destruct (generate_header_io a b c d v) as [[[]|?] ?]; try done
  end.
Qed.

Lemma resolve_gen_dir c : resolve c "include/fixp/gen" = gen_dir c.
Proof. done. Qed.

(** The world after a loop over an emitter whose directory was just
    created. *)
Section AfterMkdir.
Context `{Emitter emit}.
Variables (w : world) (base : path) (rest : list string) (l : list (Z * Z)).
Hypothesis Hw : wf_world w.
Hypothesis Hdir : em_dir (cwd w) = base ++ rest.
Hypothesis Hbase : base ∈ dirs w.
Hypothesis Hfree : Forall (fun q => files w !! q = None) (mkdir_dirs base rest).
Hypothesis Hok : Forall em_ok l.
Hypothesis Hnodir :
  forall f x, f ∈ l -> x ∈ em_out f -> base ++ rest ++ [x.1] ∉ dirs w.

Let w1 := add_dirs (mkdir_dirs base rest) w.

Lemma after_mkdir_loop :
  for_each emit l w1
  = (Return tt, write_all (base ++ rest) (l ≫= em_out) (l ≫= em_log) w1).
Proof.
  rewrite for_each_ok; simpl; rewrite ?Hdir;
    [done|done|by apply add_dirs_wf|by apply add_dirs_target|].
  intros f x Hf Hx [Hq%elem_of_list_to_set|Hq]%elem_of_union.
  - rewrite <- app_assoc in Hq. by apply mkdir_dirs_not_below in Hq.
  - rewrite <- app_assoc in Hq. by apply (Hnodir f x).
Qed.

End AfterMkdir.

Lemma main_formats_ok : Forall (fun f => returns (generate_header f.1 f.2)) main_formats.
Proof. repeat constructor. Qed.

Lemma math_main_formats_ok :
  Forall (fun f => returns (generate_cordic_c_file f.1 f.2)) math_main_formats.
Proof. repeat constructor. Qed.

Lemma main_run w : main_pre w -> main w = (Return tt, main_world w).
Proof.
  intros (Hw & Hfree & Hnodir). rewrite main_loop. unfold io_bind, os_makedirs.
  simpl (String.eqb _ _). cbv iota. rewrite resolve_gen_dir.
  unfold gen_dir. rewrite mkdir_p_below by (done || apply Hw).
  rewrite (after_mkdir_loop (emit := header_emit "include/fixp/gen")
             w (cwd w) ["include"; "fixp"; "gen"]); try done.
  - apply Hw.
  - apply main_formats_ok.
  - intros f x Hf Hx. rewrite app_assoc. by apply (Hnodir f x).
Qed.

Lemma math_run file__ w :
  math_pre file__ w -> math_main file__ w = (Return tt, math_world file__ w).
Proof.
  intros (Hw & Hfree & Hnodir). unfold math_main, math_world, io_bind, Path_mkdir.
  rewrite mkdir_p_ok by done.
  apply (after_mkdir_loop (H := math_emitter (math_output_dir file__)) w []
           (pp_resolve (cwd w) (math_output_dir file__)) math_main_formats);
    try done.
  - apply Hw.
  - apply math_main_formats_ok.
Qed.

(** A world without files satisfies both. *)
Lemma fresh_longer c p :
  (length c < length p)%nat -> p ∉ dirs (fresh_world c).
Proof.
  intros Hl Hp%elem_of_list_to_set%inits_spec%prefix_length. lia.
Qed.

Lemma main_pre_fresh c : main_pre (fresh_world c).
Proof.
  split; [apply fresh_world_wf|]. split.
  - apply Forall_forall. intros q _. apply lookup_empty.
  - intros f x _ _. apply fresh_longer. unfold gen_dir. rewrite !length_app. simpl. lia.
Qed.

Lemma math_pre_fresh file__ c :
  (length c <= length (pp_resolve c (math_output_dir file__)))%nat ->
  math_pre file__ (fresh_world c).
Proof.
  intros Hl. split; [apply fresh_world_wf|]. split.
  - apply Forall_forall. intros q _. apply lookup_empty.
  - intros f x _ _. apply fresh_longer. rewrite length_app. simpl in *. lia.
Qed.

Lemma main_wf : preserves wf_world main.
Proof. unfold main. auto 20 with io. Qed.

Lemma math_main_wf file__ : preserves wf_world (math_main file__).
Proof. unfold math_main. auto 20 with io. Qed.

(** What the worlds after the two [main] functions hold for a format of
    their lists. *)
Lemma main_world_files w f :
  f ∈ main_formats ->
  exists h, generate_header f.1 f.2 = Return (Some h) /\
    files (main_world w) !! (gen_dir (cwd w) ++ [filename (header_names f.1 f.2 None)])
    = Some (ArithHeader (header_names f.1 f.2 None) f.1 f.2 h).
Proof.
  intros Hf.
  pose proof (write_all_written (H := header_emitter "include/fixp/gen")
    main_formats f (gen_dir (cwd w)) [] (add_dirs (mkdir_dirs (cwd w)
      ["include"; "fixp"; "gen"]) w) Hf) as Hwr.
  unfold main_formats in Hf.
  repeat (apply elem_of_cons in Hf as [->|Hf]); [..|by apply elem_of_nil in Hf];
    (eexists; split; [reflexivity|]; apply (Hwr (_, _)); by left).
Qed.

Lemma math_world_files file__ w f :
  f ∈ math_main_formats ->
  exists bt cf,
    base_type f.1 f.2 = Return bt /\ generate_cordic_c_file f.1 f.2 = Return cf /\
    let out := pp_resolve (cwd w) (math_output_dir file__) in
    files (math_world file__ w) !! (out ++ [math_header_name f.1 f.2])
    = Some (MathHeader f.1 f.2 bt) /\
    files (math_world file__ w) !! (out ++ [math_impl_name f.1 f.2])
    = Some (CordicImpl f.1 f.2 cf).
Proof.
  intros Hf.
  pose proof (write_all_written (H := math_emitter (math_output_dir file__))
    math_main_formats f (pp_resolve (cwd w) (math_output_dir file__))
    (math_main_formats ≫= math_log (math_output_dir file__))
    (add_dirs (mkdir_dirs [] (pp_resolve (cwd w) (math_output_dir file__))) w)
    Hf) as Hwr.
  unfold math_main_formats in Hf.
  repeat (apply elem_of_cons in Hf as [->|Hf]); [..|by apply elem_of_nil in Hf];
    (do 2 eexists; split; [reflexivity|]; split; [reflexivity|]; split;
     [apply (Hwr (_, _)); by left|apply (Hwr (_, _)); right; by left]).
Qed.

(** * Theorems *)

(** C17. One call of [generate_header] on a format that has a header writes
    exactly one file, named by the format or by the override, into the
    output directory, and nothing else changes: no directory is created
    and nothing is printed. *)
Theorem generate_header_io_writes m n output_dir o h w :
  generate_header m n = Return (Some h) ->
  simple_name (filename (header_names m n o)) = true ->
  resolve (cwd w) output_dir ∈ dirs w ->
  resolve (cwd w) output_dir ++ [filename (header_names m n o)] ∉ dirs w ->
  generate_header_io m n output_dir o w
  = (Return tt,
     put_file (resolve (cwd w) output_dir ++ [filename (header_names m n o)])
       (ArithHeader (header_names m n o) m n h) w).
Proof. intros. by apply header_io_write. Qed.

(** C18. A call of [generate_header] that raises has changed nothing: the
    exception is the selector's ([1 << n] or [float(1 << n)]) or that of
    [open], and both come before anything is written. *)
Theorem generate_header_io_atomic m n output_dir o w e w' :
  generate_header_io m n output_dir o w = (Raise e, w') ->
  w' = w /\
  (generate_header m n = Raise e \/
   e ∈ [IsADirectoryError; NotADirectoryError; FileNotFoundError]).
Proof.
  unfold generate_header_io, io_bind, io_lift.
  destruct (generate_header m n) as [[h|]|e0]; [| |by intros [= <- <-]; auto].
  - unfold open_write, fs_write. repeat case_match; intros [= <- <-];
      (split; [done|right; set_solver]).
  - done.
Qed.

(** A format of more than 64 bits is not an error of generate_headers.py:
    the call returns normally, prints the "Skipping" line and writes no
    file. *)
Theorem generate_header_io_too_wide m n output_dir o w :
  64 < total_bits m n ->
  generate_header_io m n output_dir o w = (Return tt, put_line (skip_message m n) w).
Proof.
  intros Ht. apply header_io_skip. unfold generate_header. split_chain; (lia || done).
Qed.

(** C15. [main] of generate_headers.py, started where no regular file is in
    the way of [include/fixp/gen] and no directory has the name of a
    header, returns, and afterwards the header of every format of its
    list is in that directory with the values the selector computed. *)
Theorem main_generates w f :
  main_pre w -> f ∈ main_formats ->
  main w = (Return tt, main_world w) /\
  exists h, generate_header f.1 f.2 = Return (Some h) /\
    files (main_world w) !! (gen_dir (cwd w) ++ [filename (header_names f.1 f.2 None)])
    = Some (ArithHeader (header_names f.1 f.2 None) f.1 f.2 h).
Proof. intros Hpre Hf. split; [by apply main_run|by apply main_world_files]. Qed.

(** C21. Running [main] of generate_headers.py a second time changes no
    file and no directory. *)
Theorem main_idempotent w :
  main_pre w ->
  main (main_world w) = (Return tt, main_world (main_world w)) /\
  files (main_world (main_world w)) = files (main_world w) /\
  dirs (main_world (main_world w)) = dirs (main_world w).
Proof.
  intros Hpre. assert (Hpre' : main_pre (main_world w)).
  { destruct Hpre as (Hw & Hfree & Hnodir).
    pose proof (main_wf w Hw) as Hw'. rewrite main_run in Hw' by done.
    split; [done|]. split.
    - apply Forall_forall. intros q Hq. apply wf_dir_not_file; [done|].
      simpl. set_solver.
    - intros f x Hf Hx [Hq%elem_of_list_to_set|Hq]%elem_of_union.
      + unfold gen_dir in Hq. rewrite <- app_assoc in Hq.
        by apply mkdir_dirs_not_below in Hq.
      + by apply (Hnodir f x). }
  split; [by apply main_run|]. split.
  - apply (write_files_idem (gen_dir (cwd w)) (main_formats ≫= header_out)).
    intros x y. apply (bind_functional (H := header_emitter "")).
  - simpl. set_solver.
Qed.

(** C16. [main] of generate_math_headers.py, started where no regular file is
    in the way of its output directory and no directory has the name of
    a file to write, returns, and afterwards every format of its list
    has its header and its implementation in that directory: the header
    with the base type of the format, the implementation with the
    tables [generate_cordic_c_file] computed. *)
Theorem math_main_generates file__ w f :
  math_pre file__ w -> f ∈ math_main_formats ->
  math_main file__ w = (Return tt, math_world file__ w) /\
  exists bt cf,
    base_type f.1 f.2 = Return bt /\ generate_cordic_c_file f.1 f.2 = Return cf /\
    let out := pp_resolve (cwd w) (math_output_dir file__) in
    files (math_world file__ w) !! (out ++ [math_header_name f.1 f.2])
    = Some (MathHeader f.1 f.2 bt) /\
    files (math_world file__ w) !! (out ++ [math_impl_name f.1 f.2])
    = Some (CordicImpl f.1 f.2 cf).
Proof. intros Hpre Hf. split; [by apply math_run|by apply math_world_files]. Qed.

(** A format on which the generator raises stops the loop, and the
    formats after it get no file.  Here the tables of Q0.(-1) raise
    after its header is written, and Q7.8 is never reached. *)
Example math_loop_stops :
  let out := PPath true ["repo"; "gen"] in
  let r := for_each (math_emit out) [(0, -1); (7, 8)]
             (add_dirs [["repo"; "gen"]] (fresh_world ["repo"])) in
  r.1 = Raise ValueError /\
  is_Some (files r.2 !! ["repo"; "gen"; "q0_-1_math.h"]) /\
  files r.2 !! ["repo"; "gen"; "q0_-1_math.c"] = None /\
  files r.2 !! ["repo"; "gen"; "q7_8_math.h"] = None.
Proof.
  intros out r. split; [by vm_compute|]. split; [eexists|split]; vm_compute; reflexivity.
Qed.

(** A format of more than 64 bits stops generate_math_headers.py with
    [ValueError] before anything is written or printed for it. *)
Theorem math_emit_rejects output_dir m n w :
  64 < total_bits m n ->
  math_emit output_dir (m, n) w = (Raise ValueError, w).
Proof. apply math_emit_too_wide. Qed.

(** C19. A negative [n] is not rejected before an artifact is produced: the
    header of the format is written and announced, and only then
    [generate_cordic_tables] raises [ValueError]; the implementation is
    never written. *)
Theorem math_emit_partial output_dir m n w :
  n < 0 -> total_bits m n <= 64 ->
  let dir := pp_resolve (cwd w) output_dir in
  dir ∈ dirs w -> dir ++ [math_header_name m n] ∉ dirs w ->
  exists bt, base_type m n = Return bt /\
    math_emit output_dir (m, n) w
    = (Raise ValueError,
       write_all dir [(math_header_name m n, MathHeader m n bt)]
         ["Generated " +:+ pp_str (pp_div output_dir (math_header_name m n))] w).
Proof.
  intros Hn Ht dir Hd Hh. destruct (base_type m n) as [bt|e] eqn:Hb.
  - exists bt. split; [done|]. apply math_emit_header_only; [done..| |done].
    by apply generate_cordic_tables_raises.
  - unfold base_type in Hb. revert Hb. split_chain; (lia || done).
Qed.

(** Both [main] functions keep the file system well formed, in every
    world and whatever their outcome. *)
Theorem main_preserves_wf file__ w :
  wf_world w -> wf_world (main w).2 /\ wf_world (math_main file__ w).2.
Proof. intros Hw. split; [by apply main_wf|by apply math_main_wf]. Qed.

(** C20. The names of the generated files determine the format and the kind
    of file: no file of one format or generator is overwritten by
    another. *)
Theorem generated_names_distinct m n m' n' :
  filename (header_names m n None) <> math_header_name m' n' /\
  filename (header_names m n None) <> math_impl_name m' n' /\
  math_header_name m n <> math_impl_name m' n' /\
  (filename (header_names m n None) = filename (header_names m' n' None) ->
   m = m' /\ n = n') /\
  (math_header_name m n = math_header_name m' n' -> m = m' /\ n = n') /\
  (math_impl_name m n = math_impl_name m' n' -> m = m' /\ n = n').
Proof.
  split; [|split; [|split; [|split; [|split]]]].
  - by intros (? & ? & ?)%(q_file_inj m n m' n' ".h" "_math.h").
  - by intros (? & ? & ?)%(q_file_inj m n m' n' ".h" "_math.c").
  - by intros (? & ? & ?)%(q_file_inj m n m' n' "_math.h" "_math.c").
  - by intros (? & ? & ?)%(q_file_inj m n m' n' ".h" ".h").
  - by intros (? & ? & ?)%(q_file_inj m n m' n' "_math.h" "_math.h").
  - by intros (? & ? & ?)%(q_file_inj m n m' n' "_math.c" "_math.c").
Qed.

(** C22. The names the generators put into C code (the include guards, the
    type name, the macro prefix, the gain macro) are identifiers of C
    exactly when neither [m] nor [n] is negative: a format with a
    negative width is generated with names that no compiler accepts. *)
Theorem names_are_identifiers m n :
  Forall (fun s => c_ident s = true <-> 0 <= m /\ 0 <= n)
    [guard (header_names m n None); type_ident (header_names m n None);
     macro_prefix (header_names m n None); math_guard m n; math_type_name m n] /\
  (c_ident (cordic_k_name n) = true <-> 0 <= n).
Proof.
  split.
  - repeat (apply List.Forall_cons); [..|apply List.Forall_nil].
    + by apply (q_ident "FIXP_GEN_Q" "_H").
    + by apply (q_ident "q" "_t").
    + simpl. rewrite <- (string_app_nil_r (str n)). by apply (q_ident "Q" "").
    + by apply (q_ident "FIXP_Q" "_MATH_H").
    + by apply (q_ident "q" "_t").
  - unfold cordic_k_name. rewrite (c_ident_app "CORDIC_K_") by done.
    apply str_ident.
Qed.

(** With an override the include guard is derived from the file name,
    and it is an identifier of C exactly when the name consists of
    letters, digits, underscores and dots: any other character of the
    name is copied into the guard. *)
Theorem override_guard_identifier m n f :
  f <> "" ->
  guard (header_names m n (Some f)) = "FIXP_GEN_" +:+ upper (replace "." "_" f) /\
  (c_ident (guard (header_names m n (Some f))) = true <->
   string_forallb (fun c => ident_char c || Ascii.eqb c ".") f = true).
Proof.
  intros Hf. destruct f as [|c f]; [done|]. split; [done|].
  change (guard _) with ("FIXP_GEN_" +:+ upper (replace "." "_" (String c f))).
  by rewrite (c_ident_app "FIXP_GEN_"), guard_base_ident.
Qed.

(** An override that is an absolute path is written where it says, not
    into the output directory: [os.path.join] drops the directory. *)
Theorem override_escapes m n output_dir f h w :
  generate_header m n = Return (Some h) -> is_abs f = true ->
  components f ∉ dirs w -> removelast (components f) ∈ dirs w ->
  generate_header_io m n output_dir (Some f) w
  = (Return tt,
     put_file (components f) (ArithHeader (header_names m n (Some f)) m n h) w).
Proof.
  intros E Ha Hp Hd. destruct f as [|c f]; [done|].
  unfold generate_header_io, io_bind, io_lift. rewrite E.
  change (filename _) with (String c f). unfold path_join, open_write.
  rewrite Ha. simpl (String.eqb _ _). cbv iota. unfold resolve. rewrite Ha.
  by apply fs_write_ok.
Qed.

(** Where generate_math_headers.py writes: for a script given by an
    absolute path, into [include/fixp/gen] under the directory two
    levels above the script, whatever the working directory; this is
    the directory generate_headers.py writes to exactly when that
    directory is the working directory. *)
Theorem output_dirs_agree c file__ d s1 s2 :
  is_abs file__ = true -> components file__ = d ++ [s1; s2] ->
  pp_resolve c (math_output_dir file__) = gen_dir d /\
  (pp_resolve c (math_output_dir file__) = resolve c "include/fixp/gen" <-> c = d).
Proof.
  intros Ha Hc.
  assert (E : pp_resolve c (math_output_dir file__) = gen_dir d).
  { unfold math_output_dir, Path, pp_parent, pp_div, pp_resolve, gen_dir.
    rewrite Ha, Hc. simpl.
    replace (d ++ [s1; s2]) with ((d ++ [s1]) ++ [s2]) by (by rewrite <- app_assoc).
    rewrite !removelast_last.
    by rewrite <- !app_assoc. }
  split; [done|]. rewrite E, resolve_gen_dir. unfold gen_dir.
  split; [by intros ->%(inj (.++ _))|by intros ->].
Qed.

(** With a script named by a relative path of at most two components,
    [parent.parent] is the working directory itself. *)
Example math_output_dir_relative :
  math_output_dir "generate_math_headers.py" = PPath false ["include"; "fixp"; "gen"] /\
  math_output_dir "scripts/generate_math_headers.py"
  = PPath false ["include"; "fixp"; "gen"] /\
  math_output_dir "/repo/scripts/generate_math_headers.py"
  = PPath true ["repo"; "include"; "fixp"; "gen"].
Proof. by vm_compute. Qed.

(** * Witnesses *)

Ltac emit_wit :=
  lazymatch goal with
  | |- wf_world _ => apply fresh_world_wf
  | |- main_pre _ => apply main_pre_fresh
  | |- math_pre _ _ => apply math_pre_fresh; simpl; lia
  | |- _ => by vm_compute
  end.

Lemma generate_header_io_writes_witness :
  generate_header_io 7 8 "include/fixp/gen" None repo_world
  = (Return tt,
     put_file ["repo"; "include"; "fixp"; "gen"; "q7_8.h"]
       (ArithHeader (header_names 7 8 None) 7 8 Q7_8) repo_world).
Proof.
  apply (generate_header_io_writes 7 8 "include/fixp/gen" None Q7_8 repo_world);
    emit_wit.
Defined.

Lemma generate_header_io_atomic_witness :
  fresh_world ["repo"] = fresh_world ["repo"] /\
  (generate_header 3 (-1) = Raise ValueError \/
   ValueError ∈ [IsADirectoryError; NotADirectoryError; FileNotFoundError]).
Proof.
  apply (generate_header_io_atomic 3 (-1) "out" None (fresh_world ["repo"])).
  emit_wit.
Defined.

Lemma generate_header_io_too_wide_witness :
  generate_header_io 40 40 "out" None (fresh_world ["repo"])
  = (Return tt, put_line (skip_message 40 40) (fresh_world ["repo"])).
Proof. apply generate_header_io_too_wide. emit_wit. Defined.

Lemma main_generates_witness :
  main (fresh_world ["repo"]) = (Return tt, main_world (fresh_world ["repo"])) /\
  exists h, generate_header 7 8 = Return (Some h) /\
    files (main_world (fresh_world ["repo"]))
      !! (gen_dir ["repo"] ++ [filename (header_names 7 8 None)])
    = Some (ArithHeader (header_names 7 8 None) 7 8 h).
Proof.
  apply (main_generates (fresh_world ["repo"]) (7, 8)); [emit_wit|].
  do 3 right. left.
Defined.

Lemma main_idempotent_witness :
  main (main_world (fresh_world ["repo"]))
  = (Return tt, main_world (main_world (fresh_world ["repo"]))) /\
  files (main_world (main_world (fresh_world ["repo"])))
  = files (main_world (fresh_world ["repo"])) /\
  dirs (main_world (main_world (fresh_world ["repo"])))
  = dirs (main_world (fresh_world ["repo"])).
Proof. apply main_idempotent. emit_wit. Defined.

Lemma math_main_generates_witness :
  let file__ := "/repo/scripts/generate_math_headers.py" in
  let w := fresh_world ["repo"] in
  math_main file__ w = (Return tt, math_world file__ w) /\
  exists bt cf,
    base_type 7 8 = Return bt /\ generate_cordic_c_file 7 8 = Return cf /\
    let out := pp_resolve (cwd w) (math_output_dir file__) in
    files (math_world file__ w) !! (out ++ [math_header_name 7 8])
    = Some (MathHeader 7 8 bt) /\
    files (math_world file__ w) !! (out ++ [math_impl_name 7 8])
    = Some (CordicImpl 7 8 cf).
Proof.
  intros file__ w. apply (math_main_generates file__ w (7, 8)); [emit_wit|].
  do 2 right. left.
Defined.

Lemma math_emit_rejects_witness :
  math_emit (PPath true ["repo"]) (50, 20) (fresh_world ["repo"])
  = (Raise ValueError, fresh_world ["repo"]).
Proof. apply math_emit_rejects. emit_wit. Defined.

Lemma math_emit_partial_witness :
  exists bt, base_type 0 (-1) = Return bt /\
    math_emit (PPath true ["repo"]) (0, -1) (fresh_world ["repo"])
    = (Raise ValueError,
       write_all ["repo"] [(math_header_name 0 (-1), MathHeader 0 (-1) bt)]
         ["Generated " +:+ pp_str (pp_div (PPath true ["repo"]) (math_header_name 0 (-1)))]
         (fresh_world ["repo"])).
Proof.
  apply (math_emit_partial (PPath true ["repo"]) 0 (-1) (fresh_world ["repo"]));
    emit_wit.
Defined.

Lemma main_preserves_wf_witness :
  wf_world (main (fresh_world ["repo"])).2 /\
  wf_world (math_main "/repo/scripts/generate_math_headers.py" (fresh_world ["repo"])).2.
Proof. apply main_preserves_wf. emit_wit. Defined.

Lemma override_guard_identifier_witness :
  guard (header_names 15 16 (Some "q16.16.h"))
  = "FIXP_GEN_" +:+ upper (replace "." "_" "q16.16.h") /\
  (c_ident (guard (header_names 15 16 (Some "q16.16.h"))) = true <->
   string_forallb (fun c => ident_char c || Ascii.eqb c ".") "q16.16.h" = true).
Proof. apply override_guard_identifier. emit_wit. Defined.

Lemma override_escapes_witness :
  generate_header_io 7 8 "include/fixp/gen" (Some "/repo/q.h") repo_world
  = (Return tt,
     put_file ["repo"; "q.h"]
       (ArithHeader (header_names 7 8 (Some "/repo/q.h")) 7 8 Q7_8) repo_world).
Proof.
  apply (override_escapes 7 8 "include/fixp/gen" "/repo/q.h" Q7_8 repo_world);
    emit_wit.
Defined.

Lemma output_dirs_agree_witness :
  let file__ := "/repo/scripts/generate_math_headers.py" in
  pp_resolve ["repo"] (math_output_dir file__) = gen_dir ["repo"] /\
  (pp_resolve ["repo"] (math_output_dir file__)
   = resolve ["repo"] "include/fixp/gen" <-> ["repo"] = ["repo"]).
Proof.
  apply (output_dirs_agree ["repo"] _ ["repo"] "scripts" "generate_math_headers.py");
    emit_wit.
Defined.
