(* ===== verification/Units.v ===== *)
(** * Units: the generated files as preprocessor lines and declarations

    The three templates (generate_headers.py lines 55-121,
    generate_math_headers.py lines 26-117 and 156-381) line by line, at
    the level of the C preprocessor and of the declarations: each
    directive, typedef, macro, function and object of a template is one
    [item], in the order of the text, with the names the template gives
    it.  A macro keeps its replacement text; a function keeps the
    names its signature and body mention ([uses]), its body being the
    subject of [Arith], [MathHeader], [Cordic], [Transc] and
    [Convert].  Comments and blank lines are not items.

    [pp] is the preprocessor on items: conditional inclusion
    ([#ifndef], [#ifdef __cplusplus], [#else], [#endif]), macro
    definition with the rule that a macro is redefined only by the same
    text (C11 6.10.3), and [#include] of a file of the world.
    [undeclared] lists the names mentioned before they are declared,
    [undefined_protos] the functions that are declared and not defined;
    [compiles] puts the checks together for a translation unit.  The
    names of a replacement list are looked up where the macro is
    defined, not where it is used: this is stricter than C and holds
    of the templates.  Macros are not expanded, so a macro that is
    defined and never used in the unit is not checked further.

    The theorems: a generated header read twice is read once
    ([include_guard]), and the functions the math header declares are
    the functions its implementation file exports
    ([prototypes_exported]).  What holds of the files the two [main]
    functions write is in [Link]. *)

From Stdlib Require Import Ascii.
From stdpp Require Import gmap strings pretty list.
From S2P Require Import Prelude CInt Format Consts Names Emit.
#[local] Open Scope Z_scope.
#[local] Set Warnings "-clear-no-such-hyp".
#[local] Arguments String.append !_ _ / : simpl nomatch.

(** * Items *)

Inductive linkage : Type :=
| External
| Static
| StaticInline.

Inductive item : Type :=
| Ifndef (macro : string)
| IfdefCpp
| Else
| Endif
| Define (macro : string) (params : option (list string)) (body : string)
    (uses : list string)
| Include (system : bool) (file : string)
| ExternOpen
| ExternClose
| Typedef (type : string) (name : string)
| Prototype (name : string) (arity : nat) (uses : list string)
| Function (lk : linkage) (name : string) (arity : nat) (uses : list string)
| Array (lk : linkage) (name : string) (size : string) (init : string)
    (uses : list string).

#[export] Instance linkage_eq_dec : EqDecision linkage.
Proof. solve_decision. Defined.

#[export] Instance item_eq_dec : EqDecision item.
Proof. solve_decision. Defined.

(** * Names of the templates *)

(** The name of a C integer type, as the scripts write it. *)
Definition ity_name (t : ity) : string :=
  match t with
  | Int 128 => "__int128_t"
  | Int w => "int" +:+ str w +:+ "_t"
  | UInt w => "uint" +:+ str w +:+ "_t"
  end.

(** [f"q{m}_{n}_<op>"] and [f"Q{m_bits}_{n_bits}_<NAME>"]. *)
Definition q_fun (m n : Z) (op : string) : string :=
  "q" +:+ str m +:+ "_" +:+ str n +:+ "_" +:+ op.

Definition q_macro (m_bits n_bits : Z) (name : string) : string :=
  "Q" +:+ str m_bits +:+ "_" +:+ str n_bits +:+ "_" +:+ name.

(** [storage_max] and [storage_min] of generate_headers.py: the limit
    macros of [<stdint.h>] for the storage width. *)
Definition limit_macro (h : header) (which : string) : string :=
  "INT" +:+ str (storage_bits h) +:+ "_" +:+ which.

(** [",\n    ".join(str(x) for x in atan_table)], line 154. *)
Fixpoint atan_table_str (atan_table : list Z) : string :=
  match atan_table with
  | [] => ""
  | [x] => str x
  | x :: l => str x +:+ String "," (String "010" ("    " +:+ atan_table_str l))
  end.

(** * The templates *)

(** generate_headers.py, lines 55-121. *)
Definition arith_header_items (nm : names) (m n : Z) (h : header) : list item :=
  let T := type_ident nm in
  let P := macro_prefix nm in
  let S := ity_name (storage_type h) in
  let U := ity_name (unsigned_type h) in
  let W := ity_name (wide_type h) in
  let WRAP := P +:+ "_WRAP" in
  [ Ifndef (guard nm);
    Define (guard nm) None "" [];
    Include true "stdint.h";
    Include true "stdbool.h";
    IfdefCpp; ExternOpen; Endif;
    Typedef S T;
    IfdefCpp;
    Define WRAP (Some ["raw"]) ("(" +:+ T +:+ "{(raw)})") [T];
    Else;
    Define WRAP (Some ["raw"]) ("((" +:+ T +:+ ")(raw))") [T];
    Endif;
    Define (P +:+ "_RAW") (Some ["x"]) "(x)" [];
    Define (P +:+ "_FRAC_BITS") None (str n) [];
    Define (P +:+ "_ONE") None (WRAP +:+ "(" +:+ str (one_val h) +:+ ")") [WRAP];
    Define (P +:+ "_MAX") None (WRAP +:+ "(" +:+ limit_macro h "MAX" +:+ ")")
      [WRAP; limit_macro h "MAX"];
    Define (P +:+ "_MIN") None (WRAP +:+ "(" +:+ limit_macro h "MIN" +:+ ")")
      [WRAP; limit_macro h "MIN"];
    Function StaticInline (q_fun m n "add") 2 [T; WRAP; S; U];
    Function StaticInline (q_fun m n "sub") 2 [T; WRAP; S; U];
    Function StaticInline (q_fun m n "mul") 2 [T; W; WRAP; S];
    Function StaticInline (q_fun m n "div") 2
      [T; P +:+ "_MAX"; P +:+ "_MIN"; W; WRAP; S];
    Function StaticInline (q_fun m n "from_double") 1 [T; WRAP; S];
    Function StaticInline (q_fun m n "to_double") 1 [T];
    IfdefCpp; ExternClose; Endif;
    Endif ].

(** generate_math_headers.py, lines 26-117. *)
Definition math_header_items (m_bits n_bits : Z) (base_type : ity) : list item :=
  let T := math_type_name m_bits n_bits in
  let Q := q_macro m_bits n_bits in
  let f := q_fun m_bits n_bits in
  let total_bits := total_bits m_bits n_bits in
  let shl x := "(1LL << " +:+ x +:+ ")" in
  let cst x := "((" +:+ T +:+ ")" +:+ x +:+ ")" in
  [ Ifndef (math_guard m_bits n_bits);
    Define (math_guard m_bits n_bits) None "" [];
    Include true "stdint.h";
    Include true "stdbool.h";
    IfdefCpp; ExternOpen; Endif;
    Typedef (ity_name base_type) T;
    Define (Q "PI") None
      (cst ("(3.14159265358979323846 * " +:+ shl (str n_bits) +:+ ")")) [T];
    Define (Q "E") None
      (cst ("(2.71828182845904523536 * " +:+ shl (str n_bits) +:+ ")")) [T];
    Define (Q "ONE") None (cst (shl (str n_bits))) [T];
    Define (Q "HALF") None (cst (shl ("(" +:+ str n_bits +:+ " - 1)"))) [T];
    Define (Q "MAX") None
      (cst ("(" +:+ shl ("(" +:+ str total_bits +:+ " - 1)") +:+ " - 1)")) [T];
    Define (Q "MIN") None
      (cst ("(-" +:+ shl ("(" +:+ str total_bits +:+ " - 1)") +:+ ")")) [T];
    Function StaticInline (f "abs") 1 [T];
    Function StaticInline (f "min") 2 [T];
    Function StaticInline (f "max") 2 [T];
    Function StaticInline (f "clamp") 3 [T; f "min"; f "max"];
    Function StaticInline (f "floor") 1 [T; Q "ONE"];
    Function StaticInline (f "ceil") 1 [T; Q "ONE"];
    Function StaticInline (f "round") 1 [T; Q "HALF"; Q "ONE"];
    Function StaticInline (f "trunc") 1 [T; Q "ONE"];
    Prototype (f "sqrt") 1 [T];
    Prototype (f "sin") 1 [T];
    Prototype (f "cos") 1 [T];
    Prototype (f "tan") 1 [T];
    Prototype (f "atan") 1 [T];
    Prototype (f "atan2") 2 [T];
    Prototype (f "exp") 1 [T];
    Prototype (f "log") 1 [T];
    Prototype (f "exp2") 1 [T];
    Prototype (f "log2") 1 [T];
    Prototype (f "pow") 2 [T];
    IfdefCpp; ExternClose; Endif;
    Endif ].

(** generate_math_headers.py, lines 156-381. *)
Definition cordic_impl_items (m_bits n_bits : Z) (cf : cfile) : list item :=
  let T := math_type_name m_bits n_bits in
  let B := ity_name (cf_type cf) in
  let Q := q_macro m_bits n_bits in
  let f := q_fun m_bits n_bits in
  let K := cordic_k_name n_bits in
  [ Include false (math_header_name m_bits n_bits);
    Include true "stdint.h";
    Define K None ("((" +:+ T +:+ ")" +:+ str (cf_k cf) +:+ ")") [T];
    Define "CORDIC_ITERATIONS" None (str (cf_iterations cf)) [];
    Array Static "cordic_atan_table" "CORDIC_ITERATIONS"
      (atan_table_str (cf_table cf)) [T; "CORDIC_ITERATIONS"];
    Function Static "cordic_rotate" 3
      [T; K; "CORDIC_ITERATIONS"; "cordic_atan_table"];
    Function Static "cordic_vector" 2
      [T; "CORDIC_ITERATIONS"; "cordic_atan_table"];
    Function External (f "sin") 1 [T; Q "PI"; "bool"; "false"; "true"; "cordic_rotate"];
    Function External (f "cos") 1 [T; Q "PI"; "cordic_rotate"];
    Function External (f "tan") 1 [T; f "sin"; f "cos"; Q "MAX"; B];
    Function External (f "atan2") 2 [T; "cordic_vector"; Q "PI"];
    Function External (f "atan") 1 [T; f "atan2"; Q "ONE"];
    Function External (f "sqrt") 1 [T; Q "ONE"; B];
    Function External (f "exp2") 1 [T; Q "ONE"; Q "MAX"; B];
    Function External (f "exp") 1 [T; B; f "exp2"];
    Function External (f "log2") 1 [T; Q "MIN"; Q "ONE"; B];
    Function External (f "log") 1 [T; f "log2"; B];
    Function External (f "pow") 2 [T; f "log2"; B; f "exp2"] ].

(** The items of a generated file. *)
Definition items_of (c : content) : list item :=
  match c with
  | ArithHeader nm m n h => arith_header_items nm m n h
  | MathHeader m_bits n_bits base_type => math_header_items m_bits n_bits base_type
  | CordicImpl m_bits n_bits cf => cordic_impl_items m_bits n_bits cf
  end.

(** * The preprocessor *)

Inductive pp_error : Type :=
| ElseWithoutIf
| EndifWithoutIf
| UnterminatedIf
| MacroRedefined (macro : string)
| IncludeNotFound (file : string)
| IncludeDepth.

Inductive ppres (A : Type) : Type :=
| PPok (a : A)
| PPerr (e : pp_error).

Arguments PPok {A} a.
Arguments PPerr {A} e.

(** An open conditional: whether the group being read is processed, and
    whether a later [#else] group is skipped. *)
Record frame : Type := Frame {
  fr_on : bool;
  fr_done : bool
}.

(** The macros defined so far with their parameters and replacement
    text, the open conditionals (innermost first), the system headers
    included, and the lines passed on to the compiler. *)
Record pp_state : Type := PP {
  macros : gmap string (option (list string) * string);
  frames : list frame;
  sys : list string;
  out : list item
}.

Definition pp_init : pp_state := PP ∅ [] [] [].

Definition pp_on (st : pp_state) : bool :=
  match frames st with
  | [] => true
  | f :: _ => fr_on f
  end.

Definition push (c : bool) (st : pp_state) : pp_state :=
  PP (macros st) (Frame (pp_on st && c) (negb (pp_on st) || c) :: frames st)
    (sys st) (out st).

Definition with_frames (fs : list frame) (st : pp_state) : pp_state :=
  PP (macros st) fs (sys st) (out st).

Definition emit (it : item) (st : pp_state) : pp_state :=
  PP (macros st) (frames st) (sys st) (out st ++ [it]).

(** One line that is not an [#include] of a file of the world. *)
Definition pp_item (cpp : bool) (it : item) (st : pp_state) : ppres pp_state :=
  match it with
  | Ifndef g => PPok (push (bool_decide (macros st !! g = None)) st)
  | IfdefCpp => PPok (push cpp st)
  | Else =>
      match frames st with
      | [] => PPerr ElseWithoutIf
      | f :: fs => PPok (with_frames (Frame (negb (fr_done f)) true :: fs) st)
      end
  | Endif =>
      match frames st with
      | [] => PPerr EndifWithoutIf
      | _ :: fs => PPok (with_frames fs st)
      end
  | Define g params body _ =>
      if pp_on st then
        match macros st !! g with
        | None =>
            PPok (PP (<[g := (params, body)]> (macros st)) (frames st) (sys st)
                    (out st ++ [it]))
        | Some d =>
            if bool_decide (d = (params, body)) then PPok st
            else PPerr (MacroRedefined g)
        end
      else PPok st
  | Include _ h =>
      PPok (if pp_on st
            then PP (macros st) (frames st) (sys st ++ [h]) (out st)
            else st)
  | _ => PPok (if pp_on st then emit it st else st)
  end.

(** A file: its lines in order; [#include "h"] reads the file [find h]
    with its own conditionals, which it has to close.  [fuel] bounds
    the depth of inclusion. *)
Fixpoint pp (fuel : nat) (cpp : bool) (find : string -> option (list item))
    (items : list item) (st : pp_state) {struct fuel} : ppres pp_state :=
  match fuel with
  | O => PPerr IncludeDepth
  | S fuel' =>
      (fix go (items : list item) (st : pp_state) {struct items} : ppres pp_state :=
         match items with
         | [] => PPok st
         | it :: rest =>
             let next r :=
               match r with
               | PPok st' => go rest st'
               | PPerr e => PPerr e
               end in
             match it with
             | Include false h =>
                 if pp_on st then
                   match find h with
                   | None => PPerr (IncludeNotFound h)
                   | Some its =>
                       match pp fuel' cpp find its (with_frames [] st) with
                       | PPok st' =>
                           match frames st' with
                           | [] => go rest (with_frames (frames st) st')
                           | _ => PPerr UnterminatedIf
                           end
                       | PPerr e => PPerr e
                       end
                   end
                 else go rest st
             | _ => next (pp_item cpp it st)
             end
         end) items st
  end.

(** A translation unit: a file read from the initial state, with all
    its conditionals closed at the end. *)
Definition pp_unit (fuel : nat) (cpp : bool) (find : string -> option (list item))
    (items : list item) : ppres pp_state :=
  match pp fuel cpp find items pp_init with
  | PPok st =>
      match frames st with
      | [] => PPok st
      | _ => PPerr UnterminatedIf
      end
  | PPerr e => PPerr e
  end.

(** [#include "h"] from a file of the directory [dir] of the world. *)
Definition find_in (w : world) (dir : path) (h : string) : option (list item) :=
  items_of <$> files w !! (dir ++ [h]).

(** * Declarations *)

(** What [<stdint.h>] and [<stdbool.h>] declare, of what the templates
    use. *)
Definition sys_names (h : string) : list string :=
  if String.eqb h "stdint.h" then
    ["int8_t"; "int16_t"; "int32_t"; "int64_t";
     "uint8_t"; "uint16_t"; "uint32_t"; "uint64_t";
     "INT8_MAX"; "INT8_MIN"; "INT16_MAX"; "INT16_MIN";
     "INT32_MAX"; "INT32_MIN"; "INT64_MAX"; "INT64_MIN"]
  else if String.eqb h "stdbool.h" then ["bool"; "true"; "false"]
  else [].

(** The type GCC and Clang provide without a header. *)
Definition gnu_builtins : list string := ["__int128_t"].

Definition declares (it : item) : list string :=
  match it with
  | Define g _ _ _ => [g]
  | Typedef _ name => [name]
  | Prototype name _ _ => [name]
  | Function _ name _ _ => [name]
  | Array _ name _ _ _ => [name]
  | _ => []
  end.

Definition mentions (it : item) : list string :=
  match it with
  | Define _ _ _ uses => uses
  | Typedef type _ => [type]
  | Prototype _ _ uses => uses
  | Function _ _ _ uses => uses
  | Array _ _ _ _ uses => uses
  | _ => []
  end.

(** The names mentioned before they are declared. *)
Fixpoint undeclared (env : gset string) (items : list item) : list string :=
  match items with
  | [] => []
  | it :: rest =>
      List.filter (fun x => bool_decide (x ∉ env)) (mentions it)
      ++ undeclared (list_to_set (declares it) ∪ env) rest
  end.

(** The names of the functions and objects defined, and of the
    functions declared by a prototype. *)
Definition defined (items : list item) : list (string * nat) :=
  omap (fun it => match it with
                  | Function _ name arity _ => Some (name, arity)
                  | _ => None
                  end) items.

Definition prototypes (items : list item) : list (string * nat) :=
  omap (fun it => match it with
                  | Prototype name arity _ => Some (name, arity)
                  | _ => None
                  end) items.

Definition undefined_protos (items : list item) : list (string * nat) :=
  List.filter (fun p => bool_decide (p ∉ defined items)) (prototypes items).

(** The nesting of [extern "C"] blocks at the end, or [None] when a
    block is closed that was not opened. *)
Fixpoint extern_depth (d : nat) (items : list item) : option nat :=
  match items with
  | [] => Some d
  | ExternOpen :: rest => extern_depth (S d) rest
  | ExternClose :: rest =>
      match d with
      | O => None
      | S d' => extern_depth d' rest
      end
  | _ :: rest => extern_depth d rest
  end.

(** What is checked of a translation unit: it preprocesses, every name
    is declared before it is mentioned, every prototype has its
    definition, and the [extern "C"] blocks are closed. *)
Definition unit_ok (builtins : list string) (st : pp_state) : bool :=
  bool_decide (undeclared (list_to_set (builtins ++ (sys st ≫= sys_names))) (out st) = [])
  && bool_decide (undefined_protos (out st) = [])
  && bool_decide (extern_depth 0 (out st) = Some 0%nat).

(** A translation unit compiles, as far as this model goes. *)
Definition compiles (builtins : list string) (fuel : nat) (cpp : bool)
    (find : string -> option (list item)) (items : list item) : bool :=
  match pp_unit fuel cpp find items with
  | PPok st => unit_ok builtins st
  | PPerr _ => false
  end.

(** The functions with external linkage a file defines. *)
Definition exported (items : list item) : list (string * nat) :=
  omap (fun it => match it with
                  | Function External name arity _ => Some (name, arity)
                  | _ => None
                  end) items.

(** * Guarded files *)

(** A file between [#ifndef g], [#define g] and [#endif]. *)
Definition guarded (g : string) (body : list item) : list item :=
  Ifndef g :: Define g None "" [] :: body ++ [Endif].

Definition is_header (c : content) : bool :=
  match c with
  | CordicImpl _ _ _ => false
  | _ => true
  end.

Definition guard_of (c : content) : string :=
  match c with
  | ArithHeader nm _ _ _ => guard nm
  | MathHeader m_bits n_bits _ => math_guard m_bits n_bits
  | CordicImpl _ _ _ => ""
  end.

Definition ppbind {A B : Type} (r : ppres A) (k : A -> ppres B) : ppres B :=
  match r with
  | PPok a => k a
  | PPerr e => PPerr e
  end.

(** Whether an item is an [#include] of a file of the world. *)
Definition is_local_include (it : item) : bool :=
  match it with
  | Include false _ => true
  | _ => false
  end.

(** The depth of conditionals after [items], from depth [d]; [None]
    when an [#else] or [#endif] belongs to a conditional opened before
    [items]. *)
Fixpoint cond_depth (d : nat) (items : list item) : option nat :=
  match items with
  | [] => Some d
  | Ifndef _ :: rest | IfdefCpp :: rest => cond_depth (S d) rest
  | Else :: rest =>
      match d with
      | O => None
      | S _ => cond_depth d rest
      end
  | Endif :: rest =>
      match d with
      | O => None
      | S d' => cond_depth d' rest
      end
  | _ :: rest => cond_depth d rest
  end.

(** [k] conditionals opened inside a skipped group. *)
Definition nest (k : nat) (st : pp_state) : pp_state :=
  with_frames (replicate k (Frame false true) ++ frames st) st.

(** * Lemmas *)

(** ** The preprocessor, line by line *)

Section PP.
Variables (fuel : nat) (cpp : bool) (find : string -> option (list item)).

Lemma pp_nil st : pp (S fuel) cpp find [] st = PPok st.
Proof. done. Qed.

Lemma pp_cons it rest st :
  is_local_include it = false ->
  pp (S fuel) cpp find (it :: rest) st
  = ppbind (pp_item cpp it st) (pp (S fuel) cpp find rest).
Proof. intros Hit. by destruct it as [| | | | | [] | | | | | |]. Qed.

Lemma pp_cons_include h rest st its :
  pp_on st = true -> find h = Some its ->
  pp (S fuel) cpp find (Include false h :: rest) st
  = ppbind (pp fuel cpp find its (with_frames [] st))
      (fun st' => match frames st' with
                  | [] => pp (S fuel) cpp find rest (with_frames (frames st) st')
                  | _ => PPerr UnterminatedIf
                  end).
Proof. intros Hon Hf. simpl. rewrite Hon, Hf. by destruct (pp fuel _ _ _ _). Qed.

Lemma pp_cons_skipped h rest st :
  pp_on st = false ->
  pp (S fuel) cpp find (Include false h :: rest) st = pp (S fuel) cpp find rest st.
Proof. intros Hon. simpl. by rewrite Hon. Qed.

Lemma pp_app a b st :
  pp (S fuel) cpp find (a ++ b) st
  = ppbind (pp (S fuel) cpp find a st) (pp (S fuel) cpp find b).
Proof.
  revert st. induction a as [|it a IH]; intros st; [done|].
  destruct (is_local_include it) eqn:Hit.
  - destruct it as [| | | | | [] h | | | | | |]; try done.
    change ((Include false h :: a) ++ b) with (Include false h :: (a ++ b)).
    simpl. destruct (pp_on st); [|apply IH].
    destruct (find h); [|done]. destruct (pp fuel _ _ _ _) as [st'|]; [|done].
    destruct (frames st'); [apply IH|done].
  - change ((it :: a) ++ b) with (it :: (a ++ b)). rewrite !pp_cons by done.
    destruct (pp_item cpp it st); [apply IH|done].
Qed.

End PP.

(** ** Skipped groups *)

Section Skip.
Variables (fuel : nat) (cpp : bool) (find : string -> option (list item)).

Lemma nest_off k st : pp_on st = false -> pp_on (nest k st) = false.
Proof. by destruct k. Qed.

Lemma push_off c k st : pp_on st = false -> push c (nest k st) = nest (S k) st.
Proof. intros Hoff. unfold push. by rewrite (nest_off k st Hoff). Qed.

Lemma nest_else k st : pp_item cpp Else (nest (S k) st) = PPok (nest (S k) st).
Proof. done. Qed.

Lemma nest_endif k st : pp_item cpp Endif (nest (S k) st) = PPok (nest k st).
Proof. done. Qed.

(** Inside a skipped group only the nesting changes. *)
Lemma pp_skip items : forall k k' st,
  pp_on st = false -> cond_depth k items = Some k' ->
  pp (S fuel) cpp find items (nest k st) = PPok (nest k' st).
Proof.
  induction items as [|it items IH]; intros k k' st Hoff Hd.
  { simpl in Hd. by simplify_eq. }
  pose proof (nest_off k st Hoff) as Hk.
  destruct it as [g| | | |g ps b u|[] h| | | | | |];
    try (rewrite pp_cons_skipped by done; by apply IH);
    rewrite pp_cons by done.
  3: destruct k as [|k]; [done|]; rewrite nest_else; by apply (IH (S k)).
  3: destruct k as [|k]; [done|]; rewrite nest_endif; by apply (IH k).
  all: unfold pp_item; rewrite ?Hk, ?push_off by done; cbn [ppbind]; by apply IH.
Qed.

End Skip.

(** ** Macros are never removed *)

Lemma pp_item_mono cpp it st st' :
  pp_item cpp it st = PPok st' -> macros st ⊆ macros st'.
Proof.
  destruct it; simpl; repeat case_match; intros [= <-]; simpl; try done.
  by apply insert_subseteq.
Qed.

Lemma pp_mono cpp find fuel : forall items st st',
  pp fuel cpp find items st = PPok st' -> macros st ⊆ macros st'.
Proof.
  induction fuel as [|fuel IHf]; [done|].
  induction items as [|it items IH]; intros st st'.
  { by intros [= <-]. }
  destruct (is_local_include it) eqn:Hit.
  - destruct it as [| | | | | [] h | | | | | |]; try done. simpl.
    destruct (pp_on st); [|apply IH]. destruct (find h) as [its|]; [|done].
    destruct (pp fuel _ _ _ _) as [st1|] eqn:E1; [|done].
    apply IHf in E1. destruct (frames st1); [|done].
    intros E2%IH. by etrans.
  - rewrite pp_cons by done.
    destruct (pp_item cpp it st) as [st1|] eqn:E1; [|done].
    apply pp_item_mono in E1. intros E2%IH. by etrans.
Qed.

(** ** Include guards *)

Section Guard.
Variables (fuel : nat) (cpp : bool) (find : string -> option (list item)).
Variables (g : string) (body : list item).
Hypothesis Hbody : cond_depth 0 body = Some 0%nat.

Lemma with_frames_id st : with_frames (frames st) st = st.
Proof. by destruct st. Qed.

(** A guarded file whose guard is defined, or that is read inside a
    skipped group, changes nothing. *)
Lemma pp_guarded st :
  pp_on st = false \/ is_Some (macros st !! g) ->
  pp (S fuel) cpp find (guarded g body) st = PPok st.
Proof.
  intros Hst. unfold guarded. rewrite pp_cons by done. cbn [pp_item ppbind].
  set (st1 := push _ st).
  assert (Hoff : pp_on st1 = false).
  { unfold st1, push, pp_on at 1. simpl. destruct Hst as [->|[d Hd]]; [done|].
    rewrite bool_decide_false by congruence. apply andb_false_r. }
  rewrite pp_cons by done. unfold pp_item at 1. rewrite Hoff. cbn [ppbind].
  rewrite pp_app, (pp_skip _ _ _ body 0 0 st1 Hoff Hbody). cbn [ppbind].
  rewrite pp_cons by done. change (nest 0 st1) with (with_frames (frames st1) st1).
  rewrite with_frames_id. by destruct st.
Qed.

(** After a guarded file was read its guard is defined, unless the
    file was skipped. *)
Lemma pp_guarded_defines st st' :
  pp (S fuel) cpp find (guarded g body) st = PPok st' ->
  pp_on st' = false \/ is_Some (macros st' !! g).
Proof.
  destruct (pp_on st) eqn:Hon; [|by rewrite pp_guarded; [intros [= <-]|]; auto].
  destruct (macros st !! g) as [d|] eqn:Hg.
  { rewrite pp_guarded by eauto. intros [= <-]. eauto. }
  unfold guarded. rewrite pp_cons by done. cbn [pp_item ppbind].
  rewrite pp_cons by done. unfold pp_item at 1.
  replace (pp_on (push _ st)) with true
    by (unfold push, pp_on at 1; simpl; by rewrite Hon, bool_decide_true).
  simpl macros. rewrite Hg. cbn [ppbind]. intros Hm%pp_mono. right.
  eapply lookup_weaken_is_Some; [|done]. simpl. by rewrite lookup_insert_eq.
Qed.

End Guard.

(** Both headers are guarded files. *)
Lemma header_guarded c :
  is_header c = true ->
  exists body, cond_depth 0 body = Some 0%nat /\ items_of c = guarded (guard_of c) body.
Proof.
  intros Hc. exists (removelast (tail (tail (items_of c)))).
  by destruct c.
Qed.

(** ** A guarded file included twice *)

Section Twice.
Variables (fuel : nat) (cpp : bool) (find : string -> option (list item)).

Lemma with_frames_with fs fs' st : with_frames fs (with_frames fs' st) = with_frames fs st.
Proof. done. Qed.

Lemma include_twice g body h rest st :
  cond_depth 0 body = Some 0%nat -> find h = Some (guarded g body) ->
  pp (S (S fuel)) cpp find (Include false h :: Include false h :: rest) st
  = pp (S (S fuel)) cpp find (Include false h :: rest) st.
Proof.
  intros Hb Hf. destruct (pp_on st) eqn:Hon; [|by rewrite !pp_cons_skipped].
  rewrite (pp_cons_include _ _ _ h (_ :: rest) st _ Hon Hf).
  rewrite (pp_cons_include _ _ _ h rest st _ Hon Hf).
  destruct (pp (S fuel) cpp find (guarded g body) (with_frames [] st)) as [st'|] eqn:E;
    [|done].
  cbn [ppbind]. destruct (frames st') as [|fr fs] eqn:Hfr; [|done].
  assert (Hon' : pp_on (with_frames (frames st) st') = true) by done.
  rewrite (pp_cons_include _ _ _ h rest _ _ Hon' Hf), with_frames_with.
  replace (with_frames [] st') with st' by (destruct st'; simpl in *; by subst).
  rewrite (pp_guarded _ _ _ g body Hb st'); [cbn [ppbind]; by rewrite Hfr|].
  apply (pp_guarded_defines _ _ _ g body Hb (with_frames [] st)) in E
    as [Hoff|Hg]; [|by right].
  unfold pp_on in Hoff. by rewrite Hfr in Hoff.
Qed.

End Twice.

(** * Theorems *)

(** C24. A generated header included twice is included once: the second
    reading finds the guard defined and adds nothing, whatever follows
    and in whatever state the first reading starts. *)
Theorem include_guard fuel cpp find h c rest st :
  is_header c = true -> find h = Some (items_of c) ->
  pp (S (S fuel)) cpp find (Include false h :: Include false h :: rest) st
  = pp (S (S fuel)) cpp find (Include false h :: rest) st.
Proof.
  intros (body & Hb & ->)%header_guarded Hf. by eapply include_twice.
Qed.

(** The two templates of generate_math_headers.py agree: the functions
    the header declares by a prototype are the functions with external
    linkage the implementation file defines, with the same number of
    parameters. *)
Theorem prototypes_exported m_bits n_bits base_type cf p :
  p ∈ prototypes (math_header_items m_bits n_bits base_type)
  <-> p ∈ exported (cordic_impl_items m_bits n_bits cf).
Proof. cbn. set_solver. Qed.

(** * Witnesses *)

Lemma include_guard_witness :
  let c := ArithHeader (header_names 7 8 None) 7 8 Q7_8 in
  let find h := if String.eqb h "q7_8.h" then Some (items_of c) else None in
  pp 2 false find [Include false "q7_8.h"; Include false "q7_8.h"] pp_init
  = pp 2 false find [Include false "q7_8.h"] pp_init.
Proof.
  intros c find. apply (include_guard 0 false find "q7_8.h" c [] pp_init); reflexivity.
Defined.
