(* ===== verification/Link.v ===== *)
(** * Link: the generated files as translation units

    What a C or C++ compiler is given by the files the two [main]
    functions leave in the world: each implementation file of
    generate_math_headers.py with the header it includes, each header
    of generate_headers.py, and the two headers of one format
    together. *)

From stdpp Require Import gmap strings pretty list.
From S2P Require Import Prelude CInt Format Consts Names Emit Loop Main Units.
#[local] Open Scope Z_scope.
#[local] Set Warnings "-clear-no-such-hyp".

(** * Definitions *)

(** The formats that need the 128-bit type of GCC and Clang: those of
    more than 32 bits, whose [wide_type] is [__int128_t]. *)
Definition needs_int128 (f : Z * Z) : bool := 32 <? total_bits f.1 f.2.

(** A unit that includes the two headers of a format, in this order or
    in the other. *)
Definition both_headers (m n : Z) (math_first : bool) : list item :=
  let a := Include false (filename (header_names m n None)) in
  let b := Include false (math_header_name m n) in
  if math_first then [b; a] else [a; b].

(** * Lemmas *)

Lemma find_in_file w dir h c :
  files w !! (dir ++ [h]) = Some c -> find_in w dir h = Some (items_of c).
Proof. unfold find_in. by intros ->. Qed.

(** A unit that starts with an [#include] of a file that is found. *)
Lemma pp_unit_include fuel cpp find h its rest :
  find h = Some its ->
  pp_unit (S fuel) cpp find (Include false h :: rest)
  = ppbind (ppbind (pp fuel cpp find its pp_init)
              (fun st' => match frames st' with
                          | [] => pp (S fuel) cpp find rest st'
                          | _ => PPerr UnterminatedIf
                          end))
      (fun st => match frames st with
                 | [] => PPok st
                 | _ => PPerr UnterminatedIf
                 end).
Proof.
  intros Hf. unfold pp_unit. rewrite (pp_cons_include _ _ _ h rest pp_init its) by done.
  change (with_frames [] pp_init) with pp_init.
  destruct (pp fuel cpp find its pp_init) as [[ms [|fr fs] sy ou]|]; [|done..].
  cbn [ppbind frames with_frames]. by destruct (pp (S fuel) cpp find rest _).
Qed.

(** A unit of two [#include] lines of files that are found. *)
Lemma pp_unit_include2 fuel cpp find h1 h2 its1 its2 :
  find h1 = Some its1 -> find h2 = Some its2 ->
  pp_unit (S fuel) cpp find [Include false h1; Include false h2]
  = ppbind (pp fuel cpp find its1 pp_init)
      (fun st1 => match frames st1 with
                  | [] => ppbind (pp fuel cpp find its2 st1)
                            (fun st2 => match frames st2 with
                                        | [] => PPok st2
                                        | _ => PPerr UnterminatedIf
                                        end)
                  | _ => PPerr UnterminatedIf
                  end).
Proof.
  intros H1 H2. rewrite (pp_unit_include _ _ _ _ _ _ H1).
  destruct (pp fuel cpp find its1 pp_init) as [[ms [|fr fs] sy ou]|]; [|done..].
  cbn [ppbind frames]. rewrite (pp_cons_include fuel cpp find h2 [] (PP ms [] sy ou) its2 eq_refl H2).
  change (with_frames [] (PP ms [] sy ou)) with (PP ms [] sy ou).
  destruct (pp fuel cpp find its2 _) as [[ms2 [|fr fs] sy2 ou2]|]; done.
Qed.

(** * Theorems *)

(** C23. In the world [main] of generate_math_headers.py leaves when
    nothing is in the way of its output directory, the implementation
    file of every format of the list is a translation unit that
    compiles next to the header written with it, as C and as C++: the
    header is found, the conditionals are closed, no macro is
    redefined, every name is declared before it is mentioned with no
    more than [<stdint.h>] and [<stdbool.h>], and every prototype has
    its definition. *)
Theorem math_units_compile file__ w f cpp :
  math_pre file__ w -> f ∈ math_main_formats ->
  let w' := (math_main file__ w).2 in
  let out := pp_resolve (cwd w) (math_output_dir file__) in
  exists c, files w' !! (out ++ [math_impl_name f.1 f.2]) = Some c /\
    compiles [] 2 cpp (find_in w' out) (items_of c) = true.
Proof.
  intros Hpre Hf w' out. subst w'. rewrite (math_run file__ w Hpre). cbn [snd].
  set (w' := math_world file__ w).
  destruct (math_world_files file__ w f Hf) as (bt & cf & Hbt & Hcf & Hh & Hc).
  exists (CordicImpl f.1 f.2 cf). split; [done|].
  apply find_in_file in Hh. fold w' out in Hh. revert Hh.
  generalize (find_in w' out). intros find Hh.
  unfold compiles, items_of, cordic_impl_items.
  rewrite (pp_unit_include _ _ _ _ _ _ Hh). clear Hh.
  unfold math_main_formats in Hf.
  repeat (apply elem_of_cons in Hf as [->|Hf]); [..|by apply elem_of_nil in Hf];
    vm_compute in Hbt, Hcf; simplify_eq; destruct cpp; by vm_compute.
Qed.

(** In the world [main] of generate_headers.py leaves, the header of
    every format of the list compiles on its own as C and as C++ where
    [__int128_t] exists, and without it exactly when the format has at
    most 32 bits: the header of Q16.16, a format of 33 bits, multiplies
    and divides in [__int128_t], which no header declares. *)
Theorem main_units_compile w f cpp :
  main_pre w -> f ∈ main_formats ->
  let w' := (main w).2 in
  let find := find_in w' (gen_dir (cwd w)) in
  exists c,
    files w' !! (gen_dir (cwd w) ++ [filename (header_names f.1 f.2 None)]) = Some c /\
    compiles gnu_builtins 1 cpp find (items_of c) = true /\
    compiles [] 1 cpp find (items_of c) = negb (needs_int128 f).
Proof.
  intros Hpre Hf w'. subst w'. rewrite (main_run w Hpre). cbn [snd].
  destruct (main_world_files w f Hf) as (h & Hh & Hc).
  generalize (find_in (main_world w) (gen_dir (cwd w))). intros find.
  exists (ArithHeader (header_names f.1 f.2 None) f.1 f.2 h). split; [done|]. clear Hc.
  unfold main_formats in Hf.
  repeat (apply elem_of_cons in Hf as [->|Hf]); [..|by apply elem_of_nil in Hf];
    vm_compute in Hh; simplify_eq; destruct cpp; by vm_compute.
Qed.

(** The two headers of one format cannot be used together.  For each
    format that both scripts generate, a unit that includes the header
    of generate_headers.py and the header of generate_math_headers.py,
    in either order, defines [ONE] twice with different replacement
    lists ([Q_WRAP(2^n)] and [((q_t)(1LL << n))]), which C11 6.10.3
    forbids; [MAX] and [MIN] follow. *)
Theorem headers_conflict w dir f h bt cpp math_first :
  f ∈ main_formats -> f ∈ math_main_formats ->
  generate_header f.1 f.2 = Return (Some h) -> base_type f.1 f.2 = Return bt ->
  files w !! (dir ++ [filename (header_names f.1 f.2 None)])
  = Some (ArithHeader (header_names f.1 f.2 None) f.1 f.2 h) ->
  files w !! (dir ++ [math_header_name f.1 f.2]) = Some (MathHeader f.1 f.2 bt) ->
  pp_unit 2 cpp (find_in w dir) (both_headers f.1 f.2 math_first)
  = PPerr (MacroRedefined (q_macro f.1 f.2 "ONE")).
Proof.
  intros Hf Hg Hh Hbt Ha%find_in_file Hm%find_in_file. revert Ha Hm.
  generalize (find_in w dir). intros find Ha Hm.
  unfold main_formats in Hf.
  repeat (apply elem_of_cons in Hf as [->|Hf]); [..|by apply elem_of_nil in Hf];
    try (by apply elem_of_list_In in Hg; vm_compute in Hg; intuition congruence);
    clear Hg; vm_compute in Hh, Hbt; simplify_eq;
    (destruct math_first; unfold both_headers;
     [rewrite (pp_unit_include2 _ _ _ _ _ _ _ Hm Ha)
     |rewrite (pp_unit_include2 _ _ _ _ _ _ _ Ha Hm)]);
    clear Ha Hm; destruct cpp; by vm_compute.
Qed.

(** * Witnesses *)

Lemma math_units_compile_witness :
  let w' := (math_main "/repo/scripts/generate_math_headers.py" (fresh_world ["repo"])).2 in
  let out := ["repo"; "include"; "fixp"; "gen"] in
  exists c, files w' !! (out ++ [math_impl_name 7 8]) = Some c /\
    compiles [] 2 false (find_in w' out) (items_of c) = true.
Proof.
  apply (math_units_compile "/repo/scripts/generate_math_headers.py"
           (fresh_world ["repo"]) (7, 8) false); [emit_wit|].
  do 2 right. left.
Defined.

Lemma main_units_compile_witness :
  let w' := (main (fresh_world ["repo"])).2 in
  let find := find_in w' (gen_dir ["repo"]) in
  exists c,
    files w' !! (gen_dir ["repo"] ++ [filename (header_names 16 16 None)]) = Some c /\
    compiles gnu_builtins 1 true find (items_of c) = true /\
    compiles [] 1 true find (items_of c) = negb (needs_int128 (16, 16)).
Proof.
  apply (main_units_compile (fresh_world ["repo"]) (16, 16) true); [emit_wit|].
  right. left.
Defined.

Lemma headers_conflict_witness :
  let w := math_world "/repo/scripts/generate_math_headers.py"
             (main_world (fresh_world ["repo"])) in
  pp_unit 2 false (find_in w ["repo"; "include"; "fixp"; "gen"]) (both_headers 7 8 false)
  = PPerr (MacroRedefined (q_macro 7 8 "ONE")).
Proof.
  intros w.
  apply (headers_conflict w ["repo"; "include"; "fixp"; "gen"] (7, 8) Q7_8 int16_t
           false false);
    [do 3 right; left|do 2 right; left|by vm_compute..].
Defined.
